(** * dead-code-finder: a shallow embedding of the analysis core

    The development follows the TypeScript sources:
    - [JS]      the string primitives of the JavaScript runtime the code calls;
    - [Path]    POSIX [path.basename], [dirname], [extname], [relative];
    - [RegExp]  a backtracking matcher for the regular-expression literals;
    - [Config]  config.ts: [PATTERNS], [REACT_HOOKS_REGEX], [BUILT_INS];
    - [Utils]   utils.ts: [isCommonPattern], [isLikelyComponent],
                [isNextJsEntryPoint];
    - [Ast]     ast-analyzer.ts: the trees and the reflective walk;
    - [Runtime] what a run takes from outside, and its effects;
    - [ASTAnalyzer] ast-analyzer.ts: the analysis of a file and of a file set;
    - [DeadCodeAnalyzer] analyzer.ts: both strategies, the cross-reference
                decision, the unused-file detector and the report totals;
    - [Scenarios] small projects to run the analyzers on;
    - [ASTUsageMap] ast-analyzer.ts: [buildUsageMap];
    - [ConfigLoader] config-loader.ts, and the constructor of
                [DeadCodeAnalyzer] that calls it.

    A string of the model is a JavaScript string whose UTF-16 code units are
    all below 256, and an [ascii] is one such code unit: the ASCII
    characters and those of the Latin-1 supplement. The character classes
    and the case mapping below are those of ECMAScript on these code units.
    A text that holds a code unit from 256 on, such as the separators U+2028
    and U+2029 or the mark U+FEFF, is no string of the model: every
    statement below is about the texts whose code units are below 256. *)

From Stdlib Require Import List String Ascii Bool Arith Lia PeanoNat.
From Stdlib Require Import Sorted Permutation DecimalString.
Import ListNotations.

Set Warnings "-register-all".

Local Open Scope list_scope.
Local Open Scope string_scope.

(* ================================================================== *)
(** ** JavaScript string primitives *)
(* ================================================================== *)

Module JS.

(** [s.startsWith(p)] *)
Fixpoint startsWith (s p : string) : bool :=
  match p with
  | EmptyString => true
  | String c p' =>
      match s with
      | EmptyString => false
      | String d s' => Ascii.eqb c d && startsWith s' p'
      end
  end.

(** [s.includes(p)] *)
Fixpoint includes (s p : string) : bool :=
  startsWith s p ||
  match s with
  | EmptyString => false
  | String _ s' => includes s' p
  end.

(** string reversal, used for the suffix tests *)
Fixpoint rev_append (s acc : string) : string :=
  match s with
  | EmptyString => acc
  | String c s' => rev_append s' (String c acc)
  end.

Definition rev (s : string) : string := rev_append s EmptyString.

(** [s.endsWith(p)] *)
Definition endsWith (s p : string) : bool := startsWith (rev s) (rev p).

(** [s.substring(0, n)] *)
Definition substring0 (s : string) (n : nat) : string := String.substring 0 n s.

(** drop the first [n] characters: [s.substring(n)] *)
Fixpoint drop (n : nat) (s : string) : string :=
  match n, s with
  | O, _ => s
  | S n', EmptyString => EmptyString
  | S n', String _ s' => drop n' s'
  end.

(** [s.split(sep)] for a non-empty separator [sep]; [cur] holds the
    characters of the current piece in reverse, [fuel] is the length of the
    text still to scan. *)
Fixpoint split_go (fuel : nat) (sep s cur : string) : list string :=
  match fuel with
  | O => [rev cur]
  | S fuel' =>
      match s with
      | EmptyString => [rev cur]
      | String c s' =>
          if startsWith s sep
          then rev cur :: split_go fuel' sep (drop (String.length sep) s) EmptyString
          else split_go fuel' sep s' (String c cur)
      end
  end.

Definition split (s sep : string) : list string :=
  split_go (S (String.length s)) sep s EmptyString.

(** White space of [String.prototype.trim] and of the [\s] class: tab, line
    feed, vertical tab, form feed, carriage return, space and the no-break
    space U+00A0. The other white space of ECMAScript (U+1680, U+2000 to
    U+200A, U+2028, U+2029, U+202F, U+205F, U+3000, U+FEFF) lies from 256
    on. *)
Definition isSpace (c : ascii) : bool :=
  let n := nat_of_ascii c in
  ((n =? 9) || (n =? 10) || (n =? 11) || (n =? 12) || (n =? 13) || (n =? 32)
   || (n =? 160))%nat.

Fixpoint trimStart (s : string) : string :=
  match s with
  | EmptyString => EmptyString
  | String c s' => if isSpace c then trimStart s' else s
  end.

(** [s.trim()] *)
Definition trim (s : string) : string := rev (trimStart (rev (trimStart s))).

(** [xs.join(sep)] *)
Fixpoint join (sep : string) (xs : list string) : string :=
  match xs with
  | [] => EmptyString
  | [x] => x
  | x :: rest => x ++ sep ++ join sep rest
  end.

(** [xs.includes(x)] on an array of strings *)
Definition arrayIncludes (xs : list string) (x : string) : bool :=
  existsb (String.eqb x) xs.

Definition isUpper (c : ascii) : bool :=
  let n := nat_of_ascii c in ((65 <=? n) && (n <=? 90))%nat.
Definition isLower (c : ascii) : bool :=
  let n := nat_of_ascii c in ((97 <=? n) && (n <=? 122))%nat.
Definition isDigit (c : ascii) : bool :=
  let n := nat_of_ascii c in ((48 <=? n) && (n <=? 57))%nat.
(** the upper-case letters of the Latin-1 supplement, U+00C0 to U+00DE
    without the multiplication sign U+00D7 *)
Definition isUpperLatin1 (c : ascii) : bool :=
  let n := nat_of_ascii c in
  ((192 <=? n) && (n <=? 222) && negb (n =? 215))%nat.
(** [s.toLowerCase()]: below 256 the upper-case letters are the ASCII ones
    and those of the Latin-1 supplement, and each has its lower-case letter
    32 places on *)
Definition lowerChar (c : ascii) : ascii :=
  if isUpper c || isUpperLatin1 c then ascii_of_nat (nat_of_ascii c + 32)
  else c.
Fixpoint toLowerCase (s : string) : string :=
  match s with
  | EmptyString => EmptyString
  | String c s' => String (lowerChar c) (toLowerCase s')
  end.

(** the class [\w] *)
Definition isWord (c : ascii) : bool :=
  isUpper c || isLower c || isDigit c || Ascii.eqb c "_"%char.

End JS.

(* ================================================================== *)
(** ** Node's [path] module, POSIX flavour ([path.sep] is "/") *)
(* ================================================================== *)

Module Path.

Definition sep : string := "/".

(** the "/"-separated pieces of a path *)
Definition segments (p : string) : list string := JS.split p sep.

Fixpoint dropTrailingSlashes_rev (r : string) : string :=
  match r with
  | String "/"%char r' => dropTrailingSlashes_rev r'
  | _ => r
  end.

(** the characters of [r] up to the first "/" (on the reversed path: the
    last segment, reversed) and what follows the separator *)
Fixpoint untilSlash (r : string) : string * option string :=
  match r with
  | EmptyString => (EmptyString, None)
  | String c r' =>
      if Ascii.eqb c "/"%char then (EmptyString, Some r')
      else let '(a, b) := untilSlash r' in (String c a, b)
  end.

(** [path.basename(p)] *)
Definition basename (p : string) : string :=
  JS.rev (fst (untilSlash (dropTrailingSlashes_rev (JS.rev p)))).

(** [path.dirname(p)] *)
Definition dirname (p : string) : string :=
  match untilSlash (dropTrailingSlashes_rev (JS.rev p)) with
  | (_, None) => if JS.startsWith p "/" then "/" else "."
  | (_, Some r) =>
      match dropTrailingSlashes_rev r with
      | EmptyString => "/"
      | d => JS.rev d
      end
  end.

(** the reversed extension of a reversed base name: the characters up to
    and including the last "." of the name *)
Fixpoint extRev (r : string) : option string :=
  match r with
  | EmptyString => None
  | String c r' =>
      if Ascii.eqb c "."%char then Some (String c EmptyString)
      else match extRev r' with
           | Some e => Some (String c e)
           | None => None
           end
  end.

(** [path.extname(p)]: from the last "." of the base name to its end; empty
    when there is none, when the name starts with its only "." or is ".." *)
Definition extname (p : string) : string :=
  let b := basename p in
  if String.eqb b ".." then EmptyString
  else match extRev (JS.rev b) with
       | None => EmptyString
       | Some e =>
           if (String.length e =? String.length b)%nat then EmptyString
           else JS.rev e
       end.

(** [path.basename(p, ext)] *)
Definition basenameExt (p ext : string) : string :=
  let b := basename p in
  if JS.endsWith b ext && negb (String.eqb b ext)
  then JS.substring0 b (String.length b - String.length ext)
  else b.

(** normalisation of a list of segments of an absolute path: empty and "."
    segments vanish, ".." removes the segment before it *)
Fixpoint normalize (segs acc : list string) : list string :=
  match segs with
  | [] => List.rev acc
  | s :: rest =>
      if String.eqb s EmptyString || String.eqb s "." then normalize rest acc
      else if String.eqb s ".." then normalize rest (List.tl acc)
      else normalize rest (s :: acc)
  end.

(** [path.resolve(p)] as a list of segments below the root, for the
    working directory [cwd] *)
Definition resolve (cwd p : string) : list string :=
  if JS.startsWith p "/" then normalize (segments p) []
  else normalize (segments cwd ++ segments p)%list [].

Fixpoint stripCommon (a b : list string) : list string * list string :=
  match a, b with
  | x :: a', y :: b' => if String.eqb x y then stripCommon a' b' else (a, b)
  | _, _ => (a, b)
  end.

(** [path.relative(from, to)] *)
Definition relative (cwd from to : string) : string :=
  let '(f, t) := stripCommon (resolve cwd from) (resolve cwd to) in
  JS.join sep (List.map (fun _ => "..") f ++ t)%list.

End Path.


(* ================================================================== *)
(** ** Regular expressions: syntax and a backtracking matcher *)
(* ================================================================== *)

Module RegExp.

(** The constructs the regular-expression literals of the sources use.
    [Star true r] is the greedy [r*], [Star false r] the lazy [r*?];
    [Group n r] is the [n]-th capturing group; [Bol m] and [Eol m] are [^]
    and [$], with [m] the multiline flag; [NotAhead r] is [(?!r)]. *)
Inductive regex : Type :=
| Eps
| Chr (p : ascii -> bool)
| Seq (r1 r2 : regex)
| Alt (r1 r2 : regex)
| Star (greedy : bool) (r : regex)
| Group (n : nat) (r : regex)
| Bol (multiline : bool)
| Eol (multiline : bool)
| WordB
| NotAhead (r : regex).

(** *** Character classes *)

(** The line terminators that [^] and [$] under the flag [m] and the dot
    look at: line feed and carriage return. The two others of ECMAScript,
    U+2028 and U+2029, lie from 256 on. *)
Definition isLineTerminator (c : ascii) : bool :=
  let n := nat_of_ascii c in ((n =? 10) || (n =? 13))%nat.

Definition oneOf (set : string) (c : ascii) : bool :=
  existsb (Ascii.eqb c) (list_ascii_of_string set).

(** [c] a literal character *)
Definition chr (c : ascii) : regex := Chr (Ascii.eqb c).
(** [.] *)
Definition dot : regex := Chr (fun c => negb (isLineTerminator c)).
(** [[\s\S]] *)
Definition anyChar : regex := Chr (fun _ => true).
(** [\s], [\w] and [\d] *)
Definition space : regex := Chr JS.isSpace.
Definition word : regex := Chr JS.isWord.
Definition digit : regex := Chr JS.isDigit.
(** [[A-Z]], [[a-z]] *)
Definition upper : regex := Chr JS.isUpper.
Definition lower : regex := Chr JS.isLower.
(** [[a-zA-Z_]] *)
Definition identStart : regex :=
  Chr (fun c => JS.isLower c || JS.isUpper c || Ascii.eqb c "_"%char).
(** [[...]] and [[^...]] over an explicit set of characters *)
Definition inSet (set : string) : regex := Chr (oneOf set).
Definition notInSet (set : string) : regex := Chr (fun c => negb (oneOf set c)).

(** *** Derived forms *)

(** a literal string *)
Fixpoint lit (s : string) : regex :=
  match s with
  | EmptyString => Eps
  | String c EmptyString => chr c
  | String c s' => Seq (chr c) (lit s')
  end.

(** [r+], [r?] and the sequence of a list *)
Definition plus (r : regex) : regex := Seq r (Star true r).
Definition opt (r : regex) : regex := Alt r Eps.
Fixpoint seq (rs : list regex) : regex :=
  match rs with
  | [] => Eps
  | [r] => r
  | r :: rs' => Seq r (seq rs')
  end.
Fixpoint alt (rs : list regex) : regex :=
  match rs with
  | [] => NotAhead Eps
  | [r] => r
  | r :: rs' => Alt r (alt rs')
  end.

(** *** Matching *)

(** A position in the subject: its index, the character before it, the
    characters from it on, and the captures made so far (latest first). *)
Record mstate : Type := mkState {
  pos : nat;
  prev : option ascii;
  rest : list ascii;
  caps : list (nat * string)
}.

Definition isWordOpt (c : option ascii) : bool :=
  match c with Some c => JS.isWord c | None => false end.

Definition capture (n : nat) (s0 s1 : mstate) : mstate :=
  mkState (pos s1) (prev s1) (rest s1)
          ((n, string_of_list_ascii (firstn (pos s1 - pos s0) (rest s0))) :: caps s1).

(** [rmatch r k s]: match [r] at [s] and continue with [k]; alternatives are
    tried in the order of the backtracking semantics, the first success
    wins. An iteration of [Star] that consumes nothing is rejected, so the
    iterations are at most as many as the characters left: that number
    bounds the loop. *)
Fixpoint rmatch (r : regex) (k : mstate -> option mstate) (s : mstate)
  {struct r} : option mstate :=
  match r with
  | Eps => k s
  | Chr p =>
      match rest s with
      | c :: t => if p c then k (mkState (S (pos s)) (Some c) t (caps s)) else None
      | [] => None
      end
  | Seq r1 r2 => rmatch r1 (rmatch r2 k) s
  | Alt r1 r2 =>
      match rmatch r1 k s with
      | Some s' => Some s'
      | None => rmatch r2 k s
      end
  | Star greedy r1 =>
      (fix loop (fuel : nat) (s : mstate) {struct fuel} : option mstate :=
         match fuel with
         | O => k s
         | S fuel' =>
             let again (_ : unit) :=
               rmatch r1 (fun s' => if (pos s' =? pos s)%nat then None
                                    else loop fuel' s') s in
             if greedy
             then match again tt with
                  | Some s' => Some s'
                  | None => k s
                  end
             else match k s with
                  | Some s' => Some s'
                  | None => again tt
                  end
         end) (List.length (rest s)) s
  | Group n r1 => rmatch r1 (fun s' => k (capture n s s')) s
  | Bol m =>
      match prev s with
      | None => k s
      | Some c => if m && isLineTerminator c then k s else None
      end
  | Eol m =>
      match rest s with
      | [] => k s
      | c :: _ => if m && isLineTerminator c then k s else None
      end
  | WordB =>
      if xorb (isWordOpt (prev s)) (isWordOpt (List.hd_error (rest s)))
      then k s else None
  | NotAhead r1 =>
      match rmatch r1 Some s with
      | Some _ => None
      | None => k s
      end
  end.

(** the result of a successful [exec]: where the match starts and ends and
    its captures *)
Record mresult : Type := mkResult {
  index : nat;
  endIndex : nat;
  captures : list (nat * string)
}.

(** [m[n]] of a match; [None] is [undefined] *)
Fixpoint group (n : nat) (cs : list (nat * string)) : option string :=
  match cs with
  | [] => None
  | (i, v) :: cs' => if (i =? n)%nat then Some v else group n cs'
  end.

(** leftmost match at or after the position [i], scanning [l] *)
Fixpoint search (r : regex) (i : nat) (p : option ascii) (l : list ascii)
  : option mresult :=
  match rmatch r Some (mkState i p l []) with
  | Some s' => Some (mkResult i (pos s') (caps s'))
  | None =>
      match l with
      | [] => None
      | c :: l' => search r (S i) (Some c) l'
      end
  end.

(** the position [i] of the subject [l]: the character before it and the
    characters from it on; [None] when [i] is past the end *)
Fixpoint at_index (i : nat) (p : option ascii) (l : list ascii)
  : option (option ascii * list ascii) :=
  match i, l with
  | O, _ => Some (p, l)
  | S i', [] => None
  | S i', c :: l' => at_index i' (Some c) l'
  end.

(** [r.exec(s)] with [r.lastIndex = lastIndex] *)
Definition exec (r : regex) (s : string) (lastIndex : nat) : option mresult :=
  match at_index lastIndex None (list_ascii_of_string s) with
  | None => None
  | Some (p, l) => search r lastIndex p l
  end.

(** [r.test(s)] for a regular expression whose [lastIndex] is 0 *)
Definition test (r : regex) (s : string) : bool :=
  match exec r s 0 with Some _ => true | None => false end.

(** The loop [while ((m = r.exec(s)) !== null) { ... }] over a global [r]:
    the matches in order. A match moves [lastIndex] to its end, so a
    non-empty match makes progress; an empty match leaves the loop where it
    is for ever, which is [None]. [fuel] bounds the number of matches by
    the length of the subject. *)
Fixpoint execAll_go (fuel : nat) (r : regex) (s : string) (lastIndex : nat)
  : option (list mresult) :=
  match fuel with
  | O => None
  | S fuel' =>
      match exec r s lastIndex with
      | None => Some []
      | Some m =>
          if (endIndex m <=? index m)%nat then None
          else match execAll_go fuel' r s (endIndex m) with
               | Some ms => Some (m :: ms)
               | None => None
               end
      end
  end.

Definition execAll (r : regex) (s : string) : option (list mresult) :=
  execAll_go (S (String.length s)) r s 0.

(** [s.replace(r, "")] for a global [r]: every match is deleted; after an
    empty match the scan moves on by one character. *)
Fixpoint deleteAll_go (fuel : nat) (r : regex) (i : nat) (p : option ascii)
  (l : list ascii) : list ascii :=
  match fuel with
  | O => l
  | S fuel' =>
      match search r i p l with
      | None => l
      | Some m =>
          let kept := firstn (index m - i) l in
          let after := skipn (endIndex m - i) l in
          let p' := match List.rev (firstn (endIndex m - i) l) with
                    | c :: _ => Some c
                    | [] => p
                    end in
          if (endIndex m <=? index m)%nat
          then match after with
               | [] => kept
               | c :: after' =>
                   (kept ++ c :: deleteAll_go fuel' r (S (endIndex m)) (Some c) after')%list
               end
          else (kept ++ deleteAll_go fuel' r (endIndex m) p' after)%list
      end
  end.

Definition deleteAll (r : regex) (s : string) : string :=
  let l := list_ascii_of_string s in
  string_of_list_ascii (deleteAll_go (S (List.length l)) r 0 None l).

(** [s.replace(r, "")] for an [r] that is not global: the first match is
    deleted *)
Definition deleteFirst (r : regex) (s : string) : string :=
  match exec r s 0 with
  | None => s
  | Some m =>
      let l := list_ascii_of_string s in
      string_of_list_ascii (firstn (index m) l ++ skipn (endIndex m) l)%list
  end.

(** the number of capturing groups of [r]: [m.length - 1] for a match [m] *)
Fixpoint groupCount (r : regex) : nat :=
  match r with
  | Seq r1 r2 | Alt r1 r2 => Nat.max (groupCount r1) (groupCount r2)
  | Star _ r1 | NotAhead r1 => groupCount r1
  | Group n r1 => Nat.max n (groupCount r1)
  | _ => 0
  end.

End RegExp.


(* ================================================================== *)
(** ** config.ts: patterns and built-in identifiers *)
(* ================================================================== *)

Module Config.
Import RegExp.

(** the double quote, and the class of the three string quotes (single,
    double, backtick), written [[q]] in the comments below *)
Definition dquote : ascii := ascii_of_nat 34.
Definition quote : regex :=
  Chr (fun c => Ascii.eqb c "'"%char || Ascii.eqb c dquote || Ascii.eqb c "`"%char).
Definition notQuote : regex :=
  Chr (fun c => negb (Ascii.eqb c "'"%char || Ascii.eqb c dquote || Ascii.eqb c "`"%char)).

(** [\s+] and [\s*]; in the comments that quote a literal of the source, a
    blank separates a star from a closing parenthesis after it *)
Definition ws1 : regex := plus space.
Definition ws0 : regex := Star true space.
(** [\w*] *)
Definition words : regex := Star true word.
(** [(?:const|var|let)] *)
Definition constVarLet : regex := alt [lit "const"; lit "var"; lit "let"].
(** the alternative of an arrow-function head, an opening parenthesis, any
    characters but a closing one, the closing one, white space and the
    arrow, or the keyword function *)
Definition arrowOrFunction : regex :=
  Alt (seq [chr "("; Star true (notInSet ")"); chr ")"; ws0; lit "=>"])
      (lit "function").
(** [[A-Z]\w*], [[a-z]\w*], [[a-zA-Z_]\w*] and [[A-Z][a-zA-Z_]*\w*] *)
Definition upperName : regex := Seq upper words.
Definition lowerName : regex := Seq lower words.
Definition ident : regex := Seq identStart words.
Definition typeName : regex := seq [upper; Star true identStart; words].
(** [from\s+[q]([^q]+)[q]] with the module in group [n] *)
Definition fromModule (n : nat) : regex :=
  seq [lit "from"; ws1; quote; Group n (plus notQuote); quote].

(** [PATTERNS.component] *)
Definition PATTERNS_component : list regex :=
  [ (* /export\s+default\s+function\s+([A-Z]\w* )\s*\(/g *)
    seq [lit "export"; ws1; lit "default"; ws1; lit "function"; ws1;
         Group 1 upperName; ws0; chr "("];
    (* /export\s+default\s+(?:const|var|let)\s+([A-Z]\w* )\s*=\s*(?:\([^)]*\)\s*=>|function)/g *)
    seq [lit "export"; ws1; lit "default"; ws1; constVarLet; ws1;
         Group 1 upperName; ws0; chr "="; ws0; arrowOrFunction];
    (* /export\s+function\s+([A-Z]\w* )\s*\(/g *)
    seq [lit "export"; ws1; lit "function"; ws1; Group 1 upperName; ws0; chr "("];
    (* /export\s+(?:const|var|let)\s+([A-Z]\w* )\s*=\s*(?:\([^)]*\)\s*=>|function)/g *)
    seq [lit "export"; ws1; constVarLet; ws1; Group 1 upperName; ws0; chr "=";
         ws0; arrowOrFunction];
    (* /(?:const|var|let)\s+([A-Z]\w* )\s*=\s*(?:\([^)]*\)\s*=>|function)/g *)
    seq [constVarLet; ws1; Group 1 upperName; ws0; chr "="; ws0; arrowOrFunction];
    (* /function\s+([A-Z]\w* )\s*\(/g *)
    seq [lit "function"; ws1; Group 1 upperName; ws0; chr "("] ].

(** [PATTERNS.function] *)
Definition PATTERNS_function : list regex :=
  [ (* /function\s+([a-z]\w* )\s*\(/g *)
    seq [lit "function"; ws1; Group 1 lowerName; ws0; chr "("];
    (* /(?:const|var|let)\s+([a-z]\w* )\s*=\s*(?:\([^)]*\)\s*=>|function)/g *)
    seq [constVarLet; ws1; Group 1 lowerName; ws0; chr "="; ws0; arrowOrFunction];
    (* /export\s+function\s+([a-z]\w* )\s*\(/g *)
    seq [lit "export"; ws1; lit "function"; ws1; Group 1 lowerName; ws0; chr "("];
    (* /export\s+(?:const|var|let)\s+([a-z]\w* )\s*=\s*(?:\([^)]*\)\s*=>|function)/g *)
    seq [lit "export"; ws1; constVarLet; ws1; Group 1 lowerName; ws0; chr "=";
         ws0; arrowOrFunction] ].

(** [PATTERNS.variable] *)
Definition PATTERNS_variable : list regex :=
  [ (* /export\s+(?:const|var|let)\s+([a-zA-Z_]\w* )\s*=/g *)
    seq [lit "export"; ws1; constVarLet; ws1; Group 1 ident; ws0; chr "="];
    (* /^(?:\s* )(?:const|var|let)\s+([a-zA-Z_]\w* )\s*=/gm *)
    seq [Bol true; ws0; constVarLet; ws1; Group 1 ident; ws0; chr "="] ].

(** [PATTERNS.import] *)
Definition PATTERNS_import : list regex :=
  [ (* /import\s*{\s*([^}]+)\s*}\s+from\s+[q]([^q]+)[q]/g *)
    seq [lit "import"; ws0; chr "{"; ws0; Group 1 (plus (notInSet "}")); ws0;
         chr "}"; ws1; fromModule 2];
    (* /import\s+([a-zA-Z_]\w* )\s+from\s+[q]([^q]+)[q]/g *)
    seq [lit "import"; ws1; Group 1 ident; ws1; fromModule 2];
    (* /import\s+\*\s+as\s+([a-zA-Z_]\w* )\s+from\s+[q]([^q]+)[q]/g *)
    seq [lit "import"; ws1; chr "*"; ws1; lit "as"; ws1; Group 1 ident; ws1;
         fromModule 2] ].

(** [PATTERNS.usage] *)
Definition PATTERNS_usage : list regex :=
  [ (* /<([A-Z]\w*|[^/][a-z]\w* )(?:\s+[^>]* )?\/?>(?![\s\S]*<\/[A-Z]\w*>)/g *)
    seq [chr "<";
         Group 1 (Alt upperName (seq [notInSet "/"; lower; words]));
         opt (Seq ws1 (Star true (notInSet ">")));
         opt (chr "/"); chr ">";
         NotAhead (seq [Star true anyChar; lit "</"; upperName; chr ">"])];
    (* /\b([a-zA-Z_]\w* )\s*(?:\(|\.)/g *)
    seq [WordB; Group 1 ident; ws0; Alt (chr "(") (chr ".")];
    (* /\b([a-zA-Z_]\w* )\b/g *)
    seq [WordB; Group 1 ident; WordB];
    (* /\b([a-zA-Z_]\w* )\s*\(/g *)
    seq [WordB; Group 1 ident; ws0; chr "("];
    (* /\b([a-zA-Z_]\w* )\s*:\s*([a-zA-Z_]\w* )\b/g *)
    seq [WordB; Group 1 ident; ws0; chr ":"; ws0; Group 2 ident; WordB];
    (* /{\s*([a-zA-Z_]\w* )\s*}/g *)
    seq [chr "{"; ws0; Group 1 ident; ws0; chr "}"];
    (* /\(([^)]*\b([a-zA-Z_]\w* )\b[^)]* )\)/g *)
    seq [chr "(";
         Group 1 (seq [Star true (notInSet ")"); WordB; Group 2 ident; WordB;
                       Star true (notInSet ")")]);
         chr ")"];
    (* /[\s\(\[]([a-zA-Z_]\w* )\s*=\s*{([a-zA-Z_]\w* )}/g *)
    seq [Chr (fun c => JS.isSpace c || oneOf "([" c); Group 1 ident; ws0;
         chr "="; ws0; chr "{"; Group 2 ident; chr "}"];
    (* /export\s*{[^}]*\b([a-zA-Z_]\w* )\s+as\s+([a-zA-Z_]\w* )\b[^}]*}/g *)
    seq [lit "export"; ws0; chr "{"; Star true (notInSet "}"); WordB;
         Group 1 ident; ws1; lit "as"; ws1; Group 2 ident; WordB;
         Star true (notInSet "}"); chr "}"];
    (* /export\s+default\s+([a-zA-Z_]\w* )/g *)
    seq [lit "export"; ws1; lit "default"; ws1; Group 1 ident];
    (* /with[A-Z]\w*\(([a-zA-Z_]\w* )\)/g *)
    seq [lit "with"; upperName; chr "("; Group 1 ident; chr ")"];
    (* /\.\.\.([a-zA-Z_]\w* )/g *)
    seq [lit "..."; Group 1 ident];
    (* /:\s*([A-Z][a-zA-Z_]*\w* )\b/g *)
    seq [chr ":"; ws0; Group 1 typeName; WordB];
    (* /<\s*([A-Z][a-zA-Z_]*\w* )\s*>/g *)
    seq [chr "<"; ws0; Group 1 typeName; ws0; chr ">"];
    (* /(?:interface|type)\s+\w+\s+extends\s+([A-Z][a-zA-Z_]*\w* )/g *)
    seq [Alt (lit "interface") (lit "type"); ws1; plus word; ws1;
         lit "extends"; ws1; Group 1 typeName];
    (* /import\s+type\s*{[^}]*\b([A-Z][a-zA-Z_]*\w* )\b[^}]*}/g *)
    seq [lit "import"; ws1; lit "type"; ws0; chr "{"; Star true (notInSet "}");
         WordB; Group 1 typeName; WordB; Star true (notInSet "}"); chr "}"] ].

(** [REACT_HOOKS_REGEX = /^use[A-Z]\w*$/] *)
Definition REACT_HOOKS_REGEX : regex :=
  seq [Bol false; lit "use"; upper; words; Eol false].

(** the members of [BUILT_INS] *)
Definition BUILT_INS : list string :=
  [ (* React core *)
    "React"; "useState"; "useEffect"; "useContext"; "useReducer"; "useCallback"; "useMemo";
    "useRef"; "useImperativeHandle"; "useLayoutEffect"; "useDebugValue"; "useDeferredValue";
    "useTransition"; "useId"; "useSyncExternalStore"; "useInsertionEffect"; "Fragment";
    "Suspense"; "ErrorBoundary"; "StrictMode"; "Profiler"; "memo"; "forwardRef"; "lazy";
    "createElement"; "cloneElement"; "createContext"; "Children"; "isValidElement"; "createRef";
    (* Next.js specific *)
    "NextPage"; "GetServerSideProps"; "GetStaticProps"; "GetStaticPaths"; "InferGetServerSidePropsType";
    "InferGetStaticPropsType"; "NextApiRequest"; "NextApiResponse"; "NextPageContext"; "AppProps";
    "AppContext"; "Head"; "Html"; "Main"; "NextScript"; "Document"; "App"; "Router"; "Image"; "Link";
    "useRouter"; "usePathname"; "useSearchParams"; "useSelectedLayoutSegment"; "useSelectedLayoutSegments";
    "useServerInsertedHTML"; "redirect"; "notFound";
    (* Common HTML/SVG tags *)
    "div"; "span"; "p"; "h1"; "h2"; "h3"; "h4"; "h5"; "h6"; "a"; "img"; "button"; "input"; "form";
    "ul"; "li"; "ol"; "table"; "tr"; "td"; "th"; "thead"; "tbody"; "section"; "article"; "header";
    "footer"; "nav"; "main"; "aside"; "figure"; "figcaption"; "blockquote"; "code"; "pre";
    "strong"; "em"; "b"; "i"; "u"; "mark"; "small"; "sub"; "sup"; "br"; "hr"; "iframe"; "canvas";
    "svg"; "path"; "circle"; "rect"; "g"; "line"; "polyline"; "polygon"; "text"; "ellipse";
    (* Common JavaScript globals/keywords *)
    "console"; "window"; "document"; "localStorage"; "sessionStorage"; "setTimeout"; "setInterval";
    "clearTimeout"; "clearInterval"; "fetch"; "Promise"; "async"; "await"; "try"; "catch"; "finally";
    "if"; "else"; "for"; "while"; "do"; "switch"; "case"; "default"; "break"; "continue"; "return";
    "throw"; "new"; "typeof"; "instanceof"; "delete"; "void"; "null"; "undefined"; "true"; "false";
    "this"; "Array"; "Object"; "String"; "Number"; "Boolean"; "Map"; "Set"; "Date"; "Math"; "JSON";
    "RegExp"; "Error"; "Function"; "Symbol"; "Proxy"; "Reflect"; "WeakMap"; "WeakSet"; "Intl";
    "WebAssembly"; "decodeURI"; "encodeURI"; "decodeURIComponent"; "encodeURIComponent"; "isNaN";
    "isFinite"; "parseFloat"; "parseInt"; "eval"; "isPrototypeOf"; "hasOwnProperty"; "valueOf";
    "toString"; "toLocaleString"; "constructor"; "prototype";
    (* TypeScript keywords *)
    "interface"; "type"; "enum"; "namespace"; "declare"; "module"; "export"; "import"; "from"; "as";
    "default"; "extends"; "implements"; "public"; "private"; "protected"; "readonly"; "abstract";
    "static"; "async"; "await"; "function"; "const"; "let"; "var"; "class";
    (* Common libraries *)
    "axios"; "clsx"; "zod"; "reactHookForm"; "useForm"; "useTranslations"; "useLocale"; "useRouter";
    "usePathname"; "useSearchParams"; "cn"; "classNames"; "twMerge"; "z";
    "eventEmitter"; "EVENT_TYPES" ].

(** [BUILT_INS.has(name)] *)
Definition BUILT_INS_has (name : string) : bool :=
  JS.arrayIncludes BUILT_INS name.

End Config.


(* ================================================================== *)
(** ** utils.ts: the classification heuristics *)
(* ================================================================== *)

Module Utils.
Import RegExp Config.

(** [isCommonPattern(name)] *)
Definition isCommonPattern (name : string) : bool :=
  test (seq [Bol false; plus digit; Eol false]) name          (* /^\d+$/ *)
  || test (seq [Bol false; lower; Eol false]) name            (* /^[a-z]$/ *)
  || test (seq [Bol false; upper; Eol false]) name            (* /^[A-Z]$/ *)
  || test (seq [Bol false; Chr (fun c => negb (JS.isLower c || JS.isUpper c
                                               || Ascii.eqb c "_"%char))])
          name.                                               (* /^[^a-zA-Z_]/ *)

(** The guard every recording site of both strategies applies to a name,
    [BUILT_INS.has(name) || isCommonPattern(name)]. *)
Definition isBuiltinOrCommon (name : string) : bool :=
  BUILT_INS_has name || isCommonPattern name.

Definition appRouterPatterns : list string :=
  [ "page.tsx"; "page.ts"; "page.jsx"; "page.js";
    "layout.tsx"; "layout.ts"; "layout.jsx"; "layout.js";
    "loading.tsx"; "loading.ts"; "loading.jsx"; "loading.js";
    "error.tsx"; "error.ts"; "error.jsx"; "error.js";
    "not-found.tsx"; "not-found.ts"; "not-found.jsx"; "not-found.js";
    "route.ts"; "route.js";
    "middleware.ts"; "middleware.js";
    "template.tsx"; "template.ts"; "template.jsx"; "template.js";
    "global-error.tsx"; "global-error.ts"; "global-error.jsx"; "global-error.js";
    "default.tsx"; "default.ts"; "default.jsx"; "default.js" ].

Definition pageRouterPatterns : list string :=
  [ "_app.tsx"; "_app.ts"; "_app.jsx"; "_app.js";
    "_document.tsx"; "_document.ts"; "_document.jsx"; "_document.js";
    "_error.tsx"; "_error.ts"; "_error.jsx"; "_error.js";
    "index.tsx"; "index.ts"; "index.jsx"; "index.js" ].

Section WithCwd.

(** [process.cwd()] *)
Variable cwd : string.

(** [isNextJsEntryPoint(filePath)] *)
Definition isNextJsEntryPoint (filePath : string) : bool :=
  let fileName := Path.basename filePath in
  let dirName := Path.dirname filePath in
  let relativePath := Path.relative cwd cwd filePath in
  if JS.arrayIncludes appRouterPatterns fileName
     || JS.arrayIncludes pageRouterPatterns fileName
  then true
  else if JS.includes relativePath (Path.sep ++ "app" ++ Path.sep)
          || JS.includes relativePath (Path.sep ++ "pages" ++ Path.sep)
  then
    if JS.startsWith fileName "[" && JS.endsWith fileName "].tsx" then true
    else if JS.startsWith fileName "[" && JS.endsWith fileName "].ts" then true
    else if JS.startsWith fileName "[" && JS.endsWith fileName "].jsx" then true
    else if JS.startsWith fileName "[" && JS.endsWith fileName "].js" then true
    else if JS.includes dirName (Path.sep ++ "api" ++ Path.sep) then true
    else true
  else false.

(** the directive ["use client"], double quotes included *)
Definition useClientDirective : string :=
  String dquote ("use client" ++ String dquote EmptyString).

(** [isLikelyComponent(name, content, filePath)] *)
Definition isLikelyComponent (name content filePath : string) : bool :=
  if negb (test (seq [Bol false; upper]) name)                 (* /^[A-Z]/ *)
  then false
  else
    let hasJSXReturn :=
      (* /return\s*\(?<[\s\S]*?>/ *)
      test (seq [lit "return"; ws0; opt (chr "("); chr "<";
                 Star false anyChar; chr ">"]) content
      (* /return\s*<[\s\S]*?>/ *)
      || test (seq [lit "return"; ws0; chr "<"; Star false anyChar; chr ">"])
              content in
    let hasReactHooks := test REACT_HOOKS_REGEX content in
    (* /className|onClick|onSubmit|onChange|style/ *)
    let usesJSXAttributes :=
      test (alt [lit "className"; lit "onClick"; lit "onSubmit";
                 lit "onChange"; lit "style"]) content in
    (* /<Fragment>|<\w+\s+Fragment>/ *)
    let usesReactFragment :=
      test (Alt (lit "<Fragment>")
                (seq [chr "<"; plus word; ws1; lit "Fragment>"])) content in
    (* /memo\(/ and /forwardRef\(/ *)
    let usesReactMemo := test (lit "memo(") content in
    let usesForwardRef := test (lit "forwardRef(") content in
    let usesUseClientDirective := JS.includes content useClientDirective in
    let relativePath := JS.toLowerCase (Path.relative cwd cwd filePath) in
    let isInComponentDir :=
      JS.includes relativePath "/components/"
      || JS.includes relativePath "/component/"
      || JS.includes relativePath "/ui/" in
    let isNextJsPageOrLayout := isNextJsEntryPoint filePath in
    if usesUseClientDirective then true
    else if isNextJsPageOrLayout then true
    else if hasJSXReturn then true
    else if hasReactHooks || usesJSXAttributes || usesReactFragment
            || usesReactMemo || usesForwardRef then true
    else if isInComponentDir && (hasReactHooks || usesJSXAttributes) then true
    else false.

End WithCwd.

End Utils.


(* ================================================================== *)
(** ** ast-analyzer.ts: the structural analyzer *)
(* ================================================================== *)

Module Ast.
Import Config Utils.

(** The value a parser returns: the tree of objects, arrays and primitive
    values that [traverseAST] walks reflectively. An object is the list of
    its own enumerable properties in insertion order, [type] and [loc]
    among them. [VNull] stands for [null], for [undefined] and for a
    property that is absent. The trees are those of the two parsers: the
    [name] of the [id] of a declaration and of the parts of a specifier is a
    string, the properties the handlers iterate over are arrays, and a
    position object is complete. A tree also holds objects that are no
    nodes of the syntax: the tokens that @typescript-eslint/parser lists
    carry a [type], which may be [Identifier] or [JSXIdentifier], and a
    [value], but no [name]. *)
Inductive value : Type :=
| VNull
| VStr (s : string)
| VNum (n : nat)
| VBool (b : bool)
| VArr (items : list value)
| VObj (fields : list (string * value)).

Fixpoint lookup (k : string) (fs : list (string * value)) : value :=
  match fs with
  | [] => VNull
  | (k', v) :: fs' => if String.eqb k' k then v else lookup k fs'
  end.

(** [v.k], and [v?.k] when [v] may be missing *)
Definition field (k : string) (v : value) : value :=
  match v with
  | VObj fs => lookup k fs
  | _ => VNull
  end.

(** [v.type === t] *)
Definition typeIs (v : value) (t : string) : bool :=
  match field "type" v with
  | VStr s => String.eqb s t
  | _ => false
  end.

(** JavaScript truthiness *)
Definition truthy (v : value) : bool :=
  match v with
  | VNull => false
  | VStr s => negb (String.eqb s EmptyString)
  | VNum n => negb (n =? 0)%nat
  | VBool b => b
  | VArr _ | VObj _ => true
  end.

(** a string that is truthy *)
Definition nameOf (v : value) : option string :=
  match v with
  | VStr s => if String.eqb s EmptyString then None else Some s
  | _ => None
  end.

(** [a || b] on two optional names *)
Definition orElse (a b : option string) : option string :=
  match a with Some _ => a | None => b end.

(** the elements of an array; the empty list for anything else *)
Definition elements (v : value) : list value :=
  match v with
  | VArr items => items
  | _ => []
  end.

(** [node.loc?.start.line || 1] *)
Definition lineOf (node : value) : nat :=
  match field "line" (field "start" (field "loc" node)) with
  | VNum n => if (n =? 0)%nat then 1 else n
  | _ => 1
  end.

Inductive defType : Type :=
| TComponent | TFunction | TVariable | TImport | TExport.

(** [ASTDefinition]; its [node] property is never read and is left out *)
Record ASTDefinition : Type := mkDef {
  def_name : string;
  def_type : defType;
  def_line : nat
}.

(** [ASTUsage]. A handler stores [node.name] as it finds it: the [name] of a
    usage is a string for a node of the syntax and is missing for a token. *)
Record ASTUsage : Type := mkUsage {
  use_name : value;
  use_line : nat;
  use_context : string
}.

(** [ASTAnalysisResult]; the two sets keep their insertion order *)
Record ASTAnalysisResult : Type := mkAst {
  definitions : list ASTDefinition;
  usages : list ASTUsage;
  exports : list string;
  imports : list string
}.

Definition emptyResult : ASTAnalysisResult := mkAst [] [] [] [].

(** [set.add(x)] *)
Definition setAdd (x : string) (s : list string) : list string :=
  if JS.arrayIncludes s x then s else (s ++ [x])%list.

Definition pushDefinition (d : ASTDefinition) (r : ASTAnalysisResult) :=
  mkAst (definitions r ++ [d])%list (usages r) (exports r) (imports r).
Definition pushUsage (u : ASTUsage) (r : ASTAnalysisResult) :=
  mkAst (definitions r) (usages r ++ [u])%list (exports r) (imports r).
Definition addExport (x : string) (r : ASTAnalysisResult) :=
  mkAst (definitions r) (usages r) (setAdd x (exports r)) (imports r).
Definition addImport (x : string) (r : ASTAnalysisResult) :=
  mkAst (definitions r) (usages r) (exports r) (setAdd x (imports r)).

(** [isExported(node)]: some object along the chain of [parent] properties
    is an export declaration *)
Fixpoint isExported (node : value) : bool :=
  match node with
  | VObj fs =>
      (fix parentOf (fs : list (string * value)) : bool :=
         match fs with
         | [] => false
         | (k, v) :: fs' =>
             if String.eqb k "parent"
             then match v with
                  | VObj _ =>
                      typeIs v "ExportNamedDeclaration"
                      || typeIs v "ExportDefaultDeclaration"
                      || isExported v
                  | _ => false
                  end
             else parentOf fs'
         end) fs
  | _ => false
  end.

(** the three branches of [handleImportDeclaration] share their body *)
Definition importName (specifier : value) : option string :=
  if typeIs specifier "ImportSpecifier"
  then orElse (nameOf (field "name" (field "imported" specifier)))
              (nameOf (field "name" (field "local" specifier)))
  else if typeIs specifier "ImportDefaultSpecifier"
  then nameOf (field "name" (field "local" specifier))
  else if typeIs specifier "ImportNamespaceSpecifier"
  then nameOf (field "name" (field "local" specifier))
  else None.

Definition handleImportDeclaration (node : value) (result : ASTAnalysisResult)
  : ASTAnalysisResult :=
  let specifiers := elements (field "specifiers" node) in
  fold_left
    (fun result specifier =>
       match importName specifier with
       | Some name =>
           if negb (BUILT_INS_has name) && negb (isCommonPattern name)
           then pushDefinition (mkDef name TImport (lineOf node))
                               (addImport name result)
           else result
       | None => result
       end)
    specifiers result.

(** the branch of [handleExportNamedDeclaration] for export specifiers *)
Definition handleExportSpecifiers (node : value) (result : ASTAnalysisResult)
  : ASTAnalysisResult :=
  fold_left
    (fun result specifier =>
       match orElse (nameOf (field "name" (field "exported" specifier)))
                    (nameOf (field "name" (field "local" specifier))) with
       | Some name =>
           if negb (BUILT_INS_has name) && negb (isCommonPattern name)
           then addExport name result
           else result
       | None => result
       end)
    (elements (field "specifiers" node)) result.

(** [String(v)], the text a regular expression tests when [test] is given
    [v]: a string is itself, a number its decimal digits, an array the texts
    of its elements joined by commas, with the empty text for an element
    that is [null] or [undefined]. The missing value prints as [undefined]
    (and [null] as [null]: the tests of [isCommonPattern] answer alike on
    both). *)
Fixpoint toString (v : value) : string :=
  match v with
  | VNull => "undefined"
  | VStr s => s
  | VNum n => NilEmpty.string_of_uint (Nat.to_uint n)
  | VBool b => if b then "true" else "false"
  | VArr items =>
      JS.join ","
        ((fix each (l : list value) : list string :=
            match l with
            | [] => []
            | x :: l' =>
                match x with
                | VNull => EmptyString
                | _ => toString x
                end :: each l'
            end) items)
  | VObj _ => "[object Object]"
  end.

(** [BUILT_INS.has(v)]: the table holds strings, and no other value is equal
    to one of them *)
Definition BUILT_INS_hasValue (v : value) : bool :=
  match v with
  | VStr s => BUILT_INS_has s
  | _ => false
  end.

(** A usage-producing handler pushes the name it read, whatever it is, if
    the name passes the two filters. A name that is missing passes both: it
    is no member of the table, and [isCommonPattern] tests the text
    [undefined]. *)
Definition recordUsage (name : value) (line : nat) (context : string)
  (result : ASTAnalysisResult) : ASTAnalysisResult :=
  if negb (BUILT_INS_hasValue name) && negb (isCommonPattern (toString name))
  then pushUsage (mkUsage name line context) result
  else result.

Definition handleCallExpression (node : value) (result : ASTAnalysisResult) :=
  let callee := field "callee" node in
  if typeIs callee "Identifier"
  then recordUsage (field "name" callee) (lineOf node) "call" result
  else result.

Definition handleJSXElement (node : value) (result : ASTAnalysisResult) :=
  let openingElement := field "openingElement" node in
  if typeIs (field "name" openingElement) "JSXIdentifier"
  then recordUsage (field "name" (field "name" openingElement)) (lineOf node)
                   "jsx" result
  else result.

Definition handleJSXIdentifier (node : value) (result : ASTAnalysisResult) :=
  recordUsage (field "name" node) (lineOf node) "jsx" result.

Definition handleIdentifier (node : value) (result : ASTAnalysisResult) :=
  recordUsage (field "name" node) (lineOf node) "reference" result.

Definition handleMemberExpression (node : value) (result : ASTAnalysisResult) :=
  if typeIs (field "object" node) "Identifier"
  then recordUsage (field "name" (field "object" node)) (lineOf node)
                   "property" result
  else result.

Definition handleObjectProperty (node : value) (result : ASTAnalysisResult) :=
  if typeIs (field "value" node) "Identifier"
  then recordUsage (field "name" (field "value" node)) (lineOf node)
                   "property" result
  else result.

Definition handleSpreadElement (node : value) (result : ASTAnalysisResult) :=
  if typeIs (field "argument" node) "Identifier"
  then recordUsage (field "name" (field "argument" node)) (lineOf node)
                   "spread" result
  else result.

Section WithCwd.

Variable cwd : string.

Definition handleVariableDeclaration (node : value) (filePath : string)
  (result : ASTAnalysisResult) : ASTAnalysisResult :=
  let declarations := elements (field "declarations" node) in
  fold_left
    (fun result declaration =>
       match nameOf (field "name" (field "id" declaration)) with
       | None => result
       | Some name =>
           if BUILT_INS_has name || isCommonPattern name then result
           else
             let line := lineOf node in
             let isExported := isExported node in
             let init := field "init" declaration in
             let result :=
               if truthy init then
                 if typeIs init "ArrowFunctionExpression"
                    || typeIs init "FunctionExpression"
                 then
                   if isLikelyComponent cwd name EmptyString filePath
                   then pushDefinition (mkDef name TComponent line) result
                   else pushDefinition (mkDef name TFunction line) result
                 else pushDefinition (mkDef name TVariable line) result
               else pushDefinition (mkDef name TVariable line) result in
             if isExported then addExport name result else result
       end)
    declarations result.

Definition handleFunctionDeclaration (node : value) (filePath : string)
  (result : ASTAnalysisResult) : ASTAnalysisResult :=
  match nameOf (field "name" (field "id" node)) with
  | None => result
  | Some name =>
      if BUILT_INS_has name || isCommonPattern name then result
      else
        let line := lineOf node in
        let isExported := isExported node in
        let result :=
          if isLikelyComponent cwd name EmptyString filePath
          then pushDefinition (mkDef name TComponent line) result
          else pushDefinition (mkDef name TFunction line) result in
        if isExported then addExport name result else result
  end.

(** [traverseAST(node, result, filePath)], by recursion on a bound [fuel] of
    the nesting depth. The handlers of function and arrow-function
    expressions are empty. An array met as a child is walked element by
    element. *)
Fixpoint traverse (fuel : nat) (node : value) (filePath : string)
  (result : ASTAnalysisResult) {struct fuel} : ASTAnalysisResult :=
  match fuel with
  | O => result
  | S fuel' =>
      let each (items : list value) (result : ASTAnalysisResult) :=
        fold_left (fun result child => traverse fuel' child filePath result)
                  items result in
      match node with
      | VObj fs =>
          let handled :=
            if typeIs node "Program" then
              each (elements (field "body" node)) result
            else if typeIs node "ImportDeclaration" then
              handleImportDeclaration node result
            else if typeIs node "ExportNamedDeclaration" then
              if truthy (field "declaration" node)
              then traverse fuel' (field "declaration" node) filePath result
              else if truthy (field "specifiers" node)
              then handleExportSpecifiers node result
              else result
            else if typeIs node "ExportDefaultDeclaration" then
              if truthy (field "declaration" node)
              then traverse fuel' (field "declaration" node) filePath result
              else result
            else if typeIs node "VariableDeclaration" then
              handleVariableDeclaration node filePath result
            else if typeIs node "FunctionDeclaration" then
              handleFunctionDeclaration node filePath result
            else if typeIs node "CallExpression" then
              handleCallExpression node result
            else if typeIs node "JSXElement" then
              handleJSXElement node result
            else if typeIs node "JSXIdentifier" then
              handleJSXIdentifier node result
            else if typeIs node "Identifier" then
              handleIdentifier node result
            else if typeIs node "MemberExpression" then
              handleMemberExpression node result
            else if typeIs node "ObjectProperty" then
              handleObjectProperty node result
            else if typeIs node "SpreadElement" then
              handleSpreadElement node result
            else if typeIs node "TypeScript" then
              if truthy (field "typeAnnotation" node)
              then traverse fuel' (field "typeAnnotation" node) filePath result
              else result
            else result in
          (* for (const key in node) ... *)
          fold_left
            (fun result kv =>
               if negb (String.eqb (fst kv) "type")
                  && negb (String.eqb (fst kv) "loc")
               then traverse fuel' (snd kv) filePath result
               else result)
            fs handled
      | VArr items => each items result
      | _ => result
      end
  end.

(** the nesting depth of a tree: the fuel a complete walk needs *)
Fixpoint depth (v : value) : nat :=
  match v with
  | VArr items =>
      S ((fix go (l : list value) : nat :=
            match l with
            | [] => 0
            | x :: l' => Nat.max (depth x) (go l')
            end) items)
  | VObj fs =>
      S ((fix go (l : list (string * value)) : nat :=
            match l with
            | [] => 0
            | (_, x) :: l' => Nat.max (depth x) (go l')
            end) fs)
  | _ => 0
  end.

Definition traverseAST (node : value) (result : ASTAnalysisResult)
  (filePath : string) : ASTAnalysisResult :=
  traverse (depth node) node filePath result.

End WithCwd.

End Ast.


(* ================================================================== *)
(** ** The runtime the analyzers run in, and the effects of a run *)
(* ================================================================== *)

Module Runtime.
Import RegExp Ast.

(** What a run takes from outside the repository: the working directory,
    the file system, the two parsers and the [RegExp] constructor applied to
    a pattern built at run time. [None] is an exception thrown by the
    call. *)
Record runtime : Type := mkRuntime {
  cwd : string;
  readFileSync : string -> option string;
  statSync_size : string -> option nat;
  tsParse : string -> option value;
  babelParse : string -> option value;
  newRegExp : string -> option regex
}.

(** an exception that nothing catches *)
Inductive error : Type :=
| ReadError (path : string)
| SyntaxError (source : string).

(** a line written by [console.warn] *)
Inductive warning : Type :=
| ParseFailed (filePath : string)
| NoSize (relativePath : string).

(** how a computation ends: normally, by an uncaught exception, or never *)
Inductive outcome (A : Type) : Type :=
| Ok (a : A)
| Throw (e : error)
| Diverge.
Arguments Ok {A} a.
Arguments Throw {A} e.
Arguments Diverge {A}.

(** a computation that may warn, throw or diverge *)
Definition M (A : Type) : Type := list warning -> outcome A * list warning.

Definition ret {A} (a : A) : M A := fun w => (Ok a, w).
Definition bind {A B} (c : M A) (k : A -> M B) : M B :=
  fun w =>
    match c w with
    | (Ok a, w') => k a w'
    | (Throw e, w') => (Throw e, w')
    | (Diverge, w') => (Diverge, w')
    end.
Definition throw {A} (e : error) : M A := fun w => (Throw e, w).
Definition warn (x : warning) : M unit := fun w => (Ok tt, (w ++ [x])%list).
(** a loop that may not end *)
Definition terminating {A} (o : option A) : M A :=
  fun w => match o with Some a => (Ok a, w) | None => (Diverge, w) end.

(** [xs.forEach(x => ...)] over a state [s] *)
Fixpoint forEachM {A S} (f : A -> S -> M S) (xs : list A) (s : S) : M S :=
  match xs with
  | [] => ret s
  | x :: xs' => bind (f x s) (forEachM f xs')
  end.

End Runtime.

Module MNotations.
Notation "x <- c ;; k" := (Runtime.bind c (fun x => k))
  (at level 61, c at next level, right associativity).
Notation "c ;;; k" := (Runtime.bind c (fun _ => k))
  (at level 61, right associativity).
End MNotations.

(* ================================================================== *)
(** ** ast-analyzer.ts: the entry points of [ASTAnalyzer] *)
(* ================================================================== *)

Module ASTAnalyzer.
Import Ast Runtime MNotations.

(** an entry of the usage map *)
Record Usage : Type := mkU {
  file : string;
  line : nat
}.

(** [Map<string, V[]>]: the keys in insertion order *)
Fixpoint mapGet {V} (k : string) (m : list (string * list V)) : option (list V) :=
  match m with
  | [] => None
  | (k', vs) :: m' => if String.eqb k' k then Some vs else mapGet k m'
  end.

(** [if (!m.has(k)) m.set(k, []); m.get(k).push(v)] *)
Fixpoint mapPush {V} (k : string) (v : V) (m : list (string * list V))
  : list (string * list V) :=
  match m with
  | [] => [(k, [v])]
  | (k', vs) :: m' =>
      if String.eqb k' k then (k', (vs ++ [v])%list) :: m'
      else (k', vs) :: mapPush k v m'
  end.

(** [SameValueZero] on two keys of a map. An array or an object is a key by
    identity; the model compares two of them by their contents, which no
    tree of a parser puts to the test: no node has one as its [name]. *)
Fixpoint sameValueZero (a b : value) {struct a} : bool :=
  match a, b with
  | VNull, VNull => true
  | VStr s, VStr t => String.eqb s t
  | VNum n, VNum m => (n =? m)%nat
  | VBool x, VBool y => Bool.eqb x y
  | VArr xs, VArr ys =>
      (fix all2 (xs ys : list value) {struct xs} : bool :=
         match xs, ys with
         | [], [] => true
         | x :: xs', y :: ys' => sameValueZero x y && all2 xs' ys'
         | _, _ => false
         end) xs ys
  | VObj fs, VObj gs =>
      (fix all2 (fs gs : list (string * value)) {struct fs} : bool :=
         match fs, gs with
         | [], [] => true
         | (k, x) :: fs', (l, y) :: gs' =>
             String.eqb k l && sameValueZero x y && all2 fs' gs'
         | _, _ => false
         end) fs gs
  | _, _ => false
  end.

(** [mapPush] for the keys that are no strings *)
Fixpoint otherPush {V} (k : value) (v : V) (m : list (value * list V))
  : list (value * list V) :=
  match m with
  | [] => [(k, [v])]
  | (k', vs) :: m' =>
      if sameValueZero k' k then (k', (vs ++ [v])%list) :: m'
      else (k', vs) :: otherPush k v m'
  end.

(** The map of the usages, [Map<string, Usage[]>] by its declaration. At run
    time its keys are the names of the usages, whatever they are: the model
    keeps the entries under a string in one list and the entries under
    another key, such as the missing name of a token, in a second one. Each
    list is in insertion order; the order of the map as a whole is never
    read. *)
Definition usageIndex : Type :=
  (list (string * list Usage) * list (value * list Usage))%type.

(** [if (!m.has(name)) m.set(name, []); m.get(name).push(u)] *)
Definition usagePush (name : value) (u : Usage) (m : usageIndex) : usageIndex :=
  match name with
  | VStr key => (mapPush key u (fst m), snd m)
  | _ => (fst m, otherPush name u (snd m))
  end.

(** what [analyzeAllFiles] returns; [all_usages] holds the entries of the
    map of the usages under a string, [all_others] its other entries *)
Record AllFiles : Type := mkAll {
  all_definitions : list (string * list ASTDefinition);
  all_usages : list (string * list Usage);
  all_exports : list string;
  all_imports : list string;
  all_others : list (value * list Usage)
}.

Section WithRuntime.

Variable rt : runtime.

Definition readFile (path : string) : M string :=
  match readFileSync rt path with
  | Some content => ret content
  | None => throw (ReadError path)
  end.

(** [analyzeFile(filePath)]: the file is read before the [try] block; a
    failure of the parser is caught, reported and gives the empty result *)
(** the parser the extension selects, applied to the content *)
Definition parseFile (filePath content : string) : option value :=
  let ext := Path.extname filePath in
  if String.eqb ext ".ts" || String.eqb ext ".tsx"
  then tsParse rt content
  else babelParse rt content.

Definition analyzeFile (filePath : string) : M ASTAnalysisResult :=
  content <- readFile filePath ;;
  match parseFile filePath content with
  | None => warn (ParseFailed filePath) ;;; ret emptyResult
  | Some ast => ret (traverseAST (cwd rt) ast emptyResult filePath)
  end.

(** the body of the loop of [analyzeAllFiles] for one analysed file *)
Definition collect (relativePath : string) (result : ASTAnalysisResult)
  (acc : AllFiles) : AllFiles :=
  let defs :=
    fold_left (fun m def => mapPush (relativePath ++ ":" ++ def_name def) def m)
              (definitions result) (all_definitions acc) in
  let uses :=
    fold_left (fun m usage => usagePush (use_name usage)
                                        (mkU relativePath (use_line usage)) m)
              (usages result) (all_usages acc, all_others acc) in
  mkAll defs (fst uses)
        (fold_left (fun s x => setAdd x s) (exports result) (all_exports acc))
        (fold_left (fun s x => setAdd x s) (imports result) (all_imports acc))
        (snd uses).

(** the loop of [analyzeAllFiles] for one file *)
Definition analyzeStep (file : string) (acc : AllFiles) : M AllFiles :=
  result <- analyzeFile file ;;
  let relativePath := Path.relative (cwd rt) (cwd rt) file in
  ret (collect relativePath result acc).

(** [analyzeAllFiles(files)] *)
Definition analyzeAllFiles (files : list string) : M AllFiles :=
  forEachM analyzeStep files (mkAll [] [] [] [] []).

End WithRuntime.

End ASTAnalyzer.

(* ================================================================== *)
(** ** analyzer.ts: [DeadCodeAnalyzer] *)
(* ================================================================== *)

Module DeadCodeAnalyzer.
Import RegExp Config Utils Ast Runtime MNotations ASTAnalyzer.

Record CodeIssue : Type := mkIssue {
  issue_name : string;
  issue_file : string;
  issue_type : defType;
  issue_line : option nat
}.

Record FileIssue : Type := mkFileIssue {
  path : string;
  size : nat
}.

Record AnalysisResults : Type := mkAnalysis {
  unusedComponents : list CodeIssue;
  unusedFunctions : list CodeIssue;
  unusedVariables : list CodeIssue;
  unusedFiles : list FileIssue;
  unusedExports : list CodeIssue;
  unusedImports : list CodeIssue;
  totalIssues : nat
}.

(** the [analysis] the constructor starts from *)
Definition emptyAnalysis : AnalysisResults := mkAnalysis [] [] [] [] [] [] 0.

(** [FileDefinitions]: five sets of names, in insertion order *)
Record FileDefinitions : Type := mkFD {
  fd_components : list string;
  fd_functions : list string;
  fd_variables : list string;
  fd_imports : list string;
  fd_exports : list string
}.

(** [analysisMode], one of the strings ast and regex *)
Inductive analysisMode : Type := ast_mode | regex_mode.

(** the part of [AnalyzerConfig] the analysis reads; the ignore patterns
    and the configuration path only select the files *)
Record AnalyzerConfig : Type := mkConfig {
  srcDir : string;
  mode : analysisMode
}.

Definition pushIssue (issue : CodeIssue) (a : AnalysisResults) : AnalysisResults :=
  match issue_type issue with
  | TComponent =>
      mkAnalysis (unusedComponents a ++ [issue])%list (unusedFunctions a)
                 (unusedVariables a) (unusedFiles a) (unusedExports a)
                 (unusedImports a) (totalIssues a)
  | TFunction =>
      mkAnalysis (unusedComponents a) (unusedFunctions a ++ [issue])%list
                 (unusedVariables a) (unusedFiles a) (unusedExports a)
                 (unusedImports a) (totalIssues a)
  | TVariable =>
      mkAnalysis (unusedComponents a) (unusedFunctions a)
                 (unusedVariables a ++ [issue])%list (unusedFiles a)
                 (unusedExports a) (unusedImports a) (totalIssues a)
  | TImport =>
      mkAnalysis (unusedComponents a) (unusedFunctions a) (unusedVariables a)
                 (unusedFiles a) (unusedExports a)
                 (unusedImports a ++ [issue])%list (totalIssues a)
  | TExport => a
  end.

Definition pushFile (f : FileIssue) (a : AnalysisResults) : AnalysisResults :=
  mkAnalysis (unusedComponents a) (unusedFunctions a) (unusedVariables a)
             (unusedFiles a ++ [f])%list (unusedExports a) (unusedImports a)
             (totalIssues a).

(** the line feed, and [content.substring(0, index).split(LF).length] *)
Definition LF : string := String (ascii_of_nat 10) EmptyString.
Definition lineAt (content : string) (index : nat) : nat :=
  List.length (JS.split (JS.substring0 content index) LF).

(** the loops [patterns.forEach(p => { while ((m = p.exec(text)) !== null)
    body })]: [None] when one of them does not end *)
Fixpoint overMatches {S} (patterns : list regex) (text : string)
  (body : regex -> mresult -> S -> S) (s : S) : option S :=
  match patterns with
  | [] => Some s
  | p :: ps =>
      match execAll p text with
      | None => None
      | Some ms => overMatches ps text body (fold_left (fun s m => body p m s) ms s)
      end
  end.

(** [m[i]] when it is a non-empty string *)
Definition groupText (i : nat) (m : mresult) : option string :=
  match group i (captures m) with
  | Some s => if String.eqb s EmptyString then None else Some s
  | None => None
  end.

(** [removeComments(content)] *)
Definition removeComments (content : string) : string :=
  (* /\/\/.*$/gm *)
  let result := deleteAll (seq [lit "//"; Star true dot; Eol true]) content in
  (* /\/\*[\s\S]*?\*\//g *)
  deleteAll (seq [lit "/*"; Star false anyChar; lit "*/"]) result.

Definition countChar (c : ascii) (s : string) : nat :=
  List.length (List.filter (Ascii.eqb c) (list_ascii_of_string s)).

(** [isTopLevelVariable(content, index)] *)
Definition isTopLevelVariable (content : string) (index : nat) : bool :=
  let beforeMatch := JS.substring0 content index in
  let lines := JS.split beforeMatch LF in
  let currentLine := List.last lines EmptyString in
  let beforeContent := JS.substring0 content index in
  let openBraces := countChar "{" beforeContent in
  let closeBraces := countChar "}" beforeContent in
  if (closeBraces <? openBraces)%nat then false
  else
    let trimmedLine := JS.trim currentLine in
    if JS.startsWith trimmedLine "const " || JS.startsWith trimmedLine "let "
       || JS.startsWith trimmedLine "var "
    then true
    else false.

Definition addComponent x d :=
  mkFD (setAdd x (fd_components d)) (fd_functions d) (fd_variables d)
       (fd_imports d) (fd_exports d).
Definition addFunction x d :=
  mkFD (fd_components d) (setAdd x (fd_functions d)) (fd_variables d)
       (fd_imports d) (fd_exports d).
Definition addVariable x d :=
  mkFD (fd_components d) (fd_functions d) (setAdd x (fd_variables d))
       (fd_imports d) (fd_exports d).
Definition addImportName x d :=
  mkFD (fd_components d) (fd_functions d) (fd_variables d)
       (setAdd x (fd_imports d)) (fd_exports d).
Definition addExportName x d :=
  mkFD (fd_components d) (fd_functions d) (fd_variables d) (fd_imports d)
       (setAdd x (fd_exports d)).

(** the names of an import clause: [text.split(",").map(trim)], each cut
    at [" as "] and trimmed, kept when it passes the two filters *)
Definition addImportClause (text : string) (d : FileDefinitions) : FileDefinitions :=
  fold_left
    (fun d imp =>
       let cleanName := JS.trim (List.hd EmptyString (JS.split imp " as ")) in
       if negb (BUILT_INS_has cleanName) && negb (isCommonPattern cleanName)
       then addImportName cleanName d
       else d)
    (List.map JS.trim (JS.split text ",")) d.

(** [/import\s+type\s*{\s*([^}]+)\s*}\s+from\s+[q]([^q]+)[q]/g] *)
Definition typeImportPattern : regex :=
  seq [lit "import"; ws1; lit "type"; ws0; chr "{"; ws0;
       Group 1 (plus (notInSet "}")); ws0; chr "}"; ws1; fromModule 2].

Section WithRuntime.

Variable rt : runtime.
Variable config : AnalyzerConfig.

(** the first loop of [analyzeFile]: component definitions *)
Definition componentBody (content filePath : string) (_ : regex) (m : mresult)
  (definitions : FileDefinitions) : FileDefinitions :=
  match group 1 (captures m) with
  | None => definitions
  | Some name =>
      if negb (BUILT_INS_has name) && negb (isCommonPattern name) then
        if isLikelyComponent (cwd rt) name content filePath then
          let definitions := addComponent name definitions in
          if JS.includes content ("export default " ++ name)
             || JS.includes content ("export function " ++ name)
             || JS.includes content ("export const " ++ name)
          then addExportName name definitions
          else definitions
        else
          let definitions := addFunction name definitions in
          if JS.includes content ("export function " ++ name)
             || JS.includes content ("export const " ++ name)
          then addExportName name definitions
          else definitions
      else definitions
  end.

(** the second loop: function definitions *)
Definition functionBody (content : string) (_ : regex) (m : mresult)
  (definitions : FileDefinitions) : FileDefinitions :=
  match group 1 (captures m) with
  | None => definitions
  | Some name =>
      if negb (BUILT_INS_has name) && negb (isCommonPattern name)
         && negb (JS.arrayIncludes (fd_components definitions) name)
      then
        let definitions := addFunction name definitions in
        if JS.includes content ("export function " ++ name)
           || JS.includes content ("export const " ++ name)
        then addExportName name definitions
        else definitions
      else definitions
  end.

(** the third loop: variable definitions *)
Definition variableBody (content contentWithoutComments : string) (_ : regex)
  (m : mresult) (definitions : FileDefinitions) : FileDefinitions :=
  match group 1 (captures m) with
  | None => definitions
  | Some name =>
      if negb (BUILT_INS_has name) && negb (isCommonPattern name) then
        if negb (JS.arrayIncludes (fd_functions definitions) name)
           && negb (JS.arrayIncludes (fd_components definitions) name)
        then
          if isTopLevelVariable contentWithoutComments (index m) then
            let definitions := addVariable name definitions in
            if JS.includes content ("export const " ++ name)
               || JS.includes content ("export let " ++ name)
               || JS.includes content ("export var " ++ name)
            then addExportName name definitions
            else definitions
          else definitions
        else definitions
      else definitions
  end.

(** the fourth loop: imports *)
Definition importBody (_ : regex) (m : mresult) (definitions : FileDefinitions)
  : FileDefinitions :=
  match groupText 1 m with
  | Some text => addImportClause text definitions
  | None =>
      match orElse (groupText 2 m) (groupText 3 m) with
      | Some name =>
          if negb (BUILT_INS_has name) && negb (isCommonPattern name)
          then addImportName name definitions
          else definitions
      | None => definitions
      end
  end.

(** the fifth loop: type imports *)
Definition typeImportBody (_ : regex) (m : mresult) (definitions : FileDefinitions)
  : FileDefinitions :=
  match group 1 (captures m) with
  | Some text => addImportClause text definitions
  | None => definitions
  end.

(** the definitions [analyzeFile] extracts from a file before it checks
    them; [None] when a matching loop does not end *)
Definition extractDefinitions (content filePath : string) : option FileDefinitions :=
  let contentWithoutComments := removeComments content in
  match overMatches PATTERNS_component contentWithoutComments
                    (componentBody content filePath) (mkFD [] [] [] [] []) with
  | None => None
  | Some d =>
  match overMatches PATTERNS_function contentWithoutComments
                    (functionBody content) d with
  | None => None
  | Some d =>
  match overMatches PATTERNS_variable contentWithoutComments
                    (variableBody content contentWithoutComments) d with
  | None => None
  | Some d =>
  match overMatches PATTERNS_import content importBody d with
  | None => None
  | Some d => overMatches [typeImportPattern] content typeImportBody d
  end end end end.

(** the inner loop of [buildUsageMap]: the groups [1 .. m.length - 1] of a
    match *)
Definition usageBody (content relativePath : string) (pattern : regex)
  (m : mresult) (usageMap : list (string * list Usage))
  : list (string * list Usage) :=
  fold_left
    (fun usageMap i =>
       match groupText i m with
       | None => usageMap
       | Some name =>
           if BUILT_INS_has name || isCommonPattern name then usageMap
           else mapPush name (mkU relativePath (lineAt content (index m))) usageMap
       end)
    (List.seq 1 (groupCount pattern)) usageMap.

(** the loop of [buildUsageMap] for one file *)
Definition usageStep (file : string) (usageMap : list (string * list Usage))
  : M (list (string * list Usage)) :=
  content <- readFile rt file ;;
  let relativePath := Path.relative (cwd rt) (srcDir config) file in
  terminating (overMatches PATTERNS_usage content
                           (usageBody content relativePath) usageMap).

(** [buildUsageMap(files)] *)
Definition buildUsageMap (files : list string) : M (list (string * list Usage)) :=
  forEachM usageStep files [].

(** [new RegExp(source)] *)
Definition compile (source : string) : M regex :=
  match newRegExp rt source with
  | Some r => ret r
  | None => throw (SyntaxError source)
  end.

(** The helper [isUsed] of [checkUnusedDefinitions]. The three local
    patterns are built from the strings
    [\b${name}\s*\(], [<${name}[\s/>]] and [\b${name}\b]. *)
Definition isUsed (usageMap : list (string * list Usage))
  (definitions : FileDefinitions) (filePath content name : string) : M bool :=
  let usages := mapGet name usageMap in
  callPattern <- compile ("\b" ++ name ++ "\s*\(") ;;
  jsxPattern <- compile ("<" ++ name ++ "[\s/>]") ;;
  wordPattern <- compile ("\b" ++ name ++ "\b") ;;
  let hasLocalUsage :=
    existsb (fun pattern => test pattern content)
            [callPattern; jsxPattern; wordPattern] in
  if match usages with
     | Some us => existsb (fun u => negb (String.eqb (file u) filePath)) us
     | None => false
     end
  then ret true
  else if hasLocalUsage then ret true
  else if JS.includes content ("export default " ++ name) then ret true
  else if JS.arrayIncludes (fd_exports definitions) name
          && match usages with
             | None | Some [] => true
             | Some (_ :: _) => false
             end
  then ret false
  else if test REACT_HOOKS_REGEX name then ret true
  else ret false.

(** [checkUnusedDefinitions(definitions, filePath, content)] *)
Definition checkUnusedDefinitions (usageMap : list (string * list Usage))
  (definitions : FileDefinitions) (filePath content : string)
  (analysis : AnalysisResults) : M AnalysisResults :=
  analysis <-
    forEachM
      (fun component analysis =>
         used <- isUsed usageMap definitions filePath content component ;;
         if negb used
         then ret (pushIssue (mkIssue component filePath TComponent None) analysis)
         else ret analysis)
      (fd_components definitions) analysis ;;
  analysis <-
    forEachM
      (fun func analysis =>
         used <- isUsed usageMap definitions filePath content func ;;
         if negb used then
           functionCallRegex <- compile ("\b" ++ func ++ "\s*\(") ;;
           if negb (test functionCallRegex content)
           then ret (pushIssue (mkIssue func filePath TFunction None) analysis)
           else ret analysis
         else ret analysis)
      (fd_functions definitions) analysis ;;
  analysis <-
    forEachM
      (fun variable analysis =>
         used <- isUsed usageMap definitions filePath content variable ;;
         if negb used
         then ret (pushIssue (mkIssue variable filePath TVariable None) analysis)
         else ret analysis)
      (fd_variables definitions) analysis ;;
  forEachM
    (fun importName analysis =>
       if match mapGet importName usageMap with
          | None | Some [] => true
          | Some [_] => JS.includes content ("import " ++ importName)
          | Some _ => false
          end
       then ret (pushIssue (mkIssue importName filePath TImport None) analysis)
       else ret analysis)
    (fd_imports definitions) analysis.

(** [analyzeFile(filePath)] of the lexical strategy *)
Definition analyzeFile (usageMap : list (string * list Usage))
  (filePath : string) (analysis : AnalysisResults) : M AnalysisResults :=
  content <- readFile rt filePath ;;
  let relativePath := Path.relative (cwd rt) (srcDir config) filePath in
  definitions <- terminating (extractDefinitions content filePath) ;;
  checkUnusedDefinitions usageMap definitions relativePath content analysis.

(** [performRegexAnalysis()] *)
Definition performRegexAnalysis (allFiles : list string)
  (analysis : AnalysisResults) : M AnalysisResults :=
  usageMap <- buildUsageMap allFiles ;;
  forEachM (analyzeFile usageMap) allFiles analysis.

(** the verdict [isUsed] of [performASTAnalysis],
    [usages && usages.length > 0] for [usages = astResults.usages.get(name)] *)
Definition isUsedAST (usages : list (string * list Usage)) (name : string)
  : bool :=
  match mapGet name usages with
  | Some (_ :: _) => true
  | _ => false
  end.

(** the body of the loops of [performASTAnalysis] for one definition;
    [key.split(":")] gives the file and the name *)
Definition reportDefinition (usages : list (string * list Usage))
  (key : string) (def : ASTDefinition) (analysis : AnalysisResults)
  : AnalysisResults :=
  let pieces := JS.split key ":" in
  let filePath := List.nth 0 pieces EmptyString in
  let name := List.nth 1 pieces EmptyString in
  let isUsed := isUsedAST usages name in
  if negb isUsed
  then pushIssue (mkIssue name filePath (def_type def) (Some (def_line def)))
                 analysis
  else analysis.

(** [performASTAnalysis()] *)
Definition performASTAnalysis (allFiles : list string)
  (analysis : AnalysisResults) : M AnalysisResults :=
  astResults <- analyzeAllFiles rt allFiles ;;
  ret (fold_left
         (fun analysis entry =>
            fold_left (fun analysis def =>
                         reportDefinition (all_usages astResults) (fst entry)
                                          def analysis)
                      (snd entry) analysis)
         (all_definitions astResults) analysis).

(** the pattern of [findUnusedFiles] for one spelling. It is written as a
    template literal, which drops the backslash of an escape it does not
    know: the pattern starts with the letters f r o m s and a plus sign. *)
Definition importSource (importPath : string) : string :=
  "froms+['" ++ String dquote "`]" ++ importPath ++ "['" ++ String dquote "`]".

(** the loop over the spellings, left at the first that matches *)
Fixpoint matchesSpelling (content : string) (possibleImportPaths : list string)
  : M bool :=
  match possibleImportPaths with
  | [] => ret false
  | importPath :: rest =>
      importRegex <- compile (importSource importPath) ;;
      if test importRegex content then ret true
      else matchesSpelling content rest
  end.

(** the loop over the other files, left at the first that imports *)
Fixpoint importedBy (file : string) (possibleImportPaths : list string)
  (others : list string) : M bool :=
  match others with
  | [] => ret false
  | otherFile :: rest =>
      if String.eqb otherFile file
      then importedBy file possibleImportPaths rest
      else
        content <- readFile rt otherFile ;;
        found <- matchesSpelling content possibleImportPaths ;;
        if found then ret true
        else importedBy file possibleImportPaths rest
  end.

(** [s.replace(/\\/g, "/")] *)
Fixpoint slashes (s : string) : string :=
  match s with
  | EmptyString => EmptyString
  | String c s' =>
      String (if Ascii.eqb c "\"%char then "/"%char else c) (slashes s')
  end.

(** the spellings under which another file may import [file] *)
Definition possibleImportPaths (file : string) : list string :=
  let fileName := Path.basename file in
  let fileNameWithoutExt := Path.basenameExt file (Path.extname file) in
  (* /\.[tj]sx?$/ *)
  let relFromSrc :=
    "./" ++ deleteFirst (seq [chr "."; inSet "tj"; chr "s"; opt (chr "x");
                              Eol false])
                        (slashes (Path.relative (cwd rt) (srcDir config) file)) in
  [ "./" ++ fileNameWithoutExt; "./" ++ fileName; fileNameWithoutExt; fileName;
    relFromSrc; relFromSrc ++ Path.extname file ].

(** [/export\s+(?:default|{|const|function|class|interface|type)/] *)
Definition exportKeyword : regex :=
  seq [lit "export"; ws1;
       alt [lit "default"; chr "{"; lit "const"; lit "function"; lit "class";
            lit "interface"; lit "type"]].

Definition isMainFile (fileName : string) : bool :=
  String.eqb fileName "index.ts" || String.eqb fileName "index.tsx"
  || String.eqb fileName "index.js" || String.eqb fileName "index.jsx"
  || String.eqb fileName "main.ts" || String.eqb fileName "main.tsx"
  || String.eqb fileName "main.js" || String.eqb fileName "main.jsx".

Definition isConfigFile (fileName : string) : bool :=
  JS.includes fileName "config" || JS.includes fileName "Config"
  || JS.includes fileName "setup" || JS.includes fileName "Setup".

Definition isUtilityFile (fileDir : string) : bool :=
  JS.includes fileDir "utils" || JS.includes fileDir "lib"
  || JS.includes fileDir "helpers" || JS.includes fileDir "services"
  || JS.includes fileDir "hooks" || JS.includes fileDir "components".

(** the body of the loop of [findUnusedFiles] for one file *)
Definition checkFile (allFiles : list string) (file : string)
  (analysis : AnalysisResults) : M AnalysisResults :=
  let relativePath := Path.relative (cwd rt) (srcDir config) file in
  let fileName := Path.basename file in
  let fileDir := Path.dirname file in
  isImported <- importedBy file (possibleImportPaths file) allFiles ;;
  let isEntryPoint := isNextJsEntryPoint (cwd rt) file in
  fileContent <- readFile rt file ;;
  let hasExports := test exportKeyword fileContent in
  if negb isImported && negb isEntryPoint && negb hasExports
     && negb (isMainFile fileName) && negb (isConfigFile fileName)
     && negb (isUtilityFile fileDir)
  then
    match statSync_size rt file with
    | Some size => ret (pushFile (mkFileIssue relativePath size) analysis)
    | None => warn (NoSize relativePath) ;;; ret analysis
    end
  else ret analysis.

(** [findUnusedFiles()] *)
Definition findUnusedFiles (allFiles : list string) (analysis : AnalysisResults)
  : M AnalysisResults :=
  forEachM (checkFile allFiles) allFiles analysis.

(** [xs.sort((a, b) => b.size - a.size)]: stable, largest first *)
Fixpoint insertBySize (f : FileIssue) (l : list FileIssue) : list FileIssue :=
  match l with
  | [] => [f]
  | g :: l' =>
      if (size g <=? size f)%nat then f :: l
      else g :: insertBySize f l'
  end.
Definition sortBySize (l : list FileIssue) : list FileIssue :=
  fold_right insertBySize [] l.

(** what [generateDeadCodeReport()] leaves in [analysis]: the total, and
    the unused files in the order of their listing *)
Definition generateDeadCodeReport (a : AnalysisResults) : AnalysisResults :=
  mkAnalysis (unusedComponents a) (unusedFunctions a) (unusedVariables a)
             (sortBySize (unusedFiles a)) (unusedExports a) (unusedImports a)
             (List.length (unusedComponents a) + List.length (unusedFunctions a)
              + List.length (unusedVariables a) + List.length (unusedFiles a)
              + List.length (unusedImports a)).

(** [findDeadCode()], for the files [allFiles] the glob finds *)
Definition findDeadCode (allFiles : list string) : M AnalysisResults :=
  analysis <-
    match mode config with
    | ast_mode => performASTAnalysis allFiles emptyAnalysis
    | regex_mode => performRegexAnalysis allFiles emptyAnalysis
    end ;;
  analysis <- findUnusedFiles allFiles analysis ;;
  ret (generateDeadCodeReport analysis).

End WithRuntime.

(** a run from an empty console *)
Definition run (rt : runtime) (config : AnalyzerConfig) (allFiles : list string)
  : outcome AnalysisResults * list warning :=
  findDeadCode rt config allFiles [].

End DeadCodeAnalyzer.

(* ================================================================== *)
(** ** Concrete runtimes for the scenarios *)
(* ================================================================== *)

Module Scenarios.
Import RegExp Config Ast Runtime ASTAnalyzer DeadCodeAnalyzer.

(** a table as a partial function of its keys *)
Fixpoint tableGet {V} (t : list (string * V)) (k : string) : option V :=
  match t with
  | [] => None
  | (k', v) :: t' => if String.eqb k' k then Some v else tableGet t' k
  end.

(** *** A constructor for the patterns built at run time

    It reads the patterns the scenarios need: literal characters, the dot,
    the escapes [\b], [\s], [\w], [\d] and an escaped punctuation character,
    a class of such items in brackets, and the greedy quantifiers star, plus
    and question mark after an atom. It refuses every other pattern. *)

Definition isAlnum (c : ascii) : bool :=
  JS.isUpper c || JS.isLower c || JS.isDigit c.

(** the class an escape [\c] stands for inside or outside brackets *)
Definition escapeClass (c : ascii) : option (ascii -> bool) :=
  if Ascii.eqb c "s" then Some JS.isSpace
  else if Ascii.eqb c "w" then Some JS.isWord
  else if Ascii.eqb c "d" then Some JS.isDigit
  else if isAlnum c then None
  else Some (Ascii.eqb c).

(** the items of a class up to its closing bracket; a caret or a hyphen is
    refused *)
Fixpoint classItems (l : list ascii) (acc : ascii -> bool)
  : option ((ascii -> bool) * list ascii) :=
  match l with
  | [] => None
  | c :: rest =>
      if Ascii.eqb c "]" then Some (acc, rest)
      else if Ascii.eqb c "^" || Ascii.eqb c "-" then None
      else if Ascii.eqb c "\" then
        match rest with
        | e :: rest' =>
            match escapeClass e with
            | Some p => classItems rest' (fun x => acc x || p x)
            | None => None
            end
        | [] => None
        end
      else classItems rest (fun x => acc x || Ascii.eqb c x)
  end.

(** an atom and what follows it; the flag tells an assertion *)
Definition atom (l : list ascii) : option (regex * bool * list ascii) :=
  match l with
  | [] => None
  | c :: rest =>
      if Ascii.eqb c "\" then
        match rest with
        | e :: rest' =>
            if Ascii.eqb e "b" then Some (WordB, true, rest')
            else match escapeClass e with
                 | Some p => Some (Chr p, false, rest')
                 | None => None
                 end
        | [] => None
        end
      else if Ascii.eqb c "[" then
        match classItems rest (fun _ => false) with
        | Some (p, rest') => Some (Chr p, false, rest')
        | None => None
        end
      else if Ascii.eqb c "." then Some (dot, false, rest)
      else if oneOf "()|{}^$*+?]" c then None
      else Some (chr c, false, rest)
  end.

Fixpoint terms (fuel : nat) (l : list ascii) : option (list regex) :=
  match fuel with
  | O => None
  | S fuel' =>
      match l with
      | [] => Some []
      | _ =>
          match atom l with
          | None => None
          | Some (a, assertion, rest) =>
              let '(t, rest') :=
                match rest with
                | q :: rest' =>
                    if Ascii.eqb q "*" then (Some (Star true a), rest')
                    else if Ascii.eqb q "+" then (Some (plus a), rest')
                    else if Ascii.eqb q "?" then (Some (opt a), rest')
                    else (None, rest)
                | [] => (None, rest)
                end in
              match t with
              | Some quantified =>
                  if assertion then None
                  else option_map (cons quantified) (terms fuel' rest')
              | None => option_map (cons a) (terms fuel' rest')
              end
          end
      end
  end.

Definition simpleRegExp (source : string) : option regex :=
  let l := list_ascii_of_string source in
  option_map seq (terms (S (List.length l)) l).

(** *** The runtime of a scenario: the files of a project below [/proj],
    with their contents and, for the structural strategy, their trees *)
Definition scenario (files : list (string * string))
  (trees : list (string * value)) : runtime :=
  mkRuntime "/proj"
            (tableGet files)
            (fun p => option_map String.length (tableGet files p))
            (tableGet trees)
            (tableGet trees)
            simpleRegExp.

(** the position object of a node on line [l] *)
Definition locAt (l : nat) : value :=
  VObj [("start", VObj [("line", VNum l); ("column", VNum 0)]);
        ("end", VObj [("line", VNum l); ("column", VNum 0)])].

Definition identifier (name : string) (l : nat) : value :=
  VObj [("type", VStr "Identifier"); ("loc", locAt l); ("name", VStr name)].

(** what Babel returns for a module with the statements [body] *)
Definition babelFile (body : list value) : value :=
  VObj [("type", VStr "File"); ("loc", locAt 1);
        ("program", VObj [("type", VStr "Program"); ("loc", locAt 1);
                          ("sourceType", VStr "module");
                          ("body", VArr body); ("directives", VArr [])]);
        ("comments", VArr [])].

(** Scenario A: [a] defines [foo] and nothing refers to it. *)
Definition contentA : string := "function foo(){}".
Definition treeA : value :=
  babelFile
    [VObj [("type", VStr "FunctionDeclaration"); ("loc", locAt 1);
           ("id", identifier "foo" 1);
           ("generator", VBool false); ("async", VBool false);
           ("params", VArr []);
           ("body", VObj [("type", VStr "BlockStatement"); ("loc", locAt 1);
                          ("body", VArr []); ("directives", VArr [])])]].

(** ... and [b] imports [foo] and calls it. *)
Definition contentB : string := "import { foo } from './a';" ++ LF ++ "foo();".
Definition treeB : value :=
  babelFile
    [VObj [("type", VStr "ImportDeclaration"); ("loc", locAt 1);
           ("specifiers",
            VArr [VObj [("type", VStr "ImportSpecifier"); ("loc", locAt 1);
                        ("imported", identifier "foo" 1);
                        ("local", identifier "foo" 1)]]);
           ("source", VObj [("type", VStr "StringLiteral"); ("loc", locAt 1);
                            ("value", VStr "./a")])];
     VObj [("type", VStr "ExpressionStatement"); ("loc", locAt 2);
           ("expression",
            VObj [("type", VStr "CallExpression"); ("loc", locAt 2);
                  ("callee", identifier "foo" 2);
                  ("arguments", VArr [])])]].

Definition filesA : list string := ["src/a.js"].
Definition filesAB : list string := ["src/a.js"; "src/b.js"].
Definition runtimeA : runtime :=
  scenario [("src/a.js", contentA)] [(contentA, treeA)].
Definition runtimeAB : runtime :=
  scenario [("src/a.js", contentA); ("src/b.js", contentB)]
           [(contentA, treeA); (contentB, treeB)].

(** A module that another file imports by a relative path. *)
Definition contentHelper : string := "module.exports = 42;".
Definition contentImporter : string := "import h from './helper123';".
Definition filesH : list string := ["src/helper123.js"; "src/b.js"].
Definition runtimeH : runtime :=
  scenario [("src/helper123.js", contentHelper); ("src/b.js", contentImporter)] [].

(** A file the glob lists and the file system cannot read. *)
Definition filesGone : list string := ["src/a.js"; "src/gone.js"].

End Scenarios.


(* ================================================================== *)
(** * The vocabulary of the statements *)
(* ================================================================== *)

Import RegExp Config Utils Ast Runtime ASTAnalyzer DeadCodeAnalyzer Scenarios.

(** the first character of a name is an upper-case letter *)
Definition startsUpper (name : string) : bool :=
  match name with
  | String c _ => JS.isUpper c
  | EmptyString => false
  end.

(** the computation ended normally *)
Definition succeeded {A} (o : outcome A * list warning) : bool :=
  match fst o with
  | Ok _ => true
  | _ => false
  end.

(** the names a per-file structural result holds, as the values they are:
    those of the definitions and of the usages, the exports and the
    imports *)
Definition recordedNames (r : ASTAnalysisResult) : list value :=
  (List.map (fun d => VStr (def_name d)) (definitions r)
   ++ List.map use_name (usages r)
   ++ List.map VStr (exports r) ++ List.map VStr (imports r))%list.

(** every recorded name that is a string passes the two filters *)
Definition filtered (r : ASTAnalysisResult) : Prop :=
  forall n, In (VStr n) (recordedNames r) -> isBuiltinOrCommon n = false.

(** the names the structural analysis of a file set holds: those of the
    definitions, the keys of the map of the usages, the exports and the
    imports *)
Definition indexedNames (all : AllFiles) : list value :=
  (List.map (fun d => VStr (def_name d))
            (List.concat (List.map snd (all_definitions all)))
   ++ List.map VStr (List.map fst (all_usages all))
   ++ List.map fst (all_others all)
   ++ List.map VStr (all_exports all) ++ List.map VStr (all_imports all))%list.

Definition filteredAll (all : AllFiles) : Prop :=
  forall n, In (VStr n) (indexedNames all) -> isBuiltinOrCommon n = false.

Definition filteredKeys (m : list (string * list Usage)) : Prop :=
  forall k, In k (List.map fst m) -> isBuiltinOrCommon k = false.

(** the names [analyzeFile] collects in the five sets of a file *)
Definition definedNames (d : FileDefinitions) : list string :=
  (fd_components d ++ fd_functions d ++ fd_variables d ++ fd_imports d
   ++ fd_exports d)%list.

Definition filteredFD (d : FileDefinitions) : Prop :=
  forall n, In n (definedNames d) -> isBuiltinOrCommon n = false.

(** The trees of the parsers give the [id] of a declaration that carries a
    name the type [Identifier]: a binding pattern has no name. *)
Fixpoint identifiersTyped (v : value) : bool :=
  match v with
  | VObj fs =>
      match nameOf (field "name" (lookup "id" fs)) with
      | Some _ => typeIs (lookup "id" fs) "Identifier"
      | None => true
      end
      && (fix all (l : list (string * value)) : bool :=
            match l with
            | [] => true
            | (_, x) :: l' => identifiersTyped x && all l'
            end) fs
  | VArr items =>
      (fix all (l : list value) : bool :=
         match l with
         | [] => true
         | x :: l' => identifiersTyped x && all l'
         end) items
  | _ => true
  end.

(** the usages of [r] are still in [r'] *)
Definition usagesKept (r r' : ASTAnalysisResult) : Prop :=
  forall u, In u (usages r) -> In u (usages r').

(** a usage of [name] with the context [reference] is recorded in [r] *)
Definition hasReference (name : string) (r : ASTAnalysisResult) : Prop :=
  exists u, In u (usages r) /\ use_name u = VStr name
            /\ use_context u = "reference".

(** the loop over the properties of an object, as [traverse] runs it *)
Definition walkFields cwd fuel filePath (fs : list (string * value))
  (r : ASTAnalysisResult) : ASTAnalysisResult :=
  fold_left
    (fun result kv =>
       if negb (String.eqb (fst kv) "type") && negb (String.eqb (fst kv) "loc")
       then traverse cwd fuel (snd kv) filePath result
       else result)
    fs r.

Definition walkItems cwd fuel filePath (items : list value)
  (r : ASTAnalysisResult) : ASTAnalysisResult :=
  fold_left (fun result child => traverse cwd fuel child filePath result) items r.

(** the dispatch of [traverse] on the type of an object, before the loop
    over its properties *)
Definition dispatch cwd fuel filePath (node : value) (result : ASTAnalysisResult)
  : ASTAnalysisResult :=
  if typeIs node "Program" then
    walkItems cwd fuel filePath (elements (field "body" node)) result
  else if typeIs node "ImportDeclaration" then
    handleImportDeclaration node result
  else if typeIs node "ExportNamedDeclaration" then
    if truthy (field "declaration" node)
    then traverse cwd fuel (field "declaration" node) filePath result
    else if truthy (field "specifiers" node)
    then handleExportSpecifiers node result
    else result
  else if typeIs node "ExportDefaultDeclaration" then
    if truthy (field "declaration" node)
    then traverse cwd fuel (field "declaration" node) filePath result
    else result
  else if typeIs node "VariableDeclaration" then
    handleVariableDeclaration cwd node filePath result
  else if typeIs node "FunctionDeclaration" then
    handleFunctionDeclaration cwd node filePath result
  else if typeIs node "CallExpression" then handleCallExpression node result
  else if typeIs node "JSXElement" then handleJSXElement node result
  else if typeIs node "JSXIdentifier" then handleJSXIdentifier node result
  else if typeIs node "Identifier" then handleIdentifier node result
  else if typeIs node "MemberExpression" then handleMemberExpression node result
  else if typeIs node "ObjectProperty" then handleObjectProperty node result
  else if typeIs node "SpreadElement" then handleSpreadElement node result
  else if typeIs node "TypeScript" then
    if truthy (field "typeAnnotation" node)
    then traverse cwd fuel (field "typeAnnotation" node) filePath result
    else result
  else result.

(** [r] extends [r0]: the usages are kept, and each definition that is not
    an import was in [r0] or has a reference in [r] *)
Definition extends (r0 r : ASTAnalysisResult) : Prop :=
  usagesKept r0 r
  /\ forall d, In d (definitions r) -> def_type d <> TImport ->
               In d (definitions r0) \/ hasReference (def_name d) r.

(** a step that adds no definition but imports *)
Definition addsOnlyImports (r0 r : ASTAnalysisResult) : Prop :=
  usagesKept r0 r
  /\ forall d, In d (definitions r) -> def_type d <> TImport ->
               In d (definitions r0).

(** the definition [d] carries the name of the [id] of [node] or of one of
    the declarations of [node] *)
Definition namedBy (node : value) (d : ASTDefinition) : Prop :=
  isBuiltinOrCommon (def_name d) = false
  /\ (nameOf (field "name" (field "id" node)) = Some (def_name d)
      \/ exists declaration,
           In declaration (elements (field "declarations" node))
           /\ nameOf (field "name" (field "id" declaration)) = Some (def_name d)).

(** what the dispatch on [node] leaves to the loop over its properties *)
Definition pending (node : value) (r0 r : ASTAnalysisResult) : Prop :=
  usagesKept r0 r
  /\ forall d, In d (definitions r) -> def_type d <> TImport ->
               In d (definitions r0) \/ hasReference (def_name d) r
               \/ namedBy node d.

(** [x] is among the values the map holds under [k] *)
Definition holds {V} (m : list (string * list V)) (k : string) (x : V) : Prop :=
  exists vs, mapGet k m = Some vs /\ In x vs.

(** each definition of the index, imports apart, has a usage under its
    name in the file its key names *)
Definition selfReferenced (all : AllFiles) : Prop :=
  forall key defs d,
    In (key, defs) (all_definitions all) -> In d defs ->
    def_type d <> TImport ->
    exists relativePath u,
      key = relativePath ++ ":" ++ def_name d
      /\ holds (all_usages all) (def_name d) u
      /\ file u = relativePath.

(** the index of the structural analysis of scenario A *)
Definition indexA : AllFiles :=
  Eval vm_compute in
    match fst (analyzeAllFiles runtimeA filesA []) with
    | Ok all => all
    | _ => mkAll [] [] [] [] []
    end.

(** the kind of a function-valued definition follows the name and the path *)
Definition classified (cwd filePath : string) (d : ASTDefinition) : Prop :=
  (def_type d = TComponent ->
   startsUpper (def_name d) && isNextJsEntryPoint cwd filePath = true)
  /\ (def_type d = TFunction ->
      startsUpper (def_name d) && isNextJsEntryPoint cwd filePath = false).

Definition allClassified (cwd filePath : string) (r : ASTAnalysisResult) : Prop :=
  forall d, In d (definitions r) -> classified cwd filePath d.

(** the structural analysis of the file of scenario A *)
Definition resultA : ASTAnalysisResult :=
  Eval vm_compute in
    match fst (ASTAnalyzer.analyzeFile runtimeA "src/a.js" []) with
    | Ok r => r
    | _ => emptyResult
    end.

(** what [checkFile] has found when it reports [file] as the issue [fi] *)
Definition reportable (rt : runtime) (config : AnalyzerConfig)
  (allFiles : list string) (file : string) (fi : FileIssue) : Prop :=
  path fi = Path.relative (cwd rt) (srcDir config) file
  /\ (exists w, fst (importedBy rt file (possibleImportPaths rt config file)
                                allFiles w) = Ok false)
  /\ isNextJsEntryPoint (cwd rt) file = false
  /\ (exists content, readFileSync rt file = Some content
                      /\ test exportKeyword content = false)
  /\ isMainFile (Path.basename file) = false
  /\ isConfigFile (Path.basename file) = false
  /\ isUtilityFile (Path.dirname file) = false.

(** no file is reported by the analysis of the definitions *)
Definition noFiles (a : AnalysisResults) : Prop := unusedFiles a = [].

(** a position of a subject of [n] characters *)
Definition inSubject (n : nat) (s : mstate) : Prop :=
  pos s + List.length (rest s) = n.

(** a letter of [[a-zA-Z]] *)
Definition isLetter (c : ascii) : bool := JS.isLower c || JS.isUpper c.

(** the characters of a string all satisfy [p] *)
Fixpoint allChars (p : ascii -> bool) (s : string) : bool :=
  match s with
  | EmptyString => true
  | String c s' => p c && allChars p s'
  end.

(** a name of the hook convention: [use], an upper-case letter, word
    characters *)
Definition isHookName (s : string) : bool :=
  match s with
  | String c1 (String c2 (String c3 (String c4 rest))) =>
      Ascii.eqb "u" c1 && Ascii.eqb "s" c2 && Ascii.eqb "e" c3
      && JS.isUpper c4 && allChars JS.isWord rest
  | _ => false
  end.

(** the report of the lexical run of the project with the imported
    helper *)
Definition reportH : AnalysisResults :=
  Eval vm_compute in
    match fst (run runtimeH (mkConfig "src" regex_mode) filesH) with
    | Ok r => r
    | _ => emptyAnalysis
    end.

(** a project of one file whose size cannot be read *)
Definition runtimeNoSize : runtime :=
  mkRuntime "/proj" (tableGet [("src/x.js", "let y = 1;")])
            (fun _ => None) (fun _ => None) (fun _ => None) simpleRegExp.

(* ================================================================== *)
(** ** ast-analyzer.ts: [ASTAnalyzer.buildUsageMap] *)
(* ================================================================== *)

Module ASTUsageMap.

Section WithRuntime.

Variable rt : runtime.

(** the loop of [buildUsageMap] for one file *)
Definition usageStep (file : string) (usageMap : usageIndex) : M usageIndex :=
  Runtime.bind (ASTAnalyzer.analyzeFile rt file) (fun result =>
  let relativePath := Path.relative (cwd rt) (cwd rt) file in
  ret (fold_left (fun m usage => usagePush (use_name usage)
                                           (mkU relativePath (use_line usage)) m)
                 (usages result) usageMap)).

(** [buildUsageMap(files)] *)
Definition buildUsageMap (files : list string) : M usageIndex :=
  forEachM usageStep files ([], []).

End WithRuntime.

End ASTUsageMap.

(** the map of the usages that [analyzeAllFiles] returns, whole: its entries
    under a string and its other entries *)
Definition usagesOf (all : AllFiles) : usageIndex :=
  (all_usages all, all_others all).

(** the first file of a list that cannot be read *)
Fixpoint firstUnreadable (rt : runtime) (files : list string) : option string :=
  match files with
  | [] => None
  | file :: rest =>
      match readFileSync rt file with
      | None => Some file
      | Some _ => firstUnreadable rt rest
      end
  end.

(** the outcome of a computation seen through [f] *)
Definition mapOutcome {A B} (f : A -> B) (o : outcome A) : outcome B :=
  match o with
  | Ok a => Ok (f a)
  | Throw e => Throw e
  | Diverge => Diverge
  end.

(** the least number of characters a match of [r] takes *)
Fixpoint minLen (r : regex) : nat :=
  match r with
  | Chr _ => 1
  | Seq r1 r2 => minLen r1 + minLen r2
  | Alt r1 r2 => Nat.min (minLen r1) (minLen r2)
  | Group _ r1 => minLen r1
  | _ => 0
  end.

(** the patterns the matching loops of analyzer.ts run *)
Definition loopPatterns : list regex :=
  (PATTERNS_component ++ PATTERNS_function ++ PATTERNS_variable
   ++ PATTERNS_import ++ [typeImportPattern] ++ PATTERNS_usage)%list.

(** a computation ends: normally or by an exception *)
Definition ends {A} (c : M A) : Prop :=
  forall w, fst (c w) <> Diverge.

(** the lists of a report hold the issues of their own kind, and the list
    of unused exports holds nothing *)
Definition sorted_by_kind (a : AnalysisResults) : Prop :=
  Forall (fun i => issue_type i = TComponent) (unusedComponents a)
  /\ Forall (fun i => issue_type i = TFunction) (unusedFunctions a)
  /\ Forall (fun i => issue_type i = TVariable) (unusedVariables a)
  /\ Forall (fun i => issue_type i = TImport) (unusedImports a)
  /\ unusedExports a = [].

(** the line feed and the carriage return *)
Definition LFchar : ascii := ascii_of_nat 10.
Definition CRchar : ascii := ascii_of_nat 13.

(** a text without carriage returns *)
Definition noCR (s : string) : bool :=
  allChars (fun c => negb (Ascii.eqb c CRchar)) s.

(** an ASCII character: a code unit below 128; and a text of ASCII
    characters alone, which holds no line terminator and no white space but
    the ASCII ones *)
Definition isASCII (c : ascii) : bool := (nat_of_ascii c <? 128)%nat.
Definition asciiText (s : string) : bool := allChars isASCII s.

(** the pattern of [PATTERNS.variable] for a declaration that starts its
    line, [/^(?:\s* )(?:const|var|let)\s+([a-zA-Z_]\w* )\s*=/gm] *)
Definition lineStartVariable : regex := List.nth 1 PATTERNS_variable Eps.

(** no name of a file is of two kinds among component, function and
    variable *)
Definition disjointKinds (d : FileDefinitions) : Prop :=
  (forall n, In n (fd_components d) -> ~ In n (fd_functions d))
  /\ (forall n, In n (fd_variables d) ->
                ~ In n (fd_components d) /\ ~ In n (fd_functions d)).

(* ================================================================== *)
(** ** config-loader.ts, and the constructor of [DeadCodeAnalyzer] *)
(* ================================================================== *)

Module ConfigLoader.

(** *** [path.join] *)

(** the segments of a path without the empty and the "." ones, each ".."
    taking the segment before it away; above the start of a relative path
    the ".." stay *)
Fixpoint normalizeSegs (allowAboveRoot : bool) (segs acc : list string)
  : list string :=
  match segs with
  | [] => List.rev acc
  | s :: rest =>
      if String.eqb s EmptyString || String.eqb s "."
      then normalizeSegs allowAboveRoot rest acc
      else if String.eqb s ".." then
        match acc with
        | top :: acc' =>
            if String.eqb top ".."
            then normalizeSegs allowAboveRoot rest
                               (if allowAboveRoot then ".." :: acc else acc)
            else normalizeSegs allowAboveRoot rest acc'
        | [] =>
            normalizeSegs allowAboveRoot rest
                          (if allowAboveRoot then [".."] else [])
        end
      else normalizeSegs allowAboveRoot rest (s :: acc)
  end.

(** [path.normalize(p)] *)
Definition normalizePath (p : string) : string :=
  if String.eqb p EmptyString then "."
  else
    let isAbsolute := JS.startsWith p "/" in
    let trailingSeparator := JS.endsWith p "/" in
    let body :=
      JS.join "/" (normalizeSegs (negb isAbsolute) (Path.segments p) []) in
    if String.eqb body EmptyString
    then if isAbsolute then "/" else if trailingSeparator then "./" else "."
    else
      let body := if trailingSeparator then body ++ "/" else body in
      if isAbsolute then "/" ++ body else body.

(** [path.join(a, b)] *)
Definition join (a b : string) : string :=
  let joined :=
    if String.eqb a EmptyString then b
    else if String.eqb b EmptyString then a
    else a ++ "/" ++ b in
  if String.eqb joined EmptyString then "." else normalizePath joined.

(** *** The environment *)

(** What the loader takes from outside: the working directory, the file
    system and [JSON.parse]; [None] is an exception thrown by the call.
    Numbers of a parsed file are natural numbers. *)
Record env : Type := mkEnv {
  cwd : string;
  existsSync : string -> bool;
  readFileSync : string -> option string;
  JSON_parse : string -> option value
}.

(** a line of the console *)
Inductive line : Type :=
| Loaded (configFilePath : string)
| FailedToParse (configFilePath : string)
| UsingDefault.

(** how a call ends: with a value, by a [TypeError] that nothing catches,
    or never *)
Inductive ending (A : Type) : Type :=
| Returned (a : A)
| TypeError
| Hangs.
Arguments Returned {A} a.
Arguments TypeError {A}.
Arguments Hangs {A}.

(** [LoadedConfig], with the values as they are at run time *)
Record LoadedConfig : Type := mkLoaded {
  srcDir : value;
  ignorePatterns : value;
  analysisMode : value
}.

Definition DEFAULT_CONFIG : LoadedConfig :=
  mkLoaded (VStr "src")
           (VArr [VStr "**/node_modules/**"; VStr "**/.next/**";
                  VStr "**/dist/**"; VStr "**/build/**"; VStr "**/*.test.*";
                  VStr "**/*.spec.*"; VStr "**/__tests__/**";
                  VStr "**/__mocks__/**"])
           (VStr "ast").

Definition configNames : list string :=
  ["deadcoderc.json"; ".deadcoderc.json"; "deadcode.config.json"].

(** [a || b] *)
Definition or (a b : value) : value := if truthy a then a else b.

Section WithEnv.

Variable e : env.

(** the loop over [configNames] in one directory *)
Fixpoint firstExisting (currentDir : string) (names : list string)
  : option string :=
  match names with
  | [] => None
  | configName :: rest =>
      let configPath := join currentDir configName in
      if existsSync e configPath then Some configPath
      else firstExisting currentDir rest
  end.

(** the loop of [findConfigFile] and the check of the root after it;
    [None] when [fuel] iterations were not enough *)
Fixpoint searchUp (fuel : nat) (currentDir : string) : option (option string) :=
  match fuel with
  | O => None
  | S fuel' =>
      if negb (String.eqb currentDir (Path.dirname currentDir)) then
        match firstExisting currentDir configNames with
        | Some configPath => Some (Some configPath)
        | None => searchUp fuel' (Path.dirname currentDir)
        end
      else Some (firstExisting currentDir configNames)
  end.

(** [findConfigFile()] *)
Definition findConfigFile : option (option string) :=
  searchUp (S (S (String.length (cwd e)))) (cwd e).

(** the [try] block of [loadConfig]: what [configFile] is after it, and
    what was written *)
Definition readConfigFile (configFilePath : string) : value * list line :=
  match readFileSync e configFilePath with
  | None => (VObj [], [FailedToParse configFilePath; UsingDefault])
  | Some configContent =>
      match JSON_parse e configContent with
      | None => (VObj [], [FailedToParse configFilePath; UsingDefault])
      | Some parsed => (parsed, [Loaded configFilePath])
      end
  end.

(** the merge with the defaults; reading a property of [null] throws *)
Definition merge (configFile : value) : ending LoadedConfig :=
  match configFile with
  | VNull => TypeError
  | _ =>
      Returned
        (mkLoaded (or (field "srcDir" configFile) (srcDir DEFAULT_CONFIG))
                  (or (field "ignorePatterns" configFile)
                      (ignorePatterns DEFAULT_CONFIG))
                  (or (field "analysisMode" configFile)
                      (analysisMode DEFAULT_CONFIG)))
  end.

(** a string that is given and not empty *)
Definition given (s : option string) : option string :=
  match s with
  | Some x => if String.eqb x EmptyString then None else Some x
  | None => None
  end.

(** [loadConfig(configPath)] *)
Definition loadConfig (configPath : option string)
  : ending LoadedConfig * list line :=
  match
    match given configPath with
    | Some p => Some (Some p)
    | None => findConfigFile
    end
  with
  | None => (Hangs, [])
  | Some configFilePath =>
      let '(configFile, written) :=
        match given configFilePath with
        | Some p =>
            if existsSync e p then readConfigFile p else (VObj [], [])
        | None => (VObj [], [])
        end in
      (merge configFile, written)
  end.

(** what the caller hands to the constructor, [Partial<AnalyzerConfig>] *)
Record Options : Type := mkOptions {
  o_srcDir : option string;
  o_ignorePatterns : option (list string);
  o_configPath : option string;
  o_analysisMode : option string
}.

(** [this.config] *)
Record Resolved : Type := mkResolved {
  r_srcDir : value;
  r_ignorePatterns : value;
  r_configPath : option string;
  r_analysisMode : value
}.

(** [config?.k || fallback] for a string and for an array of strings *)
Definition orString (s : option string) (fallback : value) : value :=
  match given s with
  | Some x => VStr x
  | None => fallback
  end.
Definition orStrings (xs : option (list string)) (fallback : value) : value :=
  match xs with
  | Some l => VArr (List.map VStr l)
  | None => fallback
  end.

(** the configuration the constructor of [DeadCodeAnalyzer] builds *)
Definition construct (config : option Options) : ending Resolved * list line :=
  let get {A} (f : Options -> option A) : option A :=
    match config with Some c => f c | None => None end in
  match loadConfig (get o_configPath) with
  | (Returned fileConfig, written) =>
      (Returned
         (mkResolved (orString (get o_srcDir) (srcDir fileConfig))
                     (orStrings (get o_ignorePatterns) (ignorePatterns fileConfig))
                     (get o_configPath)
                     (orString (get o_analysisMode) (analysisMode fileConfig))),
       written)
  | (TypeError, written) => (TypeError, written)
  | (Hangs, written) => (Hangs, written)
  end.

End WithEnv.

End ConfigLoader.

(** the directory [k] levels above [dir] *)
Fixpoint ancestor (k : nat) (dir : string) : string :=
  match k with
  | O => dir
  | S k' => ancestor k' (Path.dirname dir)
  end.

(** a project with a configuration file in the parent of the working
    directory, which sets the analysis mode only *)
Definition envParent : ConfigLoader.env :=
  ConfigLoader.mkEnv "/home/app/web"
    (fun p => String.eqb p "/home/app/deadcoderc.json")
    (fun p => if String.eqb p "/home/app/deadcoderc.json"
              then Some "{ mode }" else None)
    (fun s => if String.eqb s "{ mode }"
              then Some (VObj [("analysisMode", VStr "regex")]) else None).

(** a project whose configuration file holds the word null *)
Definition envNull : ConfigLoader.env :=
  ConfigLoader.mkEnv "/proj"
    (fun p => String.eqb p "/proj/deadcoderc.json")
    (fun _ => Some "null")
    (fun _ => Some VNull).

(** a project whose configuration file is not JSON *)
Definition envBroken : ConfigLoader.env :=
  ConfigLoader.mkEnv "/proj"
    (fun p => String.eqb p "/proj/deadcoderc.json")
    (fun _ => Some "{")
    (fun _ => None).

(** what [findConfigFile] answers for the search that starts in [dir]: the
    first existing name of the nearest directory that has one, or nothing
    when no directory above has any *)
Definition nearest (e : ConfigLoader.env) (dir : string) (r : option string)
  : Prop :=
  match r with
  | Some p =>
      exists k,
        ConfigLoader.firstExisting e (ancestor k dir) ConfigLoader.configNames
        = Some p
        /\ forall j, j < k ->
             ConfigLoader.firstExisting e (ancestor j dir)
                                        ConfigLoader.configNames = None
  | None =>
      forall k,
        ConfigLoader.firstExisting e (ancestor k dir) ConfigLoader.configNames
        = None
  end.

(** the walk of the children of a node, each of them in full *)
Definition walkChildren (cwd filePath : string) (items : list value)
  (r : ASTAnalysisResult) : ASTAnalysisResult :=
  fold_left (fun r child => traverseAST cwd child r filePath) items r.

(** a step that only appends to the definitions and to the usages, and
    appends the same entries whatever was collected before it *)
Definition appending (F : ASTAnalysisResult -> ASTAnalysisResult) : Prop :=
  forall r,
    definitions (F r) = (definitions r ++ definitions (F emptyResult))%list
    /\ usages (F r) = (usages r ++ usages (F emptyResult))%list.

(** the set of imports holds the names of the import definitions, and
    nothing else *)
Definition importsMatch (r : ASTAnalysisResult) : Prop :=
  forall n,
    In n (imports r)
    <-> exists d, In d (definitions r) /\ def_type d = TImport /\ def_name d = n.

(** The trees of the parsers give the [imported] and the [local] of an
    import specifier that carries a name the type [Identifier]. *)
Fixpoint specifiersTyped (v : value) : bool :=
  match v with
  | VObj fs =>
      match nameOf (field "name" (lookup "imported" fs)) with
      | Some _ => typeIs (lookup "imported" fs) "Identifier"
      | None => true
      end
      && match nameOf (field "name" (lookup "local" fs)) with
         | Some _ => typeIs (lookup "local" fs) "Identifier"
         | None => true
         end
      && (fix all (l : list (string * value)) : bool :=
            match l with
            | [] => true
            | (_, x) :: l' => specifiersTyped x && all l'
            end) fs
  | VArr items =>
      (fix all (l : list value) : bool :=
         match l with
         | [] => true
         | x :: l' => specifiersTyped x && all l'
         end) items
  | _ => true
  end.

(** No name of the tree holds a colon. *)
Fixpoint namesPlain (v : value) : bool :=
  match v with
  | VObj fs =>
      match lookup "name" fs with
      | VStr s => negb (JS.includes s ":")
      | _ => true
      end
      && (fix all (l : list (string * value)) : bool :=
            match l with
            | [] => true
            | (_, x) :: l' => namesPlain x && all l'
            end) fs
  | VArr items =>
      (fix all (l : list value) : bool :=
         match l with
         | [] => true
         | x :: l' => namesPlain x && all l'
         end) items
  | _ => true
  end.

(** a tree as the parsers build them *)
Definition parserShaped (tree : value) : bool :=
  identifiersTyped tree && specifiersTyped tree && namesPlain tree.

(** [r] extends [r0] for the imports: the usages are kept, and each import
    definition was in [r0] or has a reference in [r] *)
Definition importExtends (r0 r : ASTAnalysisResult) : Prop :=
  usagesKept r0 r
  /\ forall d, In d (definitions r) -> def_type d = TImport ->
               In d (definitions r0) \/ hasReference (def_name d) r.

(** a step that adds no import definition *)
Definition keepsImports (r0 r : ASTAnalysisResult) : Prop :=
  usagesKept r0 r
  /\ forall d, In d (definitions r) -> def_type d = TImport ->
               In d (definitions r0).

(** the definition [d] carries the name of a specifier of [node] *)
Definition importedAt (node : value) (d : ASTDefinition) : Prop :=
  isBuiltinOrCommon (def_name d) = false
  /\ exists specifier,
       In specifier (elements (field "specifiers" node))
       /\ importName specifier = Some (def_name d).

(** what the dispatch on [node] leaves to the loop over its properties,
    for the imports *)
Definition importPending (node : value) (r0 r : ASTAnalysisResult) : Prop :=
  usagesKept r0 r
  /\ forall d, In d (definitions r) -> def_type d = TImport ->
               In d (definitions r0) \/ hasReference (def_name d) r
               \/ importedAt node d.

(** no name of a definition holds a colon *)
Definition plainDefs (r : ASTAnalysisResult) : Prop :=
  forall d, In d (definitions r) -> JS.includes (def_name d) ":" = false.

(** each definition of the index is filed under the relative path of a
    file of the run and its own name, and has a usage under that name *)
Definition allReferenced (rt : runtime) (files : list string) (all : AllFiles)
  : Prop :=
  forall key defs d,
    In (key, defs) (all_definitions all) -> In d defs ->
    exists file u,
      In file files
      /\ key = Path.relative (cwd rt) (cwd rt) file ++ ":" ++ def_name d
      /\ JS.includes (def_name d) ":" = false
      /\ holds (all_usages all) (def_name d) u.

(** the structural run of scenario A with the importing file *)
Definition reportAB : AnalysisResults :=
  Eval vm_compute in
    match fst (run runtimeAB (mkConfig "src" ast_mode) filesAB) with
    | Ok r => r
    | _ => emptyAnalysis
    end.

(** a report that holds files only *)
Definition filesOnly (a : AnalysisResults) : Prop :=
  unusedComponents a = [] /\ unusedFunctions a = [] /\ unusedVariables a = []
  /\ unusedImports a = [] /\ unusedExports a = [].

(** the character before the position reached after the characters [l] *)
Definition prevAfter (l : list ascii) (p : option ascii) : option ascii :=
  fold_left (fun _ c => Some c) l p.

(** [matches r s l s']: the pattern [r] can take the matcher from the
    position [s] to the position [s'], through the characters [l]; the
    assertions take no character *)
Inductive matches : regex -> mstate -> list ascii -> mstate -> Prop :=
| M_eps s : matches Eps s [] s
| M_chr p c t s :
    rest s = c :: t -> p c = true ->
    matches (Chr p) s [c] (mkState (S (pos s)) (Some c) t (caps s))
| M_seq r1 r2 s l1 s1 l2 s2 :
    matches r1 s l1 s1 -> matches r2 s1 l2 s2 ->
    matches (Seq r1 r2) s (l1 ++ l2) s2
| M_alt_left r1 r2 s l s1 : matches r1 s l s1 -> matches (Alt r1 r2) s l s1
| M_alt_right r1 r2 s l s1 : matches r2 s l s1 -> matches (Alt r1 r2) s l s1
| M_star_stop g r s : matches (Star g r) s [] s
| M_star_more g r s l1 s1 l2 s2 :
    matches r s l1 s1 -> matches (Star g r) s1 l2 s2 ->
    matches (Star g r) s (l1 ++ l2) s2
| M_group n r s l s1 :
    matches r s l s1 -> matches (Group n r) s l (capture n s s1)
| M_bol m s : matches (Bol m) s [] s
| M_eol m s : matches (Eol m) s [] s
| M_wordb s : matches WordB s [] s
| M_notahead r s : matches (NotAhead r) s [] s.

(** a pattern without capturing group *)
Fixpoint groupFree (r : regex) : bool :=
  match r with
  | Seq r1 r2 | Alt r1 r2 => groupFree r1 && groupFree r2
  | Star _ r1 | NotAhead r1 => groupFree r1
  | Group _ _ => false
  | _ => true
  end.

(** a pattern of a declaration: after group-free parts come white space,
    the first group around a name made of a first character of the class
    [cls] and word characters, optional white space and a character of the
    class [q] that is no word character *)
Inductive declares : regex -> Prop :=
| D_skip a r : groupFree a = true -> declares r -> declares (Seq a r)
| D_last cls q :
    (forall c, cls c = true -> JS.isWord c = true) ->
    (forall c, q c = true -> JS.isWord c = false) ->
    declares (Seq ws1 (Seq (Group 1 (Seq (Chr cls) words)) (Seq ws0 (Chr q))))
| D_more cls q tail :
    (forall c, cls c = true -> JS.isWord c = true) ->
    (forall c, q c = true -> JS.isWord c = false) ->
    groupFree tail = true ->
    declares (Seq ws1 (Seq (Group 1 (Seq (Chr cls) words))
                           (Seq ws0 (Seq (Chr q) tail)))).

(** the pattern the source [\bNAME\b] stands for *)
Definition wordPattern (name : string) : regex :=
  Seq WordB (Seq (lit name) WordB).

(** the definitions of a file that are no imports *)
Definition declaredNames (d : FileDefinitions) : list string :=
  (fd_components d ++ fd_functions d ++ fd_variables d)%list.

(** each declared name is made of word characters and stands as a word in
    the text *)
Definition standsIn (text : string) (d : FileDefinitions) : Prop :=
  forall n, In n (declaredNames d) ->
            allChars JS.isWord n = true /\ test (wordPattern n) text = true.

(** a report without component, function and variable *)
Definition noDeclarations (a : AnalysisResults) : Prop :=
  unusedComponents a = [] /\ unusedFunctions a = [] /\ unusedVariables a = [].

(** what is left of [\bNAME\b] without its first two and last two
    characters *)
Definition middle (source : string) : string :=
  JS.substring0 (JS.drop 2 source) (String.length source - 4).

(** a constructor of patterns that reads the sources [\bNAME\b] as the
    word [NAME], and the other sources as [simpleRegExp] does *)
Definition wordRegExp (source : string) : option regex :=
  if String.eqb source ("\b" ++ middle source ++ "\b")
  then Some (wordPattern (middle source))
  else simpleRegExp source.

(** scenario A with that constructor *)
Definition runtimeW : runtime :=
  mkRuntime "/proj" (tableGet [("src/a.js", contentA)])
            (fun p => option_map String.length
                        (tableGet [("src/a.js", contentA)] p))
            (fun _ => None) (fun _ => None) wordRegExp.

Definition reportW : AnalysisResults :=
  Eval vm_compute in
    match fst (run runtimeW (mkConfig "src" regex_mode) filesA) with
    | Ok r => r
    | _ => emptyAnalysis
    end.

(** a text without slash *)
Definition noSlash (s : string) : bool :=
  allChars (fun c => negb (Ascii.eqb "/" c)) s.

(** the number of lines of a text *)
Definition lineCount (content : string) : nat :=
  lineAt content (String.length content).

(** each usage of the map points into a file of the run that was read, at
    one of its lines *)
Definition usagesLocated (rt : runtime) (config : AnalyzerConfig)
  (files : list string) (usageMap : list (string * list Usage)) : Prop :=
  forall name us u,
    In (name, us) usageMap -> In u us ->
    exists f content,
      In f files
      /\ readFileSync rt f = Some content
      /\ file u = Path.relative (cwd rt) (srcDir config) f
      /\ 1 <= line u <= lineCount content.

(** a computation that writes nothing and ends the same way whatever was
    written before it *)
Definition silent {A} (c : M A) : Prop :=
  forall w, c w = (fst (c []), w).

(** the lexical run of scenario A with the importing file *)
Definition reportABlexical : AnalysisResults :=
  Eval vm_compute in
    match fst (run runtimeAB (mkConfig "src" regex_mode) filesAB) with
    | Ok r => r
    | _ => emptyAnalysis
    end.

(** an initial value that is a function: an arrow function or a function
    expression *)
Definition functionValued (init : value) : bool :=
  typeIs init "ArrowFunctionExpression" || typeIs init "FunctionExpression".

(** the kind of a function-valued definition by the name and the path
    alone: a component when the name starts with an upper-case letter and
    the file is an entry point, a function otherwise *)
Definition functionKind (cwd name filePath : string) : defType :=
  if startsUpper name && isNextJsEntryPoint cwd filePath
  then TComponent else TFunction.

(** what a function declaration is to be recorded as: nothing when it has
    no name or a name the filters reject *)
Definition declaredFunction (cwd filePath : string) (node : value)
  : list ASTDefinition :=
  match nameOf (field "name" (field "id" node)) with
  | Some name =>
      if isBuiltinOrCommon name then []
      else [mkDef name (functionKind cwd name filePath) (lineOf node)]
  | None => []
  end.

(** what a declarator of a variable declaration on the line [line] is to be
    recorded as *)
Definition declared (cwd filePath : string) (line : nat) (declaration : value)
  : list ASTDefinition :=
  match nameOf (field "name" (field "id" declaration)) with
  | Some name =>
      if isBuiltinOrCommon name then []
      else [mkDef name
                  (if functionValued (field "init" declaration)
                   then functionKind cwd name filePath
                   else TVariable)
                  line]
  | None => []
  end.

(** [visits tree node]: the walk of [tree] meets [node], which is the tree
    itself, or is met below a property other than [type] and [loc], or below
    an element of an array *)
Inductive visits : value -> value -> Prop :=
| visits_here : forall node, visits node node
| visits_field : forall fs k v node,
    In (k, v) fs ->
    negb (String.eqb k "type") && negb (String.eqb k "loc") = true ->
    visits v node -> visits (VObj fs) node
| visits_item : forall items v node,
    In v items -> visits v node -> visits (VArr items) node.

(** A component by its content in a file that is no entry point, and an
    arrow function in a page. The tree of the second file is the one of
    @typescript-eslint/parser, with its tokens. *)
Definition jsxDiv (l : nat) : value :=
  VObj [("type", VStr "JSXElement"); ("loc", locAt l);
        ("openingElement",
         VObj [("type", VStr "JSXOpeningElement"); ("loc", locAt l);
               ("name", VObj [("type", VStr "JSXIdentifier"); ("loc", locAt l);
                              ("name", VStr "div")]);
               ("attributes", VArr []); ("selfClosing", VBool true)]);
        ("closingElement", VNull); ("children", VArr [])].

Definition contentButton : string := "function Button() { return <div/>; }".
Definition nodeButton : value :=
  VObj [("type", VStr "FunctionDeclaration"); ("loc", locAt 1);
        ("id", identifier "Button" 1);
        ("generator", VBool false); ("async", VBool false);
        ("params", VArr []);
        ("body",
         VObj [("type", VStr "BlockStatement"); ("loc", locAt 1);
               ("body", VArr [VObj [("type", VStr "ReturnStatement");
                                    ("loc", locAt 1);
                                    ("argument", jsxDiv 1)]]);
               ("directives", VArr [])])].
Definition treeButton : value := babelFile [nodeButton].

Definition token (type text : string) (l : nat) : value :=
  VObj [("type", VStr type); ("value", VStr text); ("loc", locAt l)].

Definition contentWidget : string := "const Widget = () => <div/>;".
Definition declaratorWidget : value :=
  VObj [("type", VStr "VariableDeclarator"); ("definite", VBool false);
        ("id", VObj [("type", VStr "Identifier"); ("decorators", VArr []);
                     ("name", VStr "Widget"); ("optional", VBool false);
                     ("loc", locAt 1)]);
        ("init", VObj [("type", VStr "ArrowFunctionExpression");
                       ("generator", VBool false); ("id", VNull);
                       ("params", VArr []); ("body", jsxDiv 1);
                       ("async", VBool false); ("expression", VBool true);
                       ("loc", locAt 1)]);
        ("loc", locAt 1)].
Definition nodeWidget : value :=
  VObj [("type", VStr "VariableDeclaration");
        ("declarations", VArr [declaratorWidget]);
        ("declare", VBool false); ("kind", VStr "const"); ("loc", locAt 1)].
Definition treeWidget : value :=
  VObj [("type", VStr "Program"); ("body", VArr [nodeWidget]);
        ("comments", VArr []); ("sourceType", VStr "module");
        ("tokens", VArr [token "Keyword" "const" 1; token "Identifier" "Widget" 1;
                         token "Punctuator" "=" 1; token "Punctuator" "(" 1;
                         token "Punctuator" ")" 1; token "Punctuator" "=>" 1;
                         token "Punctuator" "<" 1; token "JSXIdentifier" "div" 1;
                         token "Punctuator" "/" 1; token "Punctuator" ">" 1;
                         token "Punctuator" ";" 1]);
        ("loc", locAt 1)].

Definition filesKinds : list string := ["src/Button.jsx"; "src/app/page.tsx"].
Definition runtimeKinds : runtime :=
  scenario [("src/Button.jsx", contentButton); ("src/app/page.tsx", contentWidget)]
           [(contentButton, treeButton); (contentWidget, treeWidget)].

(** the names of the issues of a report *)
Definition reportedNames (a : AnalysisResults) : list string :=
  List.map issue_name
    (unusedComponents a ++ unusedFunctions a ++ unusedVariables a
     ++ unusedExports a ++ unusedImports a)%list.

(** every name a report gives passes the two filters *)
Definition reportFiltered (a : AnalysisResults) : Prop :=
  forall n, In n (reportedNames a) -> isBuiltinOrCommon n = false.

(** each definition of the index is filed under the relative path of a file
    of the run and its own name, which holds no colon and passes the two
    filters *)
Definition allKeyed (rt : runtime) (files : list string) (all : AllFiles)
  : Prop :=
  forall key defs d,
    In (key, defs) (all_definitions all) -> In d defs ->
    exists file,
      In file files
      /\ key = Path.relative (cwd rt) (cwd rt) file ++ ":" ++ def_name d
      /\ JS.includes (def_name d) ":" = false
      /\ isBuiltinOrCommon (def_name d) = false.

(** Scenario A in a file whose name holds colons. *)
Definition filesColon : list string := ["src/a:React:b.js"].
Definition runtimeColon : runtime :=
  scenario [("src/a:React:b.js", contentA)] [(contentA, treeA)].
Definition reportColon : AnalysisResults :=
  Eval vm_compute in
    match fst (run runtimeColon (mkConfig "src" ast_mode) filesColon) with
    | Ok r => r
    | _ => emptyAnalysis
    end.

(* ================================================================== *)
(** * Properties *)
(* ================================================================== *)

(** ** The matcher at the start of a subject *)

Lemma search_anchored_later (r : regex) (l : list ascii) :
  forall i c, search (Seq (Bol false) r) i (Some c) l = None.
Proof.
  induction l as [|d l IH]; intros i c; simpl; auto.
Qed.

(** [/^[A-Z]/.test(name)] looks at the first character only *)
Lemma test_upper_start (name : string) :
  test (seq [Bol false; upper]) name = startsUpper name.
Proof.
  unfold test, exec. simpl at_index.
  destruct name as [|c name']; simpl.
  - reflexivity.
  - destruct (JS.isUpper c); simpl; auto.
    rewrite search_anchored_later. reflexivity.
Qed.

(** ** utils.ts *)

(** C8. [isLikelyComponent] is false for every name whose first character
    is not an upper-case letter, whatever the content and the path. *)
Theorem isLikelyComponent_lowercase_false :
  forall (cwd name content filePath : string),
    startsUpper name = false ->
    isLikelyComponent cwd name content filePath = false.
Proof.
  intros cwd name content filePath H.
  unfold isLikelyComponent.
  rewrite test_upper_start, H. reflexivity.
Qed.

Lemma isLikelyComponent_lowercase_false_witness :
  startsUpper "foo" = false /\
  isLikelyComponent "/proj" "foo" "return <div className='x'/>" "src/app/page.tsx"
  = false.
Proof.
  split; [reflexivity|].
  apply (isLikelyComponent_lowercase_false "/proj" "foo"
           "return <div className='x'/>" "src/app/page.tsx").
  reflexivity.
Defined.

(** on the empty content none of the content signals fires *)
Lemma isLikelyComponent_empty_content (cwd name filePath : string) :
  isLikelyComponent cwd name EmptyString filePath
  = startsUpper name && isNextJsEntryPoint cwd filePath.
Proof.
  unfold isLikelyComponent. rewrite test_upper_start.
  destruct (startsUpper name); [|reflexivity].
  change (JS.includes EmptyString useClientDirective) with false.
  cbv iota. destruct (isNextJsEntryPoint cwd filePath); [reflexivity|].
  repeat match goal with
         | |- context [test ?r EmptyString] =>
             change (test r EmptyString) with false
         end.
  simpl. rewrite andb_false_r. reflexivity.
Qed.

(** six base names that are entry points wherever they lie *)
Lemma isNextJsEntryPoint_basename (cwd filePath : string) :
  In (Path.basename filePath)
     ["page.tsx"; "layout.ts"; "route.ts"; "middleware.ts"; "_app.tsx";
      "_document.tsx"] ->
  isNextJsEntryPoint cwd filePath = true.
Proof.
  intros H. unfold isNextJsEntryPoint.
  simpl in H.
  repeat (destruct H as [H|H]; [rewrite <- H; reflexivity|]).
  contradiction.
Qed.

(** C7. A file below a top-level [app] directory of the project: its path
    contains the segment [app], its path relative to the working directory
    starts with that segment, and [isNextJsEntryPoint] answers false. *)
Theorem isNextJsEntryPoint_top_level_app :
  In "app" (Path.segments "/proj/app/dashboard/widget.tsx")
  /\ Path.relative "/proj" "/proj" "/proj/app/dashboard/widget.tsx"
     = "app/dashboard/widget.tsx"
  /\ isNextJsEntryPoint "/proj" "/proj/app/dashboard/widget.tsx" = false
  /\ isNextJsEntryPoint "/proj" "app/dashboard/widget.tsx" = false.
Proof.
  repeat split; try reflexivity.
  vm_compute. auto.
Qed.

(** ** The usage map *)

Lemma mapGet_mapPush_same {V} (k : string) (v : V) (m : list (string * list V)) :
  mapGet k (mapPush k v m)
  = Some (match mapGet k m with Some vs => vs ++ [v] | None => [v] end)%list.
Proof.
  induction m as [|[k' vs] m IH]; simpl.
  - rewrite String.eqb_refl. reflexivity.
  - destruct (String.eqb k' k) eqn:E; simpl; rewrite E; auto.
Qed.

Lemma mapGet_mapPush_other {V} (k k' : string) (v : V)
  (m : list (string * list V)) :
  k' <> k -> mapGet k' (mapPush k v m) = mapGet k' m.
Proof.
  intros Hne. induction m as [|[k0 vs] m IH]; simpl.
  - destruct (String.eqb k k') eqn:E; auto.
    apply String.eqb_eq in E. congruence.
  - destruct (String.eqb k0 k) eqn:E; simpl.
    + apply String.eqb_eq in E. subst k0.
      destruct (String.eqb k k') eqn:E'; auto.
      apply String.eqb_eq in E'. congruence.
    + destruct (String.eqb k0 k'); auto.
Qed.

(** ** The cross-reference decision *)

(** a usage of the name in another file makes the lexical verdict "used",
    whenever the three local patterns can be built *)
Lemma isUsed_other_file (rt : runtime) usageMap definitions
  (filePath content name : string) (u : Usage) (w : list warning) :
  file u <> filePath ->
  (exists b, fst (isUsed rt usageMap definitions filePath content name w) = Ok b) ->
  fst (isUsed rt (mapPush name u usageMap) definitions filePath content name w)
  = Ok true.
Proof.
  intros Hfile [b Hb]. revert Hb.
  unfold isUsed, bind, compile, ret, throw.
  destruct (newRegExp rt ("\b" ++ name ++ "\s*\(")); [|discriminate].
  destruct (newRegExp rt ("<" ++ name ++ "[\s/>]")); [|discriminate].
  destruct (newRegExp rt ("\b" ++ name ++ "\b")); [|discriminate].
  intros _. rewrite mapGet_mapPush_same.
  assert (Hneq : negb (String.eqb (file u) filePath) = true).
  { apply negb_true_iff. apply String.eqb_neq. exact Hfile. }
  destruct (mapGet name usageMap) as [vs|].
  - rewrite existsb_app. simpl. rewrite Hneq, orb_true_r. reflexivity.
  - simpl. rewrite Hneq. reflexivity.
Qed.

Lemma isUsedAST_push (usageMap : list (string * list Usage)) (name : string)
  (u : Usage) :
  isUsedAST (mapPush name u usageMap) name = true.
Proof.
  unfold isUsedAST. rewrite mapGet_mapPush_same.
  destruct (mapGet name usageMap) as [[|v vs]|]; reflexivity.
Qed.

(** C5. The verdict is monotone in the usages: after a usage of the
    definition's name in a file other than the defining one is added to the
    usage map, a definition that was used is still used, under the lexical
    decision [isUsed] and under the structural one. *)
Theorem isUsed_monotone :
  forall (rt : runtime) (usageMap : list (string * list Usage))
         (definitions : FileDefinitions) (filePath content name : string)
         (u : Usage) (w : list warning),
    file u <> filePath ->
    (fst (isUsed rt usageMap definitions filePath content name w) = Ok true ->
     fst (isUsed rt (mapPush name u usageMap) definitions filePath content name w)
     = Ok true)
    /\ (isUsedAST usageMap name = true ->
        isUsedAST (mapPush name u usageMap) name = true).
Proof.
  intros rt usageMap definitions filePath content name u w Hfile. split.
  - intros H. apply isUsed_other_file; eauto.
  - intros _. apply isUsedAST_push.
Qed.

(** ** Effects: what ends a run *)

Lemma bind_ok {A B} (c : M A) (k : A -> M B) (w w' : list warning) (a : A) :
  c w = (Ok a, w') -> bind c k w = k a w'.
Proof.
  intros H. unfold bind. rewrite H. reflexivity.
Qed.

(** a loop ends normally when its body always does *)
Lemma forEachM_succeeds {A S} (f : A -> S -> M S) (xs : list A) :
  (forall x, In x xs -> forall s w, succeeded (f x s w) = true) ->
  forall s w, succeeded (forEachM f xs s w) = true.
Proof.
  induction xs as [|y xs IH]; intros H s w.
  - reflexivity.
  - simpl. unfold bind.
    pose proof (H y (or_introl eq_refl) s w) as Hy.
    unfold succeeded in Hy.
    destruct (f y s w) as [[s'| |] w']; simpl in Hy; try discriminate.
    apply IH. intros x Hx. apply H. right. exact Hx.
Qed.

Lemma succeeded_ok {A} (o : outcome A * list warning) :
  succeeded o = true -> exists a w, o = (Ok a, w).
Proof.
  destruct o as [[a| |] w]; unfold succeeded; simpl; try discriminate.
  eauto.
Qed.

(** ** Read failures *)

(** C3, counterexample. With one file of the set unreadable, the run of
    either strategy ends with the read error and returns no result. *)
Lemma read_failure_is_fatal :
  run runtimeA (mkConfig "src" ast_mode) filesGone
  = (Throw (ReadError "src/gone.js"), [])
  /\ run runtimeA (mkConfig "src" regex_mode) filesGone
     = (Throw (ReadError "src/gone.js"), [])
  /\ ~ (exists r w, run runtimeA (mkConfig "src" ast_mode) filesGone = (Ok r, w))
  /\ ~ (exists r w, run runtimeA (mkConfig "src" regex_mode) filesGone = (Ok r, w)).
Proof.
  assert (Ha : run runtimeA (mkConfig "src" ast_mode) filesGone
               = (Throw (ReadError "src/gone.js"), [])) by (vm_compute; reflexivity).
  assert (Hr : run runtimeA (mkConfig "src" regex_mode) filesGone
               = (Throw (ReadError "src/gone.js"), [])) by (vm_compute; reflexivity).
  repeat split; auto.
  - intros [r [w H]]. rewrite Ha in H. discriminate.
  - intros [r [w H]]. rewrite Hr in H. discriminate.
Qed.

(** ** Parse failures *)

Lemma collect_empty (relativePath : string) (acc : AllFiles) :
  collect relativePath emptyResult acc = acc.
Proof.
  destruct acc. reflexivity.
Qed.

Lemma analyzeStep_readable (rt : runtime) (file : string) :
  readFileSync rt file <> None ->
  forall acc w, succeeded (analyzeStep rt file acc w) = true.
Proof.
  intros H acc w.
  unfold analyzeStep, ASTAnalyzer.analyzeFile, readFile, bind, ret, warn, throw.
  destruct (readFileSync rt file) as [content|]; [|congruence].
  destruct (parseFile rt file content); reflexivity.
Qed.

(** C6. When the parser fails on a file that was read, [analyzeFile]
    catches the failure, logs a warning and returns the empty result; the
    loop over the files goes on with what it had collected; and whatever the
    parsers answer, the structural analysis of readable files ends
    normally. *)
Theorem parse_failure_is_recovered :
  forall (rt : runtime) (filePath content : string) (rest : list string)
         (acc : AllFiles) (w : list warning),
    readFileSync rt filePath = Some content ->
    parseFile rt filePath content = None ->
    ASTAnalyzer.analyzeFile rt filePath w
    = (Ok emptyResult, (w ++ [ParseFailed filePath])%list)
    /\ forEachM (analyzeStep rt) (filePath :: rest) acc w
       = forEachM (analyzeStep rt) rest acc (w ++ [ParseFailed filePath])%list
    /\ (forall (allFiles : list string),
          (forall f, In f allFiles -> readFileSync rt f <> None) ->
          exists analysis w',
            performASTAnalysis rt allFiles emptyAnalysis w = (Ok analysis, w')).
Proof.
  intros rt filePath content rest acc w Hread Hparse.
  assert (Hfile : ASTAnalyzer.analyzeFile rt filePath w
                  = (Ok emptyResult, (w ++ [ParseFailed filePath])%list)).
  { unfold ASTAnalyzer.analyzeFile, readFile, bind, ret, warn.
    rewrite Hread, Hparse. reflexivity. }
  split; [exact Hfile|]. split.
  - assert (Hstep : analyzeStep rt filePath acc w
                    = (Ok acc, (w ++ [ParseFailed filePath])%list)).
    { unfold analyzeStep. rewrite (bind_ok _ _ _ _ _ Hfile).
      unfold ret. rewrite collect_empty. reflexivity. }
    change (forEachM (analyzeStep rt) (filePath :: rest) acc w)
      with (bind (analyzeStep rt filePath acc) (forEachM (analyzeStep rt) rest) w).
    apply bind_ok. exact Hstep.
  - intros allFiles Hall.
    apply succeeded_ok.
    unfold performASTAnalysis, bind.
    pose proof (forEachM_succeeds (analyzeStep rt) allFiles
                  (fun x Hx => analyzeStep_readable rt x (Hall x Hx))
                  (mkAll [] [] [] [] []) w) as H.
    unfold analyzeAllFiles.
    destruct (forEachM (analyzeStep rt) allFiles (mkAll [] [] [] [] []) w)
      as [[a| |] w']; unfold succeeded in H; simpl in H; try discriminate.
    reflexivity.
Qed.

Lemma parse_failure_is_recovered_witness :
  ASTAnalyzer.analyzeFile runtimeH "src/b.js" []
  = (Ok emptyResult, [ParseFailed "src/b.js"]).
Proof.
  apply (parse_failure_is_recovered runtimeH "src/b.js" contentImporter []
           (mkAll [] [] [] [] []) []); reflexivity.
Defined.

(** ** The filter on recorded names *)

Lemma guard_passes (name : string) :
  negb (BUILT_INS_has name) && negb (isCommonPattern name) = true ->
  isBuiltinOrCommon name = false.
Proof.
  unfold isBuiltinOrCommon.
  destruct (BUILT_INS_has name), (isCommonPattern name); simpl; congruence.
Qed.

Lemma fold_left_invariant {A B} (P : A -> Prop) (f : A -> B -> A) (l : list B) :
  (forall a b, In b l -> P a -> P (f a b)) ->
  forall a, P a -> P (fold_left f l a).
Proof.
  induction l as [|b l IH]; intros Hf a Ha; simpl; auto.
  apply IH.
  - intros a' b' Hin. apply Hf. right. exact Hin.
  - apply Hf; [left; reflexivity | exact Ha].
Qed.

Lemma setAdd_In (x n : string) (s : list string) :
  In n (setAdd x s) -> n = x \/ In n s.
Proof.
  unfold setAdd. destruct (JS.arrayIncludes s x); auto.
  rewrite in_app_iff. simpl. intuition.
Qed.

Lemma in_map_VStr (n : string) (l : list string) :
  In (VStr n) (List.map VStr l) <-> In n l.
Proof.
  rewrite in_map_iff. split.
  - intros [x [E H]]. inversion E; subst. exact H.
  - intros H. exists n. auto.
Qed.

Lemma in_map_def_name (n : string) (l : list ASTDefinition) :
  In (VStr n) (List.map (fun d => VStr (def_name d)) l)
  <-> exists d, In d l /\ def_name d = n.
Proof.
  rewrite in_map_iff. split.
  - intros [d [E H]]. inversion E; subst. eauto.
  - intros [d [H E]]. exists d. subst. auto.
Qed.

Lemma filtered_parts (r : ASTAnalysisResult) :
  filtered r <->
  (forall d, In d (definitions r) -> isBuiltinOrCommon (def_name d) = false)
  /\ (forall u n, In u (usages r) -> use_name u = VStr n ->
                  isBuiltinOrCommon n = false)
  /\ (forall n, In n (exports r) -> isBuiltinOrCommon n = false)
  /\ (forall n, In n (imports r) -> isBuiltinOrCommon n = false).
Proof.
  unfold filtered, recordedNames. split.
  - intros H. repeat split.
    + intros d Hd. apply H. rewrite in_app_iff. left.
      apply in_map_def_name. eauto.
    + intros u n Hu E. apply H. rewrite !in_app_iff. right. left.
      rewrite <- E. apply in_map. exact Hu.
    + intros n Hn. apply H. rewrite !in_app_iff. right. right. left.
      apply in_map_VStr. exact Hn.
    + intros n Hn. apply H. rewrite !in_app_iff. right. right. right.
      apply in_map_VStr. exact Hn.
  - intros [Hd [Hu [He Hi]]] n. rewrite !in_app_iff.
    rewrite in_map_def_name, !in_map_VStr, in_map_iff.
    intros [[d [H <-]]|[[u [E H]]|[H|H]]]; eauto.
Qed.

Lemma filtered_pushDefinition d r :
  isBuiltinOrCommon (def_name d) = false -> filtered r ->
  filtered (pushDefinition d r).
Proof.
  intros Hd Hr. apply filtered_parts in Hr. destruct Hr as [H1 [H2 [H3 H4]]].
  apply filtered_parts. simpl. repeat split; auto.
  intros x Hx. apply in_app_or in Hx. destruct Hx as [Hx|[<-|[]]]; auto.
Qed.

Lemma filtered_pushUsage u r :
  (forall n, use_name u = VStr n -> isBuiltinOrCommon n = false) ->
  filtered r -> filtered (pushUsage u r).
Proof.
  intros Hd Hr. apply filtered_parts in Hr. destruct Hr as [H1 [H2 [H3 H4]]].
  apply filtered_parts. simpl. repeat split; auto.
  intros x n Hx. apply in_app_or in Hx. destruct Hx as [Hx|[<-|[]]]; eauto.
Qed.

Lemma filtered_addExport x r :
  isBuiltinOrCommon x = false -> filtered r -> filtered (addExport x r).
Proof.
  intros Hd Hr. apply filtered_parts in Hr. destruct Hr as [H1 [H2 [H3 H4]]].
  apply filtered_parts. simpl. repeat split; auto.
  intros n Hn. apply setAdd_In in Hn. destruct Hn as [->|Hn]; auto.
Qed.

Lemma filtered_addImport x r :
  isBuiltinOrCommon x = false -> filtered r -> filtered (addImport x r).
Proof.
  intros Hd Hr. apply filtered_parts in Hr. destruct Hr as [H1 [H2 [H3 H4]]].
  apply filtered_parts. simpl. repeat split; auto.
  intros n Hn. apply setAdd_In in Hn. destruct Hn as [->|Hn]; auto.
Qed.

Create HintDb filtered.
#[local] Hint Resolve filtered_pushDefinition filtered_pushUsage
  filtered_addExport filtered_addImport guard_passes : filtered.

Lemma filtered_recordUsage name line context r :
  filtered r -> filtered (recordUsage name line context r).
Proof.
  intros Hr. unfold recordUsage.
  destruct (negb (BUILT_INS_hasValue name)
            && negb (isCommonPattern (toString name))) eqn:E; auto.
  apply filtered_pushUsage; auto. simpl. intros n ->.
  apply guard_passes. exact E.
Qed.

Lemma filtered_handleImportDeclaration node r :
  filtered r -> filtered (handleImportDeclaration node r).
Proof.
  unfold handleImportDeclaration. apply fold_left_invariant.
  intros a b _ Ha. destruct (importName b) as [name|]; auto.
  destruct (negb (BUILT_INS_has name) && negb (isCommonPattern name)) eqn:E; auto.
  apply filtered_pushDefinition; simpl; auto with filtered.
Qed.

Lemma filtered_handleExportSpecifiers node r :
  filtered r -> filtered (handleExportSpecifiers node r).
Proof.
  unfold handleExportSpecifiers. apply fold_left_invariant.
  intros a b _ Ha.
  destruct (orElse _ _) as [name|]; auto.
  destruct (negb (BUILT_INS_has name) && negb (isCommonPattern name)) eqn:E;
    auto with filtered.
Qed.

Lemma filtered_handleVariableDeclaration cwd node filePath r :
  filtered r -> filtered (handleVariableDeclaration cwd node filePath r).
Proof.
  unfold handleVariableDeclaration. apply fold_left_invariant.
  intros a b _ Ha.
  destruct (nameOf _) as [name|]; auto.
  destruct (BUILT_INS_has name || isCommonPattern name) eqn:E; auto.
  change (isBuiltinOrCommon name = false) in E.
  repeat match goal with
         | |- filtered (if ?c then _ else _) => destruct c
         | |- filtered (addExport _ _) => apply filtered_addExport; auto
         | |- filtered (pushDefinition _ _) => apply filtered_pushDefinition; auto
         end.
Qed.

Lemma filtered_handleFunctionDeclaration cwd node filePath r :
  filtered r -> filtered (handleFunctionDeclaration cwd node filePath r).
Proof.
  intros Hr. unfold handleFunctionDeclaration.
  destruct (nameOf _) as [name|]; auto.
  destruct (BUILT_INS_has name || isCommonPattern name) eqn:E; auto.
  change (isBuiltinOrCommon name = false) in E.
  repeat match goal with
         | |- filtered (if ?c then _ else _) => destruct c
         | |- filtered (addExport _ _) => apply filtered_addExport; auto
         | |- filtered (pushDefinition _ _) => apply filtered_pushDefinition; auto
         end.
Qed.

(** the walk keeps the filter: induction on the fuel *)
Lemma filtered_traverse cwd filePath :
  forall fuel node r, filtered r -> filtered (traverse cwd fuel node filePath r).
Proof.
  induction fuel as [|fuel IH]; intros node r Hr; simpl; auto.
  assert (Heach : forall items r0, filtered r0 ->
            filtered (fold_left (fun result child =>
                                   traverse cwd fuel child filePath result)
                                items r0)).
  { intros items r0. apply fold_left_invariant. intros a b _. apply IH. }
  destruct node; auto.
  apply fold_left_invariant.
  - intros a b _ Ha. destruct (_ && _); auto.
  - unfold handleCallExpression, handleJSXElement, handleJSXIdentifier,
      handleIdentifier, handleMemberExpression, handleObjectProperty,
      handleSpreadElement.
    repeat match goal with
           | |- filtered (if ?c then _ else _) => destruct c
           end;
      auto using filtered_recordUsage, filtered_handleImportDeclaration,
        filtered_handleExportSpecifiers, filtered_handleVariableDeclaration,
        filtered_handleFunctionDeclaration.
Qed.

Lemma filtered_empty : filtered emptyResult.
Proof. intros n []. Qed.

Lemma filtered_analyzeFile (rt : runtime) (filePath : string) w r w' :
  ASTAnalyzer.analyzeFile rt filePath w = (Ok r, w') -> filtered r.
Proof.
  unfold ASTAnalyzer.analyzeFile, readFile, bind, ret, warn, throw.
  destruct (readFileSync rt filePath) as [content|]; [|discriminate].
  destruct (parseFile rt filePath content) as [tree|]; intros H;
    inversion H; subst.
  - apply filtered_traverse. apply filtered_empty.
  - apply filtered_empty.
Qed.

Lemma mapPush_keys {V} (k : string) (v : V) (m : list (string * list V)) :
  forall k', In k' (List.map fst (mapPush k v m)) ->
             k' = k \/ In k' (List.map fst m).
Proof.
  induction m as [|[k0 vs] m IH]; simpl; intros k' H.
  - intuition.
  - destruct (String.eqb k0 k); simpl in H; intuition.
    apply IH in H0. intuition.
Qed.

Lemma mapPush_values {V} (k : string) (v : V) (m : list (string * list V)) :
  forall x, In x (List.concat (List.map snd (mapPush k v m))) ->
            x = v \/ In x (List.concat (List.map snd m)).
Proof.
  induction m as [|[k0 vs] m IH]; simpl; intros x H.
  - intuition.
  - destruct (String.eqb k0 k); simpl in H; rewrite in_app_iff in *.
    + destruct H as [H|H]; auto.
      rewrite in_app_iff in H. simpl in H. intuition.
    + destruct H as [H|H]; auto.
      apply IH in H. intuition.
Qed.

(** an invariant of the state of a loop holds when the loop ends *)
Lemma forEachM_invariant {A S} (P : S -> Prop) (f : A -> S -> M S) :
  (forall x s w s' w', f x s w = (Ok s', w') -> P s -> P s') ->
  forall xs s w s' w', forEachM f xs s w = (Ok s', w') -> P s -> P s'.
Proof.
  intros Hf xs. induction xs as [|x xs IH]; intros s w s' w' H Hs.
  - inversion H; subst. exact Hs.
  - simpl in H. unfold bind in H.
    destruct (f x s w) as [[s1| |] w1] eqn:E; try discriminate.
    eapply IH; eauto.
Qed.

Lemma filteredAll_parts (all : AllFiles) :
  filteredAll all <->
  (forall d, In d (List.concat (List.map snd (all_definitions all))) ->
             isBuiltinOrCommon (def_name d) = false)
  /\ (forall k, In k (List.map fst (all_usages all)) -> isBuiltinOrCommon k = false)
  /\ (forall k, In (VStr k) (List.map fst (all_others all)) ->
                isBuiltinOrCommon k = false)
  /\ (forall n, In n (all_exports all) -> isBuiltinOrCommon n = false)
  /\ (forall n, In n (all_imports all) -> isBuiltinOrCommon n = false).
Proof.
  unfold filteredAll, indexedNames. split.
  - intros H. repeat split; intros x Hx; apply H; rewrite !in_app_iff.
    + left. apply in_map_def_name. eauto.
    + right. left. apply in_map_VStr. exact Hx.
    + right. right. left. exact Hx.
    + right. right. right. left. apply in_map_VStr. exact Hx.
    + right. right. right. right. apply in_map_VStr. exact Hx.
  - intros [Hd [Hu [Ho [He Hi]]]] n. rewrite !in_app_iff.
    rewrite in_map_def_name, !in_map_VStr.
    intros [[d [H <-]]|[H|[H|[H|H]]]]; auto.
Qed.

Lemma otherPush_keys {V} (k : value) (v : V) (m : list (value * list V)) :
  forall k', In k' (List.map fst (otherPush k v m)) ->
             k' = k \/ In k' (List.map fst m).
Proof.
  induction m as [|[k0 vs] m IH]; simpl; intros k' H.
  - intuition.
  - destruct (sameValueZero k0 k); simpl in H; intuition.
    apply IH in H0. intuition.
Qed.

(** the keys of the map of the usages after a push: a string goes to the
    entries under a string, and only a string does *)
Lemma usagePush_keys (name : value) (u : Usage) (m : usageIndex) :
  (forall k, In k (List.map fst (fst (usagePush name u m))) ->
             name = VStr k \/ In k (List.map fst (fst m)))
  /\ (forall k, In (VStr k) (List.map fst (snd (usagePush name u m))) ->
                In (VStr k) (List.map fst (snd m))).
Proof.
  unfold usagePush. destruct name; simpl; split; auto;
    try (intros k Hk; apply otherPush_keys in Hk;
         destruct Hk as [Hk|Hk]; [discriminate|exact Hk]).
  intros k Hk. apply mapPush_keys in Hk. destruct Hk as [->|Hk]; auto.
Qed.

Lemma filteredAll_collect (relativePath : string) (r : ASTAnalysisResult)
  (acc : AllFiles) :
  filtered r -> filteredAll acc -> filteredAll (collect relativePath r acc).
Proof.
  intros Hr Hacc. apply filtered_parts in Hr. destruct Hr as [Hd [Hu [He Hi]]].
  apply filteredAll_parts in Hacc. destruct Hacc as [Ad [Au [Ao [Ae Ai]]]].
  assert (Huses :
            (fun m : usageIndex =>
               (forall k, In k (List.map fst (fst m)) -> isBuiltinOrCommon k = false)
               /\ (forall k, In (VStr k) (List.map fst (snd m)) ->
                             isBuiltinOrCommon k = false))
              (fold_left (fun m usage =>
                            usagePush (use_name usage)
                                      (mkU relativePath (use_line usage)) m)
                         (usages r) (all_usages acc, all_others acc))).
  { apply fold_left_invariant; [|split; assumption].
    intros m u Hin [Hm1 Hm2].
    destruct (usagePush_keys (use_name u) (mkU relativePath (use_line u)) m)
      as [K1 K2].
    split; intros k Hk.
    - apply K1 in Hk. destruct Hk as [Hk|Hk]; eauto.
    - apply K2 in Hk. auto. }
  destruct Huses as [U1 U2].
  apply filteredAll_parts. unfold collect. simpl. repeat split; auto.
  - apply (fold_left_invariant
             (fun m => forall d, In d (List.concat (List.map snd m)) ->
                                 isBuiltinOrCommon (def_name d) = false)); auto.
    intros m def Hin Hm d Hd'. apply mapPush_values in Hd'.
    destruct Hd' as [->|Hd']; auto.
  - apply (fold_left_invariant
             (fun s => forall n, In n s -> isBuiltinOrCommon n = false)); auto.
    intros m x Hin Hm n Hn. apply setAdd_In in Hn. destruct Hn as [->|Hn]; auto.
  - apply (fold_left_invariant
             (fun s => forall n, In n s -> isBuiltinOrCommon n = false)); auto.
    intros m x Hin Hm n Hn. apply setAdd_In in Hn. destruct Hn as [->|Hn]; auto.
Qed.

Lemma filteredAll_analyzeAllFiles (rt : runtime) (files : list string) w all w' :
  analyzeAllFiles rt files w = (Ok all, w') -> filteredAll all.
Proof.
  intros H. unfold analyzeAllFiles in H.
  eapply (forEachM_invariant filteredAll (analyzeStep rt)); eauto.
  - intros x s w0 s' w0' Hstep Hs. unfold analyzeStep, bind, ret in Hstep.
    destruct (ASTAnalyzer.analyzeFile rt x w0) as [[r| |] w1] eqn:E;
      try discriminate.
    inversion Hstep; subst.
    apply filteredAll_collect; auto.
    eapply filtered_analyzeFile; eauto.
  - intros n [].
Qed.

(** *** The lexical strategy *)

Lemma overMatches_invariant {S} (P : S -> Prop) (text : string)
  (body : regex -> mresult -> S -> S) :
  (forall p m s, P s -> P (body p m s)) ->
  forall patterns s s', overMatches patterns text body s = Some s' -> P s -> P s'.
Proof.
  intros Hb patterns. induction patterns as [|p ps IH]; intros s s' H Hs; simpl in H.
  - inversion H; subst; auto.
  - destruct (execAll p text) as [ms|]; [|discriminate].
    eapply IH; eauto.
    apply fold_left_invariant; auto.
Qed.

Lemma filteredKeys_usageBody content relativePath pattern m usageMap :
  filteredKeys usageMap ->
  filteredKeys (usageBody content relativePath pattern m usageMap).
Proof.
  unfold usageBody. apply fold_left_invariant.
  intros um i _ Hum. destruct (groupText i m) as [name|]; auto.
  destruct (BUILT_INS_has name || isCommonPattern name) eqn:E; auto.
  intros k Hk. apply mapPush_keys in Hk. destruct Hk as [->|Hk]; auto.
Qed.

Lemma filteredKeys_buildUsageMap (rt : runtime) (config : AnalyzerConfig)
  (files : list string) w um w' :
  buildUsageMap rt config files w = (Ok um, w') -> filteredKeys um.
Proof.
  intros H. unfold buildUsageMap in H.
  eapply (forEachM_invariant filteredKeys (usageStep rt config)); eauto.
  - intros x s w0 s' w0' Hstep Hs.
    unfold usageStep, readFile, bind, ret, throw, terminating in Hstep.
    destruct (readFileSync rt x) as [content|]; [|discriminate].
    destruct (overMatches _ _ _ _) as [um'|] eqn:E; [|discriminate].
    inversion Hstep; subst.
    eapply (overMatches_invariant filteredKeys); eauto.
    intros p m s0. apply filteredKeys_usageBody.
  - intros k [].
Qed.

Ltac filteredFD_add :=
  unfold filteredFD, definedNames, addComponent, addFunction, addVariable,
    addImportName, addExportName; simpl;
  intros Hx Hd n; repeat rewrite in_app_iff; intros Hin;
  repeat match goal with
         | H : _ \/ _ |- _ => destruct H as [H|H]
         | H : In _ (setAdd _ _) |- _ =>
             apply setAdd_In in H; destruct H as [->|H]; auto
         end;
  apply Hd; repeat rewrite in_app_iff; auto 10.

Lemma filteredFD_addComponent x d :
  isBuiltinOrCommon x = false -> filteredFD d -> filteredFD (addComponent x d).
Proof. filteredFD_add. Qed.
Lemma filteredFD_addFunction x d :
  isBuiltinOrCommon x = false -> filteredFD d -> filteredFD (addFunction x d).
Proof. filteredFD_add. Qed.
Lemma filteredFD_addVariable x d :
  isBuiltinOrCommon x = false -> filteredFD d -> filteredFD (addVariable x d).
Proof. filteredFD_add. Qed.
Lemma filteredFD_addImportName x d :
  isBuiltinOrCommon x = false -> filteredFD d -> filteredFD (addImportName x d).
Proof. filteredFD_add. Qed.
Lemma filteredFD_addExportName x d :
  isBuiltinOrCommon x = false -> filteredFD d -> filteredFD (addExportName x d).
Proof. filteredFD_add. Qed.

Ltac filteredFD_cases :=
  repeat match goal with
         | |- filteredFD (if ?c then _ else _) => destruct c
         | |- filteredFD (addComponent _ _) => apply filteredFD_addComponent; auto
         | |- filteredFD (addFunction _ _) => apply filteredFD_addFunction; auto
         | |- filteredFD (addVariable _ _) => apply filteredFD_addVariable; auto
         | |- filteredFD (addImportName _ _) => apply filteredFD_addImportName; auto
         | |- filteredFD (addExportName _ _) => apply filteredFD_addExportName; auto
         end;
  try assumption.

Lemma filteredFD_addImportClause text d :
  filteredFD d -> filteredFD (addImportClause text d).
Proof.
  unfold addImportClause. apply fold_left_invariant.
  intros a imp _ Ha.
  destruct (negb (BUILT_INS_has _) && negb (isCommonPattern _)) eqn:E; auto.
  apply guard_passes in E. filteredFD_cases.
Qed.

Lemma filteredFD_extractDefinitions (rt : runtime) (content filePath : string) d :
  extractDefinitions rt content filePath = Some d -> filteredFD d.
Proof.
  unfold extractDefinitions.
  destruct (overMatches PATTERNS_component _ _ _) as [d1|] eqn:E1; [|discriminate].
  destruct (overMatches PATTERNS_function _ _ _) as [d2|] eqn:E2; [|discriminate].
  destruct (overMatches PATTERNS_variable _ _ _) as [d3|] eqn:E3; [|discriminate].
  destruct (overMatches PATTERNS_import _ _ _) as [d4|] eqn:E4; [|discriminate].
  intros E5.
  assert (H1 : filteredFD d1).
  { eapply (overMatches_invariant filteredFD); [|exact E1|intros n []].
    intros p m s Hs. unfold componentBody.
    destruct (group 1 (captures m)) as [name|]; auto.
    destruct (negb (BUILT_INS_has name) && negb (isCommonPattern name)) eqn:E; auto.
    apply guard_passes in E. filteredFD_cases. }
  assert (H2 : filteredFD d2).
  { eapply (overMatches_invariant filteredFD); [|exact E2|exact H1].
    intros p m s Hs. unfold functionBody.
    destruct (group 1 (captures m)) as [name|]; auto.
    destruct (negb (BUILT_INS_has name) && negb (isCommonPattern name)) eqn:E;
      simpl; auto.
    apply guard_passes in E. filteredFD_cases. }
  assert (H3 : filteredFD d3).
  { eapply (overMatches_invariant filteredFD); [|exact E3|exact H2].
    intros p m s Hs. unfold variableBody.
    destruct (group 1 (captures m)) as [name|]; auto.
    destruct (negb (BUILT_INS_has name) && negb (isCommonPattern name)) eqn:E; auto.
    apply guard_passes in E. filteredFD_cases. }
  assert (H4 : filteredFD d4).
  { eapply (overMatches_invariant filteredFD); [|exact E4|exact H3].
    intros p m s Hs. unfold importBody.
    destruct (groupText 1 m) as [text|].
    - apply filteredFD_addImportClause; auto.
    - destruct (orElse _ _) as [name|]; auto.
      destruct (negb (BUILT_INS_has name) && negb (isCommonPattern name)) eqn:E; auto.
      apply guard_passes in E. filteredFD_cases. }
  eapply (overMatches_invariant filteredFD); [|exact E5|exact H4].
  intros p m s Hs. unfold typeImportBody.
  destruct (group 1 (captures m)) as [text|]; auto.
  apply filteredFD_addImportClause; auto.
Qed.

(** ** The walk visits the identifier of a declaration *)

Lemma depth_field (fs : list (string * value)) (k : string) (v : value) :
  In (k, v) fs -> S (depth v) <= depth (VObj fs).
Proof.
  simpl. induction fs as [|[k0 x] fs IH]; intros H; [contradiction|].
  destruct H as [H|H].
  - inversion H; subst. lia.
  - apply IH in H. lia.
Qed.

Lemma depth_item (items : list value) (v : value) :
  In v items -> S (depth v) <= depth (VArr items).
Proof.
  simpl. induction items as [|x items IH]; intros H; [contradiction|].
  destruct H as [H|H].
  - subst. lia.
  - apply IH in H. lia.
Qed.

Lemma identifiersTyped_field (fs : list (string * value)) (k : string) (v : value) :
  identifiersTyped (VObj fs) = true -> In (k, v) fs -> identifiersTyped v = true.
Proof.
  simpl. intros H. apply andb_true_iff in H. destruct H as [_ H]. revert H.
  induction fs as [|[k0 x] fs IH]; intros H Hin; [contradiction|].
  apply andb_true_iff in H. destruct H as [Hx Hfs].
  destruct Hin as [Hin|Hin].
  - inversion Hin; subst. exact Hx.
  - apply IH; auto.
Qed.

Lemma identifiersTyped_item (items : list value) (v : value) :
  identifiersTyped (VArr items) = true -> In v items -> identifiersTyped v = true.
Proof.
  simpl. induction items as [|x items IH]; intros H Hin; [contradiction|].
  apply andb_true_iff in H. destruct H as [Hx Hfs].
  destruct Hin as [Hin|Hin].
  - subst. exact Hx.
  - apply IH; auto.
Qed.

Lemma lookup_In (k : string) (fs : list (string * value)) :
  lookup k fs = VNull \/ In (k, lookup k fs) fs.
Proof.
  induction fs as [|[k0 x] fs IH]; simpl; auto.
  destruct (String.eqb k0 k) eqn:E.
  - apply String.eqb_eq in E. subst. auto.
  - destruct IH; auto.
Qed.

Lemma usagesKept_refl r : usagesKept r r.
Proof. intros u H. exact H. Qed.

Lemma usagesKept_trans r1 r2 r3 :
  usagesKept r1 r2 -> usagesKept r2 r3 -> usagesKept r1 r3.
Proof. intros H1 H2 u H. auto. Qed.

Lemma usagesKept_fold {B} (f : ASTAnalysisResult -> B -> ASTAnalysisResult)
  (l : list B) :
  (forall a b, usagesKept a (f a b)) ->
  forall r, usagesKept r (fold_left f l r).
Proof.
  intros Hf r.
  apply (fold_left_invariant (usagesKept r)).
  - intros a b _ Ha. eapply usagesKept_trans; eauto.
  - apply usagesKept_refl.
Qed.

Lemma usagesKept_recordUsage name line context r :
  usagesKept r (recordUsage name line context r).
Proof.
  unfold recordUsage. destruct (_ && _); try apply usagesKept_refl.
  intros u H. simpl. apply in_or_app. auto.
Qed.

(** a step that leaves the usages as they are *)
Ltac usages_same := intros ? ?; assumption.

Lemma usagesKept_handleImportDeclaration node r :
  usagesKept r (handleImportDeclaration node r).
Proof.
  unfold handleImportDeclaration. apply usagesKept_fold.
  intros a b. destruct (importName b); [|usages_same].
  destruct (_ && _); usages_same.
Qed.

Lemma usagesKept_handleExportSpecifiers node r :
  usagesKept r (handleExportSpecifiers node r).
Proof.
  unfold handleExportSpecifiers. apply usagesKept_fold.
  intros a b. destruct (orElse _ _); [|usages_same].
  destruct (_ && _); usages_same.
Qed.

Lemma usagesKept_handleVariableDeclaration cwd node filePath r :
  usagesKept r (handleVariableDeclaration cwd node filePath r).
Proof.
  unfold handleVariableDeclaration. apply usagesKept_fold.
  intros a b. destruct (nameOf _); [|usages_same].
  repeat match goal with
         | |- context [if ?c then _ else _] => destruct c
         end; usages_same.
Qed.

Lemma usagesKept_handleFunctionDeclaration cwd node filePath r :
  usagesKept r (handleFunctionDeclaration cwd node filePath r).
Proof.
  unfold handleFunctionDeclaration.
  destruct (nameOf _); [|usages_same].
  repeat match goal with
         | |- context [if ?c then _ else _] => destruct c
         end; usages_same.
Qed.

(** the walk only adds usages *)
Lemma usagesKept_traverse cwd filePath :
  forall fuel node r, usagesKept r (traverse cwd fuel node filePath r).
Proof.
  induction fuel as [|fuel IH]; intros node r; simpl; [apply usagesKept_refl|].
  destruct node; try apply usagesKept_refl.
  - apply usagesKept_fold. intros a b. apply IH.
  - eapply usagesKept_trans; [|apply usagesKept_fold].
    + unfold handleCallExpression, handleJSXElement, handleJSXIdentifier,
        handleIdentifier, handleMemberExpression, handleObjectProperty,
        handleSpreadElement.
      repeat match goal with
             | |- usagesKept _ (if ?c then _ else _) => destruct c
             end;
        auto using usagesKept_refl, usagesKept_recordUsage,
          usagesKept_handleImportDeclaration, usagesKept_handleExportSpecifiers,
          usagesKept_handleVariableDeclaration,
          usagesKept_handleFunctionDeclaration.
      apply usagesKept_fold. intros a b. apply IH.
    + intros a b. destruct (_ && _); [apply IH|apply usagesKept_refl].
Qed.

Lemma hasReference_kept name r r' :
  usagesKept r r' -> hasReference name r -> hasReference name r'.
Proof.
  intros Hk [u [Hin Hu]]. exists u. split; auto.
Qed.

Lemma usagesKept_walkFields cwd fuel filePath fs r :
  usagesKept r (walkFields cwd fuel filePath fs r).
Proof.
  apply usagesKept_fold. intros a b.
  destruct (_ && _); [apply usagesKept_traverse|apply usagesKept_refl].
Qed.

Lemma usagesKept_walkItems cwd fuel filePath items r :
  usagesKept r (walkItems cwd fuel filePath items r).
Proof.
  apply usagesKept_fold. intros a b. apply usagesKept_traverse.
Qed.

(** what the walk of one property establishes for every start, the loop
    over all the properties establishes too *)
Lemma walkFields_through cwd fuel filePath name (k : string) (v : value) :
  negb (String.eqb k "type") && negb (String.eqb k "loc") = true ->
  (forall r, hasReference name (traverse cwd fuel v filePath r)) ->
  forall fs, In (k, v) fs ->
  forall r, hasReference name (walkFields cwd fuel filePath fs r).
Proof.
  intros Hk Hv fs. induction fs as [|[k0 x] fs IH]; intros Hin r.
  - contradiction.
  - destruct Hin as [Hin|Hin].
    + inversion Hin; subst. unfold walkFields. simpl. rewrite Hk.
      eapply hasReference_kept; [apply usagesKept_walkFields|apply Hv].
    + unfold walkFields. simpl. apply IH. exact Hin.
Qed.

Lemma walkItems_through cwd fuel filePath name (v : value) :
  (forall r, hasReference name (traverse cwd fuel v filePath r)) ->
  forall items, In v items ->
  forall r, hasReference name (walkItems cwd fuel filePath items r).
Proof.
  intros Hv items. induction items as [|x items IH]; intros Hin r.
  - contradiction.
  - destruct Hin as [Hin|Hin].
    + subst. unfold walkItems. simpl.
      eapply hasReference_kept; [apply usagesKept_walkItems|apply Hv].
    + unfold walkItems. simpl. apply IH. exact Hin.
Qed.

Lemma traverse_object cwd fuel filePath fs r :
  exists handled,
    traverse cwd (S fuel) (VObj fs) filePath r
    = walkFields cwd fuel filePath fs handled.
Proof.
  simpl. eexists. reflexivity.
Qed.

Lemma typeIs_object (v : value) (t : string) :
  typeIs v t = true -> exists fs, v = VObj fs /\ lookup "type" fs = VStr t.
Proof.
  unfold typeIs, field. destruct v; try discriminate.
  destruct (lookup "type" fields) eqn:E; try discriminate.
  intros H. apply String.eqb_eq in H. subst. eauto.
Qed.

(** the walk of an identifier records a reference to its name *)
Lemma traverse_identifier cwd fuel filePath (v : value) (name : string) :
  typeIs v "Identifier" = true ->
  nameOf (field "name" v) = Some name ->
  isBuiltinOrCommon name = false ->
  forall r, hasReference name (traverse cwd (S fuel) v filePath r).
Proof.
  intros Htype Hname Hok r.
  destruct (typeIs_object _ _ Htype) as [fs [-> Hty]].
  assert (Hn : lookup "name" fs = VStr name).
  { simpl in Hname. destruct (lookup "name" fs); try discriminate.
    simpl in Hname. destruct (String.eqb s EmptyString); congruence. }
  assert (Hguard : negb (BUILT_INS_has name) && negb (isCommonPattern name) = true).
  { unfold isBuiltinOrCommon in Hok. apply orb_false_iff in Hok.
    destruct Hok as [-> ->]. reflexivity. }
  simpl. unfold typeIs, field. rewrite Hty. simpl.
  unfold handleIdentifier, recordUsage, field. rewrite Hn.
  cbn [BUILT_INS_hasValue toString]. rewrite Hguard.
  eapply hasReference_kept; [apply usagesKept_walkFields|].
  eexists. split; [|split].
  - simpl. apply in_or_app. right. left. reflexivity.
  - reflexivity.
  - reflexivity.
Qed.

(** the walk of an object whose [id] is a named identifier passes through
    that identifier *)
Lemma traverse_named cwd fuel filePath (node : value) (name : string) :
  depth node <= fuel ->
  identifiersTyped node = true ->
  nameOf (field "name" (field "id" node)) = Some name ->
  isBuiltinOrCommon name = false ->
  forall r, hasReference name (traverse cwd fuel node filePath r).
Proof.
  intros Hdepth Hwf Hname Hok r.
  destruct node as [| | | | |fs]; try discriminate.
  simpl field in Hname.
  assert (Htyped : typeIs (lookup "id" fs) "Identifier" = true).
  { simpl in Hwf. rewrite Hname in Hwf. apply andb_true_iff in Hwf. tauto. }
  destruct (lookup_In "id" fs) as [Hnull|Hin].
  { rewrite Hnull in Hname. discriminate. }
  destruct (typeIs_object _ _ Htyped) as [ifs [Hid _]].
  pose proof (depth_field fs _ _ Hin) as Hd. rewrite Hid in Hd.
  destruct fuel as [|fuel]; [simpl in *; lia|].
  destruct fuel as [|fuel]; [simpl in *; lia|].
  destruct (traverse_object cwd (S fuel) filePath fs r) as [handled ->].
  apply (walkFields_through cwd (S fuel) filePath name "id" (lookup "id" fs));
    auto.
  intros r0. apply traverse_identifier; auto.
Qed.

Lemma traverse_object_eq cwd fuel filePath fs r :
  traverse cwd (S fuel) (VObj fs) filePath r
  = walkFields cwd fuel filePath fs (dispatch cwd fuel filePath (VObj fs) r).
Proof. reflexivity. Qed.

Lemma traverse_array_eq cwd fuel filePath items r :
  traverse cwd (S fuel) (VArr items) filePath r
  = walkItems cwd fuel filePath items r.
Proof. reflexivity. Qed.

Lemma extends_refl r : extends r r.
Proof. split; [apply usagesKept_refl|auto]. Qed.

Lemma extends_trans r1 r2 r3 : extends r1 r2 -> extends r2 r3 -> extends r1 r3.
Proof.
  intros [K1 D1] [K2 D2]. split.
  - eapply usagesKept_trans; eauto.
  - intros d Hd Ht. destruct (D2 d Hd Ht) as [H|H]; auto.
    destruct (D1 d H Ht) as [H'|H']; auto.
    right. eapply hasReference_kept; eauto.
Qed.

Lemma extends_fold {B} (f : ASTAnalysisResult -> B -> ASTAnalysisResult)
  (l : list B) :
  (forall a b, In b l -> extends a (f a b)) ->
  forall r, extends r (fold_left f l r).
Proof.
  intros Hf r.
  apply (fold_left_invariant (extends r)).
  - intros a b Hin Ha. eapply extends_trans; eauto.
  - apply extends_refl.
Qed.

Lemma addsOnlyImports_extends r0 r : addsOnlyImports r0 r -> extends r0 r.
Proof. intros [K D]. split; auto. Qed.

Lemma addsOnlyImports_recordUsage name line context r :
  addsOnlyImports r (recordUsage name line context r).
Proof.
  split; [apply usagesKept_recordUsage|].
  unfold recordUsage. destruct (_ && _); auto.
Qed.

Lemma addsOnlyImports_handleImportDeclaration node r :
  addsOnlyImports r (handleImportDeclaration node r).
Proof.
  split; [apply usagesKept_handleImportDeclaration|].
  unfold handleImportDeclaration.
  apply (fold_left_invariant
           (fun a => forall d, In d (definitions a) -> def_type d <> TImport ->
                               In d (definitions r))); auto.
  intros a b _ Ha. destruct (importName b) as [name|]; auto.
  destruct (_ && _); auto.
  intros d Hd Ht. simpl in Hd. apply in_app_or in Hd.
  destruct Hd as [Hd|[Hd|[]]]; auto.
  subst d. simpl in Ht. congruence.
Qed.

Lemma addsOnlyImports_handleExportSpecifiers node r :
  addsOnlyImports r (handleExportSpecifiers node r).
Proof.
  split; [apply usagesKept_handleExportSpecifiers|].
  unfold handleExportSpecifiers.
  apply (fold_left_invariant
           (fun a => forall d, In d (definitions a) -> def_type d <> TImport ->
                               In d (definitions r))); auto.
  intros a b _ Ha. destruct (orElse _ _) as [name|]; auto.
  destruct (_ && _); auto.
Qed.

Lemma extends_pending node r0 r : extends r0 r -> pending node r0 r.
Proof.
  intros [K D]. split; auto. intros d Hd Ht. destruct (D d Hd Ht); auto.
Qed.

Lemma pending_handleFunctionDeclaration cwd node filePath r :
  pending node r (handleFunctionDeclaration cwd node filePath r).
Proof.
  split; [apply usagesKept_handleFunctionDeclaration|].
  unfold handleFunctionDeclaration.
  destruct (nameOf (field "name" (field "id" node))) as [name|] eqn:Hn; auto.
  destruct (BUILT_INS_has name || isCommonPattern name) eqn:E; auto.
  change (isBuiltinOrCommon name = false) in E.
  intros d Hd Ht.
  assert (H : In d (definitions r) \/ def_name d = name).
  { repeat match type of Hd with
           | context [if ?c then _ else _] => destruct c
           end; simpl in Hd; apply in_app_or in Hd;
      destruct Hd as [Hd|[Hd|[]]]; auto; subst d; auto. }
  destruct H as [H|H]; auto.
  right. right. split; rewrite H; auto.
Qed.

Lemma pending_handleVariableDeclaration cwd node filePath r :
  pending node r (handleVariableDeclaration cwd node filePath r).
Proof.
  split; [apply usagesKept_handleVariableDeclaration|].
  unfold handleVariableDeclaration.
  apply (fold_left_invariant
           (fun a => forall d, In d (definitions a) -> def_type d <> TImport ->
                               In d (definitions r)
                               \/ hasReference (def_name d) a \/ namedBy node d));
    auto.
  intros a b Hb Ha.
  destruct (nameOf (field "name" (field "id" b))) as [name|] eqn:Hn; auto.
  destruct (BUILT_INS_has name || isCommonPattern name) eqn:E; auto.
  change (isBuiltinOrCommon name = false) in E.
  intros d Hd Ht.
  assert (H : In d (definitions a) \/ def_name d = name).
  { repeat match type of Hd with
           | context [if ?c then _ else _] => destruct c
           end; simpl in Hd; apply in_app_or in Hd;
      destruct Hd as [Hd|[Hd|[]]]; auto; subst d; auto. }
  destruct H as [H|H].
  - destruct (Ha d H Ht) as [H1|[H1|H1]]; auto.
    right. left. destruct H1 as [u Hu]. exists u.
    repeat match goal with
           | |- context [if ?c then _ else _] => destruct c
           end; exact Hu.
  - right. right. split; rewrite H; auto.
    right. exists b. auto.
Qed.

Lemma traverse_null cwd fuel filePath r :
  traverse cwd fuel VNull filePath r = r.
Proof. destruct fuel; reflexivity. Qed.

Section Walk.

Variables (cwd filePath : string) (fuel : nat).

(** the induction hypothesis of the walk at the fuel below *)
Hypothesis IH :
  forall node r, depth node <= fuel -> identifiersTyped node = true ->
                 extends r (traverse cwd fuel node filePath r).

Variable fs : list (string * value).
Hypothesis Hdepth : depth (VObj fs) <= S fuel.
Hypothesis Hwf : identifiersTyped (VObj fs) = true.

Lemma extends_property (k : string) (r : ASTAnalysisResult) :
  extends r (traverse cwd fuel (lookup k fs) filePath r).
Proof.
  destruct (lookup_In k fs) as [H|H].
  - rewrite H, traverse_null. apply extends_refl.
  - apply IH.
    + pose proof (depth_field fs _ _ H). lia.
    + eapply identifiersTyped_field; eauto.
Qed.

Lemma extends_elements (k : string) (r : ASTAnalysisResult) :
  extends r (walkItems cwd fuel filePath (elements (lookup k fs)) r).
Proof.
  destruct (lookup_In k fs) as [H|H].
  - rewrite H. apply extends_refl.
  - destruct (lookup k fs) as [| | | |items|] eqn:E; try apply extends_refl.
    simpl elements. apply extends_fold. intros a b Hb. apply IH.
    + pose proof (depth_field fs _ _ H). pose proof (depth_item items _ Hb). lia.
    + eapply identifiersTyped_item; eauto.
      eapply identifiersTyped_field; eauto.
Qed.

Lemma pending_dispatch (r : ASTAnalysisResult) :
  pending (VObj fs) r (dispatch cwd fuel filePath (VObj fs) r).
Proof.
  unfold dispatch, handleCallExpression, handleJSXElement, handleJSXIdentifier,
    handleIdentifier, handleMemberExpression, handleObjectProperty,
    handleSpreadElement.
  simpl field.
  repeat match goal with
         | |- pending _ _ (if ?c then _ else _) => destruct c
         end;
    first
      [ apply pending_handleFunctionDeclaration
      | apply pending_handleVariableDeclaration
      | apply extends_pending;
        first
          [ apply extends_refl
          | apply extends_property
          | apply extends_elements
          | apply addsOnlyImports_extends;
            first [ apply addsOnlyImports_recordUsage
                  | apply addsOnlyImports_handleImportDeclaration
                  | apply addsOnlyImports_handleExportSpecifiers ] ] ].
Qed.

Lemma extends_walkFields (r : ASTAnalysisResult) :
  extends r (walkFields cwd fuel filePath fs r).
Proof.
  apply extends_fold. intros a [k v] Hin. simpl.
  destruct (_ && _); [|apply extends_refl].
  apply IH.
  - pose proof (depth_field fs _ _ Hin). lia.
  - eapply identifiersTyped_field; eauto.
Qed.

(** the loop over the properties records a reference for each definition
    that carries a name of the object *)
Lemma namedBy_walkFields (d : ASTDefinition) (r : ASTAnalysisResult) :
  namedBy (VObj fs) d ->
  hasReference (def_name d) (walkFields cwd fuel filePath fs r).
Proof.
  intros [Hok [Hid|[declaration [Hin Hname]]]].
  - (* the reference is made by the loop, whatever the dispatch left *)
    simpl field in Hid.
    assert (Htyped : typeIs (lookup "id" fs) "Identifier" = true).
    { pose proof Hwf as W. simpl in W. rewrite Hid in W.
      apply andb_true_iff in W. tauto. }
    destruct (lookup_In "id" fs) as [Hnull|Hin].
    { rewrite Hnull in Hid. discriminate. }
    destruct (typeIs_object _ _ Htyped) as [ifs [Heq _]].
    pose proof (depth_field fs _ _ Hin) as Hd. rewrite Heq in Hd.
    destruct fuel as [|fuel']; [simpl in *; lia|].
    apply (walkFields_through cwd (S fuel') filePath (def_name d) "id"
             (lookup "id" fs)); auto.
    intros r0. apply traverse_identifier; auto.
  - simpl field in Hin.
    destruct (lookup_In "declarations" fs) as [Hnull|Hfield].
    { rewrite Hnull in Hin. contradiction. }
    destruct (lookup "declarations" fs) as [| | | |items|] eqn:E;
      try contradiction.
    simpl in Hin.
    pose proof (depth_field fs _ _ Hfield) as Hd.
    pose proof (depth_item items _ Hin) as Hd'.
    destruct fuel as [|fuel']; [simpl in *; lia|].
    apply (walkFields_through cwd (S fuel') filePath (def_name d) "declarations"
             (VArr items)); auto.
    intros r0. rewrite traverse_array_eq.
    apply (walkItems_through cwd fuel' filePath (def_name d) declaration); auto.
    intros r1. apply traverse_named; auto.
    + lia.
    + eapply identifiersTyped_item; eauto.
      eapply identifiersTyped_field; eauto.
Qed.

Lemma extends_object (r : ASTAnalysisResult) :
  extends r (traverse cwd (S fuel) (VObj fs) filePath r).
Proof.
  rewrite traverse_object_eq.
  destruct (pending_dispatch r) as [K1 D1].
  destruct (extends_walkFields (dispatch cwd fuel filePath (VObj fs) r))
    as [K2 D2].
  split.
  - eapply usagesKept_trans; eauto.
  - intros d Hd Ht. destruct (D2 d Hd Ht) as [H|H]; auto.
    destruct (D1 d H Ht) as [H1|[H1|H1]]; auto.
    + right. eapply hasReference_kept; eauto.
    + right. apply namedBy_walkFields. exact H1.
Qed.

End Walk.

(** every definition the walk adds, imports apart, has a reference *)
Lemma extends_traverse cwd filePath :
  forall fuel node r,
    depth node <= fuel -> identifiersTyped node = true ->
    extends r (traverse cwd fuel node filePath r).
Proof.
  induction fuel as [|fuel IH]; intros node r Hd Hwf.
  - apply extends_refl.
  - destruct node; try apply extends_refl.
    + rewrite traverse_array_eq. apply extends_fold. intros a b Hb. apply IH.
      * pose proof (depth_item items _ Hb). lia.
      * eapply identifiersTyped_item; eauto.
    + apply extends_object; auto.
Qed.

(** ** From the walk of a file to the usage index of the run *)

Lemma mapPush_entries {V} (k : string) (v : V) (m : list (string * list V)) :
  forall k' vs x,
    In (k', vs) (mapPush k v m) -> In x vs ->
    (exists vs0, In (k', vs0) m /\ In x vs0) \/ (k' = k /\ x = v).
Proof.
  induction m as [|[k0 vs0] m IH]; simpl; intros k' vs x H Hx.
  - destruct H as [H|[]]. inversion H; subst. destruct Hx as [Hx|[]]. auto.
  - destruct (String.eqb k0 k) eqn:E; simpl in H.
    + apply String.eqb_eq in E. subst k0. destruct H as [H|H].
      * inversion H; subst. apply in_app_or in Hx. destruct Hx as [Hx|[Hx|[]]].
        -- left. exists vs0. auto.
        -- right. auto.
      * left. exists vs. auto.
    + destruct H as [H|H].
      * inversion H; subst. left. exists vs. auto.
      * destruct (IH _ _ _ H Hx) as [[vs1 [H1 H2]]|H1]; auto.
        left. exists vs1. auto.
Qed.

Lemma holds_mapPush_new {V} (k : string) (v : V) (m : list (string * list V)) :
  holds (mapPush k v m) k v.
Proof.
  unfold holds. rewrite mapGet_mapPush_same.
  eexists. split; [reflexivity|].
  destruct (mapGet k m); [apply in_or_app|]; simpl; auto.
Qed.

Lemma holds_mapPush_old {V} (k k' : string) (v x : V)
  (m : list (string * list V)) :
  holds m k' x -> holds (mapPush k v m) k' x.
Proof.
  intros [vs [Hget Hin]]. unfold holds.
  destruct (String.eqb k k') eqn:E.
  - apply String.eqb_eq in E. subst k'. rewrite mapGet_mapPush_same, Hget.
    eexists. split; [reflexivity|]. apply in_or_app. auto.
  - rewrite mapGet_mapPush_other; eauto.
    intros ->. rewrite String.eqb_refl in E. discriminate.
Qed.

(** the entries of the map of the usages under a string, through a push
    and through the loop that pushes the usages of a file *)
Lemma holds_usagePush_old (name : value) (u x : Usage) (m : usageIndex)
  (k : string) :
  holds (fst m) k x -> holds (fst (usagePush name u m)) k x.
Proof.
  intros H. unfold usagePush. destruct name; simpl; auto.
  apply holds_mapPush_old. exact H.
Qed.

Lemma holds_usagePush_new (k : string) (u : Usage) (m : usageIndex) :
  holds (fst (usagePush (VStr k) u m)) k u.
Proof. simpl. apply holds_mapPush_new. Qed.

Lemma holds_usages_old {B} (key : B -> value) (val : B -> Usage) (l : list B) :
  forall (m : usageIndex) k x,
    holds (fst m) k x ->
    holds (fst (fold_left (fun m b => usagePush (key b) (val b) m) l m)) k x.
Proof.
  induction l as [|b l IH]; intros m k x H; simpl; auto.
  apply IH. apply holds_usagePush_old. exact H.
Qed.

Lemma holds_usages_new {B} (key : B -> value) (val : B -> Usage) (l : list B) :
  forall (m : usageIndex) b k,
    In b l -> key b = VStr k ->
    holds (fst (fold_left (fun m b => usagePush (key b) (val b) m) l m))
          k (val b).
Proof.
  induction l as [|b0 l IH]; intros m b k Hin Hk; simpl; [contradiction|].
  destruct Hin as [->|Hin]; eauto.
  apply holds_usages_old. rewrite Hk. apply holds_usagePush_new.
Qed.

Lemma fold_mapPush_entries {V B} (key : B -> string) (val : B -> V) (l : list B) :
  forall m k vs x,
    In (k, vs) (fold_left (fun m b => mapPush (key b) (val b) m) l m) ->
    In x vs ->
    (exists vs0, In (k, vs0) m /\ In x vs0)
    \/ (exists b, In b l /\ k = key b /\ x = val b).
Proof.
  induction l as [|b0 l IH]; intros m k vs x H Hx; simpl in H.
  - left. eauto.
  - destruct (IH _ _ _ _ H Hx) as [[vs0 [H0 Hx0]]|[b [Hb [Hk Hv]]]].
    + destruct (mapPush_entries _ _ _ _ _ _ H0 Hx0) as [H1|[H1 H2]]; auto.
      right. exists b0. simpl. auto.
    + right. exists b. simpl. auto.
Qed.

Lemma selfReferenced_collect (relativePath : string) (r : ASTAnalysisResult)
  (acc : AllFiles) :
  (forall d, In d (definitions r) -> def_type d <> TImport ->
             hasReference (def_name d) r) ->
  selfReferenced acc -> selfReferenced (collect relativePath r acc).
Proof.
  intros Hr Hacc key defs d Hin Hd Ht. unfold collect in *. simpl in *.
  destruct (fold_mapPush_entries
              (fun def => relativePath ++ ":" ++ def_name def) (fun def => def)
              _ _ _ _ _ Hin Hd) as [[vs0 [H0 Hx0]]|[b [Hb [Hk Hv]]]].
  - destruct (Hacc _ _ _ H0 Hx0 Ht) as [rel [u [Hkey [Hu Hf]]]].
    exists rel, u. repeat split; auto.
    apply (holds_usages_old use_name
             (fun usage => mkU relativePath (use_line usage))). exact Hu.
  - subst b. destruct (Hr d Hb Ht) as [u [Hu [Hname _]]].
    exists relativePath, (mkU relativePath (use_line u)). repeat split; auto.
    apply (holds_usages_new use_name
             (fun usage => mkU relativePath (use_line usage))); auto.
Qed.

(** C9. In the structural strategy, when the parsers type the identifier
    of a declaration, every definition of a parsed file that is not an
    import has its own identifier recorded as a usage with the context
    [reference]; and in the index of a run, every such definition has a
    usage under its name located in its defining file, so that its verdict
    is "used". *)
Theorem definitions_reference_themselves :
  forall (rt : runtime),
    (forall content tree, tsParse rt content = Some tree ->
                          identifiersTyped tree = true) ->
    (forall content tree, babelParse rt content = Some tree ->
                          identifiersTyped tree = true) ->
    (forall filePath w r w',
        ASTAnalyzer.analyzeFile rt filePath w = (Ok r, w') ->
        forall d, In d (definitions r) -> def_type d <> TImport ->
                  hasReference (def_name d) r)
    /\ (forall files w all w',
          analyzeAllFiles rt files w = (Ok all, w') ->
          forall key defs d,
            In (key, defs) (all_definitions all) -> In d defs ->
            def_type d <> TImport ->
            (exists relativePath u,
                key = relativePath ++ ":" ++ def_name d
                /\ holds (all_usages all) (def_name d) u
                /\ file u = relativePath)
            /\ isUsedAST (all_usages all) (def_name d) = true).
Proof.
  intros rt Hts Hbabel.
  assert (Hfile : forall filePath w r w',
             ASTAnalyzer.analyzeFile rt filePath w = (Ok r, w') ->
             forall d, In d (definitions r) -> def_type d <> TImport ->
                       hasReference (def_name d) r).
  { intros filePath w r w'.
    unfold ASTAnalyzer.analyzeFile, readFile, bind, ret, warn, throw.
    destruct (readFileSync rt filePath) as [content|]; [|discriminate].
    destruct (parseFile rt filePath content) as [tree|] eqn:E; intros H;
      inversion H; subst; [|intros d []].
    assert (Hwf : identifiersTyped tree = true).
    { unfold parseFile in E. destruct (_ || _); eauto. }
    intros d Hd Ht.
    destruct (extends_traverse (cwd rt) filePath (depth tree) tree emptyResult
                (le_n _) Hwf) as [_ D].
    destruct (D d Hd Ht) as [[]|H']. exact H'. }
  split; [exact Hfile|].
  intros files w all w' Hrun.
  assert (Hall : selfReferenced all).
  { unfold analyzeAllFiles in Hrun.
    eapply (forEachM_invariant selfReferenced (analyzeStep rt)); eauto.
    - intros x s w0 s' w0' Hstep Hs. unfold analyzeStep, bind, ret in Hstep.
      destruct (ASTAnalyzer.analyzeFile rt x w0) as [[r| |] w1] eqn:E;
        try discriminate.
      inversion Hstep; subst.
      apply selfReferenced_collect; auto.
      eapply Hfile; eauto.
    - intros key defs d []. }
  intros key defs d Hin Hd Ht. split; [eapply Hall; eauto|].
  destruct (Hall _ _ _ Hin Hd Ht) as [rel [u [_ [[vs [Hget Hu]] _]]]].
  unfold isUsedAST. rewrite Hget. destruct vs; [contradiction|reflexivity].
Qed.

Lemma treeA_typed (content : string) (tree : value) :
  tableGet [(contentA, treeA)] content = Some tree ->
  identifiersTyped tree = true.
Proof.
  cbn [tableGet]. destruct (String.eqb contentA content); intros H;
    inversion H.
  reflexivity.
Qed.

Lemma analyzeAllFiles_scenarioA :
  analyzeAllFiles runtimeA filesA [] = (Ok indexA, []).
Proof. vm_compute. reflexivity. Qed.

Lemma definitions_reference_themselves_witness :
  isUsedAST (all_usages indexA) "foo" = true.
Proof.
  apply (proj2 (definitions_reference_themselves runtimeA treeA_typed treeA_typed)
           filesA [] indexA [] analyzeAllFiles_scenarioA "src/a.js:foo"
           [mkDef "foo" TFunction 1; mkDef "foo" TFunction 1]
           (mkDef "foo" TFunction 1)).
  - left. reflexivity.
  - left. reflexivity.
  - discriminate.
Defined.

(** ** Component or function, in the structural strategy *)

Lemma allClassified_push cwd filePath d r :
  classified cwd filePath d -> allClassified cwd filePath r ->
  allClassified cwd filePath (pushDefinition d r).
Proof.
  intros Hd Hr x Hx. simpl in Hx. apply in_app_or in Hx.
  destruct Hx as [Hx|[Hx|[]]]; [auto|subst; auto].
Qed.

Lemma classified_by_heuristic cwd filePath name line :
  classified cwd filePath
    (if isLikelyComponent cwd name EmptyString filePath
     then mkDef name TComponent line
     else mkDef name TFunction line).
Proof.
  rewrite isLikelyComponent_empty_content.
  destruct (startsUpper name && isNextJsEntryPoint cwd filePath) eqn:E;
    split; simpl; intros H; congruence.
Qed.

Lemma classified_other cwd filePath name line t :
  t <> TComponent -> t <> TFunction -> classified cwd filePath (mkDef name t line).
Proof. intros H1 H2. split; simpl; congruence. Qed.

Lemma allClassified_handleFunctionDeclaration cwd node filePath r :
  allClassified cwd filePath r ->
  allClassified cwd filePath (handleFunctionDeclaration cwd node filePath r).
Proof.
  intros Hr. unfold handleFunctionDeclaration.
  destruct (nameOf _) as [name|]; auto.
  destruct (_ || _); auto.
  pose proof (classified_by_heuristic cwd filePath name (lineOf node)) as Hc.
  destruct (isLikelyComponent cwd name EmptyString filePath);
    destruct (isExported node); intros d Hd; simpl in Hd;
    apply in_app_or in Hd; destruct Hd as [Hd|[Hd|[]]]; auto;
    subst d; exact Hc.
Qed.

Lemma allClassified_handleVariableDeclaration cwd node filePath r :
  allClassified cwd filePath r ->
  allClassified cwd filePath (handleVariableDeclaration cwd node filePath r).
Proof.
  unfold handleVariableDeclaration. apply fold_left_invariant.
  intros a b _ Ha.
  destruct (nameOf _) as [name|]; auto.
  destruct (_ || _); auto.
  pose proof (classified_by_heuristic cwd filePath name (lineOf node)) as Hc.
  pose proof (classified_other cwd filePath name (lineOf node) TVariable) as Hv.
  destruct (truthy _); [destruct (_ || _);
                        [destruct (isLikelyComponent cwd name EmptyString filePath)|]|];
    destruct (isExported node); intros d Hd; simpl in Hd;
    apply in_app_or in Hd; destruct Hd as [Hd|[Hd|[]]]; auto;
    subst d; first [exact Hc | apply Hv; discriminate].
Qed.

Lemma allClassified_same_definitions cwd filePath r r' :
  definitions r' = definitions r ->
  allClassified cwd filePath r -> allClassified cwd filePath r'.
Proof. intros E H d Hd. rewrite E in Hd. auto. Qed.

Lemma allClassified_recordUsage cwd filePath name line context r :
  allClassified cwd filePath r ->
  allClassified cwd filePath (recordUsage name line context r).
Proof.
  apply allClassified_same_definitions.
  unfold recordUsage. destruct (_ && _); auto.
Qed.

Lemma allClassified_handleImportDeclaration cwd filePath node r :
  allClassified cwd filePath r ->
  allClassified cwd filePath (handleImportDeclaration node r).
Proof.
  unfold handleImportDeclaration. apply fold_left_invariant.
  intros a b _ Ha. destruct (importName b) as [name|]; auto.
  destruct (_ && _); auto.
  apply allClassified_push.
  - apply classified_other; discriminate.
  - intros d Hd. apply Ha. exact Hd.
Qed.

Lemma allClassified_handleExportSpecifiers cwd filePath node r :
  allClassified cwd filePath r ->
  allClassified cwd filePath (handleExportSpecifiers node r).
Proof.
  unfold handleExportSpecifiers. apply fold_left_invariant.
  intros a b _ Ha. destruct (orElse _ _) as [name|]; auto.
  destruct (_ && _); auto.
Qed.

Lemma allClassified_traverse cwd filePath :
  forall fuel node r,
    allClassified cwd filePath r ->
    allClassified cwd filePath (traverse cwd fuel node filePath r).
Proof.
  induction fuel as [|fuel IH]; intros node r Hr; [exact Hr|].
  destruct node; try exact Hr.
  - rewrite traverse_array_eq. unfold walkItems.
    apply fold_left_invariant; auto.
  - rewrite traverse_object_eq. unfold walkFields.
    apply fold_left_invariant.
    + intros a b _ Ha. destruct (_ && _); auto.
    + unfold dispatch, handleCallExpression, handleJSXElement,
        handleJSXIdentifier, handleIdentifier, handleMemberExpression,
        handleObjectProperty, handleSpreadElement, walkItems.
      repeat match goal with
             | |- allClassified _ _ (if ?c then _ else _) => destruct c
             end;
        auto using allClassified_recordUsage,
          allClassified_handleImportDeclaration,
          allClassified_handleExportSpecifiers,
          allClassified_handleVariableDeclaration,
          allClassified_handleFunctionDeclaration.
      apply fold_left_invariant; auto.
Qed.

Lemma isUsed_monotone_witness :
  fst (isUsed runtimeA [("useThing", [mkU "a.js" 1])] (mkFD [] ["useThing"] [] [] [])
              "a.js" "x" "useThing" [])
  = Ok true
  /\ fst (isUsed runtimeA (mapPush "useThing" (mkU "b.js" 2) [("useThing", [mkU "a.js" 1])])
                 (mkFD [] ["useThing"] [] [] []) "a.js" "x" "useThing" [])
     = Ok true.
Proof.
  assert (Hbefore :
            fst (isUsed runtimeA [("useThing", [mkU "a.js" 1])]
                        (mkFD [] ["useThing"] [] [] []) "a.js" "x" "useThing" [])
            = Ok true) by (vm_compute; reflexivity).
  split; [exact Hbefore|].
  apply (isUsed_monotone runtimeA [("useThing", [mkU "a.js" 1])]
           (mkFD [] ["useThing"] [] [] []) "a.js" "x" "useThing"
           (mkU "b.js" 2) []).
  - simpl. discriminate.
  - exact Hbefore.
Defined.

(** ** The scenarios *)

(** C1. Scenario A on the code: [a] defines [function foo(){}] and nothing
    else refers to [foo]. Both strategies record the definition, and both
    count the declaration itself as a usage of [foo]: the structural
    strategy through the identifier of the declaration, the lexical one
    through the local patterns of [isUsed]. Neither run reports [foo]. *)
Theorem scenarioA_foo_not_reported :
  In (mkDef "foo" TFunction 1) (definitions resultA)
  /\ In (mkUsage (VStr "foo") 1 "reference") (usages resultA)
  /\ (exists r,
        run runtimeA (mkConfig "src" ast_mode) filesA = (Ok r, [])
        /\ unusedFunctions r = [])
  /\ (exists d,
        extractDefinitions runtimeA contentA "src/a.js" = Some d
        /\ fd_functions d = ["foo"])
  /\ fst (isUsed runtimeA [] (mkFD [] ["foo"] [] [] []) "a.js" contentA "foo" [])
     = Ok true
  /\ (exists r,
        run runtimeA (mkConfig "src" regex_mode) filesA = (Ok r, [])
        /\ unusedFunctions r = []).
Proof.
  split; [left; reflexivity|].
  split; [left; reflexivity|].
  split; [eexists; split; [vm_compute; reflexivity|reflexivity]|].
  split; [eexists; split; [vm_compute; reflexivity|reflexivity]|].
  split; [vm_compute; reflexivity|].
  eexists; split; [vm_compute; reflexivity|reflexivity].
Qed.

(** Scenario A, second half: with the import and the call in [b], both
    strategies report no unused function. *)
Lemma scenarioA_after_import :
  forall m, exists r,
    run runtimeAB (mkConfig "src" m) filesAB = (Ok r, [])
    /\ unusedFunctions r = [].
Proof.
  intros [|]; eexists; (split; [vm_compute; reflexivity|reflexivity]).
Qed.

(** C4. A file that another file imports by a relative path is reported
    unused. The text of the importer holds an import-from-string for a
    spelling of the path; the pattern the detector builds for that spelling
    asks for the letter s after the word from, so it matches no import
    statement, but it does match the same text with that letter added. *)
Theorem imported_file_reported_unused :
  In "./helper123" (possibleImportPaths runtimeH (mkConfig "src" regex_mode)
                                        "src/helper123.js")
  /\ JS.includes contentImporter "from './helper123'" = true
  /\ JS.startsWith (importSource "./helper123") "froms+" = true
  /\ fst (matchesSpelling runtimeH contentImporter
            (possibleImportPaths runtimeH (mkConfig "src" regex_mode)
                                 "src/helper123.js") [])
     = Ok false
  /\ fst (matchesSpelling runtimeH "import h froms'./helper123';"
            (possibleImportPaths runtimeH (mkConfig "src" regex_mode)
                                 "src/helper123.js") [])
     = Ok true
  /\ (forall m, exists r w,
        run runtimeH (mkConfig "src" m) filesH = (Ok r, w)
        /\ In (mkFileIssue "helper123.js" 20) (unusedFiles r)).
Proof.
  split; [vm_compute; auto|].
  split; [vm_compute; reflexivity|].
  split; [vm_compute; reflexivity|].
  split; [vm_compute; reflexivity|].
  split; [vm_compute; reflexivity|].
  intros [|]; eexists; eexists;
    (split; [vm_compute; reflexivity|simpl; auto]).
Qed.

(** ** The unused-file detector: the conjunction the code enforces *)

Lemma checkFile_only_if (rt : runtime) (config : AnalyzerConfig)
  (allFiles : list string) (file : string) a w a' w' :
  checkFile rt config allFiles file a w = (Ok a', w') ->
  forall fi, In fi (unusedFiles a') ->
             In fi (unusedFiles a) \/ reportable rt config allFiles file fi.
Proof.
  unfold checkFile, bind, readFile, ret, throw, warn.
  destruct (importedBy rt file (possibleImportPaths rt config file) allFiles w)
    as [[imported| |] w1] eqn:Eimp; try discriminate.
  destruct (readFileSync rt file) as [content|] eqn:Eread; [|discriminate].
  destruct (negb imported) eqn:E1; simpl;
    [|intros H; inversion H; subst; auto].
  destruct (negb (isNextJsEntryPoint (cwd rt) file)) eqn:E2; simpl;
    [|intros H; inversion H; subst; auto].
  destruct (negb (test exportKeyword content)) eqn:E3; simpl;
    [|intros H; inversion H; subst; auto].
  destruct (negb (isMainFile (Path.basename file))) eqn:E4; simpl;
    [|intros H; inversion H; subst; auto].
  destruct (negb (isConfigFile (Path.basename file))) eqn:E5; simpl;
    [|intros H; inversion H; subst; auto].
  destruct (negb (isUtilityFile (Path.dirname file))) eqn:E6; simpl;
    [|intros H; inversion H; subst; auto].
  apply negb_true_iff in E1, E2, E3, E4, E5, E6. subst imported.
  destruct (statSync_size rt file) as [size|]; intros H; inversion H; subst; auto.
  intros fi Hfi. simpl in Hfi. apply in_app_or in Hfi.
  destruct Hfi as [Hfi|[Hfi|[]]]; auto.
  right. subst fi. unfold reportable. simpl.
  repeat split; auto.
  - exists w. rewrite Eimp. reflexivity.
  - exists content. auto.
Qed.

Lemma findUnusedFiles_only_if (rt : runtime) (config : AnalyzerConfig)
  (allFiles : list string) :
  forall files a w a' w',
    forEachM (checkFile rt config allFiles) files a w = (Ok a', w') ->
    forall fi, In fi (unusedFiles a') ->
      In fi (unusedFiles a)
      \/ exists file, In file files /\ reportable rt config allFiles file fi.
Proof.
  induction files as [|file files IH]; intros a w a' w' H fi Hfi.
  - inversion H; subst. auto.
  - simpl in H. unfold bind in H.
    destruct (checkFile rt config allFiles file a w) as [[a1| |] w1] eqn:E;
      try discriminate.
    destruct (IH _ _ _ _ H fi Hfi) as [H1|[f [Hf Hr]]].
    + destruct (checkFile_only_if _ _ _ _ _ _ _ _ E fi H1) as [H2|H2]; auto.
      right. exists file. simpl. auto.
    + right. exists f. simpl. auto.
Qed.

Lemma unusedFiles_pushIssue issue a :
  unusedFiles (pushIssue issue a) = unusedFiles a.
Proof. unfold pushIssue. destruct (issue_type issue); reflexivity. Qed.

Lemma insertBySize_In f l x : In x (insertBySize f l) -> x = f \/ In x l.
Proof.
  induction l as [|g l IH]; simpl.
  - intuition.
  - destruct (size g <=? size f)%nat; simpl; intuition.
Qed.

Lemma sortBySize_In l x : In x (sortBySize l) -> In x l.
Proof.
  induction l as [|f l IH]; simpl; auto.
  intros H. apply insertBySize_In in H. intuition.
Qed.

Lemma noFiles_pushIssue issue a : noFiles a -> noFiles (pushIssue issue a).
Proof. unfold noFiles. rewrite unusedFiles_pushIssue. auto. Qed.

Lemma noFiles_checkUnusedDefinitions rt usageMap definitions filePath content
  a w a' w' :
  checkUnusedDefinitions rt usageMap definitions filePath content a w
  = (Ok a', w') ->
  noFiles a -> noFiles a'.
Proof.
  unfold checkUnusedDefinitions, bind.
  destruct (forEachM _ (fd_components definitions) a w) as [[a1| |] w1] eqn:E1;
    try discriminate.
  destruct (forEachM _ (fd_functions definitions) a1 w1) as [[a2| |] w2] eqn:E2;
    try discriminate.
  destruct (forEachM _ (fd_variables definitions) a2 w2) as [[a3| |] w3] eqn:E3;
    try discriminate.
  intros E4 Ha.
  assert (H1 : noFiles a1).
  { eapply (forEachM_invariant noFiles); [|exact E1|exact Ha].
    intros x s w0 s' w0' Hs Hn. unfold bind, ret in Hs.
    destruct (isUsed rt usageMap definitions filePath content x w0)
      as [[[|]| |] wu]; inversion Hs; subst; auto using noFiles_pushIssue. }
  assert (H2 : noFiles a2).
  { eapply (forEachM_invariant noFiles); [|exact E2|exact H1].
    intros x s w0 s' w0' Hs Hn. unfold bind, ret in Hs.
    destruct (isUsed rt usageMap definitions filePath content x w0)
      as [[[|]| |] wu]; simpl in Hs; try (inversion Hs; subst; auto; fail).
    destruct (compile rt _ wu) as [[re| |] wc]; try discriminate.
    destruct (negb (test re content)); inversion Hs; subst;
      auto using noFiles_pushIssue. }
  assert (H3 : noFiles a3).
  { eapply (forEachM_invariant noFiles); [|exact E3|exact H2].
    intros x s w0 s' w0' Hs Hn. unfold bind, ret in Hs.
    destruct (isUsed rt usageMap definitions filePath content x w0)
      as [[[|]| |] wu]; inversion Hs; subst; auto using noFiles_pushIssue. }
  eapply (forEachM_invariant noFiles); [|exact E4|exact H3].
  intros x s w0 s' w0' Hs Hn. unfold ret in Hs.
  match type of Hs with
  | (if ?c then _ else _) _ = _ => destruct c
  end; inversion Hs; subst; auto using noFiles_pushIssue.
Qed.

Lemma noFiles_performRegexAnalysis rt config allFiles w a' w' :
  performRegexAnalysis rt config allFiles emptyAnalysis w = (Ok a', w') ->
  noFiles a'.
Proof.
  unfold performRegexAnalysis, bind.
  destruct (buildUsageMap rt config allFiles w) as [[um| |] w1]; try discriminate.
  intros H.
  eapply (forEachM_invariant noFiles); [|exact H|reflexivity].
  intros x s w0 s' w0' Hs Hn.
  unfold DeadCodeAnalyzer.analyzeFile, bind, readFile, ret, throw, terminating in Hs.
  destruct (readFileSync rt x) as [content|]; [|discriminate].
  destruct (extractDefinitions rt content x) as [d|]; [|discriminate].
  eapply noFiles_checkUnusedDefinitions; eauto.
Qed.

Lemma noFiles_performASTAnalysis rt allFiles w a' w' :
  performASTAnalysis rt allFiles emptyAnalysis w = (Ok a', w') ->
  noFiles a'.
Proof.
  unfold performASTAnalysis, bind, ret.
  destruct (analyzeAllFiles rt allFiles w) as [[all| |] w1]; try discriminate.
  intros H. inversion H; subst.
  apply fold_left_invariant; [|reflexivity].
  intros a entry _ Ha. apply fold_left_invariant; auto.
  intros a0 def _ Ha0. unfold reportDefinition.
  destruct (negb _); auto using noFiles_pushIssue.
Qed.

(** The conjunction of [findUnusedFiles], on a whole run: a reported file
    is a file of the set which passed the import test as the code makes it,
    is no entry point, has no export keyword in its text, is no index or
    main file, no configuration file, and lies in no utility directory. *)
Lemma unusedFiles_only_if (rt : runtime) (config : AnalyzerConfig)
  (allFiles : list string) r w :
  run rt config allFiles = (Ok r, w) ->
  forall fi, In fi (unusedFiles r) ->
    exists file, In file allFiles /\ reportable rt config allFiles file fi.
Proof.
  unfold run, findDeadCode, bind, ret.
  destruct (match mode config with
            | ast_mode => performASTAnalysis rt allFiles emptyAnalysis
            | regex_mode => performRegexAnalysis rt config allFiles emptyAnalysis
            end []) as [[a1| |] w1] eqn:E1; try discriminate.
  destruct (findUnusedFiles rt config allFiles a1 w1) as [[a2| |] w2] eqn:E2;
    try discriminate.
  intros H fi Hfi. inversion H; subst. simpl in Hfi.
  apply sortBySize_In in Hfi.
  assert (Hno : noFiles a1).
  { destruct (mode config).
    - eapply noFiles_performASTAnalysis; eauto.
    - eapply noFiles_performRegexAnalysis; eauto. }
  destruct (findUnusedFiles_only_if rt config allFiles _ _ _ _ _ E2 fi Hfi)
    as [H1|H1]; auto.
  rewrite Hno in H1. contradiction.
Qed.

(** ** Entry points below a routing root *)

(** what the code tests: the path relative to the working directory holds
    [/app/] or [/pages/], separators included *)
Lemma isNextJsEntryPoint_routing_root (cwd filePath : string) :
  JS.includes (Path.relative cwd cwd filePath) "/app/"
  || JS.includes (Path.relative cwd cwd filePath) "/pages/" = true ->
  isNextJsEntryPoint cwd filePath = true.
Proof.
  intros H. unfold isNextJsEntryPoint.
  destruct (JS.arrayIncludes appRouterPatterns (Path.basename filePath)
            || JS.arrayIncludes pageRouterPatterns (Path.basename filePath));
    [reflexivity|].
  change (Path.sep ++ "app" ++ Path.sep) with "/app/".
  change (Path.sep ++ "pages" ++ Path.sep) with "/pages/".
  rewrite H.
  repeat match goal with
         | |- (if ?c then true else _) = true => destruct c; [reflexivity|]
         end.
  reflexivity.
Qed.

(** ** The fuel of the walk *)

Lemma fold_left_ext_in {A B} (f g : A -> B -> A) (l : list B) :
  (forall a b, In b l -> f a b = g a b) ->
  forall a, fold_left f l a = fold_left g l a.
Proof.
  induction l as [|b l IH]; intros H a; simpl; auto.
  rewrite (H a b (or_introl eq_refl)). apply IH.
  intros a' b' Hb. apply H. right. exact Hb.
Qed.

Lemma depth_zero cwd fuel filePath node r :
  depth node = 0 -> traverse cwd fuel node filePath r = r.
Proof.
  destruct node; simpl; try discriminate; intros _; destruct fuel; reflexivity.
Qed.

(** any fuel from the depth of the tree on gives the same walk: the walk
    [traverseAST] makes is complete *)
Lemma traverse_fuel cwd filePath :
  forall f1 f2 node r,
    depth node <= f1 -> depth node <= f2 ->
    traverse cwd f1 node filePath r = traverse cwd f2 node filePath r.
Proof.
  induction f1 as [|f1 IH]; intros f2 node r H1 H2.
  - rewrite !depth_zero; auto; lia.
  - destruct f2 as [|f2].
    + rewrite !depth_zero; auto; lia.
    + destruct node; try reflexivity.
      * rewrite !traverse_array_eq. unfold walkItems.
        apply fold_left_ext_in. intros a b Hb.
        pose proof (depth_item items b Hb). apply IH; lia.
      * assert (Hfield : forall k r0,
                  traverse cwd f1 (lookup k fields) filePath r0
                  = traverse cwd f2 (lookup k fields) filePath r0).
        { intros k r0. destruct (lookup_In k fields) as [E|E].
          - rewrite E, !traverse_null. reflexivity.
          - pose proof (depth_field fields _ _ E). apply IH; lia. }
        assert (Hitems : forall k r0,
                  walkItems cwd f1 filePath (elements (lookup k fields)) r0
                  = walkItems cwd f2 filePath (elements (lookup k fields)) r0).
        { intros k r0. destruct (lookup_In k fields) as [E|E].
          - rewrite E. reflexivity.
          - destruct (lookup k fields) as [| | | |items|] eqn:El;
              try reflexivity.
            unfold walkItems. simpl elements.
            apply fold_left_ext_in. intros a b Hb.
            pose proof (depth_field fields _ _ E).
            pose proof (depth_item items b Hb). apply IH; lia. }
        rewrite !traverse_object_eq.
        assert (Hd : dispatch cwd f1 filePath (VObj fields) r
                     = dispatch cwd f2 filePath (VObj fields) r).
        { unfold dispatch. simpl field.
          rewrite Hitems, !Hfield. reflexivity. }
        rewrite Hd. unfold walkFields.
        apply fold_left_ext_in. intros a [k v] Hb. simpl.
        destruct (_ && _); auto.
        pose proof (depth_field fields _ _ Hb). apply IH; lia.
Qed.

(** ** The matcher stays inside the subject *)

(** a successful match went through a call of its continuation, at a
    position of the subject not before the start *)
Lemma rmatch_continues (n : nat) :
  forall r k s s',
    inSubject n s -> rmatch r k s = Some s' ->
    exists s1, inSubject n s1 /\ pos s <= pos s1 /\ k s1 = Some s'.
Proof.
  induction r as [|p|r1 IH1 r2 IH2|r1 IH1 r2 IH2|g r1 IH1|g r1 IH1|m|m| |r1 IH1];
    intros k s s' Hs H; simpl in H.
  - exists s. auto.
  - destruct (rest s) as [|c t] eqn:E; [discriminate|].
    destruct (p c); [|discriminate].
    eexists. split; [|split; [|exact H]].
    + unfold inSubject in *. simpl. rewrite E in Hs. simpl in Hs. lia.
    + simpl. lia.
  - destruct (IH1 _ _ _ Hs H) as [s1 [Hs1 [Hle1 H1]]].
    destruct (IH2 _ _ _ Hs1 H1) as [s2 [Hs2 [Hle2 H2]]].
    exists s2. repeat split; auto. lia.
  - destruct (rmatch r1 k s) as [x|] eqn:E.
    + inversion H; subst. eapply IH1; eauto.
    + eapply IH2; eauto.
  - revert H. generalize (List.length (rest s)). intros fuel.
    revert s s' Hs. induction fuel as [|fuel IHf]; intros s s' Hs H.
    + exists s. auto.
    + assert (Hagain :
                rmatch r1 (fun s'' => if (pos s'' =? pos s)%nat then None
                                      else (fix loop (fuel : nat) (s : mstate)
                                              {struct fuel} : option mstate :=
                                              match fuel with
                                              | O => k s
                                              | S fuel' =>
                                                  let again (_ : unit) :=
                                                    rmatch r1
                                                      (fun s' =>
                                                         if (pos s' =? pos s)%nat
                                                         then None
                                                         else loop fuel' s') s in
                                                  if g
                                                  then match again tt with
                                                       | Some s' => Some s'
                                                       | None => k s
                                                       end
                                                  else match k s with
                                                       | Some s' => Some s'
                                                       | None => again tt
                                                       end
                                              end) fuel s'') s = Some s' ->
                exists s1, inSubject n s1 /\ pos s <= pos s1 /\ k s1 = Some s').
      { intros Ha. destruct (IH1 _ _ _ Hs Ha) as [s1 [Hs1 [Hle1 H1]]].
        destruct (pos s1 =? pos s)%nat; [discriminate|].
        destruct (IHf _ _ Hs1 H1) as [s2 [Hs2 [Hle2 H2]]].
        exists s2. repeat split; auto. lia. }
      cbv zeta in H. destruct g.
      * match type of H with
        | match ?a with _ => _ end = _ => destruct a as [x|] eqn:E
        end.
        -- inversion H; subst. apply Hagain. reflexivity.
        -- exists s. auto.
      * destruct (k s) as [x|] eqn:E.
        -- inversion H; subst. exists s. auto.
        -- apply Hagain. exact H.
  - destruct (IH1 _ _ _ Hs H) as [s1 [Hs1 [Hle1 H1]]].
    exists (capture g s s1). repeat split; auto.
  - destruct (prev s) as [c|]; [destruct (m && isLineTerminator c)|];
      try discriminate; exists s; auto.
  - destruct (rest s) as [|c t]; [|destruct (m && isLineTerminator c)];
      try discriminate; exists s; auto.
  - destruct (xorb _ _); [|discriminate]. exists s; auto.
  - destruct (rmatch r1 Some s); [discriminate|]. exists s; auto.
Qed.

Lemma search_bounds (r : regex) :
  forall l i p m,
    search r i p l = Some m ->
    i <= index m /\ index m <= endIndex m /\ endIndex m <= i + List.length l.
Proof.
  induction l as [|c l IH]; intros i p m H; simpl in H.
  - destruct (rmatch r Some (mkState i p [] [])) as [s'|] eqn:E; [|discriminate].
    inversion H; subst. simpl.
    destruct (rmatch_continues (i + 0) r Some (mkState i p [] []) s' eq_refl E)
      as [s1 [Hs1 [Hle H1]]].
    inversion H1; subst. unfold inSubject in Hs1. simpl in *. lia.
  - destruct (rmatch r Some (mkState i p (c :: l) [])) as [s'|] eqn:E.
    + inversion H; subst. simpl.
      destruct (rmatch_continues (i + S (List.length l)) r Some
                  (mkState i p (c :: l) []) s' eq_refl E)
        as [s1 [Hs1 [Hle H1]]].
      inversion H1; subst. unfold inSubject in Hs1. simpl in *. lia.
    + apply IH in H. simpl. lia.
Qed.

Lemma at_index_length :
  forall i p l q l',
    at_index i p l = Some (q, l') -> i + List.length l' = List.length l.
Proof.
  induction i as [|i IH]; intros p l q l' H; simpl in H.
  - inversion H; subst. reflexivity.
  - destruct l as [|c l]; [discriminate|]. apply IH in H. simpl. lia.
Qed.

Lemma length_list_ascii (s : string) :
  List.length (list_ascii_of_string s) = String.length s.
Proof. induction s; simpl; auto. Qed.

(** a match of [exec] lies between [lastIndex] and the end of the subject *)
Lemma exec_bounds (r : regex) (s : string) (lastIndex : nat) (m : mresult) :
  exec r s lastIndex = Some m ->
  lastIndex <= index m /\ index m <= endIndex m
  /\ endIndex m <= String.length s.
Proof.
  unfold exec.
  destruct (at_index lastIndex None (list_ascii_of_string s)) as [[p l]|] eqn:E;
    [|discriminate].
  intros H. apply search_bounds in H. apply at_index_length in E.
  rewrite length_list_ascii in E. lia.
Qed.

(** the matching loop ends unless some match is empty: the bound on the
    number of matches is never what stops it *)
Lemma execAll_go_diverges (r : regex) (s : string) :
  forall fuel lastIndex,
    lastIndex <= String.length s ->
    String.length s < lastIndex + fuel ->
    execAll_go fuel r s lastIndex = None ->
    exists i m, exec r s i = Some m /\ endIndex m <= index m.
Proof.
  induction fuel as [|fuel IH]; intros lastIndex Hle Hfuel H.
  - lia.
  - simpl in H. destruct (exec r s lastIndex) as [m|] eqn:E; [|discriminate].
    destruct (endIndex m <=? index m)%nat eqn:Eempty.
    + apply Nat.leb_le in Eempty. eauto.
    + apply Nat.leb_gt in Eempty.
      destruct (execAll_go fuel r s (endIndex m)) eqn:Erec; [discriminate|].
      apply exec_bounds in E.
      apply (IH (endIndex m)); auto; lia.
Qed.

Lemma execAll_diverges (r : regex) (s : string) :
  execAll r s = None ->
  exists i m, exec r s i = Some m /\ endIndex m <= index m.
Proof.
  unfold execAll. apply execAll_go_diverges; lia.
Qed.

(* ================================================================== *)
(** * More properties of the code *)
(* ================================================================== *)

(** ** utils.ts: the common-pattern test *)

(** an anchored pattern is decided at the start of the subject *)
Lemma test_anchored (r : regex) (s : string) :
  test (Seq (Bol false) r) s
  = match rmatch r Some (mkState 0 None (list_ascii_of_string s) []) with
    | Some _ => true
    | None => false
    end.
Proof.
  unfold test, exec. simpl at_index.
  destruct (list_ascii_of_string s) as [|c l]; simpl.
  - destruct (rmatch r Some _); reflexivity.
  - destruct (rmatch r Some _); [reflexivity|].
    rewrite search_anchored_later. reflexivity.
Qed.

Lemma letter_not_digit (c : ascii) : isLetter c = true -> JS.isDigit c = false.
Proof.
  unfold isLetter, JS.isLower, JS.isUpper, JS.isDigit.
  destruct (97 <=? nat_of_ascii c)%nat eqn:E1;
    destruct (nat_of_ascii c <=? 122)%nat eqn:E2;
    destruct (65 <=? nat_of_ascii c)%nat eqn:E3;
    destruct (nat_of_ascii c <=? 90)%nat eqn:E4;
    destruct (48 <=? nat_of_ascii c)%nat eqn:E5;
    destruct (nat_of_ascii c <=? 57)%nat eqn:E6; simpl; try congruence;
    repeat match goal with
           | H : (_ <=? _)%nat = true |- _ => apply Nat.leb_le in H
           | H : (_ <=? _)%nat = false |- _ => apply Nat.leb_gt in H
           end; lia.
Qed.

Lemma list_ascii_empty (s : string) :
  match list_ascii_of_string s with [] => true | _ :: _ => false end
  = String.eqb s EmptyString.
Proof. destruct s; reflexivity. Qed.

(** X1. [isCommonPattern] is true exactly for the names that start with a
    character that is neither a letter nor an underscore, and for the names
    that are a single letter. The empty name, the underscore and every
    longer identifier are not common patterns; the test on digits adds
    nothing to the test on the first character. *)
Theorem isCommonPattern_characterised :
  forall (name : string),
    isCommonPattern name
    = match name with
      | EmptyString => false
      | String c rest =>
          negb (isLetter c || Ascii.eqb c "_"%char)
          || (isLetter c && String.eqb rest EmptyString)
      end.
Proof.
  intros name. unfold isCommonPattern.
  change (seq [Bol false; plus digit; Eol false])
    with (Seq (Bol false) (Seq (plus digit) (Eol false))).
  change (seq [Bol false; lower; Eol false])
    with (Seq (Bol false) (Seq lower (Eol false))).
  change (seq [Bol false; upper; Eol false])
    with (Seq (Bol false) (Seq upper (Eol false))).
  match goal with
  | |- context [seq [Bol false; Chr ?p]] =>
      change (seq [Bol false; Chr p]) with (Seq (Bol false) (Chr p))
  end.
  rewrite !test_anchored.
  destruct name as [|c rest]; [reflexivity|].
  cbn [list_ascii_of_string].
  pose proof (list_ascii_empty rest) as Hrest.
  pose proof (letter_not_digit c) as Hdigit.
  unfold isLetter in *. simpl rmatch.
  destruct (JS.isLower c) eqn:El; destruct (JS.isUpper c) eqn:Eu;
    destruct (Ascii.eqb c "_"%char) eqn:Eus; simpl;
    try rewrite (Hdigit eq_refl); simpl;
    try (destruct (list_ascii_of_string rest); rewrite <- Hrest; reflexivity);
    try (rewrite !orb_true_r; reflexivity).
  - (* the underscore *)
    apply Ascii.eqb_eq in Eus. subst c. reflexivity.
Qed.

(** ** utils.ts: entry points and components *)

(** X2. [isNextJsEntryPoint] answers by two tests only: the base name is in
    one of the two lists of routing file names, or the path relative to the
    working directory holds [/app/] or [/pages/]. The tests on a bracketed
    base name and on an [api] directory never change the answer. *)
Theorem isNextJsEntryPoint_characterised :
  forall (cwd filePath : string),
    isNextJsEntryPoint cwd filePath
    = JS.arrayIncludes appRouterPatterns (Path.basename filePath)
      || JS.arrayIncludes pageRouterPatterns (Path.basename filePath)
      || JS.includes (Path.relative cwd cwd filePath) "/app/"
      || JS.includes (Path.relative cwd cwd filePath) "/pages/".
Proof.
  intros cwd filePath. unfold isNextJsEntryPoint.
  change (Path.sep ++ "app" ++ Path.sep) with "/app/".
  change (Path.sep ++ "pages" ++ Path.sep) with "/pages/".
  destruct (JS.arrayIncludes appRouterPatterns (Path.basename filePath)
            || JS.arrayIncludes pageRouterPatterns (Path.basename filePath));
    [reflexivity|].
  simpl.
  destruct (JS.includes (Path.relative cwd cwd filePath) "/app/"
            || JS.includes (Path.relative cwd cwd filePath) "/pages/");
    [|reflexivity].
  repeat match goal with
         | |- (if ?c then true else _) = true => destruct c; [reflexivity|]
         end.
  reflexivity.
Qed.

(** X3. The path of the file reaches [isLikelyComponent] through the
    entry-point test only: two paths that agree on it get the same answer
    for every name and content. The test on a component directory never
    changes the answer, since the signals it is joined with have already
    decided. *)
Theorem isLikelyComponent_path_only_entry :
  forall (cwd name content path1 path2 : string),
    isNextJsEntryPoint cwd path1 = isNextJsEntryPoint cwd path2 ->
    isLikelyComponent cwd name content path1
    = isLikelyComponent cwd name content path2.
Proof.
  intros cwd name content path1 path2 H. unfold isLikelyComponent.
  rewrite H.
  destruct (negb _); [reflexivity|].
  destruct (JS.includes content useClientDirective); [reflexivity|].
  destruct (isNextJsEntryPoint cwd path2); [reflexivity|].
  match goal with
  | |- (if ?j then _ else _) = _ => destruct j; [reflexivity|]
  end.
  destruct (test REACT_HOOKS_REGEX content); [reflexivity|].
  match goal with
  | |- (if false || ?a || _ || _ || _ then _ else _) = _ => destruct a
  end; [reflexivity|].
  simpl. rewrite !andb_false_r. reflexivity.
Qed.

Lemma isLikelyComponent_path_only_entry_witness :
  isLikelyComponent "/proj" "Card" "x" "src/components/Card.tsx"
  = isLikelyComponent "/proj" "Card" "x" "src/Card.tsx".
Proof.
  apply (isLikelyComponent_path_only_entry "/proj" "Card" "x"
           "src/components/Card.tsx" "src/Card.tsx").
  vm_compute. reflexivity.
Defined.

(** *** The hook convention *)

(** a greedy run of one class up to the end of the subject takes
    characters of the class only, and succeeds when the characters left
    are all of the class *)
Lemma star_to_end (p : ascii -> bool) :
  forall l i q cs,
    match rmatch (Star true (Chr p)) (rmatch (Eol false) Some)
                 (mkState i q l cs) with
    | Some _ => true
    | None => false
    end = forallb p l.
Proof.
  induction l as [|c t IH]; intros i q cs.
  - reflexivity.
  - specialize (IH (S i) (Some c) cs).
    cbn -[Nat.eqb] in IH. cbn -[Nat.eqb].
    destruct (p c); [|reflexivity].
    replace (S i =? i)%nat with false by (symmetry; apply Nat.eqb_neq; lia).
    cbn -[Nat.eqb].
    match goal with
    | |- match match ?a with _ => _ end with _ => _ end = _ =>
        destruct a; exact IH
    end.
Qed.

Lemma forallb_allChars (p : ascii -> bool) (s : string) :
  forallb p (list_ascii_of_string s) = allChars p s.
Proof. induction s; simpl; congruence. Qed.

Lemma rmatch_chr_cons p k i q c t cs :
  rmatch (Chr p) k (mkState i q (c :: t) cs)
  = if p c then k (mkState (S i) (Some c) t cs) else None.
Proof. reflexivity. Qed.

Lemma rmatch_chr_nil p k i q cs :
  rmatch (Chr p) k (mkState i q [] cs) = None.
Proof. reflexivity. Qed.

Lemma rmatch_seq r1 r2 k s :
  rmatch (Seq r1 r2) k s = rmatch r1 (rmatch r2 k) s.
Proof. reflexivity. Qed.

(** X4. [REACT_HOOKS_REGEX] accepts a whole subject or nothing: it matches
    exactly the strings made of [use], an upper-case letter and word
    characters. Applied to the content of a file, as [isLikelyComponent]
    does, it fails as soon as the content holds a character that is not a
    word character, a blank or a line feed for instance. *)
Theorem REACT_HOOKS_REGEX_characterised :
  forall (s : string), test REACT_HOOKS_REGEX s = isHookName s.
Proof.
  intros s. unfold REACT_HOOKS_REGEX.
  change (seq [Bol false; lit "use"; upper; words; Eol false])
    with (Seq (Bol false)
              (Seq (Seq (Chr (Ascii.eqb "u"))
                        (Seq (Chr (Ascii.eqb "s")) (Chr (Ascii.eqb "e"))))
                   (Seq (Chr JS.isUpper)
                        (Seq (Star true (Chr JS.isWord)) (Eol false))))).
  rewrite test_anchored. rewrite !rmatch_seq.
  destruct s as [|c1 [|c2 [|c3 [|c4 rest]]]]; cbn [list_ascii_of_string isHookName];
    repeat first
      [ rewrite rmatch_chr_nil
      | rewrite rmatch_chr_cons
      | rewrite rmatch_seq
      | match goal with
        | |- context [Ascii.eqb ?a ?b] => destruct (Ascii.eqb a b)
        | |- context [JS.isUpper ?b] => destruct (JS.isUpper b)
        end ];
    try reflexivity.
  cbn [andb]. rewrite <- forallb_allChars. apply star_to_end.
Qed.

(** ** analyzer.ts: the report *)

Lemma insertBySize_perm (f : FileIssue) (l : list FileIssue) :
  Permutation (f :: l) (insertBySize f l).
Proof.
  induction l as [|g l IH]; simpl; auto.
  destruct (size g <=? size f)%nat; auto.
  eapply perm_trans; [apply perm_swap|]. auto.
Qed.

Lemma sortBySize_perm (l : list FileIssue) : Permutation l (sortBySize l).
Proof.
  induction l as [|f l IH]; simpl; auto.
  eapply perm_trans; [|apply insertBySize_perm]. auto.
Qed.

Lemma insertBySize_sorted (f : FileIssue) (l : list FileIssue) :
  StronglySorted (fun a b => size b <= size a) l ->
  StronglySorted (fun a b => size b <= size a) (insertBySize f l).
Proof.
  induction l as [|g l IH]; intros Hs; simpl.
  - constructor; constructor.
  - inversion Hs as [|? ? Hl Hg]; subst.
    destruct (size g <=? size f)%nat eqn:E.
    + apply Nat.leb_le in E. constructor; auto.
      constructor; auto.
      eapply Forall_impl; [|exact Hg]. simpl. intros x Hx. lia.
    + apply Nat.leb_gt in E. constructor; auto.
      eapply Permutation_Forall; [apply insertBySize_perm|].
      constructor; auto. lia.
Qed.

Lemma sortBySize_sorted (l : list FileIssue) :
  StronglySorted (fun a b => size b <= size a) (sortBySize l).
Proof.
  induction l as [|f l IH]; simpl.
  - constructor.
  - apply insertBySize_sorted. exact IH.
Qed.

(** X5. The report leaves the unused files ordered by decreasing size,
    the same files as before, and leaves the other lists as they were; its
    total counts components, functions, variables, files and imports, and
    never the unused exports. *)
Theorem generateDeadCodeReport_orders_and_counts :
  forall (a : AnalysisResults),
    Permutation (unusedFiles a) (unusedFiles (generateDeadCodeReport a))
    /\ StronglySorted (fun f g => size g <= size f)
                      (unusedFiles (generateDeadCodeReport a))
    /\ totalIssues (generateDeadCodeReport a)
       = List.length (unusedComponents (generateDeadCodeReport a))
         + List.length (unusedFunctions (generateDeadCodeReport a))
         + List.length (unusedVariables (generateDeadCodeReport a))
         + List.length (unusedFiles (generateDeadCodeReport a))
         + List.length (unusedImports (generateDeadCodeReport a))
    /\ unusedExports (generateDeadCodeReport a) = unusedExports a.
Proof.
  intros a. unfold generateDeadCodeReport. simpl.
  repeat split.
  - apply sortBySize_perm.
  - apply sortBySize_sorted.
  - rewrite <- (Permutation_length (sortBySize_perm (unusedFiles a))).
    reflexivity.
Qed.

(** ** analyzer.ts: the unused-file detector *)

Lemma run_scenarioH :
  run runtimeH (mkConfig "src" regex_mode) filesH = (Ok reportH, []).
Proof. vm_compute. reflexivity. Qed.

(** X6. Every file a run reports as unused is a file of the input set for
    which the detector found all of this: no other file passed its import
    test for any spelling, the file is no entry point, its text matches no
    export keyword, its base name is no index or main file and holds none
    of config, Config, setup, Setup, and its directory name holds none of
    utils, lib, helpers, services, hooks, components. *)
Theorem unused_file_passed_every_test :
  forall (rt : runtime) (config : AnalyzerConfig) (allFiles : list string)
         (r : AnalysisResults) (w : list warning) (fi : FileIssue),
    run rt config allFiles = (Ok r, w) ->
    In fi (unusedFiles r) ->
    exists file, In file allFiles /\ reportable rt config allFiles file fi.
Proof.
  intros rt config allFiles r w fi Hrun Hin.
  eapply unusedFiles_only_if; eauto.
Qed.

Lemma unused_file_passed_every_test_witness :
  exists file,
    In file filesH
    /\ reportable runtimeH (mkConfig "src" regex_mode) filesH file
                  (mkFileIssue "helper123.js" 20).
Proof.
  apply (unused_file_passed_every_test runtimeH (mkConfig "src" regex_mode)
           filesH reportH [] (mkFileIssue "helper123.js" 20) run_scenarioH).
  right. left. reflexivity.
Defined.

(** X7. A failure to read the size of a file is swallowed: [checkFile]
    then reports nothing for the file, and whenever it ends normally with
    the size available it ends normally without it, with at most the
    warning added. The size is the last thing asked, so nothing else of
    the check depends on it. *)
Theorem stat_failure_is_swallowed :
  forall (rt : runtime) (config : AnalyzerConfig) (allFiles : list string)
         (file : string) (a : AnalysisResults) (w : list warning),
    statSync_size rt file = None ->
    forall a' w',
      checkFile rt config allFiles file a w = (Ok a', w') ->
      a' = a
      /\ (w' = w
          \/ w' = (w ++ [NoSize (Path.relative (cwd rt) (srcDir config) file)])%list).
Proof.
  intros rt config allFiles file a w Hstat a' w'.
  unfold checkFile, bind, readFile, ret, throw, warn.
  destruct (importedBy rt file (possibleImportPaths rt config file) allFiles w)
    as [[imported| |] w1] eqn:Eimp; try discriminate.
  assert (Hw : w1 = w).
  { clear -Eimp. revert w w1 imported Eimp.
    generalize (possibleImportPaths rt config file) as paths.
    intros paths.
    assert (Hm : forall content ps w0 b w2,
               matchesSpelling rt content ps w0 = (Ok b, w2) -> w2 = w0).
    { intros content ps. induction ps as [|p ps IH]; intros w0 b w2 H.
      - inversion H. reflexivity.
      - simpl in H. unfold bind, compile, ret, throw in H.
        destruct (newRegExp rt (importSource p)); [|discriminate].
        destruct (test r content).
        + inversion H. reflexivity.
        + eapply IH; eauto. }
    induction allFiles as [|o os IH]; intros w w1 imported H.
    - inversion H. reflexivity.
    - simpl in H. destruct (String.eqb o file); [eapply IH; eauto|].
      unfold bind, readFile, ret, throw in H.
      destruct (readFileSync rt o) as [content|]; [|discriminate].
      destruct (matchesSpelling rt content paths w) as [[b| |] w2] eqn:Em;
        try discriminate.
      apply Hm in Em. subst w2.
      destruct b; [inversion H; reflexivity|eapply IH; eauto]. }
  subst w1.
  destruct (readFileSync rt file) as [content|]; [|discriminate].
  rewrite Hstat.
  destruct (_ && _); intros H; inversion H; subst; auto.
Qed.

Lemma stat_failure_is_swallowed_witness :
  emptyAnalysis = emptyAnalysis
  /\ ([NoSize "x.js"] = []
      \/ [NoSize "x.js"]
         = ([] ++ [NoSize (Path.relative (cwd runtimeNoSize) "src" "src/x.js")])%list).
Proof.
  apply (stat_failure_is_swallowed runtimeNoSize (mkConfig "src" regex_mode)
           ["src/x.js"] "src/x.js" emptyAnalysis [] eq_refl
           emptyAnalysis [NoSize "x.js"]).
  vm_compute. reflexivity.
Defined.

(** ** ast-analyzer.ts: the usage map *)

Lemma buildUsageMap_from (rt : runtime) (files : list string) :
  forall (acc : AllFiles) (w : list warning),
    forEachM (ASTUsageMap.usageStep rt) files (usagesOf acc) w
    = (mapOutcome usagesOf (fst (forEachM (analyzeStep rt) files acc w)),
       snd (forEachM (analyzeStep rt) files acc w)).
Proof.
  induction files as [|f files IH]; intros acc w.
  - reflexivity.
  - simpl. unfold bind, ASTUsageMap.usageStep, analyzeStep, bind.
    destruct (ASTAnalyzer.analyzeFile rt f w) as [[res| |] w1]; try reflexivity.
    unfold ret.
    pose proof (IH (collect (Path.relative (cwd rt) (cwd rt) f) res acc) w1)
      as H.
    unfold usagesOf at 1 in H. unfold collect at 1 2 in H. simpl in H.
    rewrite <- surjective_pairing in H. exact H.
Qed.

(** X8. [ASTAnalyzer.buildUsageMap] computes what [analyzeAllFiles] returns
    as its usages: on every file list the two end the same way, with the
    same warnings, and when they end normally the map is the same, entry by
    entry and in the same order. *)
Theorem buildUsageMap_is_usages_of_analyzeAllFiles :
  forall (rt : runtime) (files : list string) (w : list warning),
    ASTUsageMap.buildUsageMap rt files w
    = (mapOutcome usagesOf (fst (analyzeAllFiles rt files w)),
       snd (analyzeAllFiles rt files w)).
Proof.
  intros rt files w. unfold ASTUsageMap.buildUsageMap, analyzeAllFiles.
  exact (buildUsageMap_from rt files (mkAll [] [] [] [] []) w).
Qed.

(** ** The matching loops end *)

Lemma rmatch_advances (n : nat) :
  forall r k s s',
    inSubject n s -> rmatch r k s = Some s' ->
    exists s1, inSubject n s1 /\ pos s + minLen r <= pos s1 /\ k s1 = Some s'.
Proof.
  assert (Hweak : forall r, minLen r = 0 -> forall k s s',
             inSubject n s -> rmatch r k s = Some s' ->
             exists s1, inSubject n s1 /\ pos s + minLen r <= pos s1
                        /\ k s1 = Some s').
  { intros r Hr k s s' Hs H. rewrite Hr.
    destruct (rmatch_continues n r k s s' Hs H) as [s1 [H1 [H2 H3]]].
    exists s1. repeat split; auto. lia. }
  induction r as [|p|r1 IH1 r2 IH2|r1 IH1 r2 IH2|g r1 IH1|g r1 IH1|m|m| |r1 IH1];
    intros k s s' Hs H; try (apply Hweak; auto; fail).
  - simpl in H. destruct (rest s) as [|c t] eqn:E; [discriminate|].
    destruct (p c); [|discriminate].
    eexists. split; [|split; [|exact H]].
    + unfold inSubject in *. simpl. rewrite E in Hs. simpl in Hs. lia.
    + simpl. lia.
  - simpl in H. destruct (IH1 _ _ _ Hs H) as [s1 [Hs1 [Hle1 H1]]].
    destruct (IH2 _ _ _ Hs1 H1) as [s2 [Hs2 [Hle2 H2]]].
    exists s2. repeat split; auto. simpl. lia.
  - simpl in H. destruct (rmatch r1 k s) as [x|] eqn:E.
    + inversion H; subst. destruct (IH1 _ _ _ Hs E) as [s1 [Hs1 [Hle1 H1]]].
      exists s1. repeat split; auto. simpl. lia.
    + destruct (IH2 _ _ _ Hs H) as [s1 [Hs1 [Hle1 H1]]].
      exists s1. repeat split; auto. simpl. lia.
  - simpl in H. destruct (IH1 _ _ _ Hs H) as [s1 [Hs1 [Hle1 H1]]].
    exists (capture g s s1). repeat split; auto.
Qed.

Lemma search_advances (r : regex) :
  forall l i p m,
    search r i p l = Some m -> index m + minLen r <= endIndex m.
Proof.
  induction l as [|c l IH]; intros i p m H; simpl in H.
  - destruct (rmatch r Some (mkState i p [] [])) as [s'|] eqn:E; [|discriminate].
    inversion H; subst. simpl.
    destruct (rmatch_advances (i + 0) r Some (mkState i p [] []) s' eq_refl E)
      as [s1 [Hs1 [Hle H1]]].
    inversion H1; subst. simpl in *. lia.
  - destruct (rmatch r Some (mkState i p (c :: l) [])) as [s'|] eqn:E.
    + inversion H; subst. simpl.
      destruct (rmatch_advances (i + S (List.length l)) r Some
                  (mkState i p (c :: l) []) s' eq_refl E)
        as [s1 [Hs1 [Hle H1]]].
      inversion H1; subst. simpl in *. lia.
    + eapply IH; eauto.
Qed.

(** a pattern that cannot match the empty string never stalls its loop *)
Lemma execAll_ends (r : regex) (s : string) :
  0 < minLen r -> execAll r s <> None.
Proof.
  intros Hr H. apply execAll_diverges in H. destruct H as [i [m [He Hem]]].
  unfold exec in He.
  destruct (at_index i None (list_ascii_of_string s)) as [[p l]|]; [|discriminate].
  apply search_advances in He. lia.
Qed.

Lemma loopPatterns_advance :
  forall r, In r loopPatterns -> 0 < minLen r.
Proof.
  intros r H.
  assert (Hall : forallb (fun r => (0 <? minLen r)%nat) loopPatterns = true)
    by (vm_compute; reflexivity).
  rewrite forallb_forall in Hall. apply Hall in H. apply Nat.ltb_lt in H. exact H.
Qed.

Lemma overMatches_ends {S} (patterns : list regex) (text : string)
  (body : regex -> mresult -> S -> S) :
  (forall r, In r patterns -> In r loopPatterns) ->
  forall s, overMatches patterns text body s <> None.
Proof.
  induction patterns as [|p ps IH]; intros Hin s; simpl.
  - discriminate.
  - destruct (execAll p text) as [ms|] eqn:E.
    + apply IH. intros r Hr. apply Hin. right. exact Hr.
    + exfalso. revert E. apply execAll_ends. apply loopPatterns_advance.
      apply Hin. left. reflexivity.
Qed.

Lemma extractDefinitions_ends (rt : runtime) (content filePath : string) :
  extractDefinitions rt content filePath <> None.
Proof.
  unfold extractDefinitions.
  repeat match goal with
         | |- match overMatches ?ps ?t ?b ?s with _ => _ end <> None =>
             let E := fresh "E" in
             destruct (overMatches ps t b s) eqn:E;
             [|exfalso; revert E; apply overMatches_ends;
               intros r Hr; unfold loopPatterns; repeat rewrite in_app_iff; tauto]
         end.
  apply overMatches_ends.
  intros r Hr; unfold loopPatterns; repeat rewrite in_app_iff; tauto.
Qed.

Lemma ends_bind {A B} (c : M A) (k : A -> M B) :
  ends c -> (forall a, ends (k a)) -> ends (bind c k).
Proof.
  intros Hc Hk w. unfold bind. specialize (Hc w).
  destruct (c w) as [[a| |] w1]; simpl in *; auto.
  - apply Hk.
  - discriminate.
Qed.

Lemma ends_ret {A} (a : A) : ends (ret a).
Proof. intros w. discriminate. Qed.

Lemma ends_throw {A} (e : error) : ends (@throw A e).
Proof. intros w. discriminate. Qed.

Lemma ends_warn (x : warning) : ends (warn x).
Proof. intros w. discriminate. Qed.

Lemma ends_forEachM {A S} (f : A -> S -> M S) (xs : list A) :
  (forall x s, ends (f x s)) -> forall s, ends (forEachM f xs s).
Proof.
  intros Hf. induction xs as [|x xs IH]; intros s; simpl.
  - apply ends_ret.
  - apply ends_bind; auto.
Qed.

Lemma ends_readFile (rt : runtime) (p : string) : ends (readFile rt p).
Proof.
  unfold readFile. destruct (readFileSync rt p);
    [apply ends_ret|apply ends_throw].
Qed.

Lemma ends_compile (rt : runtime) (source : string) : ends (compile rt source).
Proof.
  unfold compile. destruct (newRegExp rt source);
    [apply ends_ret|apply ends_throw].
Qed.

Lemma ends_terminating {A} (o : option A) : o <> None -> ends (terminating o).
Proof.
  intros H w. unfold terminating. destruct o; [discriminate|congruence].
Qed.

Ltac ends_step :=
  first
    [ apply ends_ret | apply ends_throw | apply ends_warn
    | apply ends_readFile | apply ends_compile
    | apply ends_bind; [|intros ?]
    | apply ends_forEachM; intros ? ? ].

Lemma ends_isUsed (rt : runtime) usageMap definitions filePath content name :
  ends (isUsed rt usageMap definitions filePath content name).
Proof.
  unfold isUsed. repeat ends_step.
  repeat match goal with
         | |- ends (if ?c then _ else _) => destruct c
         end; apply ends_ret.
Qed.

Lemma ends_checkUnusedDefinitions (rt : runtime) usageMap definitions filePath
  content analysis :
  ends (checkUnusedDefinitions rt usageMap definitions filePath content analysis).
Proof.
  unfold checkUnusedDefinitions.
  repeat first
    [ apply ends_isUsed
    | ends_step
    | match goal with
      | |- ends (if ?c then _ else _) => destruct c
      end ].
Qed.

Lemma ends_matchesSpelling (rt : runtime) (content : string) (ps : list string) :
  ends (matchesSpelling rt content ps).
Proof.
  induction ps as [|p ps IH]; simpl.
  - apply ends_ret.
  - apply ends_bind; [apply ends_compile|].
    intros r. destruct (test r content); [apply ends_ret|exact IH].
Qed.

Lemma ends_importedBy (rt : runtime) (file : string) (ps others : list string) :
  ends (importedBy rt file ps others).
Proof.
  induction others as [|o os IH]; simpl.
  - apply ends_ret.
  - destruct (String.eqb o file); [exact IH|].
    apply ends_bind; [apply ends_readFile|]. intros content.
    apply ends_bind; [apply ends_matchesSpelling|].
    intros [|]; [apply ends_ret|exact IH].
Qed.

(** X9. No run hangs: under either strategy, for every environment and
    every list of files, the run ends, normally or by an exception. The
    matching loops are the only loops that could go on for ever, and none of
    the patterns they run can match the empty string. *)
Theorem run_always_ends :
  forall (rt : runtime) (config : AnalyzerConfig) (allFiles : list string),
    fst (run rt config allFiles) <> Diverge.
Proof.
  intros rt config allFiles. unfold run.
  assert (H : ends (findDeadCode rt config allFiles)).
  { unfold findDeadCode.
    apply ends_bind.
    - destruct (mode config).
      + unfold performASTAnalysis. apply ends_bind; [|intros; apply ends_ret].
        unfold analyzeAllFiles. apply ends_forEachM. intros f acc.
        unfold analyzeStep. apply ends_bind; [|intros; apply ends_ret].
        unfold ASTAnalyzer.analyzeFile.
        apply ends_bind; [apply ends_readFile|]. intros content.
        destruct (parseFile rt f content); [apply ends_ret|].
        apply ends_bind; [apply ends_warn|intros; apply ends_ret].
      + unfold performRegexAnalysis. apply ends_bind.
        * unfold buildUsageMap. apply ends_forEachM. intros f m.
          unfold usageStep. apply ends_bind; [apply ends_readFile|].
          intros content. apply ends_terminating. apply overMatches_ends.
          intros r Hr. unfold loopPatterns. repeat rewrite in_app_iff. tauto.
        * intros usageMap. apply ends_forEachM. intros f a.
          unfold analyzeFile. apply ends_bind; [apply ends_readFile|].
          intros content. apply ends_bind.
          -- apply ends_terminating. apply extractDefinitions_ends.
          -- intros d. apply ends_checkUnusedDefinitions.
    - intros a. apply ends_bind; [|intros; apply ends_ret].
      unfold findUnusedFiles. apply ends_forEachM. intros f a'.
      unfold checkFile. apply ends_bind; [apply ends_importedBy|].
      intros b. apply ends_bind; [apply ends_readFile|]. intros content.
      destruct (_ && _); [|apply ends_ret].
      destruct (statSync_size rt f); [apply ends_ret|].
      apply ends_bind; [apply ends_warn|intros; apply ends_ret]. }
  apply H.
Qed.

(** ** analyzer.ts: a read that fails ends the run *)

Lemma firstUnreadable_some (rt : runtime) (files : list string) (file : string) :
  In file files -> readFileSync rt file = None ->
  exists f, firstUnreadable rt files = Some f.
Proof.
  induction files as [|x xs IH]; intros Hin Hread; [contradiction|].
  simpl. destruct (readFileSync rt x) eqn:E; [|eauto].
  destruct Hin as [->|Hin]; [congruence|auto].
Qed.

Lemma firstUnreadable_spec (rt : runtime) (files : list string) (f : string) :
  firstUnreadable rt files = Some f ->
  In f files /\ readFileSync rt f = None.
Proof.
  induction files as [|x xs IH]; intros H; [discriminate|].
  simpl in H. destruct (readFileSync rt x) eqn:E.
  - destruct (IH H) as [H1 H2]. split; [right|]; assumption.
  - inversion H; subst. split; [left; reflexivity|exact E].
Qed.

(** a loop whose body reads its file first, and otherwise ends normally,
    throws the read error of the first file that cannot be read *)
Lemma forEachM_first_unreadable {S} (rt : runtime) (body : string -> S -> M S) :
  (forall x s w, readFileSync rt x = None ->
                 body x s w = (Throw (ReadError x), w)) ->
  (forall x s w, readFileSync rt x <> None ->
                 exists s' w', body x s w = (Ok s', w')) ->
  forall files f, firstUnreadable rt files = Some f ->
  forall s w, fst (forEachM body files s w) = Throw (ReadError f).
Proof.
  intros Hnone Hsome files f. induction files as [|x xs IH]; intros H s w;
    [discriminate|].
  simpl in H. simpl. unfold bind.
  destruct (readFileSync rt x) eqn:E.
  - destruct (Hsome x s w) as [s' [w' Hx]]; [congruence|].
    rewrite Hx. apply IH. exact H.
  - inversion H; subst. rewrite (Hnone f s w E). reflexivity.
Qed.

Lemma analyzeStep_unreadable (rt : runtime) (file : string) (acc : AllFiles)
  (w : list warning) :
  readFileSync rt file = None ->
  analyzeStep rt file acc w = (Throw (ReadError file), w).
Proof.
  intros H. unfold analyzeStep, ASTAnalyzer.analyzeFile, readFile, bind, throw.
  rewrite H. reflexivity.
Qed.

Lemma usageStep_unreadable (rt : runtime) (config : AnalyzerConfig)
  (file : string) (um : list (string * list Usage)) (w : list warning) :
  readFileSync rt file = None ->
  usageStep rt config file um w = (Throw (ReadError file), w).
Proof.
  intros H. unfold usageStep, readFile, bind, throw. rewrite H. reflexivity.
Qed.

Lemma usageStep_readable (rt : runtime) (config : AnalyzerConfig)
  (file : string) (um : list (string * list Usage)) (w : list warning) :
  readFileSync rt file <> None ->
  exists um' w', usageStep rt config file um w = (Ok um', w').
Proof.
  intros H. unfold usageStep, readFile, bind, ret, throw, terminating.
  destruct (readFileSync rt file) as [content|]; [|congruence].
  destruct (overMatches PATTERNS_usage content _ um) as [um'|] eqn:E; [eauto|].
  exfalso. revert E. apply overMatches_ends.
  intros r Hr. unfold loopPatterns. repeat rewrite in_app_iff. tauto.
Qed.

(** C3, as the code has it. No strategy catches a failed read. When a file
    of the input set cannot be read, the run of either strategy ends with
    the read error of the first file of the set that cannot be read: each
    strategy reads the files in their order, nothing else throws before it,
    and the run returns no analysis result. *)
Theorem read_failure_ends_run :
  forall (rt : runtime) (config : AnalyzerConfig) (allFiles : list string)
         (file : string),
    In file allFiles ->
    readFileSync rt file = None ->
    forall w,
    exists f,
      firstUnreadable rt allFiles = Some f
      /\ In f allFiles
      /\ readFileSync rt f = None
      /\ fst (findDeadCode rt config allFiles w) = Throw (ReadError f).
Proof.
  intros rt config allFiles file Hin Hread w.
  destruct (firstUnreadable_some rt allFiles file Hin Hread) as [f Hf].
  destruct (firstUnreadable_spec rt allFiles f Hf) as [Hinf Hreadf].
  exists f. repeat split; auto.
  unfold findDeadCode, bind.
  destruct (mode config).
  - unfold performASTAnalysis, bind, analyzeAllFiles.
    pose proof (forEachM_first_unreadable rt (analyzeStep rt)
                  (fun x s w0 => analyzeStep_unreadable rt x s w0)
                  (fun x s w0 Hx =>
                     succeeded_ok _ (analyzeStep_readable rt x Hx s w0))
                  allFiles f Hf (mkAll [] [] [] [] []) w) as H.
    destruct (forEachM (analyzeStep rt) allFiles (mkAll [] [] [] [] []) w)
      as [[a| |] w']; simpl in H; try discriminate.
    inversion H; subst. reflexivity.
  - unfold performRegexAnalysis, bind, buildUsageMap.
    pose proof (forEachM_first_unreadable rt (usageStep rt config)
                  (fun x s w0 => usageStep_unreadable rt config x s w0)
                  (fun x s w0 => usageStep_readable rt config x s w0)
                  allFiles f Hf [] w) as H.
    destruct (forEachM (usageStep rt config) allFiles [] w)
      as [[a| |] w']; simpl in H; try discriminate.
    inversion H; subst. reflexivity.
Qed.

Lemma read_failure_ends_run_witness :
  exists f,
    firstUnreadable runtimeA filesGone = Some f
    /\ In f filesGone
    /\ readFileSync runtimeA f = None
    /\ fst (findDeadCode runtimeA (mkConfig "src" regex_mode) filesGone [])
       = Throw (ReadError f).
Proof.
  apply (read_failure_ends_run runtimeA (mkConfig "src" regex_mode) filesGone
           "src/gone.js").
  - simpl. auto.
  - reflexivity.
Defined.

(** ** analyzer.ts: what every report satisfies *)

Section RunInvariant.

Variable P : AnalysisResults -> Prop.
Hypothesis P_pushIssue : forall issue a, P a -> P (pushIssue issue a).

Lemma checkUnusedDefinitions_invariant rt usageMap definitions filePath content
  a w a' w' :
  checkUnusedDefinitions rt usageMap definitions filePath content a w
  = (Ok a', w') ->
  P a -> P a'.
Proof.
  unfold checkUnusedDefinitions, bind.
  destruct (forEachM _ (fd_components definitions) a w) as [[a1| |] w1] eqn:E1;
    try discriminate.
  destruct (forEachM _ (fd_functions definitions) a1 w1) as [[a2| |] w2] eqn:E2;
    try discriminate.
  destruct (forEachM _ (fd_variables definitions) a2 w2) as [[a3| |] w3] eqn:E3;
    try discriminate.
  intros E4 Ha.
  assert (H1 : P a1).
  { eapply (forEachM_invariant P); [|exact E1|exact Ha].
    intros x s w0 s' w0' Hs Hn. unfold bind, ret in Hs.
    destruct (isUsed rt usageMap definitions filePath content x w0)
      as [[[|]| |] wu]; inversion Hs; subst; auto. }
  assert (H2 : P a2).
  { eapply (forEachM_invariant P); [|exact E2|exact H1].
    intros x s w0 s' w0' Hs Hn. unfold bind, ret in Hs.
    destruct (isUsed rt usageMap definitions filePath content x w0)
      as [[[|]| |] wu]; simpl in Hs; try (inversion Hs; subst; auto; fail).
    destruct (compile rt _ wu) as [[re| |] wc]; try discriminate.
    destruct (negb (test re content)); inversion Hs; subst; auto. }
  assert (H3 : P a3).
  { eapply (forEachM_invariant P); [|exact E3|exact H2].
    intros x s w0 s' w0' Hs Hn. unfold bind, ret in Hs.
    destruct (isUsed rt usageMap definitions filePath content x w0)
      as [[[|]| |] wu]; inversion Hs; subst; auto. }
  eapply (forEachM_invariant P); [|exact E4|exact H3].
  intros x s w0 s' w0' Hs Hn. unfold ret in Hs.
  match type of Hs with
  | (if ?c then _ else _) _ = _ => destruct c
  end; inversion Hs; subst; auto.
Qed.

Lemma performRegexAnalysis_invariant rt config allFiles a w a' w' :
  performRegexAnalysis rt config allFiles a w = (Ok a', w') ->
  P a -> P a'.
Proof.
  unfold performRegexAnalysis, bind.
  destruct (buildUsageMap rt config allFiles w) as [[um| |] w1]; try discriminate.
  intros H Ha.
  eapply (forEachM_invariant P); [|exact H|exact Ha].
  intros x s w0 s' w0' Hs Hn.
  unfold DeadCodeAnalyzer.analyzeFile, bind, readFile, ret, throw, terminating in Hs.
  destruct (readFileSync rt x) as [content|]; [|discriminate].
  destruct (extractDefinitions rt content x) as [d|]; [|discriminate].
  eapply checkUnusedDefinitions_invariant; eauto.
Qed.

Lemma performASTAnalysis_invariant rt allFiles a w a' w' :
  performASTAnalysis rt allFiles a w = (Ok a', w') ->
  P a -> P a'.
Proof.
  unfold performASTAnalysis, bind, ret.
  destruct (analyzeAllFiles rt allFiles w) as [[all| |] w1]; try discriminate.
  intros H Ha. inversion H; subst.
  apply fold_left_invariant; [|exact Ha].
  intros a0 entry _ Ha0. apply fold_left_invariant; auto.
  intros a1 def _ Ha1. unfold reportDefinition.
  destruct (negb _); auto.
Qed.

Hypothesis P_pushFile : forall f a, P a -> P (pushFile f a).

Lemma findUnusedFiles_invariant rt config allFiles a w a' w' :
  findUnusedFiles rt config allFiles a w = (Ok a', w') ->
  P a -> P a'.
Proof.
  unfold findUnusedFiles. intros H Ha.
  eapply (forEachM_invariant P); [|exact H|exact Ha].
  intros x s w0 s' w0' Hs Hn.
  unfold checkFile, bind, readFile, ret, throw, warn in Hs.
  destruct (importedBy rt x (possibleImportPaths rt config x) allFiles w0)
    as [[imported| |] w1]; try discriminate.
  destruct (readFileSync rt x) as [content|]; [|discriminate].
  destruct (_ && _); [|inversion Hs; subst; auto].
  destruct (statSync_size rt x); inversion Hs; subst; auto.
Qed.

Hypothesis P_empty : P emptyAnalysis.
Hypothesis P_report : forall a, P a -> P (generateDeadCodeReport a).

Lemma run_invariant rt config allFiles r w :
  run rt config allFiles = (Ok r, w) -> P r.
Proof.
  unfold run, findDeadCode, bind, ret.
  destruct (match mode config with
            | ast_mode => performASTAnalysis rt allFiles emptyAnalysis
            | regex_mode => performRegexAnalysis rt config allFiles emptyAnalysis
            end []) as [[a1| |] w1] eqn:E1; try discriminate.
  destruct (findUnusedFiles rt config allFiles a1 w1) as [[a2| |] w2] eqn:E2;
    try discriminate.
  intros H. inversion H; subst.
  apply P_report. eapply findUnusedFiles_invariant; eauto.
  destruct (mode config).
  - eapply performASTAnalysis_invariant; eauto.
  - eapply performRegexAnalysis_invariant; eauto.
Qed.

End RunInvariant.

(** X10. In the report of every run that ends normally, under either
    strategy, the list of unused exports is empty, and each of the other
    lists of issues holds only issues of its own kind: components among the
    unused components, functions among the unused functions, variables
    among the unused variables and imports among the unused imports. A
    definition of kind export is dropped. *)
Theorem report_sorted_by_kind :
  forall (rt : runtime) (config : AnalyzerConfig) (allFiles : list string)
         (r : AnalysisResults) (w : list warning),
    run rt config allFiles = (Ok r, w) ->
    sorted_by_kind r.
Proof.
  intros rt config allFiles r w.
  apply (run_invariant sorted_by_kind).
  - intros issue a [Hc [Hf [Hv [Hi He]]]]. unfold sorted_by_kind, pushIssue.
    destruct (issue_type issue) eqn:E; simpl; repeat split; auto;
      apply Forall_app; split; auto.
  - intros f a H. exact H.
  - repeat split; constructor.
  - intros a H. exact H.
Qed.

Lemma report_sorted_by_kind_witness : sorted_by_kind reportH.
Proof.
  exact (report_sorted_by_kind runtimeH (mkConfig "src" regex_mode) filesH
           reportH [] run_scenarioH).
Defined.

(** ** analyzer.ts: the second look at a function *)

(** X11. The second test [checkUnusedDefinitions] makes before it reports a
    function never changes the verdict: whenever [isUsed] answers false for
    a name, the call pattern built from that name compiles and does not
    match the content, so the function is reported. *)
Theorem function_double_check_is_redundant :
  forall (rt : runtime) (usageMap : list (string * list Usage))
         (definitions : FileDefinitions) (filePath content func : string)
         (w w' : list warning),
    isUsed rt usageMap definitions filePath content func w = (Ok false, w') ->
    exists functionCallRegex,
      compile rt ("\b" ++ func ++ "\s*\(") w' = (Ok functionCallRegex, w')
      /\ test functionCallRegex content = false.
Proof.
  intros rt usageMap definitions filePath content func w w'.
  unfold isUsed, bind, compile, ret, throw.
  destruct (newRegExp rt ("\b" ++ func ++ "\s*\(")) as [r1|]; [|discriminate].
  destruct (newRegExp rt ("<" ++ func ++ "[\s/>]")) as [r2|]; [|discriminate].
  destruct (newRegExp rt ("\b" ++ func ++ "\b")) as [r3|]; [|discriminate].
  destruct (match mapGet func usageMap with
            | Some us => existsb (fun u => negb (String.eqb (file u) filePath)) us
            | None => false
            end); [discriminate|].
  cbn [existsb].
  destruct (test r1 content) eqn:E1; [simpl; discriminate|].
  intros H. exists r1. split; [reflexivity|exact E1].
Qed.

Lemma function_double_check_is_redundant_witness :
  exists functionCallRegex,
    compile runtimeA ("\b" ++ "helper" ++ "\s*\(") [] = (Ok functionCallRegex, [])
    /\ test functionCallRegex "let x = 1;" = false.
Proof.
  apply (function_double_check_is_redundant runtimeA [] (mkFD [] [] [] [] [])
           "a.js" "let x = 1;" "helper" [] []).
  vm_compute. reflexivity.
Defined.

(** ** analyzer.ts: line numbers and top-level variables *)

Lemma startsWith_empty (s : string) : JS.startsWith s EmptyString = true.
Proof. destruct s; reflexivity. Qed.

Lemma split_go_single_length (c : ascii) :
  forall s fuel cur,
    String.length s < fuel ->
    List.length (JS.split_go fuel (String c EmptyString) s cur)
    = S (countChar c s).
Proof.
  unfold countChar.
  induction s as [|d s IH]; intros fuel cur Hf.
  - destruct fuel; reflexivity.
  - destruct fuel as [|fuel]; [simpl in Hf; lia|].
    simpl in Hf. simpl.
    rewrite startsWith_empty.
    destruct (Ascii.eqb c d); simpl.
    + rewrite IH by lia. reflexivity.
    + rewrite IH by lia. reflexivity.
Qed.

(** X12. The line the lexical strategy gives to a match is one more than
    the number of line feeds before it: lines are counted from 1, and a
    carriage return alone starts no line. *)
Theorem lineAt_counts_line_feeds :
  forall (content : string) (index : nat),
    lineAt content index
    = S (countChar LFchar (JS.substring0 content index)).
Proof.
  intros content index. unfold lineAt, JS.split, LF.
  apply split_go_single_length. lia.
Qed.

Lemma split_go_nonempty (sep : string) :
  forall fuel s cur, JS.split_go fuel sep s cur <> [].
Proof.
  induction fuel as [|fuel IH]; intros s cur; simpl.
  - discriminate.
  - destruct s as [|c s]; [discriminate|].
    destruct (JS.startsWith (String c s) sep); [discriminate|apply IH].
Qed.

Lemma last_cons_nonempty {A} (x : A) (l : list A) (d : A) :
  l <> [] -> List.last (x :: l) d = List.last l d.
Proof. destruct l; [congruence|reflexivity]. Qed.

Lemma split_go_ends_with_LF :
  forall t fuel cur,
    String.length t < fuel ->
    List.last (JS.split_go fuel LF (t ++ LF) cur) EmptyString = EmptyString.
Proof.
  induction t as [|c t IH]; intros fuel cur Hf.
  - destruct fuel as [|fuel]; [simpl in Hf; lia|].
    simpl. destruct fuel; reflexivity.
  - destruct fuel as [|fuel]; [simpl in Hf; lia|].
    simpl in Hf.
    change (JS.split_go (S fuel) LF (String c t ++ LF) cur)
      with (if JS.startsWith (String c (t ++ LF)) LF
            then JS.rev cur :: JS.split_go fuel LF
                                 (JS.drop (String.length LF) (String c (t ++ LF)))
                                 EmptyString
            else JS.split_go fuel LF (t ++ LF) (String c cur)).
    destruct (JS.startsWith (String c (t ++ LF)) LF).
    + rewrite last_cons_nonempty by apply split_go_nonempty.
      simpl JS.drop. apply IH. lia.
    + apply IH. lia.
Qed.

Lemma length_append (a b : string) :
  String.length (a ++ b) = String.length a + String.length b.
Proof. induction a; simpl; auto. Qed.

(** a declaration right after a line feed, or at the very start of the
    text, is not taken as a top-level one: the text of its line before it
    is empty *)
Lemma isTopLevelVariable_after_LF (content : string) (index : nat) :
  (JS.substring0 content index = EmptyString
   \/ exists t, JS.substring0 content index = t ++ LF) ->
  isTopLevelVariable content index = false.
Proof.
  intros H. unfold isTopLevelVariable.
  assert (Hl : List.last (JS.split (JS.substring0 content index) LF) EmptyString
               = EmptyString).
  { destruct H as [H|[t H]]; rewrite H.
    - reflexivity.
    - unfold JS.split. apply split_go_ends_with_LF.
      rewrite length_append. simpl. lia. }
  rewrite Hl.
  destruct (_ <? _)%nat; reflexivity.
Qed.

Lemma substring0_app (a b : string) (n : nat) :
  String.substring 0 (String.length a + n) (a ++ b)
  = a ++ String.substring 0 n b.
Proof.
  induction a as [|c a IH]; simpl.
  - reflexivity.
  - rewrite IH. reflexivity.
Qed.

(** X13. [isTopLevelVariable] answers false for a declaration that begins
    its line: at index 0 of any text, and right after any line feed,
    whatever comes before and after and whatever the braces are. *)
Theorem isTopLevelVariable_false_at_line_start :
  forall (before after : string),
    isTopLevelVariable after 0 = false
    /\ isTopLevelVariable (before ++ LF ++ after) (S (String.length before))
       = false.
Proof.
  intros before after. split; apply isTopLevelVariable_after_LF.
  - left. unfold JS.substring0. destruct after; reflexivity.
  - right. exists before. unfold JS.substring0.
    rewrite <- Nat.add_1_r. rewrite substring0_app.
    simpl. destruct after; reflexivity.
Qed.

Lemma at_index_substring :
  forall j s p p' l',
    at_index j p (list_ascii_of_string s) = Some (p', l') ->
    (j = 0 /\ p' = p)
    \/ (exists t c, p' = Some c
                    /\ JS.substring0 s j = t ++ String c EmptyString).
Proof.
  unfold JS.substring0.
  induction j as [|j IH]; intros s p p' l' H.
  - left. simpl in H. inversion H. auto.
  - right. destruct s as [|c s]; [discriminate|]. simpl in H.
    destruct (IH _ _ _ _ H) as [[Hj Hp]|[t [c' [Hp Hs]]]].
    + subst. exists EmptyString, c. split; [reflexivity|].
      simpl. destruct s; reflexivity.
    + exists (String c t), c'. split; [exact Hp|].
      simpl. rewrite Hs. reflexivity.
Qed.

Lemma at_index_compose :
  forall i l p0 p l1 k p' l',
    at_index i p0 l = Some (p, l1) ->
    at_index k p l1 = Some (p', l') ->
    at_index (i + k) p0 l = Some (p', l').
Proof.
  induction i as [|i IH]; intros l p0 p l1 k p' l' H1 H2.
  - simpl in H1. inversion H1; subst. exact H2.
  - destruct l as [|c l]; [discriminate|]. simpl in H1. simpl.
    eapply IH; eauto.
Qed.

(** where [search] finds a match, the pattern matches *)
Lemma search_found (r : regex) :
  forall l i p m,
    search r i p l = Some m ->
    exists p' l',
      at_index (index m - i) p l = Some (p', l')
      /\ rmatch r Some (mkState (index m) p' l' []) <> None.
Proof.
  induction l as [|c l IH]; intros i p m H.
  - simpl in H.
    destruct (rmatch r Some (mkState i p [] [])) as [s'|] eqn:E; [|discriminate].
    inversion H; subst. simpl. rewrite Nat.sub_diag.
    exists p, []. split; [reflexivity|congruence].
  - pose proof (search_bounds r _ _ _ _ H) as Hb.
    simpl in H.
    destruct (rmatch r Some (mkState i p (c :: l) [])) as [s'|] eqn:E.
    + inversion H; subst. simpl. rewrite Nat.sub_diag.
      exists p, (c :: l). split; [reflexivity|congruence].
    + pose proof (search_bounds r _ _ _ _ H) as Hb'.
      destruct (IH _ _ _ H) as [p' [l' [Ha Hm]]].
      exists p', l'. split; [|exact Hm].
      replace (index m - i) with (S (index m - S i)) by lia.
      exact Ha.
Qed.

Lemma exec_found (r : regex) (s : string) (lastIndex : nat) (m : mresult) :
  exec r s lastIndex = Some m ->
  exists p' l',
    at_index (index m) None (list_ascii_of_string s) = Some (p', l')
    /\ rmatch r Some (mkState (index m) p' l' []) <> None.
Proof.
  unfold exec.
  destruct (at_index lastIndex None (list_ascii_of_string s)) as [[p l]|] eqn:E;
    [|discriminate].
  intros H. pose proof (search_bounds r _ _ _ _ H) as Hb.
  destruct (search_found r _ _ _ _ H) as [p' [l' [Ha Hm]]].
  exists p', l'. split; [|exact Hm].
  replace (index m) with (lastIndex + (index m - lastIndex)) at 1 by lia.
  eapply at_index_compose; eauto.
Qed.

Lemma allChars_substring (q : ascii -> bool) :
  forall s n, allChars q s = true -> allChars q (String.substring 0 n s) = true.
Proof.
  induction s as [|c s IH]; intros n H.
  - destruct n; reflexivity.
  - destruct n as [|n]; [reflexivity|]. simpl in *.
    apply andb_true_iff in H. destruct H as [Hc Hs].
    rewrite Hc. simpl. apply IH. exact Hs.
Qed.

Lemma allChars_last (q : ascii -> bool) :
  forall t c, allChars q (t ++ String c EmptyString) = true -> q c = true.
Proof.
  induction t as [|d t IH]; intros c H; simpl in H.
  - apply andb_true_iff in H. tauto.
  - apply andb_true_iff in H. apply IH. tauto.
Qed.

Lemma line_terminator_is_LF (c : ascii) :
  isLineTerminator c = true -> Ascii.eqb c CRchar = false -> c = LFchar.
Proof.
  unfold isLineTerminator, CRchar, LFchar. intros H Hcr.
  apply orb_true_iff in H. destruct H as [H|H]; apply Nat.eqb_eq in H.
  - rewrite <- H. symmetry. apply ascii_nat_embedding.
  - rewrite <- (ascii_nat_embedding c) in Hcr. rewrite H in Hcr.
    rewrite Ascii.eqb_refl in Hcr. discriminate.
Qed.

(** X14. In an ASCII text without carriage returns, the pattern of
    [PATTERNS.variable] for a declaration that starts its line records
    nothing: at each of its matches the test [isTopLevelVariable] fails, so
    the third loop of [analyzeFile] leaves the definitions as they were.
    Only the pattern for exported declarations can record a variable. In
    such a text the line feed is the only line terminator: the start of a
    line that the pattern finds is the start of a line that
    [isTopLevelVariable] cuts. *)
Theorem line_start_pattern_records_no_variable :
  forall (content contentWithoutComments : string)
         (lastIndex : nat) (m : mresult) (definitions : FileDefinitions),
    asciiText contentWithoutComments = true ->
    noCR contentWithoutComments = true ->
    exec lineStartVariable contentWithoutComments lastIndex = Some m ->
    variableBody content contentWithoutComments lineStartVariable m
                 definitions
    = definitions.
Proof.
  intros content cwc lastIndex m d _ Hcr He.
  assert (Htop : isTopLevelVariable cwc (index m) = false).
  { destruct (exec_found _ _ _ _ He) as [p' [l' [Ha Hm]]].
    apply isTopLevelVariable_after_LF.
    destruct (at_index_substring _ _ _ _ _ Ha) as [[Hj Hp]|[t [c [Hp Hs]]]].
    - left. rewrite Hj. unfold JS.substring0. destruct cwc; reflexivity.
    - right. exists t. rewrite Hs. subst p'.
      assert (Hlt : isLineTerminator c = true).
      { unfold lineStartVariable in Hm. simpl in Hm.
        destruct (isLineTerminator c); [reflexivity|]. congruence. }
      assert (Hq : negb (Ascii.eqb c CRchar) = true).
      { apply (allChars_last (fun c => negb (Ascii.eqb c CRchar)) t).
        rewrite <- Hs. apply allChars_substring. exact Hcr. }
      apply negb_true_iff in Hq.
      rewrite (line_terminator_is_LF c Hlt Hq). reflexivity. }
  unfold variableBody. rewrite Htop.
  destruct (group 1 (captures m)); [|reflexivity].
  destruct (_ && _); [|reflexivity].
  destruct (_ && _); reflexivity.
Qed.

Lemma line_start_pattern_records_no_variable_witness :
  exists m,
    exec lineStartVariable "const total = 1;" 0 = Some m
    /\ variableBody "const total = 1;" "const total = 1;"
                    lineStartVariable m (mkFD [] [] [] [] [])
       = mkFD [] [] [] [] [].
Proof.
  assert (E : exists m, exec lineStartVariable "const total = 1;" 0 = Some m)
    by (vm_compute; eexists; reflexivity).
  destruct E as [m E]. exists m. split; [exact E|].
  apply (line_start_pattern_records_no_variable "const total = 1;"
           "const total = 1;" 0 m (mkFD [] [] [] [] []) eq_refl eq_refl E).
Defined.

(** ** analyzer.ts: the kinds of the definitions of a file *)

Lemma arrayIncludes_false (xs : list string) (x : string) :
  JS.arrayIncludes xs x = false -> ~ In x xs.
Proof.
  unfold JS.arrayIncludes. intros H Hin.
  assert (Ht : existsb (String.eqb x) xs = true).
  { apply existsb_exists. exists x. split; [exact Hin|apply String.eqb_refl]. }
  congruence.
Qed.

Lemma disjointKinds_addImportClause (text : string) (d : FileDefinitions) :
  disjointKinds d -> disjointKinds (addImportClause text d).
Proof.
  unfold addImportClause. apply fold_left_invariant.
  intros a imp _ Ha. destruct (_ && _); exact Ha.
Qed.

(** X15. The component, function and variable names [analyzeFile]
    extracts from a file are three disjoint sets: a name recorded as a
    component is never also recorded as a function, and a name recorded as a
    variable is neither a component nor a function. So no definition is
    reported twice under two kinds. *)
Theorem extracted_kinds_are_disjoint :
  forall (rt : runtime) (content filePath : string) (d : FileDefinitions),
    extractDefinitions rt content filePath = Some d ->
    disjointKinds d.
Proof.
  intros rt content filePath d. unfold extractDefinitions.
  destruct (overMatches PATTERNS_component _ _ _) as [d1|] eqn:E1; [|discriminate].
  destruct (overMatches PATTERNS_function _ _ _) as [d2|] eqn:E2; [|discriminate].
  destruct (overMatches PATTERNS_variable _ _ _) as [d3|] eqn:E3; [|discriminate].
  destruct (overMatches PATTERNS_import _ _ _) as [d4|] eqn:E4; [|discriminate].
  intros E5.
  assert (H1 : (forall n, In n (fd_components d1) ->
                          isLikelyComponent (cwd rt) n content filePath = true)
               /\ (forall n, In n (fd_functions d1) ->
                             isLikelyComponent (cwd rt) n content filePath = false)
               /\ fd_variables d1 = []).
  { eapply (overMatches_invariant
              (fun d => (forall n, In n (fd_components d) ->
                           isLikelyComponent (cwd rt) n content filePath = true)
                        /\ (forall n, In n (fd_functions d) ->
                              isLikelyComponent (cwd rt) n content filePath = false)
                        /\ fd_variables d = []));
      [|exact E1|simpl; intuition].
    intros p m s [Hc [Hf Hv]]. unfold componentBody.
    destruct (group 1 (captures m)) as [name|]; auto.
    destruct (negb (BUILT_INS_has name) && negb (isCommonPattern name)); auto.
    destruct (isLikelyComponent (cwd rt) name content filePath) eqn:EL;
      match goal with
      | |- context [if ?c then _ else _] => destruct c
      end; simpl; repeat split; auto; intros n Hn;
      apply setAdd_In in Hn; destruct Hn as [->|Hn]; auto. }
  assert (H2 : (forall n, In n (fd_components d2) -> ~ In n (fd_functions d2))
               /\ fd_variables d2 = []).
  { eapply (overMatches_invariant
              (fun d => (forall n, In n (fd_components d) -> ~ In n (fd_functions d))
                        /\ fd_variables d = []));
      [|exact E2|].
    - intros p m s [Hc Hv]. unfold functionBody.
      destruct (group 1 (captures m)) as [name|]; auto.
      destruct (negb (BUILT_INS_has name) && negb (isCommonPattern name)); simpl; auto.
      destruct (JS.arrayIncludes (fd_components s) name) eqn:Ein; simpl; auto.
      apply arrayIncludes_false in Ein.
      match goal with
      | |- context [if ?c then _ else _] => destruct c
      end; simpl; split; auto; intros n Hn Hf;
        apply setAdd_In in Hf; destruct Hf as [->|Hf]; auto;
        exact (Hc n Hn Hf).
    - destruct H1 as [Hc [Hf Hv]]. split; auto.
      intros n Hn Hn'. apply Hc in Hn. apply Hf in Hn'. congruence. }
  assert (H3 : disjointKinds d3).
  { eapply (overMatches_invariant disjointKinds); [|exact E3|].
    - intros p m s [Hc Hv]. unfold variableBody.
      destruct (group 1 (captures m)) as [name|]; [|split; auto].
      destruct (negb (BUILT_INS_has name) && negb (isCommonPattern name));
        [|split; auto].
      destruct (JS.arrayIncludes (fd_functions s) name) eqn:Ef;
        [split; auto|].
      destruct (JS.arrayIncludes (fd_components s) name) eqn:Ec;
        [split; auto|].
      apply arrayIncludes_false in Ef. apply arrayIncludes_false in Ec.
      simpl.
      destruct (isTopLevelVariable _ _); [|split; auto].
      match goal with
      | |- context [if ?c then _ else _] => destruct c
      end; split; simpl; auto; intros n Hn;
        apply setAdd_In in Hn; destruct Hn as [->|Hn]; auto.
    - destruct H2 as [Hc Hv]. split; auto.
      rewrite Hv. intros n []. }
  assert (H4 : disjointKinds d4).
  { eapply (overMatches_invariant disjointKinds); [|exact E4|exact H3].
    intros p m s Hs. unfold importBody.
    destruct (groupText 1 m) as [text|].
    - apply disjointKinds_addImportClause; auto.
    - destruct (orElse _ _) as [name|]; auto.
      destruct (_ && _); exact Hs. }
  eapply (overMatches_invariant disjointKinds); [|exact E5|exact H4].
  intros p m s Hs. unfold typeImportBody.
  destruct (group 1 (captures m)) as [text|]; auto.
  apply disjointKinds_addImportClause; auto.
Qed.

Lemma extracted_kinds_are_disjoint_witness :
  exists d,
    extractDefinitions runtimeA contentA "src/a.js" = Some d /\ disjointKinds d.
Proof.
  assert (E : exists d, extractDefinitions runtimeA contentA "src/a.js" = Some d)
    by (vm_compute; eexists; reflexivity).
  destruct E as [d E]. exists d. split; [exact E|].
  exact (extracted_kinds_are_disjoint runtimeA contentA "src/a.js" d E).
Defined.

(** ** config-loader.ts *)

Lemma length_rev_append (s acc : string) :
  String.length (JS.rev_append s acc) = String.length s + String.length acc.
Proof.
  revert acc. induction s as [|c s IH]; intros acc; simpl; auto.
  rewrite IH. simpl. lia.
Qed.

Lemma length_rev (s : string) : String.length (JS.rev s) = String.length s.
Proof. unfold JS.rev. rewrite length_rev_append. simpl. lia. Qed.

Lemma length_dropTrailingSlashes_rev (r : string) :
  String.length (Path.dropTrailingSlashes_rev r) <= String.length r.
Proof.
  induction r as [|c r IH]; simpl; auto.
  destruct c as [[] [] [] [] [] [] [] []]; simpl; auto; lia.
Qed.

Lemma length_untilSlash (r : string) :
  forall a r', Path.untilSlash r = (a, Some r') ->
               String.length r' < String.length r.
Proof.
  induction r as [|c r IH]; intros a r' H; simpl in H.
  - discriminate.
  - destruct (Ascii.eqb c "/"%char).
    + inversion H; subst. simpl. lia.
    + destruct (Path.untilSlash r) as [a0 [b0|]]; inversion H; subst.
      specialize (IH _ _ eq_refl). simpl. lia.
Qed.

(** the parent of a directory is shorter than it, or is the root or the
    current directory *)
Lemma dirname_shrinks (p : string) :
  Path.dirname p = "." \/ Path.dirname p = "/"
  \/ String.length (Path.dirname p) < String.length p.
Proof.
  unfold Path.dirname.
  destruct (Path.untilSlash (Path.dropTrailingSlashes_rev (JS.rev p)))
    as [a [r|]] eqn:E.
  - apply length_untilSlash in E.
    pose proof (length_dropTrailingSlashes_rev (JS.rev p)) as H1.
    pose proof (length_dropTrailingSlashes_rev r) as H2.
    rewrite length_rev in H1.
    destruct (Path.dropTrailingSlashes_rev r) as [|c d] eqn:Ed; auto.
    right. right. rewrite length_rev. lia.
  - destruct (JS.startsWith p "/"); auto.
Qed.

Lemma ancestor_fixed (dir : string) :
  Path.dirname dir = dir -> forall k, ancestor k dir = dir.
Proof.
  intros H k. induction k as [|k IH]; simpl; auto. rewrite H. exact IH.
Qed.

Lemma nearest_fixed (e : ConfigLoader.env) (dir : string) :
  Path.dirname dir = dir ->
  nearest e dir (ConfigLoader.firstExisting e dir ConfigLoader.configNames).
Proof.
  intros H.
  destruct (ConfigLoader.firstExisting e dir ConfigLoader.configNames)
    as [p|] eqn:E; simpl.
  - exists 0. split; [exact E|]. intros j Hj. lia.
  - intros k. rewrite ancestor_fixed; auto.
Qed.

Lemma nearest_here (e : ConfigLoader.env) (dir p : string) :
  ConfigLoader.firstExisting e dir ConfigLoader.configNames = Some p ->
  nearest e dir (Some p).
Proof.
  intros E. exists 0. split; [exact E|]. intros j Hj. lia.
Qed.

Lemma nearest_above (e : ConfigLoader.env) (dir : string) (r : option string) :
  ConfigLoader.firstExisting e dir ConfigLoader.configNames = None ->
  nearest e (Path.dirname dir) r -> nearest e dir r.
Proof.
  intros E H. destruct r as [p|]; simpl in *.
  - destruct H as [k [Hk Hj]]. exists (S k). split; [exact Hk|].
    intros [|j] Hlt; [exact E|]. simpl. apply Hj. lia.
  - intros [|k]; [exact E|]. simpl. apply H.
Qed.

Lemma searchUp_step (e : ConfigLoader.env) (fuel : nat) (dir : string) :
  ConfigLoader.searchUp e (S fuel) dir
  = if negb (String.eqb dir (Path.dirname dir)) then
      match ConfigLoader.firstExisting e dir ConfigLoader.configNames with
      | Some configPath => Some (Some configPath)
      | None => ConfigLoader.searchUp e fuel (Path.dirname dir)
      end
    else Some (ConfigLoader.firstExisting e dir ConfigLoader.configNames).
Proof. reflexivity. Qed.

Lemma searchUp_fixed (e : ConfigLoader.env) (fuel : nat) (dir : string) :
  Path.dirname dir = dir ->
  ConfigLoader.searchUp e (S fuel) dir
  = Some (ConfigLoader.firstExisting e dir ConfigLoader.configNames).
Proof.
  intros H. rewrite searchUp_step. rewrite H. rewrite String.eqb_refl.
  reflexivity.
Qed.

Lemma searchUp_nearest (e : ConfigLoader.env) :
  forall fuel dir,
    String.length dir + 2 <= fuel ->
    exists r, ConfigLoader.searchUp e fuel dir = Some r /\ nearest e dir r.
Proof.
  induction fuel as [|fuel IH]; intros dir Hf; [lia|].
  destruct (String.eqb dir (Path.dirname dir)) eqn:Efix.
  - apply String.eqb_eq in Efix. symmetry in Efix.
    rewrite searchUp_fixed by exact Efix.
    eexists. split; [reflexivity|]. apply nearest_fixed. exact Efix.
  - rewrite searchUp_step. rewrite Efix. cbn [negb].
    destruct (ConfigLoader.firstExisting e dir ConfigLoader.configNames)
      as [p|] eqn:E.
    + eexists. split; [reflexivity|]. apply nearest_here. exact E.
    + assert (Hup : exists r,
                 ConfigLoader.searchUp e fuel (Path.dirname dir) = Some r
                 /\ nearest e (Path.dirname dir) r).
      { destruct (dirname_shrinks dir) as [Hd|[Hd|Hd]].
        - destruct fuel as [|fuel']; [lia|]. rewrite Hd.
          rewrite searchUp_fixed by reflexivity.
          eexists. split; [reflexivity|]. apply nearest_fixed. reflexivity.
        - destruct fuel as [|fuel']; [lia|]. rewrite Hd.
          rewrite searchUp_fixed by reflexivity.
          eexists. split; [reflexivity|]. apply nearest_fixed. reflexivity.
        - apply IH. lia. }
      destruct Hup as [r [Hr Hn]]. exists r. split; [exact Hr|].
      apply nearest_above; assumption.
Qed.

Lemma firstExisting_some (e : ConfigLoader.env) (dir : string) :
  forall names p,
    ConfigLoader.firstExisting e dir names = Some p ->
    exists name, In name names /\ p = ConfigLoader.join dir name
                 /\ ConfigLoader.existsSync e p = true.
Proof.
  induction names as [|n ns IH]; intros p H; simpl in H; [discriminate|].
  destruct (ConfigLoader.existsSync e (ConfigLoader.join dir n)) eqn:E.
  - inversion H; subst. exists n. repeat split; auto. left. reflexivity.
  - destruct (IH _ H) as [name [Hin [Hp Hex]]].
    exists name. repeat split; auto. right. exact Hin.
Qed.

Lemma firstExisting_none (e : ConfigLoader.env) (dir : string) :
  forall names,
    ConfigLoader.firstExisting e dir names = None ->
    forall name, In name names ->
                 ConfigLoader.existsSync e (ConfigLoader.join dir name) = false.
Proof.
  induction names as [|n ns IH]; intros H name Hin; simpl in *; [contradiction|].
  destruct (ConfigLoader.existsSync e (ConfigLoader.join dir n)) eqn:E;
    [discriminate|].
  destruct Hin as [<-|Hin]; auto.
Qed.

(** X16. [findConfigFile] always returns, and what it returns is the
    configuration file nearest to the working directory: a path it returns
    exists and joins a directory at or above the working directory with one
    of the three configuration names, no directory below that one holds a
    file of any of the three names, and in that directory it is the first
    of the names, in their order, that exists. It returns nothing only when
    no directory at or above the working directory holds such a file. *)
Theorem findConfigFile_returns_the_nearest :
  forall (e : ConfigLoader.env),
    exists r,
      ConfigLoader.findConfigFile e = Some r
      /\ match r with
         | Some p =>
             exists k name,
               In name ConfigLoader.configNames
               /\ p = ConfigLoader.join (ancestor k (ConfigLoader.cwd e)) name
               /\ ConfigLoader.existsSync e p = true
               /\ ConfigLoader.firstExisting e (ancestor k (ConfigLoader.cwd e))
                                             ConfigLoader.configNames = Some p
               /\ forall j n,
                    j < k -> In n ConfigLoader.configNames ->
                    ConfigLoader.existsSync e
                      (ConfigLoader.join (ancestor j (ConfigLoader.cwd e)) n)
                    = false
         | None =>
             forall k n,
               In n ConfigLoader.configNames ->
               ConfigLoader.existsSync e
                 (ConfigLoader.join (ancestor k (ConfigLoader.cwd e)) n)
               = false
         end.
Proof.
  intros e. unfold ConfigLoader.findConfigFile.
  destruct (searchUp_nearest e (S (S (String.length (ConfigLoader.cwd e))))
              (ConfigLoader.cwd e)) as [r [Hr Hn]]; [lia|].
  exists r. split; [exact Hr|].
  destruct r as [p|]; unfold nearest in Hn.
  - destruct Hn as [k [Hk Hj]].
    destruct (firstExisting_some _ _ _ _ Hk) as [name [Hin [Hp Hex]]].
    exists k, name. repeat split; auto.
    intros j n Hlt Hn.
    exact (firstExisting_none e _ _ (Hj j Hlt) n Hn).
  - intros k n Hin.
    exact (firstExisting_none e _ _ (Hn k) n Hin).
Qed.

Lemma loadConfig_cases (e : ConfigLoader.env) (configPath : option string)
  (c : ConfigLoader.LoadedConfig) (written : list ConfigLoader.line) :
  ConfigLoader.loadConfig e configPath = (ConfigLoader.Returned c, written) ->
  (c = ConfigLoader.DEFAULT_CONFIG
   /\ (written = []
       \/ exists p, written = [ConfigLoader.FailedToParse p;
                               ConfigLoader.UsingDefault]))
  \/ (exists p parsed,
        written = [ConfigLoader.Loaded p]
        /\ ConfigLoader.merge parsed = ConfigLoader.Returned c).
Proof.
  unfold ConfigLoader.loadConfig.
  destruct (match ConfigLoader.given configPath with
            | Some p => Some (Some p)
            | None => ConfigLoader.findConfigFile e
            end) as [configFilePath|]; [|discriminate].
  destruct (ConfigLoader.given configFilePath) as [p|].
  - destruct (ConfigLoader.existsSync e p).
    + unfold ConfigLoader.readConfigFile.
      destruct (ConfigLoader.readFileSync e p) as [content|].
      * destruct (ConfigLoader.JSON_parse e content) as [parsed|].
        -- intros H. inversion H; subst. right. eauto.
        -- intros H. inversion H; subst. left. eauto.
      * intros H. inversion H; subst. left. eauto.
    + intros H. inversion H; subst. left. auto.
  - intros H. inversion H; subst. left. auto.
Qed.

Lemma or_truthy (a b : value) : truthy b = true -> truthy (ConfigLoader.or a b) = true.
Proof. unfold ConfigLoader.or. destruct (truthy a) eqn:E; auto. Qed.

Lemma merge_truthy (parsed : value) (c : ConfigLoader.LoadedConfig) :
  ConfigLoader.merge parsed = ConfigLoader.Returned c ->
  truthy (ConfigLoader.srcDir c) = true
  /\ truthy (ConfigLoader.ignorePatterns c) = true
  /\ truthy (ConfigLoader.analysisMode c) = true.
Proof.
  unfold ConfigLoader.merge. intros Hm.
  destruct parsed; try discriminate; inversion Hm; subst; simpl;
    repeat split; apply or_truthy; reflexivity.
Qed.

(** X17. Whatever the configuration file holds, a configuration that
    [loadConfig] returns is complete: its source directory, its ignore
    patterns and its analysis mode are all truthy, an empty string, a zero,
    a false or a null of the file having been replaced by the default. *)
Theorem loadConfig_returns_truthy_fields :
  forall (e : ConfigLoader.env) (configPath : option string)
         (c : ConfigLoader.LoadedConfig) (written : list ConfigLoader.line),
    ConfigLoader.loadConfig e configPath = (ConfigLoader.Returned c, written) ->
    truthy (ConfigLoader.srcDir c) = true
    /\ truthy (ConfigLoader.ignorePatterns c) = true
    /\ truthy (ConfigLoader.analysisMode c) = true.
Proof.
  intros e configPath c written H.
  destruct (loadConfig_cases _ _ _ _ H) as [[-> _]|[p [parsed [_ Hm]]]].
  - repeat split.
  - eapply merge_truthy; eauto.
Qed.

Lemma loadConfig_returns_truthy_fields_witness :
  truthy (VStr "src") = true
  /\ truthy (ConfigLoader.ignorePatterns ConfigLoader.DEFAULT_CONFIG) = true
  /\ truthy (VStr "regex") = true.
Proof.
  apply (loadConfig_returns_truthy_fields envParent None
           (ConfigLoader.mkLoaded
              (VStr "src")
              (ConfigLoader.ignorePatterns ConfigLoader.DEFAULT_CONFIG)
              (VStr "regex"))
           [ConfigLoader.Loaded "/home/app/deadcoderc.json"]).
  vm_compute. reflexivity.
Defined.

(** X18. Whenever [loadConfig] warns, it returns exactly the default
    configuration: a file that cannot be read or parsed contributes
    nothing, and the two warnings come together, the failure first. *)
Theorem loadConfig_warning_means_defaults :
  forall (e : ConfigLoader.env) (configPath : option string)
         (c : ConfigLoader.LoadedConfig) (written : list ConfigLoader.line),
    ConfigLoader.loadConfig e configPath = (ConfigLoader.Returned c, written) ->
    (In ConfigLoader.UsingDefault written
     \/ exists p, In (ConfigLoader.FailedToParse p) written) ->
    c = ConfigLoader.DEFAULT_CONFIG
    /\ exists p, written = [ConfigLoader.FailedToParse p;
                            ConfigLoader.UsingDefault].
Proof.
  intros e configPath c written H Hw.
  destruct (loadConfig_cases _ _ _ _ H) as [[-> [->|[p ->]]]|[p [parsed [-> _]]]].
  - exfalso. destruct Hw as [[]|[p []]].
  - split; eauto.
  - exfalso. destruct Hw as [Hw|[q Hw]]; simpl in Hw;
      destruct Hw as [Hw|[]]; discriminate.
Qed.

Lemma loadConfig_warning_means_defaults_witness :
  ConfigLoader.DEFAULT_CONFIG = ConfigLoader.DEFAULT_CONFIG
  /\ exists p, [ConfigLoader.FailedToParse "/proj/deadcoderc.json";
                ConfigLoader.UsingDefault]
               = [ConfigLoader.FailedToParse p; ConfigLoader.UsingDefault].
Proof.
  apply (loadConfig_warning_means_defaults envBroken None
           ConfigLoader.DEFAULT_CONFIG
           [ConfigLoader.FailedToParse "/proj/deadcoderc.json";
            ConfigLoader.UsingDefault]).
  - vm_compute. reflexivity.
  - left. right. left. reflexivity.
Defined.

(** X19. A configuration file that holds the JSON value null is announced
    as loaded and then makes [loadConfig] throw: the merge with the
    defaults reads a property of null outside the [try] block, and the
    constructor of [DeadCodeAnalyzer] throws with it. *)
Theorem null_configuration_throws :
  forall (e : ConfigLoader.env) (p content : string)
         (config : option ConfigLoader.Options),
    ConfigLoader.given
      (match config with Some c => ConfigLoader.o_configPath c | None => None end)
    = Some p ->
    ConfigLoader.existsSync e p = true ->
    ConfigLoader.readFileSync e p = Some content ->
    ConfigLoader.JSON_parse e content = Some VNull ->
    ConfigLoader.loadConfig e (Some p)
    = (ConfigLoader.TypeError, [ConfigLoader.Loaded p])
    /\ ConfigLoader.construct e config
       = (ConfigLoader.TypeError, [ConfigLoader.Loaded p]).
Proof.
  intros e p content config Hg Hex Hread Hparse.
  assert (Hp : ConfigLoader.given (Some p) = Some p).
  { destruct config as [c|]; [|discriminate]. simpl in Hg.
    destruct (ConfigLoader.o_configPath c) as [q|]; [|discriminate].
    simpl in Hg. simpl. destruct (String.eqb q EmptyString) eqn:Eq;
      [discriminate|]. inversion Hg; subst. rewrite Eq. reflexivity. }
  assert (Hload : forall cp, ConfigLoader.given cp = Some p ->
             ConfigLoader.loadConfig e cp
             = (ConfigLoader.TypeError, [ConfigLoader.Loaded p])).
  { intros cp Hcp. unfold ConfigLoader.loadConfig. rewrite Hcp, Hp, Hex.
    unfold ConfigLoader.readConfigFile. rewrite Hread, Hparse. reflexivity. }
  split.
  - apply Hload. exact Hp.
  - unfold ConfigLoader.construct. rewrite (Hload _ Hg). reflexivity.
Qed.

Lemma null_configuration_throws_witness :
  ConfigLoader.loadConfig envNull (Some "/proj/deadcoderc.json")
  = (ConfigLoader.TypeError, [ConfigLoader.Loaded "/proj/deadcoderc.json"])
  /\ ConfigLoader.construct envNull
       (Some (ConfigLoader.mkOptions None None
                                     (Some "/proj/deadcoderc.json") None))
     = (ConfigLoader.TypeError, [ConfigLoader.Loaded "/proj/deadcoderc.json"]).
Proof.
  apply (null_configuration_throws envNull "/proj/deadcoderc.json" "null"
           (Some (ConfigLoader.mkOptions None None
                                         (Some "/proj/deadcoderc.json") None)));
    reflexivity.
Defined.

(** X20. The constructor of [DeadCodeAnalyzer] lets the caller win: a
    source directory or an analysis mode the caller gives as a non-empty
    string is the one of the configuration built, whatever the
    configuration file says, and a list of ignore patterns the caller gives
    is used even when it is empty. What the caller leaves out comes from
    [loadConfig], so every field built is truthy. *)
Theorem constructor_prefers_the_caller :
  forall (e : ConfigLoader.env) (config : option ConfigLoader.Options)
         (r : ConfigLoader.Resolved) (written : list ConfigLoader.line),
    ConfigLoader.construct e config = (ConfigLoader.Returned r, written) ->
    (forall c s, config = Some c ->
                 ConfigLoader.given (ConfigLoader.o_srcDir c) = Some s ->
                 ConfigLoader.r_srcDir r = VStr s)
    /\ (forall c m, config = Some c ->
                    ConfigLoader.given (ConfigLoader.o_analysisMode c) = Some m ->
                    ConfigLoader.r_analysisMode r = VStr m)
    /\ (forall c l, config = Some c ->
                    ConfigLoader.o_ignorePatterns c = Some l ->
                    ConfigLoader.r_ignorePatterns r = VArr (List.map VStr l))
    /\ truthy (ConfigLoader.r_srcDir r) = true
    /\ truthy (ConfigLoader.r_ignorePatterns r) = true
    /\ truthy (ConfigLoader.r_analysisMode r) = true.
Proof.
  intros e config r written. unfold ConfigLoader.construct.
  destruct (ConfigLoader.loadConfig e _) as [[f| |] wr] eqn:El; try discriminate.
  intros H. inversion H; subst. clear H.
  assert (Hf : truthy (ConfigLoader.srcDir f) = true
               /\ truthy (ConfigLoader.ignorePatterns f) = true
               /\ truthy (ConfigLoader.analysisMode f) = true).
  { destruct (loadConfig_cases _ _ _ _ El) as [[-> _]|[p [parsed [_ Hp]]]].
    - repeat split.
    - eapply merge_truthy; eauto. }
  destruct Hf as [Hs [Hi Hm]].
  assert (Hgiven : forall s x fb, ConfigLoader.given s = Some x ->
                                  ConfigLoader.orString s fb = VStr x).
  { intros s x fb Hx. unfold ConfigLoader.orString. rewrite Hx. reflexivity. }
  assert (Htruthy : forall s fb, truthy fb = true ->
                                 truthy (ConfigLoader.orString s fb) = true).
  { intros s fb Hfb. unfold ConfigLoader.orString, ConfigLoader.given.
    destruct s as [x|]; auto.
    destruct (String.eqb x EmptyString) eqn:Ex; auto.
    simpl. rewrite Ex. reflexivity. }
  simpl. repeat split.
  - intros c s -> Hc. apply Hgiven. exact Hc.
  - intros c m -> Hc. apply Hgiven. exact Hc.
  - intros c l -> Hc. unfold ConfigLoader.orStrings. rewrite Hc. reflexivity.
  - apply Htruthy. exact Hs.
  - unfold ConfigLoader.orStrings.
    destruct (match config with
              | Some c => ConfigLoader.o_ignorePatterns c
              | None => None
              end); auto.
  - apply Htruthy. exact Hm.
Qed.

Lemma constructor_prefers_the_caller_witness :
  ConfigLoader.r_analysisMode
    (ConfigLoader.mkResolved
       (VStr "src") (ConfigLoader.ignorePatterns ConfigLoader.DEFAULT_CONFIG)
       None (VStr "ast"))
  = VStr "ast".
Proof.
  destruct (constructor_prefers_the_caller envParent
              (Some (ConfigLoader.mkOptions None None None (Some "ast")))
              (ConfigLoader.mkResolved
                 (VStr "src")
                 (ConfigLoader.ignorePatterns ConfigLoader.DEFAULT_CONFIG)
                 None (VStr "ast"))
              [ConfigLoader.Loaded "/home/app/deadcoderc.json"])
    as [_ [Hm _]].
  - vm_compute. reflexivity.
  - apply (Hm (ConfigLoader.mkOptions None None None (Some "ast")) "ast");
      reflexivity.
Defined.

(** ** ast-analyzer.ts: what the walk keeps *)

Section TraverseInvariant.

Variable P : ASTAnalysisResult -> Prop.
Hypothesis P_usage : forall u r, P r -> P (pushUsage u r).
Hypothesis P_import :
  forall name line r, P r ->
    P (pushDefinition (mkDef name TImport line) (addImport name r)).
Hypothesis P_export : forall name r, P r -> P (addExport name r).
Hypothesis P_definition :
  forall d r, def_type d <> TImport -> P r -> P (pushDefinition d r).

Lemma recordUsage_invariant name line context r :
  P r -> P (recordUsage name line context r).
Proof.
  unfold recordUsage. destruct (_ && _); auto.
Qed.

Lemma handleImportDeclaration_invariant node r :
  P r -> P (handleImportDeclaration node r).
Proof.
  unfold handleImportDeclaration. apply fold_left_invariant.
  intros a b _ Ha. destruct (importName b) as [name|]; auto.
  destruct (_ && _); auto.
Qed.

Lemma handleExportSpecifiers_invariant node r :
  P r -> P (handleExportSpecifiers node r).
Proof.
  unfold handleExportSpecifiers. apply fold_left_invariant.
  intros a b _ Ha. destruct (orElse _ _) as [name|]; auto.
  destruct (_ && _); auto.
Qed.

Lemma handleVariableDeclaration_invariant cwd node filePath r :
  P r -> P (handleVariableDeclaration cwd node filePath r).
Proof.
  unfold handleVariableDeclaration. apply fold_left_invariant.
  intros a b _ Ha. destruct (nameOf _) as [name|]; auto.
  destruct (_ || _); auto.
  repeat match goal with
         | |- P (if ?c then _ else _) => destruct c
         | |- P (addExport _ _) => apply P_export
         | |- P (pushDefinition _ _) => apply P_definition; [discriminate|]
         end; auto.
Qed.

Lemma handleFunctionDeclaration_invariant cwd node filePath r :
  P r -> P (handleFunctionDeclaration cwd node filePath r).
Proof.
  unfold handleFunctionDeclaration. intros Ha.
  destruct (nameOf _) as [name|]; auto.
  destruct (_ || _); auto.
  repeat match goal with
         | |- P (if ?c then _ else _) => destruct c
         | |- P (addExport _ _) => apply P_export
         | |- P (pushDefinition _ _) => apply P_definition; [discriminate|]
         end; auto.
Qed.

Lemma traverse_invariant cwd filePath :
  forall fuel node r, P r -> P (traverse cwd fuel node filePath r).
Proof.
  induction fuel as [|fuel IH]; intros node r Hr; [exact Hr|].
  destruct node; try exact Hr.
  - rewrite traverse_array_eq. unfold walkItems.
    apply fold_left_invariant; auto.
  - rewrite traverse_object_eq. unfold walkFields.
    apply fold_left_invariant.
    + intros a b _ Ha. destruct (_ && _); auto.
    + unfold dispatch, handleCallExpression, handleJSXElement,
        handleJSXIdentifier, handleIdentifier, handleMemberExpression,
        handleObjectProperty, handleSpreadElement, walkItems.
      repeat match goal with
             | |- P (if ?c then _ else _) => destruct c
             end;
        auto using recordUsage_invariant, handleImportDeclaration_invariant,
          handleExportSpecifiers_invariant, handleVariableDeclaration_invariant,
          handleFunctionDeclaration_invariant.
      apply fold_left_invariant; auto.
Qed.

Lemma analyzeFile_invariant (rt : runtime) filePath w r w' :
  P emptyResult ->
  ASTAnalyzer.analyzeFile rt filePath w = (Ok r, w') -> P r.
Proof.
  intros He. unfold ASTAnalyzer.analyzeFile, bind, readFile, ret, throw, warn.
  destruct (readFileSync rt filePath) as [content|]; [|discriminate].
  destruct (parseFile rt filePath content) as [ast|]; intros H;
    inversion H; subst; auto.
  unfold traverseAST. apply traverse_invariant. exact He.
Qed.

End TraverseInvariant.

Lemma setAdd_intro (x n : string) (s : list string) :
  n = x \/ In n s -> In n (setAdd x s).
Proof.
  unfold setAdd. destruct (JS.arrayIncludes s x) eqn:E.
  - intros [->|H]; auto.
    unfold JS.arrayIncludes in E. apply existsb_exists in E.
    destruct E as [y [Hy Heq]]. apply String.eqb_eq in Heq. subst. exact Hy.
  - rewrite in_app_iff. simpl. intuition.
Qed.

(** X21. In the result of the structural analysis of a file, the set of
    imports and the definitions of kind import tell the same names: a name
    is in the set exactly when a definition of kind import carries it. *)
Theorem imports_are_the_import_definitions :
  forall (rt : runtime) (filePath : string) (w w' : list warning)
         (r : ASTAnalysisResult),
    ASTAnalyzer.analyzeFile rt filePath w = (Ok r, w') ->
    importsMatch r.
Proof.
  intros rt filePath w w' r H.
  assert (Hi : forall name line r0, importsMatch r0 ->
                 importsMatch (pushDefinition (mkDef name TImport line)
                                              (addImport name r0))).
  { intros name line r0 H0 n. simpl. split.
    + intros Hn. apply setAdd_In in Hn. destruct Hn as [->|Hn].
      * exists (mkDef name TImport line). rewrite in_app_iff. simpl. auto.
      * apply H0 in Hn. destruct Hn as [d [Hd [Ht Hname]]].
        exists d. rewrite in_app_iff. auto.
    + intros [d [Hd [Ht Hname]]]. apply setAdd_intro.
      rewrite in_app_iff in Hd. destruct Hd as [Hd|[<-|[]]].
      * right. apply H0. eauto.
      * left. simpl in Hname. auto. }
  assert (Hd : forall d r0, def_type d <> TImport -> importsMatch r0 ->
                 importsMatch (pushDefinition d r0)).
  { intros d r0 Hd H0 n. simpl. split.
    + intros Hn. apply H0 in Hn. destruct Hn as [d' [Hd' [Ht Hname]]].
      exists d'. rewrite in_app_iff. auto.
    + intros [d' [Hd' [Ht Hname]]]. apply H0.
      rewrite in_app_iff in Hd'. destruct Hd' as [Hd'|[<-|[]]]; [eauto|].
      contradiction. }
  assert (He : importsMatch emptyResult).
  { intros n. simpl. split; [contradiction|]. intros [d [[] _]]. }
  exact (analyzeFile_invariant importsMatch (fun u r0 H0 => H0) Hi
           (fun name r0 H0 => H0) Hd rt filePath w r w' He H).
Qed.

Lemma imports_are_the_import_definitions_witness :
  exists r,
    ASTAnalyzer.analyzeFile runtimeAB "src/b.js" [] = (Ok r, [])
    /\ importsMatch r.
Proof.
  assert (E : exists r, ASTAnalyzer.analyzeFile runtimeAB "src/b.js" []
                        = (Ok r, []))
    by (vm_compute; eexists; reflexivity).
  destruct E as [r E]. exists r. split; [exact E|].
  exact (imports_are_the_import_definitions runtimeAB "src/b.js" [] [] r E).
Defined.

(** ** ast-analyzer.ts: the body of a program is walked twice *)

Lemma appending_id : appending (fun r => r).
Proof. intros r. simpl. rewrite !app_nil_r. auto. Qed.

Lemma appending_compose F G :
  appending F -> appending G -> appending (fun r => G (F r)).
Proof.
  intros HF HG r.
  destruct (HG (F r)) as [D1 U1]. destruct (HG (F emptyResult)) as [D2 U2].
  destruct (HF r) as [D3 U3].
  rewrite D1, U1, D2, U2, D3, U3. rewrite !app_assoc. auto.
Qed.

Lemma appending_fold {B} (f : ASTAnalysisResult -> B -> ASTAnalysisResult)
  (l : list B) :
  (forall b, In b l -> appending (fun r => f r b)) ->
  appending (fun r => fold_left f l r).
Proof.
  induction l as [|b l IH]; intros H.
  - apply appending_id.
  - simpl.
    apply (appending_compose (fun r => f r b) (fun r => fold_left f l r)).
    + apply H. left. reflexivity.
    + apply IH. intros b' Hb'. apply H. right. exact Hb'.
Qed.

Ltac appending_leaf :=
  intros r;
  repeat match goal with
         | |- context [if ?c then _ else _] => destruct c
         end;
  simpl; rewrite ?app_nil_r; auto.

Lemma appending_recordUsage name line context :
  appending (recordUsage name line context).
Proof. unfold recordUsage. appending_leaf. Qed.

Lemma appending_handleImportDeclaration node :
  appending (handleImportDeclaration node).
Proof.
  unfold handleImportDeclaration. apply appending_fold.
  intros b _. destruct (importName b) as [name|]; [|apply appending_id].
  appending_leaf.
Qed.

Lemma appending_handleExportSpecifiers node :
  appending (handleExportSpecifiers node).
Proof.
  unfold handleExportSpecifiers. apply appending_fold.
  intros b _. destruct (orElse _ _) as [name|]; [|apply appending_id].
  appending_leaf.
Qed.

Lemma appending_handleVariableDeclaration cwd node filePath :
  appending (handleVariableDeclaration cwd node filePath).
Proof.
  unfold handleVariableDeclaration. apply appending_fold.
  intros b _. destruct (nameOf _) as [name|]; [|apply appending_id].
  appending_leaf.
Qed.

Lemma appending_handleFunctionDeclaration cwd node filePath :
  appending (handleFunctionDeclaration cwd node filePath).
Proof.
  unfold handleFunctionDeclaration.
  destruct (nameOf _) as [name|]; [|apply appending_id].
  appending_leaf.
Qed.

Lemma appending_traverse cwd filePath :
  forall fuel node, appending (traverse cwd fuel node filePath).
Proof.
  induction fuel as [|fuel IH]; intros node; [apply appending_id|].
  destruct node; try apply appending_id.
  - change (appending (fun r => walkItems cwd fuel filePath items r)).
    unfold walkItems. apply appending_fold. intros b _. apply IH.
  - change (appending (fun r => walkFields cwd fuel filePath fields
                                  (dispatch cwd fuel filePath (VObj fields) r))).
    apply (appending_compose (dispatch cwd fuel filePath (VObj fields))
                             (walkFields cwd fuel filePath fields)).
    + unfold dispatch, handleCallExpression, handleJSXElement,
        handleJSXIdentifier, handleIdentifier, handleMemberExpression,
        handleObjectProperty, handleSpreadElement.
      repeat match goal with
             | |- appending (fun r => if ?c then _ else _) => destruct c
             end;
        first [ apply appending_id
              | apply IH
              | apply appending_recordUsage
              | apply appending_handleImportDeclaration
              | apply appending_handleExportSpecifiers
              | apply appending_handleVariableDeclaration
              | apply appending_handleFunctionDeclaration
              | unfold walkItems; apply appending_fold; intros b _; apply IH ].
    + unfold walkFields. apply appending_fold. intros [k v] _. simpl.
      destruct (_ && _); [apply IH|apply appending_id].
Qed.

Lemma appending_walkChildren cwd filePath items :
  appending (walkChildren cwd filePath items).
Proof.
  unfold walkChildren. apply appending_fold. intros b _.
  unfold traverseAST. apply appending_traverse.
Qed.

Lemma walkItems_walkChildren cwd filePath fuel items r :
  depth (VArr items) <= S fuel ->
  walkItems cwd fuel filePath items r = walkChildren cwd filePath items r.
Proof.
  intros Hd. unfold walkItems, walkChildren, traverseAST.
  apply fold_left_ext_in. intros a b Hb.
  pose proof (depth_item items b Hb).
  apply traverse_fuel; lia.
Qed.

Lemma lookup_split (k : string) (fs : list (string * value)) :
  lookup k fs <> VNull ->
  exists fs1 fs2, fs = (fs1 ++ (k, lookup k fs) :: fs2)%list.
Proof.
  induction fs as [|[k0 x] fs IH]; simpl; intros H; [congruence|].
  destruct (String.eqb k0 k) eqn:E.
  - apply String.eqb_eq in E. subst. exists [], fs. reflexivity.
  - destruct (IH H) as [fs1 [fs2 Hfs]].
    exists ((k0, x) :: fs1), fs2. simpl. rewrite <- Hfs. reflexivity.
Qed.

(** X22. The statements of a program are walked twice, once by the case
    for the node type Program and once more by the loop over the properties
    of the node: what the walk of the body finds, definitions and usages,
    is recorded two times over. *)
Theorem program_body_is_walked_twice :
  forall (cwd filePath : string) (fs : list (string * value))
         (items : list value) (r : ASTAnalysisResult),
    typeIs (VObj fs) "Program" = true ->
    field "body" (VObj fs) = VArr items ->
    exists dmid dpost umid upost,
      definitions (traverseAST cwd (VObj fs) r filePath)
      = (definitions r
         ++ definitions (walkChildren cwd filePath items emptyResult) ++ dmid
         ++ definitions (walkChildren cwd filePath items emptyResult) ++ dpost)%list
      /\ usages (traverseAST cwd (VObj fs) r filePath)
         = (usages r
            ++ usages (walkChildren cwd filePath items emptyResult) ++ umid
            ++ usages (walkChildren cwd filePath items emptyResult) ++ upost)%list.
Proof.
  intros cwd filePath fs items r Hprog Hbody. simpl in Hbody.
  destruct (lookup_split "body" fs) as [fs1 [fs2 Hfs]];
    [rewrite Hbody; discriminate|].
  rewrite Hbody in Hfs.
  assert (Hin : In ("body", VArr items) fs).
  { rewrite Hfs. apply in_or_app. right. left. reflexivity. }
  pose proof (depth_field fs _ _ Hin) as Hd.
  unfold traverseAST.
  destruct (depth (VObj fs)) as [|m] eqn:Em; [lia|].
  rewrite traverse_object_eq.
  assert (Hdispatch : dispatch cwd m filePath (VObj fs) r
                      = walkChildren cwd filePath items r).
  { unfold dispatch. rewrite Hprog. simpl field. rewrite Hbody. simpl elements.
    apply walkItems_walkChildren. lia. }
  rewrite Hdispatch.
  assert (Hstep : forall r0,
            traverse cwd m (VArr items) filePath r0
            = walkChildren cwd filePath items r0).
  { intros r0. destruct m as [|m']; [simpl in Hd; lia|].
    rewrite traverse_array_eq. apply walkItems_walkChildren. lia. }
  assert (Hwalk : forall r0,
            walkFields cwd m filePath fs r0
            = walkFields cwd m filePath fs2
                (walkChildren cwd filePath items
                   (walkFields cwd m filePath fs1 r0))).
  { intros r0. rewrite Hfs at 1. unfold walkFields.
    rewrite fold_left_app. simpl. rewrite Hstep. reflexivity. }
  rewrite Hwalk.
  assert (A1 : appending (walkFields cwd m filePath fs1)).
  { unfold walkFields. apply appending_fold. intros [k v] _. simpl.
    destruct (_ && _); [apply appending_traverse|apply appending_id]. }
  assert (A2 : appending (walkFields cwd m filePath fs2)).
  { unfold walkFields. apply appending_fold. intros [k v] _. simpl.
    destruct (_ && _); [apply appending_traverse|apply appending_id]. }
  pose proof (appending_walkChildren cwd filePath items) as AC.
  exists (definitions (walkFields cwd m filePath fs1 emptyResult)),
         (definitions (walkFields cwd m filePath fs2 emptyResult)),
         (usages (walkFields cwd m filePath fs1 emptyResult)),
         (usages (walkFields cwd m filePath fs2 emptyResult)).
  destruct (A2 (walkChildren cwd filePath items
                  (walkFields cwd m filePath fs1
                     (walkChildren cwd filePath items r)))) as [D1 U1].
  destruct (AC (walkFields cwd m filePath fs1
                  (walkChildren cwd filePath items r))) as [D2 U2].
  destruct (A1 (walkChildren cwd filePath items r)) as [D3 U3].
  destruct (AC r) as [D4 U4].
  rewrite D1, D2, D3, D4, U1, U2, U3, U4. rewrite <- !app_assoc. auto.
Qed.

Lemma program_body_is_walked_twice_witness :
  match field "program" treeA with
  | VObj fs =>
      exists dmid dpost umid upost,
        definitions (traverseAST "/proj" (VObj fs) emptyResult "src/a.js")
        = ([] ++ definitions
                   (walkChildren "/proj" "src/a.js"
                                 (elements (field "body" (VObj fs))) emptyResult)
              ++ dmid
              ++ definitions
                   (walkChildren "/proj" "src/a.js"
                                 (elements (field "body" (VObj fs))) emptyResult)
              ++ dpost)%list
        /\ usages (traverseAST "/proj" (VObj fs) emptyResult "src/a.js")
           = ([] ++ usages
                      (walkChildren "/proj" "src/a.js"
                                    (elements (field "body" (VObj fs))) emptyResult)
                 ++ umid
                 ++ usages
                      (walkChildren "/proj" "src/a.js"
                                    (elements (field "body" (VObj fs))) emptyResult)
                 ++ upost)%list
  | _ => False
  end.
Proof.
  cbv [treeA babelFile field lookup String.eqb Ascii.eqb Bool.eqb].
  apply (program_body_is_walked_twice "/proj" "src/a.js"); reflexivity.
Defined.

(** ** ast-analyzer.ts: an import refers to itself *)

Lemma specifiersTyped_field (fs : list (string * value)) (k : string) (v : value) :
  specifiersTyped (VObj fs) = true -> In (k, v) fs -> specifiersTyped v = true.
Proof.
  simpl. intros H. apply andb_true_iff in H. destruct H as [_ H]. revert H.
  induction fs as [|[k0 x] fs IH]; intros H Hin; [contradiction|].
  apply andb_true_iff in H. destruct H as [Hx Hfs].
  destruct Hin as [Hin|Hin].
  - inversion Hin; subst. exact Hx.
  - apply IH; auto.
Qed.

Lemma specifiersTyped_item (items : list value) (v : value) :
  specifiersTyped (VArr items) = true -> In v items -> specifiersTyped v = true.
Proof.
  simpl. induction items as [|x items IH]; intros H Hin; [contradiction|].
  apply andb_true_iff in H. destruct H as [Hx Hfs].
  destruct Hin as [Hin|Hin].
  - subst. exact Hx.
  - apply IH; auto.
Qed.

Lemma importExtends_refl r : importExtends r r.
Proof. split; [apply usagesKept_refl|auto]. Qed.

Lemma importExtends_trans r1 r2 r3 :
  importExtends r1 r2 -> importExtends r2 r3 -> importExtends r1 r3.
Proof.
  intros [K1 D1] [K2 D2]. split.
  - eapply usagesKept_trans; eauto.
  - intros d Hd Ht. destruct (D2 d Hd Ht) as [H|H]; auto.
    destruct (D1 d H Ht) as [H'|H']; auto.
    right. eapply hasReference_kept; eauto.
Qed.

Lemma importExtends_fold {B} (f : ASTAnalysisResult -> B -> ASTAnalysisResult)
  (l : list B) :
  (forall a b, In b l -> importExtends a (f a b)) ->
  forall r, importExtends r (fold_left f l r).
Proof.
  intros Hf r.
  apply (fold_left_invariant (importExtends r)).
  - intros a b Hin Ha. eapply importExtends_trans; eauto.
  - apply importExtends_refl.
Qed.

Lemma keepsImports_extends r0 r : keepsImports r0 r -> importExtends r0 r.
Proof. intros [K D]. split; auto. Qed.

Lemma importExtends_pending node r0 r :
  importExtends r0 r -> importPending node r0 r.
Proof.
  intros [K D]. split; auto. intros d Hd Ht. destruct (D d Hd Ht); auto.
Qed.

Lemma keepsImports_recordUsage name line context r :
  keepsImports r (recordUsage name line context r).
Proof.
  split; [apply usagesKept_recordUsage|].
  unfold recordUsage. destruct (_ && _); auto.
Qed.

Lemma keepsImports_handleExportSpecifiers node r :
  keepsImports r (handleExportSpecifiers node r).
Proof.
  split; [apply usagesKept_handleExportSpecifiers|].
  unfold handleExportSpecifiers.
  apply (fold_left_invariant
           (fun a => forall d, In d (definitions a) -> def_type d = TImport ->
                               In d (definitions r))); auto.
  intros a b _ Ha. destruct (orElse _ _) as [name|]; auto.
  destruct (_ && _); auto.
Qed.

Lemma keepsImports_handleFunctionDeclaration cwd node filePath r :
  keepsImports r (handleFunctionDeclaration cwd node filePath r).
Proof.
  split; [apply usagesKept_handleFunctionDeclaration|].
  unfold handleFunctionDeclaration.
  destruct (nameOf _) as [name|]; auto.
  destruct (_ || _); auto.
  intros d Hd Ht.
  repeat match type of Hd with
         | context [if ?c then _ else _] => destruct c
         end; simpl in Hd; apply in_app_or in Hd;
    destruct Hd as [Hd|[Hd|[]]]; auto; subst d; discriminate.
Qed.

Lemma keepsImports_handleVariableDeclaration cwd node filePath r :
  keepsImports r (handleVariableDeclaration cwd node filePath r).
Proof.
  split; [apply usagesKept_handleVariableDeclaration|].
  unfold handleVariableDeclaration.
  apply (fold_left_invariant
           (fun a => forall d, In d (definitions a) -> def_type d = TImport ->
                               In d (definitions r))); auto.
  intros a b _ Ha. destruct (nameOf _) as [name|]; auto.
  destruct (_ || _); auto.
  intros d Hd Ht. apply Ha; auto.
  repeat match type of Hd with
         | context [if ?c then _ else _] => destruct c
         end; simpl in Hd; apply in_app_or in Hd;
    destruct Hd as [Hd|[Hd|[]]]; auto; subst d; discriminate.
Qed.

Lemma importPending_handleImportDeclaration node r :
  importPending node r (handleImportDeclaration node r).
Proof.
  split; [apply usagesKept_handleImportDeclaration|].
  unfold handleImportDeclaration.
  apply (fold_left_invariant
           (fun a => forall d, In d (definitions a) -> def_type d = TImport ->
                               In d (definitions r)
                               \/ hasReference (def_name d) a
                               \/ importedAt node d)); auto.
  intros a b Hb Ha.
  destruct (importName b) as [name|] eqn:Hn; auto.
  destruct (negb (BUILT_INS_has name) && negb (isCommonPattern name)) eqn:E; auto.
  apply guard_passes in E.
  intros d Hd Ht. simpl in Hd. apply in_app_or in Hd.
  destruct Hd as [Hd|[Hd|[]]].
  - destruct (Ha d Hd Ht) as [H1|[H1|H1]]; auto.
  - subst d. right. right. split; [exact E|]. exists b. auto.
Qed.

Lemma importName_property (specifier : value) (name : string) :
  importName specifier = Some name ->
  exists fs k,
    specifier = VObj fs
    /\ (k = "imported" \/ k = "local")
    /\ nameOf (field "name" (lookup k fs)) = Some name.
Proof.
  unfold importName. intros H.
  assert (Hobj : forall t, typeIs specifier t = true -> exists fs, specifier = VObj fs).
  { intros t Ht. destruct (typeIs_object _ _ Ht) as [fs [Hfs _]]. eauto. }
  assert (Hlocal : nameOf (field "name" (field "local" specifier)) = Some name ->
                   (exists fs, specifier = VObj fs) ->
                   exists fs k,
                     specifier = VObj fs
                     /\ (k = "imported" \/ k = "local")
                     /\ nameOf (field "name" (lookup k fs)) = Some name).
  { intros Hl [fs ->]. exists fs, "local". auto. }
  destruct (typeIs specifier "ImportSpecifier") eqn:E1.
  - destruct (Hobj _ E1) as [fs ->]. simpl field in H.
    destruct (nameOf (field "name" (lookup "imported" fs))) as [n|] eqn:Ei.
    + simpl in H. inversion H; subst. exists fs, "imported". auto.
    + simpl in H. exists fs, "local". auto.
  - destruct (typeIs specifier "ImportDefaultSpecifier") eqn:E2.
    + apply Hlocal; eauto.
    + destruct (typeIs specifier "ImportNamespaceSpecifier") eqn:E3.
      * apply Hlocal; eauto.
      * discriminate.
Qed.

(** the walk of a specifier passes through the identifier that names it *)
Lemma traverse_specifier cwd fuel filePath (specifier : value) (name : string) :
  depth specifier <= fuel ->
  specifiersTyped specifier = true ->
  importName specifier = Some name ->
  isBuiltinOrCommon name = false ->
  forall r, hasReference name (traverse cwd fuel specifier filePath r).
Proof.
  intros Hdepth Hwf Hname Hok r.
  destruct (importName_property _ _ Hname) as [fs [k [-> [Hk Hn]]]].
  assert (Htyped : typeIs (lookup k fs) "Identifier" = true).
  { simpl in Hwf. apply andb_true_iff in Hwf. destruct Hwf as [Hwf _].
    apply andb_true_iff in Hwf. destruct Hwf as [Hi Hl].
    destruct Hk as [->| ->].
    - rewrite Hn in Hi. exact Hi.
    - rewrite Hn in Hl. exact Hl. }
  destruct (lookup_In k fs) as [Hnull|Hin].
  { rewrite Hnull in Hn. discriminate. }
  destruct (typeIs_object _ _ Htyped) as [ifs [Hid _]].
  pose proof (depth_field fs _ _ Hin) as Hd. rewrite Hid in Hd.
  destruct fuel as [|fuel]; [simpl in *; lia|].
  destruct fuel as [|fuel]; [simpl in *; lia|].
  destruct (traverse_object cwd (S fuel) filePath fs r) as [handled ->].
  apply (walkFields_through cwd (S fuel) filePath name k (lookup k fs)); auto.
  - destruct Hk as [->| ->]; reflexivity.
  - intros r0. apply traverse_identifier; auto.
Qed.

Section WalkImports.

Variables (cwd filePath : string) (fuel : nat).

Hypothesis IH :
  forall node r, depth node <= fuel -> specifiersTyped node = true ->
                 importExtends r (traverse cwd fuel node filePath r).

Variable fs : list (string * value).
Hypothesis Hdepth : depth (VObj fs) <= S fuel.
Hypothesis Hwf : specifiersTyped (VObj fs) = true.

Lemma importExtends_property (k : string) (r : ASTAnalysisResult) :
  importExtends r (traverse cwd fuel (lookup k fs) filePath r).
Proof.
  destruct (lookup_In k fs) as [H|H].
  - rewrite H, traverse_null. apply importExtends_refl.
  - apply IH.
    + pose proof (depth_field fs _ _ H). lia.
    + eapply specifiersTyped_field; eauto.
Qed.

Lemma importExtends_elements (k : string) (r : ASTAnalysisResult) :
  importExtends r (walkItems cwd fuel filePath (elements (lookup k fs)) r).
Proof.
  destruct (lookup_In k fs) as [H|H].
  - rewrite H. apply importExtends_refl.
  - destruct (lookup k fs) as [| | | |items|] eqn:E;
      try apply importExtends_refl.
    simpl elements. apply importExtends_fold. intros a b Hb. apply IH.
    + pose proof (depth_field fs _ _ H). pose proof (depth_item items _ Hb). lia.
    + eapply specifiersTyped_item; eauto.
      eapply specifiersTyped_field; eauto.
Qed.

Lemma importPending_dispatch (r : ASTAnalysisResult) :
  importPending (VObj fs) r (dispatch cwd fuel filePath (VObj fs) r).
Proof.
  unfold dispatch, handleCallExpression, handleJSXElement, handleJSXIdentifier,
    handleIdentifier, handleMemberExpression, handleObjectProperty,
    handleSpreadElement.
  simpl field.
  repeat match goal with
         | |- importPending _ _ (if ?c then _ else _) => destruct c
         end;
    first
      [ apply importPending_handleImportDeclaration
      | apply importExtends_pending;
        first
          [ apply importExtends_refl
          | apply importExtends_property
          | apply importExtends_elements
          | apply keepsImports_extends;
            first [ apply keepsImports_recordUsage
                  | apply keepsImports_handleExportSpecifiers
                  | apply keepsImports_handleVariableDeclaration
                  | apply keepsImports_handleFunctionDeclaration ] ] ].
Qed.

Lemma importExtends_walkFields (r : ASTAnalysisResult) :
  importExtends r (walkFields cwd fuel filePath fs r).
Proof.
  apply importExtends_fold. intros a [k v] Hin. simpl.
  destruct (_ && _); [|apply importExtends_refl].
  apply IH.
  - pose proof (depth_field fs _ _ Hin). lia.
  - eapply specifiersTyped_field; eauto.
Qed.

(** the loop over the properties records a reference for each import the
    specifiers of the object name *)
Lemma importedAt_walkFields (d : ASTDefinition) (r : ASTAnalysisResult) :
  importedAt (VObj fs) d ->
  hasReference (def_name d) (walkFields cwd fuel filePath fs r).
Proof.
  intros [Hok [specifier [Hin Hname]]].
  simpl field in Hin.
  destruct (lookup_In "specifiers" fs) as [Hnull|Hfield].
  { rewrite Hnull in Hin. contradiction. }
  destruct (lookup "specifiers" fs) as [| | | |items|] eqn:E;
    try contradiction.
  simpl in Hin.
  pose proof (depth_field fs _ _ Hfield) as Hd.
  pose proof (depth_item items _ Hin) as Hd'.
  destruct fuel as [|fuel']; [simpl in *; lia|].
  apply (walkFields_through cwd (S fuel') filePath (def_name d) "specifiers"
           (VArr items)); auto.
  intros r0. rewrite traverse_array_eq.
  apply (walkItems_through cwd fuel' filePath (def_name d) specifier); auto.
  intros r1. apply traverse_specifier; auto.
  - lia.
  - eapply specifiersTyped_item; eauto.
    eapply specifiersTyped_field; eauto.
Qed.

Lemma importExtends_object (r : ASTAnalysisResult) :
  importExtends r (traverse cwd (S fuel) (VObj fs) filePath r).
Proof.
  rewrite traverse_object_eq.
  destruct (importPending_dispatch r) as [K1 D1].
  destruct (importExtends_walkFields (dispatch cwd fuel filePath (VObj fs) r))
    as [K2 D2].
  split.
  - eapply usagesKept_trans; eauto.
  - intros d Hd Ht. destruct (D2 d Hd Ht) as [H|H]; auto.
    destruct (D1 d H Ht) as [H1|[H1|H1]]; auto.
    + right. eapply hasReference_kept; eauto.
    + right. apply importedAt_walkFields. exact H1.
Qed.

End WalkImports.

Lemma importExtends_traverse cwd filePath :
  forall fuel node r,
    depth node <= fuel -> specifiersTyped node = true ->
    importExtends r (traverse cwd fuel node filePath r).
Proof.
  induction fuel as [|fuel IH]; intros node r Hd Hwf.
  - apply importExtends_refl.
  - destruct node; try apply importExtends_refl.
    + rewrite traverse_array_eq. apply importExtends_fold. intros a b Hb.
      apply IH.
      * pose proof (depth_item items _ Hb). lia.
      * eapply specifiersTyped_item; eauto.
    + apply importExtends_object; auto.
Qed.

(** ** ast-analyzer.ts: the names of the definitions come from the tree *)

Lemma namesPlain_field (fs : list (string * value)) (k : string) (v : value) :
  namesPlain (VObj fs) = true -> In (k, v) fs -> namesPlain v = true.
Proof.
  simpl. intros H. apply andb_true_iff in H. destruct H as [_ H]. revert H.
  induction fs as [|[k0 x] fs IH]; intros H Hin; [contradiction|].
  apply andb_true_iff in H. destruct H as [Hx Hfs].
  destruct Hin as [Hin|Hin].
  - inversion Hin; subst. exact Hx.
  - apply IH; auto.
Qed.

Lemma namesPlain_item (items : list value) (v : value) :
  namesPlain (VArr items) = true -> In v items -> namesPlain v = true.
Proof.
  simpl. induction items as [|x items IH]; intros H Hin; [contradiction|].
  apply andb_true_iff in H. destruct H as [Hx Hfs].
  destruct Hin as [Hin|Hin].
  - subst. exact Hx.
  - apply IH; auto.
Qed.

Lemma namesPlain_of (k : string) (node : value) :
  namesPlain node = true -> namesPlain (field k node) = true.
Proof.
  intros H. destruct node; try reflexivity. simpl field.
  destruct (lookup_In k fields) as [E|E].
  - rewrite E. reflexivity.
  - eapply namesPlain_field; eauto.
Qed.

Lemma namesPlain_elements (v x : value) :
  namesPlain v = true -> In x (elements v) -> namesPlain x = true.
Proof.
  intros H Hin. destruct v; try contradiction. simpl in Hin.
  eapply namesPlain_item; eauto.
Qed.

Lemma namesPlain_name (v : value) (name : string) :
  namesPlain v = true -> nameOf (field "name" v) = Some name ->
  JS.includes name ":" = false.
Proof.
  intros H Hn. destruct v; try discriminate. simpl in Hn.
  simpl in H. apply andb_true_iff in H. destruct H as [H _].
  destruct (lookup "name" fields); try discriminate.
  simpl in Hn. destruct (String.eqb s EmptyString); [discriminate|].
  inversion Hn; subst. apply negb_true_iff in H. exact H.
Qed.

Lemma plainDefs_push d r :
  JS.includes (def_name d) ":" = false -> plainDefs r ->
  plainDefs (pushDefinition d r).
Proof.
  intros Hd Hr x Hx. simpl in Hx. apply in_app_or in Hx.
  destruct Hx as [Hx|[<-|[]]]; auto.
Qed.

Lemma plainDefs_addExport x r : plainDefs r -> plainDefs (addExport x r).
Proof. intros H. exact H. Qed.

Lemma plainDefs_recordUsage name line context r :
  plainDefs r -> plainDefs (recordUsage name line context r).
Proof.
  unfold recordUsage. destruct (_ && _); auto.
Qed.

Lemma plainDefs_handleExportSpecifiers node r :
  plainDefs r -> plainDefs (handleExportSpecifiers node r).
Proof.
  unfold handleExportSpecifiers. apply fold_left_invariant.
  intros a b _ Ha. destruct (orElse _ _); auto. destruct (_ && _); auto.
Qed.

Lemma plainDefs_handleImportDeclaration node r :
  namesPlain node = true ->
  plainDefs r -> plainDefs (handleImportDeclaration node r).
Proof.
  intros Hnode. unfold handleImportDeclaration. apply fold_left_invariant.
  intros a b Hb Ha. destruct (importName b) as [name|] eqn:Hn; auto.
  destruct (_ && _); auto.
  apply plainDefs_push; [|exact Ha]. simpl.
  destruct (importName_property _ _ Hn) as [bfs [k [-> [_ Hname]]]].
  apply (namesPlain_name (lookup k bfs)); auto.
  apply (namesPlain_of k (VObj bfs)).
  eapply namesPlain_elements; [|exact Hb].
  apply namesPlain_of. exact Hnode.
Qed.

Lemma plainDefs_handleFunctionDeclaration cwd node filePath r :
  namesPlain node = true ->
  plainDefs r -> plainDefs (handleFunctionDeclaration cwd node filePath r).
Proof.
  intros Hnode Hr. unfold handleFunctionDeclaration.
  destruct (nameOf _) as [name|] eqn:Hn; auto.
  destruct (_ || _); auto.
  assert (Hname : JS.includes name ":" = false).
  { apply (namesPlain_name (field "id" node)); auto.
    apply namesPlain_of. exact Hnode. }
  repeat match goal with
         | |- plainDefs (if ?c then _ else _) => destruct c
         | |- plainDefs (addExport _ _) => apply plainDefs_addExport
         | |- plainDefs (pushDefinition _ _) =>
             apply plainDefs_push; [exact Hname|]
         end; assumption.
Qed.

Lemma plainDefs_handleVariableDeclaration cwd node filePath r :
  namesPlain node = true ->
  plainDefs r -> plainDefs (handleVariableDeclaration cwd node filePath r).
Proof.
  intros Hnode. unfold handleVariableDeclaration. apply fold_left_invariant.
  intros a b Hb Ha.
  destruct (nameOf _) as [name|] eqn:Hn; auto.
  destruct (_ || _); auto.
  assert (Hname : JS.includes name ":" = false).
  { apply (namesPlain_name (field "id" b)); auto.
    apply namesPlain_of.
    eapply namesPlain_elements; [|exact Hb].
    apply namesPlain_of. exact Hnode. }
  repeat match goal with
         | |- plainDefs (if ?c then _ else _) => destruct c
         | |- plainDefs (addExport _ _) => apply plainDefs_addExport
         | |- plainDefs (pushDefinition _ _) =>
             apply plainDefs_push; [exact Hname|]
         end; assumption.
Qed.

Lemma plainDefs_traverse cwd filePath :
  forall fuel node r,
    namesPlain node = true -> plainDefs r ->
    plainDefs (traverse cwd fuel node filePath r).
Proof.
  induction fuel as [|fuel IH]; intros node r Hnode Hr; [exact Hr|].
  destruct node; try exact Hr.
  - rewrite traverse_array_eq. unfold walkItems.
    apply fold_left_invariant; auto.
    intros a b Hb Ha. apply IH; auto. eapply namesPlain_item; eauto.
  - rewrite traverse_object_eq. unfold walkFields.
    apply fold_left_invariant.
    + intros a [k v] Hb Ha. simpl. destruct (_ && _); auto.
      apply IH; auto. eapply namesPlain_field; eauto.
    + unfold dispatch, handleCallExpression, handleJSXElement,
        handleJSXIdentifier, handleIdentifier, handleMemberExpression,
        handleObjectProperty, handleSpreadElement, walkItems.
      repeat match goal with
             | |- plainDefs (if ?c then _ else _) => destruct c
             end;
        auto using plainDefs_recordUsage, plainDefs_handleImportDeclaration,
          plainDefs_handleExportSpecifiers, plainDefs_handleVariableDeclaration,
          plainDefs_handleFunctionDeclaration, namesPlain_of.
      apply fold_left_invariant; auto.
      intros a b Hb Ha. apply IH; auto.
      eapply namesPlain_elements; [|exact Hb].
      apply namesPlain_of. exact Hnode.
Qed.

(** ** analyzer.ts: the structural strategy reports files only *)

Lemma append_nil_r (s : string) : s ++ EmptyString = s.
Proof. induction s as [|c s IH]; simpl; [|rewrite IH]; reflexivity. Qed.

Lemma rev_append_rev_append (s a b : string) :
  JS.rev_append (JS.rev_append s a) b = JS.rev_append a (s ++ b).
Proof.
  revert a b. induction s as [|c s IH]; intros a b; simpl.
  - reflexivity.
  - rewrite IH. reflexivity.
Qed.

Lemma rev_involutive (s : string) : JS.rev (JS.rev s) = s.
Proof.
  unfold JS.rev. rewrite rev_append_rev_append. simpl. apply append_nil_r.
Qed.

Lemma includes_colon_cons (c : ascii) (s : string) :
  JS.includes (String c s) ":" = false ->
  Ascii.eqb ":" c = false /\ JS.includes s ":" = false.
Proof.
  cbn [JS.includes JS.startsWith]. rewrite startsWith_empty, andb_true_r.
  intros H. apply orb_false_iff in H. exact H.
Qed.

Lemma split_go_colon_step (fuel : nat) (c : ascii) (s cur : string) :
  JS.split_go (S fuel) ":" (String c s) cur
  = if Ascii.eqb ":" c
    then JS.rev cur :: JS.split_go fuel ":" s EmptyString
    else JS.split_go fuel ":" s (String c cur).
Proof.
  cbn [JS.split_go JS.startsWith JS.drop String.length].
  rewrite startsWith_empty, andb_true_r. reflexivity.
Qed.

Lemma split_go_plain :
  forall s fuel cur,
    JS.includes s ":" = false -> String.length s < fuel ->
    JS.split_go fuel ":" s cur = [JS.rev (JS.rev_append s cur)].
Proof.
  induction s as [|c s IH]; intros fuel cur Hs Hf.
  - destruct fuel; reflexivity.
  - destruct fuel as [|fuel]; [simpl in Hf; lia|].
    apply includes_colon_cons in Hs. destruct Hs as [Hc Hs].
    simpl in Hf. rewrite split_go_colon_step, Hc.
    apply IH; auto. lia.
Qed.

Lemma split_go_colon :
  forall a b fuel cur,
    JS.includes a ":" = false ->
    String.length a + S (String.length b) < fuel ->
    exists fuel',
      String.length b < fuel'
      /\ JS.split_go fuel ":" (a ++ ":" ++ b) cur
         = JS.rev (JS.rev_append a cur) :: JS.split_go fuel' ":" b EmptyString.
Proof.
  induction a as [|c a IH]; intros b fuel cur Ha Hf.
  - destruct fuel as [|fuel]; [lia|]. simpl in Hf.
    exists fuel. split; [lia|].
    change (EmptyString ++ ":" ++ b) with (String ":" b).
    rewrite split_go_colon_step. reflexivity.
  - destruct fuel as [|fuel]; [lia|].
    apply includes_colon_cons in Ha. destruct Ha as [Hc Ha].
    simpl in Hf.
    destruct (IH b fuel (String c cur) Ha) as [fuel' [Hf' Heq]]; [lia|].
    exists fuel'. split; [exact Hf'|].
    change (String c a ++ ":" ++ b) with (String c (a ++ ":" ++ b)).
    rewrite split_go_colon_step, Hc. exact Heq.
Qed.

(** a key of the index splits into the path and the name *)
Lemma split_key (a b : string) :
  JS.includes a ":" = false -> JS.includes b ":" = false ->
  JS.split (a ++ ":" ++ b) ":" = [a; b].
Proof.
  intros Ha Hb. unfold JS.split.
  destruct (split_go_colon a b (S (String.length (a ++ ":" ++ b))) EmptyString Ha)
    as [fuel' [Hf' Heq]].
  { rewrite length_append. simpl. lia. }
  rewrite Heq. rewrite split_go_plain by auto.
  change (JS.rev_append a EmptyString) with (JS.rev a).
  change (JS.rev_append b EmptyString) with (JS.rev b).
  rewrite !rev_involutive. reflexivity.
Qed.

Lemma forEachM_invariant_in {A S} (P : S -> Prop) (f : A -> S -> M S)
  (xs : list A) :
  (forall x s w s' w', In x xs -> f x s w = (Ok s', w') -> P s -> P s') ->
  forall s w s' w', forEachM f xs s w = (Ok s', w') -> P s -> P s'.
Proof.
  induction xs as [|x xs IH]; intros Hf s w s' w' H Hs.
  - inversion H; subst. exact Hs.
  - simpl in H. unfold bind in H.
    destruct (f x s w) as [[s1| |] w1] eqn:E; try discriminate.
    eapply IH; [|exact H|].
    + intros y t w0 t' w0' Hy. apply Hf. right. exact Hy.
    + eapply Hf; [left; reflexivity|exact E|exact Hs].
Qed.

Lemma allReferenced_collect (rt : runtime) (files : list string)
  (file : string) (r : ASTAnalysisResult) (acc : AllFiles) :
  In file files ->
  (forall d, In d (definitions r) -> hasReference (def_name d) r) ->
  plainDefs r ->
  allReferenced rt files acc ->
  allReferenced rt files
    (collect (Path.relative (cwd rt) (cwd rt) file) r acc).
Proof.
  intros Hfile Hr Hplain Hacc key defs d Hin Hd. unfold collect in *.
  simpl in *.
  destruct (fold_mapPush_entries
              (fun def => Path.relative (cwd rt) (cwd rt) file ++ ":"
                          ++ def_name def)
              (fun def => def)
              _ _ _ _ _ Hin Hd) as [[vs0 [H0 Hx0]]|[b [Hb [Hk Hv]]]].
  - destruct (Hacc _ _ _ H0 Hx0) as [f0 [u [Hf0 [Hkey [Hp Hu]]]]].
    exists f0, u. repeat split; auto.
    apply (holds_usages_old use_name
             (fun usage => mkU (Path.relative (cwd rt) (cwd rt) file)
                               (use_line usage))).
    exact Hu.
  - subst b. destruct (Hr d Hb) as [u [Hu [Hname _]]].
    exists file, (mkU (Path.relative (cwd rt) (cwd rt) file) (use_line u)).
    repeat split; auto.
    apply (holds_usages_new use_name
             (fun usage => mkU (Path.relative (cwd rt) (cwd rt) file)
                               (use_line usage))); auto.
Qed.

Lemma parserShaped_parts (tree : value) :
  parserShaped tree = true ->
  identifiersTyped tree = true /\ specifiersTyped tree = true
  /\ namesPlain tree = true.
Proof.
  unfold parserShaped. intros H.
  apply andb_true_iff in H. destruct H as [H H3].
  apply andb_true_iff in H. tauto.
Qed.

Lemma analyzeFile_all_referenced (rt : runtime) :
  (forall content tree, tsParse rt content = Some tree ->
                        parserShaped tree = true) ->
  (forall content tree, babelParse rt content = Some tree ->
                        parserShaped tree = true) ->
  forall filePath w r w',
    ASTAnalyzer.analyzeFile rt filePath w = (Ok r, w') ->
    (forall d, In d (definitions r) -> hasReference (def_name d) r)
    /\ plainDefs r.
Proof.
  intros Hts Hbabel filePath w r w'.
  unfold ASTAnalyzer.analyzeFile, readFile, bind, ret, warn, throw.
  destruct (readFileSync rt filePath) as [content|]; [|discriminate].
  destruct (parseFile rt filePath content) as [tree|] eqn:E; intros H;
    inversion H; subst.
  - assert (Hshape : parserShaped tree = true).
    { unfold parseFile in E. destruct (_ || _); eauto. }
    destruct (parserShaped_parts _ Hshape) as [H1 [H2 H3]].
    split.
    + intros d Hd.
      destruct (extends_traverse (cwd rt) filePath (depth tree) tree emptyResult
                  (le_n _) H1) as [_ D].
      destruct (importExtends_traverse (cwd rt) filePath (depth tree) tree
                  emptyResult (le_n _) H2) as [_ DI].
      destruct (def_type d) eqn:Et;
        try (destruct (D d Hd) as [[]|H']; [congruence|exact H']).
      destruct (DI d Hd Et) as [[]|H']. exact H'.
    + unfold traverseAST. apply plainDefs_traverse; auto.
      intros d [].
  - split; intros d [].
Qed.

Lemma analyzeAllFiles_all_referenced (rt : runtime) :
  (forall content tree, tsParse rt content = Some tree ->
                        parserShaped tree = true) ->
  (forall content tree, babelParse rt content = Some tree ->
                        parserShaped tree = true) ->
  forall files w all w',
    analyzeAllFiles rt files w = (Ok all, w') ->
    allReferenced rt files all.
Proof.
  intros Hts Hbabel files w all w' Hrun. unfold analyzeAllFiles in Hrun.
  eapply (forEachM_invariant_in (allReferenced rt files) (analyzeStep rt));
    [|exact Hrun|].
  - intros x s w0 s' w0' Hx Hstep Hs. unfold analyzeStep, bind, ret in Hstep.
    destruct (ASTAnalyzer.analyzeFile rt x w0) as [[r| |] w1] eqn:E;
      try discriminate.
    inversion Hstep; subst.
    destruct (analyzeFile_all_referenced rt Hts Hbabel _ _ _ _ E) as [H1 H2].
    apply allReferenced_collect; auto.
  - intros key defs d [].
Qed.

Lemma reportDefinition_referenced (rt : runtime) (files : list string)
  (all : AllFiles) :
  (forall file, In file files ->
                JS.includes (Path.relative (cwd rt) (cwd rt) file) ":" = false) ->
  allReferenced rt files all ->
  forall key defs d analysis,
    In (key, defs) (all_definitions all) -> In d defs ->
    reportDefinition (all_usages all) key d analysis = analysis.
Proof.
  intros Hpaths Hall key defs d analysis Hin Hd.
  destruct (Hall _ _ _ Hin Hd) as [file [u [Hfile [Hkey [Hplain Hu]]]]].
  unfold reportDefinition. rewrite Hkey.
  rewrite split_key; auto. simpl List.nth.
  destruct Hu as [vs [Hget Hvs]].
  unfold isUsedAST. rewrite Hget.
  destruct vs; [contradiction|reflexivity].
Qed.

(** X23. With trees as the parsers build them (the identifier of a
    declaration and of an import specifier typed [Identifier], no colon in a
    name) and no colon in the relative path of a file, the structural
    strategy reports no component, no function, no variable and no import,
    whatever the files hold: the walk records the identifier of every
    declaration as a usage of its name, so every definition counts as used.
    A run that ends normally reports unused files only, and its total is
    their number. *)
Theorem structural_strategy_reports_files_only :
  forall (rt : runtime) (config : AnalyzerConfig) (allFiles : list string)
         (r : AnalysisResults) (w : list warning),
    (forall content tree, tsParse rt content = Some tree ->
                          parserShaped tree = true) ->
    (forall content tree, babelParse rt content = Some tree ->
                          parserShaped tree = true) ->
    (forall file, In file allFiles ->
                  JS.includes (Path.relative (cwd rt) (cwd rt) file) ":" = false) ->
    mode config = ast_mode ->
    run rt config allFiles = (Ok r, w) ->
    filesOnly r /\ totalIssues r = List.length (unusedFiles r).
Proof.
  intros rt config allFiles r w Hts Hbabel Hpaths Hmode.
  unfold run, findDeadCode, bind, ret. rewrite Hmode.
  destruct (performASTAnalysis rt allFiles emptyAnalysis [])
    as [[a1| |] w1] eqn:E1; try discriminate.
  destruct (findUnusedFiles rt config allFiles a1 w1) as [[a2| |] w2] eqn:E2;
    try discriminate.
  intros H. inversion H; subst. clear H.
  assert (H1 : a1 = emptyAnalysis).
  { revert E1. unfold performASTAnalysis, bind, ret.
    destruct (analyzeAllFiles rt allFiles []) as [[all| |] wa] eqn:Ea;
      try discriminate.
    intros H. inversion H; subst. clear H.
    pose proof (analyzeAllFiles_all_referenced rt Hts Hbabel _ _ _ _ Ea) as Hall.
    apply (fold_left_invariant (fun a => a = emptyAnalysis)); [|reflexivity].
    intros a [key defs] Hin ->. simpl.
    apply (fold_left_invariant (fun a => a = emptyAnalysis)); [|reflexivity].
    intros a d Hd ->.
    eapply reportDefinition_referenced; eauto. }
  subst a1.
  assert (H2 : filesOnly a2).
  { apply (findUnusedFiles_invariant filesOnly (fun f a Ha => Ha)
             rt config allFiles _ _ _ _ E2).
    repeat split. }
  destruct H2 as [Hc [Hf [Hv [Hi He]]]].
  split.
  - repeat split; simpl; assumption.
  - simpl. rewrite Hc, Hf, Hv, Hi. simpl.
    rewrite <- (Permutation_length (sortBySize_perm (unusedFiles a2))).
    lia.
Qed.

Lemma treesAB_shaped (content : string) (tree : value) :
  tableGet [(contentA, treeA); (contentB, treeB)] content = Some tree ->
  parserShaped tree = true.
Proof.
  cbn [tableGet].
  destruct (String.eqb contentA content); [intros H; inversion H; reflexivity|].
  destruct (String.eqb contentB content); intros H; inversion H.
  reflexivity.
Qed.

Lemma run_scenarioAB :
  run runtimeAB (mkConfig "src" ast_mode) filesAB = (Ok reportAB, []).
Proof. vm_compute. reflexivity. Qed.

Lemma structural_strategy_reports_files_only_witness :
  filesOnly reportAB /\ totalIssues reportAB = List.length (unusedFiles reportAB).
Proof.
  apply (structural_strategy_reports_files_only runtimeAB
           (mkConfig "src" ast_mode) filesAB reportAB []
           treesAB_shaped treesAB_shaped).
  - intros file [<-|[<-|[]]]; vm_compute; reflexivity.
  - reflexivity.
  - exact run_scenarioAB.
Defined.

(** ** The matcher and the matches it finds *)

(** a successful match went through a match of the pattern *)
Lemma rmatch_matches :
  forall r k s s',
    rmatch r k s = Some s' ->
    exists l s1, matches r s l s1 /\ k s1 = Some s'.
Proof.
  induction r as [|p|r1 IH1 r2 IH2|r1 IH1 r2 IH2|g r1 IH1|g r1 IH1|m|m| |r1 IH1];
    intros k s s' H; simpl in H.
  - exists [], s. split; [constructor|exact H].
  - destruct (rest s) as [|c t] eqn:E; [discriminate|].
    destruct (p c) eqn:Ep; [|discriminate].
    exists [c], (mkState (S (pos s)) (Some c) t (caps s)).
    split; [constructor; auto|exact H].
  - destruct (IH1 _ _ _ H) as [l1 [s1 [M1 H1]]].
    destruct (IH2 _ _ _ H1) as [l2 [s2 [M2 H2]]].
    exists (l1 ++ l2)%list, s2. split; [econstructor; eauto|exact H2].
  - destruct (rmatch r1 k s) as [x|] eqn:E.
    + inversion H; subst. destruct (IH1 _ _ _ E) as [l [s1 [M1 H1]]].
      exists l, s1. split; [apply M_alt_left; exact M1|exact H1].
    + destruct (IH2 _ _ _ H) as [l [s1 [M1 H1]]].
      exists l, s1. split; [apply M_alt_right; exact M1|exact H1].
  - revert H. generalize (List.length (rest s)). intros fuel.
    revert s s'. induction fuel as [|fuel IHf]; intros s s' H.
    + exists [], s. split; [constructor|exact H].
    + assert (Hagain :
                rmatch r1 (fun s'' => if (pos s'' =? pos s)%nat then None
                                      else (fix loop (fuel : nat) (s : mstate)
                                              {struct fuel} : option mstate :=
                                              match fuel with
                                              | O => k s
                                              | S fuel' =>
                                                  let again (_ : unit) :=
                                                    rmatch r1
                                                      (fun s' =>
                                                         if (pos s' =? pos s)%nat
                                                         then None
                                                         else loop fuel' s') s in
                                                  if g
                                                  then match again tt with
                                                       | Some s' => Some s'
                                                       | None => k s
                                                       end
                                                  else match k s with
                                                       | Some s' => Some s'
                                                       | None => again tt
                                                       end
                                              end) fuel s'') s = Some s' ->
                exists l s1, matches (Star g r1) s l s1 /\ k s1 = Some s').
      { intros Ha. destruct (IH1 _ _ _ Ha) as [l1 [s1 [M1 H1]]].
        destruct (pos s1 =? pos s)%nat; [discriminate|].
        destruct (IHf _ _ H1) as [l2 [s2 [M2 H2]]].
        exists (l1 ++ l2)%list, s2. split; [|exact H2].
        eapply M_star_more; eauto. }
      cbv zeta in H. destruct g.
      * match type of H with
        | match ?a with _ => _ end = _ => destruct a as [x|] eqn:E
        end.
        -- inversion H; subst. apply Hagain. reflexivity.
        -- exists [], s. split; [constructor|exact H].
      * destruct (k s) as [x|] eqn:E.
        -- inversion H; subst. exists [], s. split; [constructor|exact E].
        -- apply Hagain. exact H.
  - destruct (IH1 _ _ _ H) as [l [s1 [M1 H1]]].
    exists l, (capture g s s1). split; [constructor; exact M1|exact H1].
  - exists [], s. split; [constructor|].
    destruct (prev s) as [c|]; [destruct (m && isLineTerminator c)|];
      try discriminate; exact H.
  - exists [], s. split; [constructor|].
    destruct (rest s) as [|c t]; [|destruct (m && isLineTerminator c)];
      try discriminate; exact H.
  - exists [], s. split; [constructor|].
    destruct (xorb _ _); [exact H|discriminate].
  - exists [], s. split; [constructor|].
    destruct (rmatch r1 Some s); [discriminate|exact H].
Qed.

Lemma prevAfter_app (l1 l2 : list ascii) (p : option ascii) :
  prevAfter (l1 ++ l2) p = prevAfter l2 (prevAfter l1 p).
Proof. unfold prevAfter. apply fold_left_app. Qed.

(** a match takes its characters from the subject, in order *)
Lemma matches_consumes :
  forall r s l s1,
    matches r s l s1 ->
    rest s = (l ++ rest s1)%list
    /\ pos s1 = pos s + List.length l
    /\ prev s1 = prevAfter l (prev s).
Proof.
  assert (Hseq : forall (s s1 s2 : mstate) l1 l2,
             rest s = (l1 ++ rest s1)%list
             /\ pos s1 = pos s + List.length l1
             /\ prev s1 = prevAfter l1 (prev s) ->
             rest s1 = (l2 ++ rest s2)%list
             /\ pos s2 = pos s1 + List.length l2
             /\ prev s2 = prevAfter l2 (prev s1) ->
             rest s = ((l1 ++ l2) ++ rest s2)%list
             /\ pos s2 = pos s + List.length (l1 ++ l2)
             /\ prev s2 = prevAfter (l1 ++ l2) (prev s)).
  { intros s s1 s2 l1 l2 [R1 [P1 V1]] [R2 [P2 V2]].
    rewrite R1, R2, P2, P1, V2, V1, prevAfter_app, length_app, <- app_assoc.
    repeat split; auto. lia. }
  intros r s l s1 H. induction H; eauto;
    try (simpl; repeat split; auto; lia).
Qed.

Lemma matches_groupFree :
  forall r s l s1,
    matches r s l s1 -> groupFree r = true -> caps s1 = caps s.
Proof.
  intros r s l s1 H. induction H; simpl; intros Hg; auto;
    try discriminate.
  - apply andb_true_iff in Hg. destruct Hg as [G1 G2].
    rewrite IHmatches2, IHmatches1; auto.
  - apply andb_true_iff in Hg. destruct Hg as [G1 G2]. auto.
  - apply andb_true_iff in Hg. destruct Hg as [G1 G2]. auto.
  - rewrite IHmatches2, IHmatches1; auto.
Qed.

Lemma matches_star_chr (g : bool) (p : ascii -> bool) :
  forall s l s1,
    matches (Star g (Chr p)) s l s1 -> forallb p l = true.
Proof.
  intros s l s1 H. remember (Star g (Chr p)) as r eqn:E.
  induction H; inversion E; subst; auto.
  inversion H; subst. simpl.
  match goal with
  | Hp : p ?c = true |- _ => rewrite Hp
  end.
  simpl. apply IHmatches2. reflexivity.
Qed.

Lemma space_not_word (c : ascii) : JS.isSpace c = true -> JS.isWord c = false.
Proof.
  destruct c as [[|] [|] [|] [|] [|] [|] [|] [|]]; vm_compute;
    intros H; first [reflexivity | discriminate H].
Qed.

Lemma prevAfter_last (l : list ascii) (c : ascii) (p : option ascii) :
  prevAfter (l ++ [c]) p = Some c.
Proof. rewrite prevAfter_app. reflexivity. Qed.

Lemma prevAfter_forall (q : ascii -> bool) (l : list ascii) (p : option ascii) :
  l <> [] -> forallb q l = true ->
  exists c, prevAfter l p = Some c /\ q c = true.
Proof.
  intros Hne Hall.
  destruct (exists_last Hne) as [l' [c ->]].
  exists c. split; [apply prevAfter_last|].
  rewrite forallb_app in Hall. apply andb_true_iff in Hall.
  simpl in Hall. destruct Hall as [_ Hc].
  apply andb_true_iff in Hc. tauto.
Qed.

Lemma matches_seq_inv r1 r2 s l s2 :
  matches (Seq r1 r2) s l s2 ->
  exists l1 s1 l2,
    l = (l1 ++ l2)%list /\ matches r1 s l1 s1 /\ matches r2 s1 l2 s2.
Proof. intros H. inversion H; subst. eauto 6. Qed.

Lemma matches_group_inv n r s l s' :
  matches (Group n r) s l s' ->
  exists s1, s' = capture n s s1 /\ matches r s l s1.
Proof. intros H. inversion H; subst. eauto. Qed.

Lemma matches_chr_inv p s l s' :
  matches (Chr p) s l s' ->
  exists c, l = [c] /\ p c = true.
Proof. intros H. inversion H; subst. eauto. Qed.

Lemma firstn_length_app {A} (l t : list A) :
  firstn (List.length l) (l ++ t) = l.
Proof. induction l as [|x l IH]; simpl; [|rewrite IH]; reflexivity. Qed.

(** the heart of a pattern of a declaration: white space, the name in the
    first group, and what follows the name *)
Lemma declares_core (cls q : ascii -> bool) (X : regex) :
  (forall c, cls c = true -> JS.isWord c = true) ->
  (forall c, q c = true -> JS.isWord c = false) ->
  groupFree X = true ->
  (forall s l s', matches X s l s' -> exists e l', l = e :: l' /\ q e = true) ->
  forall s l s',
    matches (Seq ws1 (Seq (Group 1 (Seq (Chr cls) words)) (Seq ws0 X))) s l s' ->
    exists pre name post,
      l = (pre ++ name ++ post)%list
      /\ caps s' = (1, string_of_list_ascii name) :: caps s
      /\ name <> []
      /\ forallb JS.isWord name = true
      /\ isWordOpt (prevAfter pre (prev s)) = false
      /\ isWordOpt (List.hd_error (post ++ rest s')) = false.
Proof.
  intros Hcls Hq HX Hhead s l s' H.
  destruct (matches_seq_inv _ _ _ _ _ H) as [l1 [sa [l' [-> [Hws1 H']]]]].
  destruct (matches_seq_inv _ _ _ _ _ H') as [l2 [sb' [l3 [-> [Hg Ht]]]]].
  destruct (matches_group_inv _ _ _ _ _ Hg) as [sb [-> Hn]].
  destruct (matches_seq_inv _ _ _ _ _ Hn) as [lc [sc [lw [-> [Hc Hw]]]]].
  destruct (matches_chr_inv _ _ _ _ Hc) as [c [-> Hclsc]].
  pose proof (matches_star_chr _ _ _ _ _ Hw) as Hwords.
  destruct (matches_seq_inv _ _ _ _ _ Ht) as [l31 [sd [l32 [-> [Hws0 Hx]]]]].
  pose proof (matches_star_chr _ _ _ _ _ Hws0) as Hspaces0.
  destruct (Hhead _ _ _ Hx) as [e [l33 [-> Hqe]]].
  unfold ws1, plus in Hws1.
  destruct (matches_seq_inv _ _ _ _ _ Hws1) as [ld [se [ls [-> [Hd Hs]]]]].
  destruct (matches_chr_inv _ _ _ _ Hd) as [d [-> Hspd]].
  pose proof (matches_star_chr _ _ _ _ _ Hs) as Hspaces1.
  exists ([d] ++ ls)%list, ([c] ++ lw)%list, (l31 ++ e :: l33)%list.
  split; [reflexivity|].
  split.
  { assert (C1 : caps sa = caps s).
    { apply (matches_groupFree _ _ _ _ Hws1). reflexivity. }
    assert (C2 : caps sb = caps sa).
    { apply (matches_groupFree _ _ _ _ Hn). reflexivity. }
    assert (C3 : caps s' = caps (capture 1 sa sb)).
    { apply (matches_groupFree _ _ _ _ Ht). simpl. exact HX. }
    destruct (matches_consumes _ _ _ _ Hn) as [R [P _]].
    rewrite C3. simpl. rewrite C2, C1, R, P.
    replace (pos sa + List.length ([c] ++ lw) - pos sa)
      with (List.length ([c] ++ lw)) by lia.
    rewrite firstn_length_app. reflexivity. }
  split; [discriminate|].
  split.
  { simpl. rewrite (Hcls c Hclsc). exact Hwords. }
  split.
  { destruct (prevAfter_forall JS.isSpace ([d] ++ ls) (prev s)) as [x [Hx1 Hx2]].
    - discriminate.
    - simpl. rewrite Hspd. exact Hspaces1.
    - rewrite Hx1. simpl. apply space_not_word. exact Hx2. }
  { destruct l31 as [|x l31]; simpl.
    - apply Hq. exact Hqe.
    - simpl in Hspaces0. apply andb_true_iff in Hspaces0.
      apply space_not_word. tauto. }
Qed.

Lemma declares_match :
  forall r, declares r ->
  forall s l s',
    matches r s l s' ->
    exists pre name post,
      l = (pre ++ name ++ post)%list
      /\ caps s' = (1, string_of_list_ascii name) :: caps s
      /\ name <> []
      /\ forallb JS.isWord name = true
      /\ isWordOpt (prevAfter pre (prev s)) = false
      /\ isWordOpt (List.hd_error (post ++ rest s')) = false.
Proof.
  intros r Hr. induction Hr as [a r Ha Hr IH|cls q Hcls Hq|cls q tail Hcls Hq Ht];
    intros s l s' H.
  - destruct (matches_seq_inv _ _ _ _ _ H) as [l1 [s1 [l2 [-> [H1 H2]]]]].
    destruct (IH _ _ _ H2) as [pre [name [post [-> [C [Hne [Hw [Hp Hh]]]]]]]].
    exists (l1 ++ pre)%list, name, post.
    split; [rewrite app_assoc; reflexivity|].
    split; [rewrite C, (matches_groupFree _ _ _ _ H1 Ha); reflexivity|].
    repeat split; auto.
    destruct (matches_consumes _ _ _ _ H1) as [_ [_ V]].
    rewrite prevAfter_app, <- V. exact Hp.
  - apply (declares_core cls q (Chr q)); auto.
    intros s0 l0 s0' H0. destruct (matches_chr_inv _ _ _ _ H0) as [e [-> He]].
    eauto.
  - apply (declares_core cls q (Seq (Chr q) tail)); auto.
    intros s0 l0 s0' H0.
    destruct (matches_seq_inv _ _ _ _ _ H0) as [l1 [s1 [l2 [-> [H1 H2]]]]].
    destruct (matches_chr_inv _ _ _ _ H1) as [e [-> He]].
    simpl. eauto.
Qed.

Lemma rmatch_wordb k s :
  rmatch WordB k s
  = if xorb (isWordOpt (prev s)) (isWordOpt (List.hd_error (rest s)))
    then k s else None.
Proof. reflexivity. Qed.

Lemma rmatch_lit :
  forall name t s k,
    rest s = (name ++ t)%list ->
    rmatch (lit (string_of_list_ascii name)) k s
    = k (mkState (pos s + List.length name) (prevAfter name (prev s)) t (caps s)).
Proof.
  induction name as [|c name IH]; intros t s k Hs.
  - destruct s as [i p l cs]. simpl in *. subst l.
    rewrite Nat.add_0_r. reflexivity.
  - destruct name as [|c2 name].
    + destruct s as [i p l cs]. simpl in Hs. subst l.
      change (lit (string_of_list_ascii [c])) with (Chr (Ascii.eqb c)).
      rewrite rmatch_chr_cons, Ascii.eqb_refl.
      simpl pos. simpl prev. simpl caps. simpl List.length.
      rewrite Nat.add_1_r. reflexivity.
    + change (lit (string_of_list_ascii (c :: c2 :: name)))
        with (Seq (chr c) (lit (string_of_list_ascii (c2 :: name)))).
      destruct s as [i p l cs]. simpl in Hs. subst l.
      unfold chr. rewrite rmatch_seq, rmatch_chr_cons, Ascii.eqb_refl.
      rewrite (IH t); [|reflexivity].
      simpl pos. simpl prev. simpl caps.
      replace (S i + List.length (c2 :: name))
        with (i + List.length (c :: c2 :: name)) by (simpl; lia).
      reflexivity.
Qed.

(** a name that stands between two characters that are no word characters
    is found by its word pattern *)
Lemma word_occurs (i : nat) (p : option ascii) (name t : list ascii) :
  name <> [] -> forallb JS.isWord name = true ->
  isWordOpt p = false -> isWordOpt (List.hd_error t) = false ->
  rmatch (wordPattern (string_of_list_ascii name)) Some
         (mkState i p (name ++ t)%list [])
  <> None.
Proof.
  intros Hne Hw Hp Ht. unfold wordPattern.
  rewrite rmatch_seq, rmatch_wordb. simpl prev. simpl rest.
  assert (Hfirst : isWordOpt (List.hd_error (name ++ t)%list) = true).
  { destruct name as [|c name]; [congruence|]. simpl in *.
    apply andb_true_iff in Hw. tauto. }
  rewrite Hp, Hfirst. simpl xorb. cbv iota.
  rewrite rmatch_seq, (rmatch_lit name t); [|reflexivity].
  simpl pos. simpl prev. simpl caps.
  destruct (prevAfter_forall JS.isWord name p Hne Hw) as [x [Hx1 Hx2]].
  rewrite rmatch_wordb. simpl prev. simpl rest.
  rewrite Hx1, Ht. simpl isWordOpt. rewrite Hx2. simpl. discriminate.
Qed.

Lemma search_complete (r : regex) :
  forall j l i p p' l',
    at_index j p l = Some (p', l') ->
    rmatch r Some (mkState (i + j) p' l' []) <> None ->
    search r i p l <> None.
Proof.
  induction j as [|j IH]; intros l i p p' l' Ha Hm.
  - simpl in Ha. inversion Ha; subst. rewrite Nat.add_0_r in Hm.
    destruct l' as [|c l']; simpl;
      destruct (rmatch r Some _); congruence.
  - destruct l as [|c l]; [discriminate|]. simpl in Ha. simpl.
    destruct (rmatch r Some (mkState i p (c :: l) [])); [discriminate|].
    apply (IH l (S i) (Some c) p' l' Ha).
    replace (S i + j) with (i + S j) by lia. exact Hm.
Qed.

Lemma at_index_prefix :
  forall pre p t, at_index (List.length pre) p (pre ++ t) = Some (prevAfter pre p, t).
Proof.
  induction pre as [|c pre IH]; intros p t; simpl.
  - reflexivity.
  - apply IH.
Qed.

Lemma search_matched (r : regex) :
  forall l i p m,
    search r i p l = Some m ->
    exists p' l' s',
      at_index (index m - i) p l = Some (p', l')
      /\ rmatch r Some (mkState (index m) p' l' []) = Some s'
      /\ captures m = caps s'.
Proof.
  induction l as [|c l IH]; intros i p m H.
  - simpl in H.
    destruct (rmatch r Some (mkState i p [] [])) as [s'|] eqn:E; [|discriminate].
    inversion H; subst. simpl. rewrite Nat.sub_diag.
    exists p, [], s'. auto.
  - pose proof (search_bounds r _ _ _ _ H) as Hb.
    simpl in H.
    destruct (rmatch r Some (mkState i p (c :: l) [])) as [s'|] eqn:E.
    + inversion H; subst. simpl. rewrite Nat.sub_diag.
      exists p, (c :: l), s'. auto.
    + pose proof (search_bounds r _ _ _ _ H) as Hb'.
      destruct (IH _ _ _ H) as [p' [l' [s' [Ha [Hm Hc]]]]].
      exists p', l', s'. repeat split; auto.
      replace (index m - i) with (S (index m - S i)) by lia.
      exact Ha.
Qed.

Lemma exec_matched (r : regex) (s : string) (lastIndex : nat) (m : mresult) :
  exec r s lastIndex = Some m ->
  exists p' l' s',
    at_index (index m) None (list_ascii_of_string s) = Some (p', l')
    /\ rmatch r Some (mkState (index m) p' l' []) = Some s'
    /\ captures m = caps s'.
Proof.
  unfold exec.
  destruct (at_index lastIndex None (list_ascii_of_string s)) as [[p l]|] eqn:E;
    [|discriminate].
  intros H. pose proof (search_bounds r _ _ _ _ H) as Hb.
  destruct (search_matched r _ _ _ _ H) as [p' [l' [s' [Ha [Hm Hc]]]]].
  exists p', l', s'. repeat split; auto.
  replace (index m) with (lastIndex + (index m - lastIndex)) at 1 by lia.
  eapply at_index_compose; eauto.
Qed.

(** the name a pattern of a declaration captures is made of word
    characters and stands as a word in the text *)
Lemma declared_name_stands (r : regex) (text : string) (lastIndex : nat)
  (m : mresult) :
  declares r ->
  exec r text lastIndex = Some m ->
  exists name,
    group 1 (captures m) = Some name
    /\ allChars JS.isWord name = true
    /\ test (wordPattern name) text = true.
Proof.
  intros Hr He.
  destruct (exec_matched _ _ _ _ He) as [p' [l' [s' [Ha [Hm Hc]]]]].
  destruct (rmatch_matches _ _ _ _ Hm) as [l [s1 [HM Hs1]]].
  inversion Hs1; subst s1. clear Hs1.
  destruct (declares_match r Hr _ _ _ HM)
    as [pre [name [post [-> [C [Hne [Hw [Hp Hh]]]]]]]].
  destruct (matches_consumes _ _ _ _ HM) as [R _]. simpl in R, C, Hp.
  exists (string_of_list_ascii name). split; [|split].
  - rewrite Hc, C. reflexivity.
  - rewrite <- forallb_allChars, list_ascii_of_string_of_list_ascii. exact Hw.
  - unfold test, exec. simpl at_index.
    assert (Hat : at_index (index m + List.length pre) None
                           (list_ascii_of_string text)
                  = Some (prevAfter pre p', (name ++ post ++ rest s')%list)).
    { eapply at_index_compose; [exact Ha|].
      rewrite R. repeat rewrite <- app_assoc. apply at_index_prefix. }
    pose proof (word_occurs (index m + List.length pre) (prevAfter pre p') name
                  (post ++ rest s')%list Hne Hw Hp Hh) as Hocc.
    pose proof (search_complete (wordPattern (string_of_list_ascii name))
                  _ _ 0 None _ _ Hat Hocc) as Hs.
    cbv beta iota.
    destruct (search (wordPattern (string_of_list_ascii name)) 0 None
                     (list_ascii_of_string text)); congruence.
Qed.

(** ** analyzer.ts: the lexical strategy and the declarations *)

Lemma class_of_words (cls : ascii -> bool) :
  (forall c, cls c = true
             -> JS.isUpper c = true \/ JS.isLower c = true
                \/ Ascii.eqb c "_" = true) ->
  forall c, cls c = true -> JS.isWord c = true.
Proof.
  intros H c Hc. unfold JS.isWord.
  destruct (H c Hc) as [E|[E|E]]; rewrite E;
    repeat rewrite orb_true_r; reflexivity.
Qed.

Ltac word_class :=
  apply class_of_words; intros c Hc;
  repeat match type of Hc with
         | (_ || _) = true => apply orb_true_iff in Hc; destruct Hc as [Hc|Hc]
         end; auto.

Ltac no_word_char :=
  let c := fresh "c" in
  let Hc := fresh "Hc" in
  intros c Hc; apply Ascii.eqb_eq in Hc; subst c; reflexivity.

Ltac declares_pattern :=
  repeat first
    [ apply D_last; [word_class|no_word_char]
    | apply D_more; [word_class|no_word_char|reflexivity]
    | apply D_skip; [reflexivity|] ].

(** the patterns of components, functions and variables are patterns of
    declarations *)
Lemma patterns_declare :
  forall p,
    In p (PATTERNS_component ++ PATTERNS_function ++ PATTERNS_variable) ->
    declares p.
Proof.
  intros p H. simpl in H.
  repeat (destruct H as [<-|H]; [declares_pattern|]).
  contradiction.
Qed.

Lemma execAll_go_matches (r : regex) (s : string) :
  forall fuel lastIndex ms,
    execAll_go fuel r s lastIndex = Some ms ->
    forall m, In m ms -> exists j, exec r s j = Some m.
Proof.
  induction fuel as [|fuel IH]; intros lastIndex ms H m Hm; [discriminate|].
  simpl in H. destruct (exec r s lastIndex) as [m0|] eqn:E.
  - destruct (endIndex m0 <=? index m0)%nat; [discriminate|].
    destruct (execAll_go fuel r s (endIndex m0)) as [ms0|] eqn:E0;
      [|discriminate].
    inversion H; subst. destruct Hm as [<-|Hm]; eauto.
  - inversion H; subst. contradiction.
Qed.

Lemma overMatches_invariant_exec {S} (P : S -> Prop) (text : string)
  (body : regex -> mresult -> S -> S) (patterns : list regex) :
  (forall p m s, In p patterns -> (exists j, exec p text j = Some m) ->
                 P s -> P (body p m s)) ->
  forall s s', overMatches patterns text body s = Some s' -> P s -> P s'.
Proof.
  induction patterns as [|p ps IH]; intros Hb s s' H Hs; simpl in H.
  - inversion H; subst; auto.
  - destruct (execAll p text) as [ms|] eqn:E; [|discriminate].
    eapply IH; [|exact H|].
    + intros q m t Hq. apply Hb. right. exact Hq.
    + apply fold_left_invariant; auto.
      intros a m Hm Ha. apply Hb; auto.
      * left. reflexivity.
      * unfold execAll in E. eapply execAll_go_matches; eauto.
Qed.

Lemma standsIn_add (text : string) (n : string) (d d' : FileDefinitions) :
  allChars JS.isWord n = true -> test (wordPattern n) text = true ->
  (forall x, In x (declaredNames d') -> x = n \/ In x (declaredNames d)) ->
  standsIn text d -> standsIn text d'.
Proof.
  intros Hw Ht Hin Hd x Hx. destruct (Hin x Hx) as [->|H]; auto.
Qed.

Lemma declaredNames_addComponent n d x :
  In x (declaredNames (addComponent n d)) -> x = n \/ In x (declaredNames d).
Proof.
  unfold declaredNames. simpl. rewrite !in_app_iff.
  intros [H|H]; auto. apply setAdd_In in H. tauto.
Qed.

Lemma declaredNames_addFunction n d x :
  In x (declaredNames (addFunction n d)) -> x = n \/ In x (declaredNames d).
Proof.
  unfold declaredNames. simpl. rewrite !in_app_iff.
  intros [H|[H|H]]; auto. apply setAdd_In in H. tauto.
Qed.

Lemma declaredNames_addVariable n d x :
  In x (declaredNames (addVariable n d)) -> x = n \/ In x (declaredNames d).
Proof.
  unfold declaredNames. simpl. rewrite !in_app_iff.
  intros [H|[H|H]]; auto. apply setAdd_In in H. tauto.
Qed.

Ltac stands_cases Hw Ht :=
  repeat match goal with
         | |- standsIn _ (if ?c then _ else _) => destruct c
         | |- standsIn _ (addExportName _ ?d) =>
             change (standsIn _ (addExportName _ d)) with (standsIn _ d)
         end;
  try assumption;
  first
    [ eapply standsIn_add;
      [exact Hw|exact Ht|apply declaredNames_addComponent|assumption]
    | eapply standsIn_add;
      [exact Hw|exact Ht|apply declaredNames_addFunction|assumption]
    | eapply standsIn_add;
      [exact Hw|exact Ht|apply declaredNames_addVariable|assumption] ].

Lemma standsIn_addImportClause text clause d :
  standsIn text d -> standsIn text (addImportClause clause d).
Proof.
  unfold addImportClause. apply fold_left_invariant.
  intros a imp _ Ha. destruct (_ && _); exact Ha.
Qed.

(** the declared names [analyzeFile] extracts stand as words in the text
    without comments *)
Lemma standsIn_extractDefinitions (rt : runtime) (content filePath : string) d :
  extractDefinitions rt content filePath = Some d ->
  standsIn (removeComments content) d.
Proof.
  unfold extractDefinitions.
  destruct (overMatches PATTERNS_component _ _ _) as [d1|] eqn:E1; [|discriminate].
  destruct (overMatches PATTERNS_function _ _ _) as [d2|] eqn:E2; [|discriminate].
  destruct (overMatches PATTERNS_variable _ _ _) as [d3|] eqn:E3; [|discriminate].
  destruct (overMatches PATTERNS_import _ _ _) as [d4|] eqn:E4; [|discriminate].
  intros E5.
  assert (H1 : standsIn (removeComments content) d1).
  { eapply (overMatches_invariant_exec (standsIn (removeComments content)));
      [|exact E1|intros n []].
    intros p m s Hp [j Hj] Hs.
    assert (Hd : declares p).
    { apply patterns_declare. apply in_or_app. left. exact Hp. }
    destruct (declared_name_stands _ _ _ _ Hd Hj) as [name [Hg [Hw Ht]]].
    unfold componentBody. rewrite Hg. stands_cases Hw Ht. }
  assert (H2 : standsIn (removeComments content) d2).
  { eapply (overMatches_invariant_exec (standsIn (removeComments content)));
      [|exact E2|exact H1].
    intros p m s Hp [j Hj] Hs.
    assert (Hd : declares p).
    { apply patterns_declare. apply in_or_app. right.
      apply in_or_app. left. exact Hp. }
    destruct (declared_name_stands _ _ _ _ Hd Hj) as [name [Hg [Hw Ht]]].
    unfold functionBody. rewrite Hg. stands_cases Hw Ht. }
  assert (H3 : standsIn (removeComments content) d3).
  { eapply (overMatches_invariant_exec (standsIn (removeComments content)));
      [|exact E3|exact H2].
    intros p m s Hp [j Hj] Hs.
    assert (Hd : declares p).
    { apply patterns_declare. apply in_or_app. right.
      apply in_or_app. right. exact Hp. }
    destruct (declared_name_stands _ _ _ _ Hd Hj) as [name [Hg [Hw Ht]]].
    unfold variableBody. rewrite Hg. stands_cases Hw Ht. }
  assert (H4 : standsIn (removeComments content) d4).
  { eapply (overMatches_invariant (standsIn (removeComments content)));
      [|exact E4|exact H3].
    intros p m s Hs. unfold importBody.
    destruct (groupText 1 m) as [clause|].
    - apply standsIn_addImportClause; auto.
    - destruct (orElse _ _) as [name|]; auto.
      destruct (_ && _); exact Hs. }
  eapply (overMatches_invariant (standsIn (removeComments content)));
    [|exact E5|exact H4].
  intros p m s Hs. unfold typeImportBody.
  destruct (group 1 (captures m)) as [clause|]; auto.
  apply standsIn_addImportClause; auto.
Qed.

Section LexicalDeclarations.

Variable rt : runtime.

(** the constructor of patterns reads [\bNAME\b] as the word [NAME] *)
Hypothesis word_sources :
  forall name re,
    allChars JS.isWord name = true ->
    newRegExp rt ("\b" ++ name ++ "\b") = Some re ->
    forall content, test re content = test (wordPattern name) content.

Lemma isUsed_standing usageMap definitions filePath content name w b w' :
  allChars JS.isWord name = true ->
  test (wordPattern name) content = true ->
  isUsed rt usageMap definitions filePath content name w = (Ok b, w') ->
  b = true.
Proof.
  intros Hw Ht. unfold isUsed, bind, compile, ret, throw.
  destruct (newRegExp rt ("\b" ++ name ++ "\s*\(")) as [r1|]; [|discriminate].
  destruct (newRegExp rt ("<" ++ name ++ "[\s/>]")) as [r2|]; [|discriminate].
  destruct (newRegExp rt ("\b" ++ name ++ "\b")) as [r3|] eqn:E3; [|discriminate].
  pose proof (word_sources name r3 Hw E3 content) as H3. rewrite Ht in H3.
  cbn [existsb]. rewrite H3. rewrite !orb_true_r.
  destruct (match mapGet name usageMap with
            | Some us => existsb (fun u => negb (String.eqb (file u) filePath)) us
            | None => false
            end); intros H; inversion H; reflexivity.
Qed.

Lemma noDeclarations_import issue a :
  issue_type issue = TImport -> noDeclarations a ->
  noDeclarations (pushIssue issue a).
Proof.
  intros Ht H. unfold pushIssue. rewrite Ht. exact H.
Qed.

Lemma noDeclarations_checkUnusedDefinitions usageMap definitions filePath
  content a w a' w' :
  standsIn content definitions ->
  checkUnusedDefinitions rt usageMap definitions filePath content a w
  = (Ok a', w') ->
  noDeclarations a -> noDeclarations a'.
Proof.
  intros Hstand. unfold checkUnusedDefinitions, bind.
  destruct (forEachM _ (fd_components definitions) a w) as [[a1| |] w1] eqn:E1;
    try discriminate.
  destruct (forEachM _ (fd_functions definitions) a1 w1) as [[a2| |] w2] eqn:E2;
    try discriminate.
  destruct (forEachM _ (fd_variables definitions) a2 w2) as [[a3| |] w3] eqn:E3;
    try discriminate.
  intros E4 Ha.
  assert (Hin : forall x, In x (fd_components definitions)
                          \/ In x (fd_functions definitions)
                          \/ In x (fd_variables definitions) ->
                allChars JS.isWord x = true
                /\ test (wordPattern x) content = true).
  { intros x Hx. apply Hstand. unfold declaredNames.
    rewrite !in_app_iff. exact Hx. }
  assert (H1 : noDeclarations a1).
  { eapply (forEachM_invariant_in noDeclarations); [|exact E1|exact Ha].
    intros x s w0 s' w0' Hx Hs Hn. unfold bind, ret in Hs.
    destruct (isUsed rt usageMap definitions filePath content x w0)
      as [[b| |] wu] eqn:Eu; try discriminate.
    destruct (Hin x (or_introl Hx)) as [Hw Ht].
    rewrite (isUsed_standing _ _ _ _ _ _ _ _ Hw Ht Eu) in Hs.
    inversion Hs; subst. exact Hn. }
  assert (H2 : noDeclarations a2).
  { eapply (forEachM_invariant_in noDeclarations); [|exact E2|exact H1].
    intros x s w0 s' w0' Hx Hs Hn. unfold bind, ret in Hs.
    destruct (isUsed rt usageMap definitions filePath content x w0)
      as [[b| |] wu] eqn:Eu; try discriminate.
    destruct (Hin x (or_intror (or_introl Hx))) as [Hw Ht].
    rewrite (isUsed_standing _ _ _ _ _ _ _ _ Hw Ht Eu) in Hs.
    inversion Hs; subst. exact Hn. }
  assert (H3 : noDeclarations a3).
  { eapply (forEachM_invariant_in noDeclarations); [|exact E3|exact H2].
    intros x s w0 s' w0' Hx Hs Hn. unfold bind, ret in Hs.
    destruct (isUsed rt usageMap definitions filePath content x w0)
      as [[b| |] wu] eqn:Eu; try discriminate.
    destruct (Hin x (or_intror (or_intror Hx))) as [Hw Ht].
    rewrite (isUsed_standing _ _ _ _ _ _ _ _ Hw Ht Eu) in Hs.
    inversion Hs; subst. exact Hn. }
  eapply (forEachM_invariant noDeclarations); [|exact E4|exact H3].
  intros x s w0 s' w0' Hs Hn. unfold ret in Hs.
  match type of Hs with
  | (if ?c then _ else _) _ = _ => destruct c
  end; inversion Hs; subst; auto using noDeclarations_import.
Qed.

End LexicalDeclarations.

(** X24. In a project whose files hold no comment, with a constructor of
    patterns that reads the source [\bNAME\b] as the word [NAME], the
    lexical strategy reports no component, no function and no variable,
    whatever the files hold: the name of every declaration stands as a word
    in the text of its own declaration, which the test for a local usage
    finds, so every declaration counts as used. *)
Theorem lexical_strategy_reports_no_declaration :
  forall (rt : runtime) (config : AnalyzerConfig) (allFiles : list string)
         (r : AnalysisResults) (w : list warning),
    (forall name re,
        allChars JS.isWord name = true ->
        newRegExp rt ("\b" ++ name ++ "\b") = Some re ->
        forall content, test re content = test (wordPattern name) content) ->
    (forall file content,
        In file allFiles -> readFileSync rt file = Some content ->
        removeComments content = content) ->
    mode config = regex_mode ->
    run rt config allFiles = (Ok r, w) ->
    noDeclarations r.
Proof.
  intros rt config allFiles r w Hre Hplain Hmode.
  unfold run, findDeadCode, bind, ret. rewrite Hmode.
  destruct (performRegexAnalysis rt config allFiles emptyAnalysis [])
    as [[a1| |] w1] eqn:E1; try discriminate.
  destruct (findUnusedFiles rt config allFiles a1 w1) as [[a2| |] w2] eqn:E2;
    try discriminate.
  intros H. inversion H; subst. clear H.
  assert (H1 : noDeclarations a1).
  { revert E1. unfold performRegexAnalysis, bind.
    destruct (buildUsageMap rt config allFiles []) as [[um| |] wu];
      try discriminate.
    intros E1.
    eapply (forEachM_invariant_in noDeclarations); [|exact E1|repeat split].
    intros x s w0 s' w0' Hx Hs Hn.
    unfold DeadCodeAnalyzer.analyzeFile, bind, readFile, ret, throw, terminating
      in Hs.
    destruct (readFileSync rt x) as [content|] eqn:Er; [|discriminate].
    destruct (extractDefinitions rt content x) as [d|] eqn:Ed; [|discriminate].
    apply standsIn_extractDefinitions in Ed.
    rewrite (Hplain x content Hx Er) in Ed.
    eapply noDeclarations_checkUnusedDefinitions; eauto. }
  assert (H2 : noDeclarations a2).
  { apply (findUnusedFiles_invariant noDeclarations (fun f a Ha => Ha)
             rt config allFiles _ _ _ _ E2).
    exact H1. }
  exact H2.
Qed.

Lemma middle_word (name : string) : middle ("\b" ++ name ++ "\b") = name.
Proof.
  unfold middle. simpl JS.drop. simpl String.length.
  rewrite length_append. simpl String.length.
  replace (S (S (String.length name + 2)) - 4) with (String.length name + 0)
    by lia.
  unfold JS.substring0. rewrite substring0_app. simpl. apply append_nil_r.
Qed.

Lemma wordRegExp_word_sources (name : string) (re : regex) :
  allChars JS.isWord name = true ->
  wordRegExp ("\b" ++ name ++ "\b") = Some re ->
  forall content, test re content = test (wordPattern name) content.
Proof.
  intros _ H content. unfold wordRegExp in H. rewrite middle_word in H.
  rewrite String.eqb_refl in H. inversion H. reflexivity.
Qed.

Lemma run_scenarioW :
  run runtimeW (mkConfig "src" regex_mode) filesA = (Ok reportW, []).
Proof. vm_compute. reflexivity. Qed.

Lemma lexical_strategy_reports_no_declaration_witness : noDeclarations reportW.
Proof.
  apply (lexical_strategy_reports_no_declaration runtimeW
           (mkConfig "src" regex_mode) filesA reportW []
           wordRegExp_word_sources).
  - intros file content [<-|[]] H. vm_compute in H. inversion H.
    vm_compute. reflexivity.
  - reflexivity.
  - exact run_scenarioW.
Defined.

(** ** analyzer.ts: a text without slash keeps its comments-free form *)

Lemma search_no_first (p : ascii -> bool) (x y : regex) :
  forall l i q,
    forallb (fun c => negb (p c)) l = true ->
    search (Seq (Seq (Chr p) x) y) i q l = None.
Proof.
  induction l as [|c l IH]; intros i q H.
  - reflexivity.
  - simpl in H. apply andb_true_iff in H. destruct H as [Hc Hl].
    apply negb_true_iff in Hc.
    cbn [search]. rewrite !rmatch_seq, rmatch_chr_cons, Hc.
    apply IH. exact Hl.
Qed.

Lemma deleteAll_no_first (p : ascii -> bool) (x y : regex) (s : string) :
  allChars (fun c => negb (p c)) s = true ->
  deleteAll (Seq (Seq (Chr p) x) y) s = s.
Proof.
  intros H. unfold deleteAll. cbn [deleteAll_go].
  rewrite search_no_first.
  - apply string_of_list_ascii_of_string.
  - rewrite forallb_allChars. exact H.
Qed.

(** X25. [removeComments] returns a text without slash as it is. *)
Theorem removeComments_keeps_text_without_slash :
  forall (content : string),
    noSlash content = true -> removeComments content = content.
Proof.
  intros content H. unfold removeComments.
  change (seq [lit "//"; Star true dot; Eol true])
    with (Seq (Seq (Chr (Ascii.eqb "/")) (chr "/"))
              (Seq (Star true dot) (Eol true))).
  change (seq [lit "/*"; Star false anyChar; lit "*/"])
    with (Seq (Seq (Chr (Ascii.eqb "/")) (chr "*"))
              (Seq (Star false anyChar) (lit "*/"))).
  rewrite (deleteAll_no_first _ _ _ content H).
  apply deleteAll_no_first. exact H.
Qed.

Lemma removeComments_keeps_text_without_slash_witness :
  removeComments contentA = contentA.
Proof.
  apply (removeComments_keeps_text_without_slash contentA). reflexivity.
Defined.

(** ** analyzer.ts: where the usages of the map point *)

Lemma countChar_substring_le (c : ascii) :
  forall s n, countChar c (String.substring 0 n s) <= countChar c s.
Proof.
  unfold countChar.
  induction s as [|d s IH]; intros n.
  - destruct n; simpl; lia.
  - destruct n as [|n]; simpl.
    + lia.
    + specialize (IH n). destruct (Ascii.eqb c d); simpl; lia.
Qed.

Lemma substring0_all (s : string) :
  String.substring 0 (String.length s) s = s.
Proof. induction s as [|c s IH]; simpl; [|rewrite IH]; reflexivity. Qed.

Lemma lineAt_bounds (content : string) (index : nat) :
  1 <= lineAt content index <= lineCount content.
Proof.
  unfold lineCount, lineAt, JS.split, LF.
  rewrite !split_go_single_length by lia.
  unfold JS.substring0. rewrite substring0_all.
  pose proof (countChar_substring_le (ascii_of_nat 10) content index). lia.
Qed.

Lemma usagesLocated_push rt config files usageMap f content name index :
  In f files -> readFileSync rt f = Some content ->
  usagesLocated rt config files usageMap ->
  usagesLocated rt config files
    (mapPush name (mkU (Path.relative (cwd rt) (srcDir config) f)
                       (lineAt content index)) usageMap).
Proof.
  intros Hf Hr Hm k us u Hin Hu.
  destruct (mapPush_entries _ _ _ _ _ _ Hin Hu) as [[vs0 [H0 Hx0]]|[_ ->]].
  - eapply Hm; eauto.
  - exists f, content. repeat split; auto; apply lineAt_bounds.
Qed.

(** X26. Every usage the lexical [buildUsageMap] records points into a
    file of the run that could be read: its file is the path of that file
    relative to the source directory, and its line lies between 1 and the
    number of lines of that file. *)
Theorem usages_point_into_the_files :
  forall (rt : runtime) (config : AnalyzerConfig) (files : list string)
         (w w' : list warning) (usageMap : list (string * list Usage)),
    buildUsageMap rt config files w = (Ok usageMap, w') ->
    usagesLocated rt config files usageMap.
Proof.
  intros rt config files w w' usageMap H. unfold buildUsageMap in H.
  eapply (forEachM_invariant_in (usagesLocated rt config files));
    [|exact H|intros name us u []].
  intros f um w0 um' w0' Hf Hs Hm.
  unfold usageStep, bind, readFile, ret, throw, terminating in Hs.
  destruct (readFileSync rt f) as [content|] eqn:Er; [|discriminate].
  destruct (overMatches PATTERNS_usage content _ um) as [um1|] eqn:Eo;
    [|discriminate].
  inversion Hs; subst.
  eapply (overMatches_invariant (usagesLocated rt config files));
    [|exact Eo|exact Hm].
  intros p m s Hs0. unfold usageBody.
  apply fold_left_invariant; auto.
  intros a i _ Ha. destruct (groupText i m) as [name|]; auto.
  destruct (_ || _); auto.
  apply usagesLocated_push; auto.
Qed.

Lemma usages_point_into_the_files_witness :
  exists usageMap,
    buildUsageMap runtimeA (mkConfig "src" regex_mode) filesA [] = (Ok usageMap, [])
    /\ usagesLocated runtimeA (mkConfig "src" regex_mode) filesA usageMap.
Proof.
  assert (E : exists usageMap,
             buildUsageMap runtimeA (mkConfig "src" regex_mode) filesA []
             = (Ok usageMap, []))
    by (vm_compute; eexists; reflexivity).
  destruct E as [um E]. exists um. split; [exact E|].
  exact (usages_point_into_the_files runtimeA (mkConfig "src" regex_mode)
           filesA [] [] um E).
Defined.

(** ** analyzer.ts: the unused files do not depend on the strategy *)

Lemma silent_ret {A} (a : A) : silent (ret a).
Proof. intros w. reflexivity. Qed.

Lemma silent_throw {A} (e : error) : silent (@throw A e).
Proof. intros w. reflexivity. Qed.

Lemma silent_bind {A B} (c : M A) (k : A -> M B) :
  silent c -> (forall a, silent (k a)) -> silent (bind c k).
Proof.
  intros Hc Hk w. unfold bind. rewrite (Hc w), (Hc []).
  destruct (fst (c [])) as [a| |]; simpl; auto.
  rewrite (Hk a w), (Hk a []). reflexivity.
Qed.

Lemma silent_readFile (rt : runtime) (p : string) : silent (readFile rt p).
Proof.
  unfold readFile. destruct (readFileSync rt p);
    [apply silent_ret|apply silent_throw].
Qed.

Lemma silent_compile (rt : runtime) (source : string) :
  silent (compile rt source).
Proof.
  unfold compile. destruct (newRegExp rt source);
    [apply silent_ret|apply silent_throw].
Qed.

Lemma silent_matchesSpelling (rt : runtime) (content : string)
  (ps : list string) :
  silent (matchesSpelling rt content ps).
Proof.
  induction ps as [|p ps IH]; simpl.
  - apply silent_ret.
  - apply silent_bind; [apply silent_compile|].
    intros r. destruct (test r content); [apply silent_ret|exact IH].
Qed.

Lemma silent_importedBy (rt : runtime) (file : string) (ps others : list string) :
  silent (importedBy rt file ps others).
Proof.
  induction others as [|o os IH]; simpl.
  - apply silent_ret.
  - destruct (String.eqb o file); [exact IH|].
    apply silent_bind; [apply silent_readFile|]. intros content.
    apply silent_bind; [apply silent_matchesSpelling|].
    intros [|]; [apply silent_ret|exact IH].
Qed.

Lemma possibleImportPaths_srcDir (rt : runtime) (c1 c2 : AnalyzerConfig)
  (file : string) :
  srcDir c1 = srcDir c2 ->
  possibleImportPaths rt c1 file = possibleImportPaths rt c2 file.
Proof. intros H. unfold possibleImportPaths. rewrite H. reflexivity. Qed.

Lemma checkFile_same_files (rt : runtime) (c1 c2 : AnalyzerConfig)
  (allFiles : list string) (file : string) a1 a2 w1 w2 a1' a2' w1' w2' :
  srcDir c1 = srcDir c2 ->
  checkFile rt c1 allFiles file a1 w1 = (Ok a1', w1') ->
  checkFile rt c2 allFiles file a2 w2 = (Ok a2', w2') ->
  unusedFiles a1 = unusedFiles a2 ->
  unusedFiles a1' = unusedFiles a2'.
Proof.
  intros Hsrc. unfold checkFile.
  rewrite (possibleImportPaths_srcDir rt c1 c2 file Hsrc), Hsrc.
  unfold bind.
  rewrite (silent_importedBy rt file (possibleImportPaths rt c2 file) allFiles w1).
  rewrite (silent_importedBy rt file (possibleImportPaths rt c2 file) allFiles w2).
  destruct (fst (importedBy rt file (possibleImportPaths rt c2 file) allFiles []))
    as [imported| |]; try discriminate.
  unfold readFile, ret, throw, warn.
  destruct (readFileSync rt file) as [content|]; [|discriminate].
  destruct (_ && _).
  - destruct (statSync_size rt file) as [size|]; intros H1 H2 Ha;
      inversion H1; inversion H2; subst; simpl; congruence.
  - intros H1 H2 Ha. inversion H1; inversion H2; subst. exact Ha.
Qed.

Lemma forEachM_related {A S} (R : S -> S -> Prop) (f g : A -> S -> M S) :
  (forall x s t w v s' t' w' v',
      f x s w = (Ok s', w') -> g x t v = (Ok t', v') -> R s t -> R s' t') ->
  forall xs s t w v s' t' w' v',
    forEachM f xs s w = (Ok s', w') -> forEachM g xs t v = (Ok t', v') ->
    R s t -> R s' t'.
Proof.
  intros H xs. induction xs as [|x xs IH]; intros s t w v s' t' w' v' Hf Hg Hr.
  - inversion Hf; inversion Hg; subst. exact Hr.
  - simpl in Hf, Hg. unfold bind in Hf, Hg.
    destruct (f x s w) as [[s1| |] w1] eqn:Ef; try discriminate.
    destruct (g x t v) as [[t1| |] v1] eqn:Eg; try discriminate.
    eapply IH; eauto.
Qed.

(** X27. The unused files a run reports do not depend on the strategy: two
    runs on the same files, in the same environment and with the same
    source directory, that both end normally report the same unused files
    in the same order, whatever their analysis modes are. *)
Theorem unused_files_do_not_depend_on_the_strategy :
  forall (rt : runtime) (c1 c2 : AnalyzerConfig) (allFiles : list string)
         (r1 r2 : AnalysisResults) (w1 w2 : list warning),
    srcDir c1 = srcDir c2 ->
    run rt c1 allFiles = (Ok r1, w1) ->
    run rt c2 allFiles = (Ok r2, w2) ->
    unusedFiles r1 = unusedFiles r2.
Proof.
  intros rt c1 c2 allFiles r1 r2 w1 w2 Hsrc.
  unfold run, findDeadCode, bind, ret.
  destruct (match mode c1 with
            | ast_mode => performASTAnalysis rt allFiles emptyAnalysis
            | regex_mode => performRegexAnalysis rt c1 allFiles emptyAnalysis
            end []) as [[a1| |] v1] eqn:E1; try discriminate.
  destruct (findUnusedFiles rt c1 allFiles a1 v1) as [[b1| |] u1] eqn:F1;
    try discriminate.
  destruct (match mode c2 with
            | ast_mode => performASTAnalysis rt allFiles emptyAnalysis
            | regex_mode => performRegexAnalysis rt c2 allFiles emptyAnalysis
            end []) as [[a2| |] v2] eqn:E2; try discriminate.
  destruct (findUnusedFiles rt c2 allFiles a2 v2) as [[b2| |] u2] eqn:F2;
    try discriminate.
  intros H1 H2. inversion H1; inversion H2; subst. simpl.
  assert (N1 : noFiles a1).
  { destruct (mode c1).
    - eapply noFiles_performASTAnalysis; eauto.
    - eapply noFiles_performRegexAnalysis; eauto. }
  assert (N2 : noFiles a2).
  { destruct (mode c2).
    - eapply noFiles_performASTAnalysis; eauto.
    - eapply noFiles_performRegexAnalysis; eauto. }
  assert (Hsame : unusedFiles b1 = unusedFiles b2).
  { unfold findUnusedFiles in F1, F2.
    eapply (forEachM_related (fun a b => unusedFiles a = unusedFiles b));
      [|exact F1|exact F2|].
    - intros x s t w v s' t' w' v' Hs Ht Hr.
      eapply (checkFile_same_files rt c1 c2); eauto.
    - unfold noFiles in N1, N2. congruence. }
  rewrite Hsame. reflexivity.
Qed.

Lemma run_scenarioAB_lexical :
  run runtimeAB (mkConfig "src" regex_mode) filesAB = (Ok reportABlexical, []).
Proof. vm_compute. reflexivity. Qed.

Lemma unused_files_do_not_depend_on_the_strategy_witness :
  unusedFiles reportAB = unusedFiles reportABlexical.
Proof.
  apply (unused_files_do_not_depend_on_the_strategy runtimeAB
           (mkConfig "src" ast_mode) (mkConfig "src" regex_mode) filesAB
           reportAB reportABlexical [] []).
  - reflexivity.
  - exact run_scenarioAB.
  - exact run_scenarioAB_lexical.
Defined.

(** ** ast-analyzer.ts: the kind of a function-valued declaration *)

Lemma typeIs_truthy (v : value) (t : string) : typeIs v t = true -> truthy v = true.
Proof. intros H. destruct (typeIs_object v t H) as [fs [-> _]]. reflexivity. Qed.

Lemma handleFunctionDeclaration_pushes cwd node filePath r :
  definitions (handleFunctionDeclaration cwd node filePath r)
  = (definitions r ++ declaredFunction cwd filePath node)%list.
Proof.
  unfold handleFunctionDeclaration, declaredFunction, isBuiltinOrCommon,
    functionKind.
  destruct (nameOf _) as [name|]; [|rewrite app_nil_r; reflexivity].
  destruct (_ || _); [rewrite app_nil_r; reflexivity|].
  rewrite isLikelyComponent_empty_content.
  destruct (startsUpper name && isNextJsEntryPoint cwd filePath);
    destruct (isExported node); reflexivity.
Qed.

Lemma declarator_pushes cwd node filePath r declaration :
  definitions
    ((fun result declaration =>
        match nameOf (field "name" (field "id" declaration)) with
        | None => result
        | Some name =>
            if BUILT_INS_has name || isCommonPattern name then result
            else
              let line := lineOf node in
              let isExported := isExported node in
              let init := field "init" declaration in
              let result :=
                if truthy init then
                  if typeIs init "ArrowFunctionExpression"
                     || typeIs init "FunctionExpression"
                  then
                    if isLikelyComponent cwd name EmptyString filePath
                    then pushDefinition (mkDef name TComponent line) result
                    else pushDefinition (mkDef name TFunction line) result
                  else pushDefinition (mkDef name TVariable line) result
                else pushDefinition (mkDef name TVariable line) result in
              if isExported then addExport name result else result
        end) r declaration)
  = (definitions r ++ declared cwd filePath (lineOf node) declaration)%list.
Proof.
  unfold declared, isBuiltinOrCommon, functionKind, functionValued.
  destruct (nameOf _) as [name|]; [|rewrite app_nil_r; reflexivity].
  destruct (BUILT_INS_has name || isCommonPattern name);
    [rewrite app_nil_r; reflexivity|].
  cbv zeta. rewrite isLikelyComponent_empty_content.
  destruct (truthy (field "init" declaration)) eqn:Et.
  - destruct (typeIs _ "ArrowFunctionExpression" || typeIs _ "FunctionExpression");
      [destruct (startsUpper name && isNextJsEntryPoint cwd filePath)|];
      destruct (isExported node); reflexivity.
  - assert (Hf : typeIs (field "init" declaration) "ArrowFunctionExpression"
                 || typeIs (field "init" declaration) "FunctionExpression" = false).
    { apply orb_false_iff. split.
      - destruct (typeIs _ "ArrowFunctionExpression") eqn:E; [|reflexivity].
        apply typeIs_truthy in E. congruence.
      - destruct (typeIs _ "FunctionExpression") eqn:E; [|reflexivity].
        apply typeIs_truthy in E. congruence. }
    rewrite Hf. destruct (isExported node); reflexivity.
Qed.

Lemma handleVariableDeclaration_pushes cwd node filePath r :
  definitions (handleVariableDeclaration cwd node filePath r)
  = (definitions r
     ++ flat_map (declared cwd filePath (lineOf node))
                 (elements (field "declarations" node)))%list.
Proof.
  unfold handleVariableDeclaration.
  generalize (elements (field "declarations" node)) as l. intros l. revert r.
  induction l as [|b l IH]; intros r.
  - simpl. rewrite app_nil_r. reflexivity.
  - cbn [fold_left flat_map]. rewrite IH, app_assoc.
    apply (f_equal (fun x => (x ++ flat_map (declared cwd filePath (lineOf node)) l)%list)).
    exact (declarator_pushes cwd node filePath r b).
Qed.

Lemma dispatch_function cwd fuel filePath node r :
  typeIs node "FunctionDeclaration" = true ->
  dispatch cwd fuel filePath node r = handleFunctionDeclaration cwd node filePath r.
Proof.
  intros H. destruct (typeIs_object _ _ H) as [fs [-> Hty]].
  unfold dispatch, typeIs, field. rewrite Hty. reflexivity.
Qed.

Lemma dispatch_variable cwd fuel filePath node r :
  typeIs node "VariableDeclaration" = true ->
  dispatch cwd fuel filePath node r = handleVariableDeclaration cwd node filePath r.
Proof.
  intros H. destruct (typeIs_object _ _ H) as [fs [-> Hty]].
  unfold dispatch, typeIs, field. rewrite Hty. reflexivity.
Qed.

(** a step that only appends keeps the definitions it finds *)
Lemma appending_keeps F d :
  appending F -> forall r, In d (definitions r) -> In d (definitions (F r)).
Proof.
  intros HF r H. destruct (HF r) as [E _]. rewrite E.
  apply in_or_app. left. exact H.
Qed.

Lemma appending_walkFields cwd fuel filePath fs :
  appending (walkFields cwd fuel filePath fs).
Proof.
  unfold walkFields. apply appending_fold. intros b _.
  destruct (_ && _); [apply appending_traverse|apply appending_id].
Qed.

Lemma appending_walkItems cwd fuel filePath items :
  appending (walkItems cwd fuel filePath items).
Proof.
  unfold walkItems. apply appending_fold. intros b _. apply appending_traverse.
Qed.

Lemma walkFields_records cwd fuel filePath d (k : string) (v : value) :
  negb (String.eqb k "type") && negb (String.eqb k "loc") = true ->
  (forall r, In d (definitions (traverse cwd fuel v filePath r))) ->
  forall fs, In (k, v) fs ->
  forall r, In d (definitions (walkFields cwd fuel filePath fs r)).
Proof.
  intros Hk Hv fs. induction fs as [|[k0 x] fs IH]; intros Hin r.
  - contradiction.
  - destruct Hin as [Hin|Hin].
    + inversion Hin; subst. unfold walkFields. simpl. rewrite Hk.
      apply (appending_keeps (walkFields cwd fuel filePath fs) d
               (appending_walkFields cwd fuel filePath fs)).
      apply Hv.
    + unfold walkFields. simpl. apply IH. exact Hin.
Qed.

Lemma walkItems_records cwd fuel filePath d (v : value) :
  (forall r, In d (definitions (traverse cwd fuel v filePath r))) ->
  forall items, In v items ->
  forall r, In d (definitions (walkItems cwd fuel filePath items r)).
Proof.
  intros Hv items. induction items as [|x items IH]; intros Hin r.
  - contradiction.
  - destruct Hin as [Hin|Hin].
    + subst. unfold walkItems. simpl.
      apply (appending_keeps (walkItems cwd fuel filePath items) d
               (appending_walkItems cwd fuel filePath items)).
      apply Hv.
    + unfold walkItems. simpl. apply IH. exact Hin.
Qed.

(** what the walk of a node records, the walk of a tree that visits the
    node records too *)
Lemma visits_records cwd filePath d :
  forall tree node,
    visits tree node ->
    (forall fuel r, depth node <= fuel ->
                    In d (definitions (traverse cwd fuel node filePath r))) ->
    forall fuel r, depth tree <= fuel ->
                   In d (definitions (traverse cwd fuel tree filePath r)).
Proof.
  intros tree node H. induction H as [node|fs k v node Hin Hk Hv IH|items v node Hin Hv IH];
    intros Hnode fuel r Hfuel.
  - apply Hnode. exact Hfuel.
  - pose proof (depth_field fs k v Hin) as Hd.
    destruct fuel as [|fuel]; [lia|].
    rewrite traverse_object_eq.
    apply (walkFields_records cwd fuel filePath d k v Hk); auto.
    intros r0. apply IH; auto. lia.
  - pose proof (depth_item items v Hin) as Hd.
    destruct fuel as [|fuel]; [lia|].
    rewrite traverse_array_eq.
    apply (walkItems_records cwd fuel filePath d v); auto.
    intros r0. apply IH; auto. lia.
Qed.

Lemma declaration_records cwd filePath node d :
  (typeIs node "FunctionDeclaration" = true
   /\ In d (declaredFunction cwd filePath node))
  \/ (typeIs node "VariableDeclaration" = true
      /\ In d (flat_map (declared cwd filePath (lineOf node))
                        (elements (field "declarations" node)))) ->
  forall fuel r, depth node <= fuel ->
                 In d (definitions (traverse cwd fuel node filePath r)).
Proof.
  intros H fuel r Hfuel.
  assert (Hobj : exists fs, node = VObj fs).
  { destruct H as [[H _]|[H _]]; destruct (typeIs_object _ _ H) as [fs [-> _]];
      eauto. }
  destruct Hobj as [fs ->].
  destruct fuel as [|fuel]; [simpl in Hfuel; lia|].
  rewrite traverse_object_eq.
  apply (appending_keeps (walkFields cwd fuel filePath fs) d
           (appending_walkFields cwd fuel filePath fs)).
  destruct H as [[Ht Hd]|[Ht Hd]].
  - rewrite dispatch_function by exact Ht.
    rewrite handleFunctionDeclaration_pushes. apply in_or_app. right. exact Hd.
  - rewrite dispatch_variable by exact Ht.
    rewrite handleVariableDeclaration_pushes. apply in_or_app. right. exact Hd.
Qed.

(** C10. The structural strategy calls the component heuristic with the
    empty content, so the heuristic answers by the name and the path alone.
    A function declaration, and a declarator whose initial value is an arrow
    function or a function expression, is recorded as a component when its
    name starts with an upper-case letter and its file is an entry point,
    and as a function otherwise: this is what the two handlers push, it is
    recorded for every declaration that the walk of a parsed file visits,
    and every component or function recorded for a file is of the kind that
    its name and the path give. The content of the file enters nowhere. *)
Theorem structural_classification :
  forall (rt : runtime),
    (forall name filePath,
        isLikelyComponent (cwd rt) name EmptyString filePath
        = startsUpper name && isNextJsEntryPoint (cwd rt) filePath)
    /\ (forall node filePath r,
          definitions (handleFunctionDeclaration (cwd rt) node filePath r)
          = (definitions r ++ declaredFunction (cwd rt) filePath node)%list)
    /\ (forall node filePath r,
          definitions (handleVariableDeclaration (cwd rt) node filePath r)
          = (definitions r
             ++ flat_map (declared (cwd rt) filePath (lineOf node))
                         (elements (field "declarations" node)))%list)
    /\ (forall filePath content tree w node d,
          readFileSync rt filePath = Some content ->
          parseFile rt filePath content = Some tree ->
          visits tree node ->
          (typeIs node "FunctionDeclaration" = true
           /\ In d (declaredFunction (cwd rt) filePath node))
          \/ (typeIs node "VariableDeclaration" = true
              /\ In d (flat_map (declared (cwd rt) filePath (lineOf node))
                                (elements (field "declarations" node)))) ->
          exists r,
            ASTAnalyzer.analyzeFile rt filePath w = (Ok r, w)
            /\ In d (definitions r))
    /\ (forall filePath w r w' d,
          ASTAnalyzer.analyzeFile rt filePath w = (Ok r, w') ->
          In d (definitions r) ->
          def_type d = TComponent \/ def_type d = TFunction ->
          (def_type d = TComponent <->
           startsUpper (def_name d) = true
           /\ isNextJsEntryPoint (cwd rt) filePath = true)).
Proof.
  intros rt. split; [|split; [|split; [|split]]].
  - intros name filePath. apply isLikelyComponent_empty_content.
  - intros node filePath r. apply handleFunctionDeclaration_pushes.
  - intros node filePath r. apply handleVariableDeclaration_pushes.
  - intros filePath content tree w node d Hread Hparse Hvisits Hd.
    unfold ASTAnalyzer.analyzeFile, readFile, bind, ret.
    rewrite Hread, Hparse. eexists. split; [reflexivity|].
    unfold traverseAST.
    apply (visits_records (cwd rt) filePath d tree node Hvisits); [|apply le_n].
    apply declaration_records. exact Hd.
  - intros filePath w r w' d.
    unfold ASTAnalyzer.analyzeFile, readFile, bind, ret, warn, throw.
    destruct (readFileSync rt filePath) as [content|]; [|discriminate].
    destruct (parseFile rt filePath content) as [tree|]; intros H;
      inversion H; subst; [|intros []].
    intros Hd Hkind.
    assert (Hc : classified (cwd rt) filePath d).
    { apply (allClassified_traverse (cwd rt) filePath (depth tree) tree emptyResult);
        [intros x []|exact Hd]. }
    destruct Hc as [Hc Hf]. rewrite <- andb_true_iff. split; auto.
    intros Hup. destruct Hkind as [Hk|Hk]; auto.
    rewrite (Hf Hk) in Hup. discriminate.
Qed.

Lemma structural_classification_witness :
  (exists r,
      ASTAnalyzer.analyzeFile runtimeKinds "src/Button.jsx" [] = (Ok r, [])
      /\ In (mkDef "Button" TFunction 1) (definitions r))
  /\ (exists r,
        ASTAnalyzer.analyzeFile runtimeKinds "src/app/page.tsx" [] = (Ok r, [])
        /\ In (mkDef "Widget" TComponent 1) (definitions r))
  /\ isLikelyComponent (cwd runtimeKinds) "Button" contentButton "src/Button.jsx"
     = true.
Proof.
  destruct (structural_classification runtimeKinds) as [_ [_ [_ [H _]]]].
  split; [|split].
  - apply (H "src/Button.jsx" contentButton treeButton [] nodeButton
             (mkDef "Button" TFunction 1)).
    + reflexivity.
    + reflexivity.
    + apply (visits_field _ "program" (field "program" treeButton));
        [right; right; left; reflexivity|reflexivity|].
      apply (visits_field _ "body" (VArr [nodeButton]));
        [right; right; right; left; reflexivity|reflexivity|].
      apply (visits_item _ nodeButton); [left; reflexivity|].
      apply visits_here.
    + left. split; [reflexivity|]. vm_compute. left. reflexivity.
  - apply (H "src/app/page.tsx" contentWidget treeWidget [] nodeWidget
             (mkDef "Widget" TComponent 1)).
    + reflexivity.
    + reflexivity.
    + apply (visits_field _ "body" (VArr [nodeWidget]));
        [right; left; reflexivity|reflexivity|].
      apply (visits_item _ nodeWidget); [left; reflexivity|].
      apply visits_here.
    + right. split; [reflexivity|]. vm_compute. left. reflexivity.
  - vm_compute. reflexivity.
Defined.

(** ** analyzer.ts: the names a report gives *)

Lemma reportFiltered_pushIssue (issue : CodeIssue) (a : AnalysisResults) :
  isBuiltinOrCommon (issue_name issue) = false ->
  reportFiltered a -> reportFiltered (pushIssue issue a).
Proof.
  intros Hi Ha n. unfold reportedNames, pushIssue.
  destruct (issue_type issue); simpl; try apply Ha;
    rewrite !map_app, !in_app_iff; simpl; intros H;
    repeat match goal with
           | H : _ \/ _ |- _ => destruct H as [H|H]
           | H : False |- _ => contradiction
           end;
    try (subst n; exact Hi);
    apply Ha; unfold reportedNames; rewrite !map_app, !in_app_iff; auto 10.
Qed.

Lemma reportFiltered_empty : reportFiltered emptyAnalysis.
Proof. intros n []. Qed.

Lemma checkUnusedDefinitions_names rt usageMap definitions filePath content
  a w a' w' :
  filteredFD definitions ->
  checkUnusedDefinitions rt usageMap definitions filePath content a w
  = (Ok a', w') ->
  reportFiltered a -> reportFiltered a'.
Proof.
  intros Hfd.
  assert (Hname : forall x, In x (definedNames definitions) ->
                            forall t l b,
                              reportFiltered b ->
                              reportFiltered (pushIssue (mkIssue x filePath t l) b)).
  { intros x Hx t l b Hb. apply reportFiltered_pushIssue; auto. }
  unfold checkUnusedDefinitions, bind.
  destruct (forEachM _ (fd_components definitions) a w) as [[a1| |] w1] eqn:E1;
    try discriminate.
  destruct (forEachM _ (fd_functions definitions) a1 w1) as [[a2| |] w2] eqn:E2;
    try discriminate.
  destruct (forEachM _ (fd_variables definitions) a2 w2) as [[a3| |] w3] eqn:E3;
    try discriminate.
  intros E4 Ha.
  assert (H1 : reportFiltered a1).
  { eapply (forEachM_invariant_in reportFiltered); [|exact E1|exact Ha].
    intros x s w0 s' w0' Hx Hs Hn. unfold bind, ret in Hs.
    assert (Hd : In x (definedNames definitions))
      by (unfold definedNames; rewrite !in_app_iff; auto).
    destruct (isUsed rt usageMap definitions filePath content x w0)
      as [[[|]| |] wu]; inversion Hs; subst; auto. }
  assert (H2 : reportFiltered a2).
  { eapply (forEachM_invariant_in reportFiltered); [|exact E2|exact H1].
    intros x s w0 s' w0' Hx Hs Hn. unfold bind, ret in Hs.
    assert (Hd : In x (definedNames definitions))
      by (unfold definedNames; rewrite !in_app_iff; auto).
    destruct (isUsed rt usageMap definitions filePath content x w0)
      as [[[|]| |] wu]; simpl in Hs; try (inversion Hs; subst; auto; fail).
    destruct (compile rt _ wu) as [[re| |] wc]; try discriminate.
    destruct (negb (test re content)); inversion Hs; subst; auto. }
  assert (H3 : reportFiltered a3).
  { eapply (forEachM_invariant_in reportFiltered); [|exact E3|exact H2].
    intros x s w0 s' w0' Hx Hs Hn. unfold bind, ret in Hs.
    assert (Hd : In x (definedNames definitions))
      by (unfold definedNames; rewrite !in_app_iff; auto).
    destruct (isUsed rt usageMap definitions filePath content x w0)
      as [[[|]| |] wu]; inversion Hs; subst; auto. }
  eapply (forEachM_invariant_in reportFiltered); [|exact E4|exact H3].
  intros x s w0 s' w0' Hx Hs Hn. unfold ret in Hs.
  assert (Hd : In x (definedNames definitions))
    by (unfold definedNames; rewrite !in_app_iff; auto).
  match type of Hs with
  | (if ?c then _ else _) _ = _ => destruct c
  end; inversion Hs; subst; auto.
Qed.

Lemma performRegexAnalysis_names rt config allFiles a w a' w' :
  performRegexAnalysis rt config allFiles a w = (Ok a', w') ->
  reportFiltered a -> reportFiltered a'.
Proof.
  unfold performRegexAnalysis, bind.
  destruct (buildUsageMap rt config allFiles w) as [[um| |] w1]; try discriminate.
  intros H Ha.
  eapply (forEachM_invariant reportFiltered); [|exact H|exact Ha].
  intros x s w0 s' w0' Hs Hn.
  unfold DeadCodeAnalyzer.analyzeFile, bind, readFile, ret, throw, terminating in Hs.
  destruct (readFileSync rt x) as [content|]; [|discriminate].
  destruct (extractDefinitions rt content x) as [d|] eqn:Ed; [|discriminate].
  eapply checkUnusedDefinitions_names; eauto.
  eapply filteredFD_extractDefinitions; eauto.
Qed.

Lemma analyzeFile_plain (rt : runtime) :
  (forall content tree, tsParse rt content = Some tree ->
                        namesPlain tree = true) ->
  (forall content tree, babelParse rt content = Some tree ->
                        namesPlain tree = true) ->
  forall filePath w r w',
    ASTAnalyzer.analyzeFile rt filePath w = (Ok r, w') -> plainDefs r.
Proof.
  intros Hts Hbabel filePath w r w'.
  unfold ASTAnalyzer.analyzeFile, readFile, bind, ret, warn, throw.
  destruct (readFileSync rt filePath) as [content|]; [|discriminate].
  destruct (parseFile rt filePath content) as [tree|] eqn:E; intros H;
    inversion H; subst.
  - unfold traverseAST. apply plainDefs_traverse; [|intros d []].
    unfold parseFile in E. destruct (_ || _); eauto.
  - intros d [].
Qed.

Lemma allKeyed_collect (rt : runtime) (files : list string) (file : string)
  (r : ASTAnalysisResult) (acc : AllFiles) :
  In file files -> filtered r -> plainDefs r ->
  allKeyed rt files acc ->
  allKeyed rt files (collect (Path.relative (cwd rt) (cwd rt) file) r acc).
Proof.
  intros Hfile Hr Hplain Hacc key defs d Hin Hd. unfold collect in *.
  simpl in *.
  destruct (fold_mapPush_entries
              (fun def => Path.relative (cwd rt) (cwd rt) file ++ ":"
                          ++ def_name def)
              (fun def => def)
              _ _ _ _ _ Hin Hd) as [[vs0 [H0 Hx0]]|[b [Hb [Hk Hv]]]].
  - exact (Hacc _ _ _ H0 Hx0).
  - subst b. exists file. repeat split; auto.
    apply filtered_parts in Hr. destruct Hr as [Hdefs _]. auto.
Qed.

Lemma analyzeAllFiles_keyed (rt : runtime) :
  (forall content tree, tsParse rt content = Some tree ->
                        namesPlain tree = true) ->
  (forall content tree, babelParse rt content = Some tree ->
                        namesPlain tree = true) ->
  forall files w all w',
    analyzeAllFiles rt files w = (Ok all, w') -> allKeyed rt files all.
Proof.
  intros Hts Hbabel files w all w' Hrun. unfold analyzeAllFiles in Hrun.
  eapply (forEachM_invariant_in (allKeyed rt files) (analyzeStep rt));
    [|exact Hrun|].
  - intros x s w0 s' w0' Hx Hstep Hs. unfold analyzeStep, bind, ret in Hstep.
    destruct (ASTAnalyzer.analyzeFile rt x w0) as [[r| |] w1] eqn:E;
      try discriminate.
    inversion Hstep; subst.
    apply allKeyed_collect; auto.
    + eapply filtered_analyzeFile; eauto.
    + eapply analyzeFile_plain; eauto.
  - intros key defs d [].
Qed.

Lemma reportDefinition_names (rt : runtime) (files : list string)
  (all : AllFiles) :
  (forall file, In file files ->
                JS.includes (Path.relative (cwd rt) (cwd rt) file) ":" = false) ->
  allKeyed rt files all ->
  forall key defs d analysis,
    In (key, defs) (all_definitions all) -> In d defs ->
    reportFiltered analysis ->
    reportFiltered (reportDefinition (all_usages all) key d analysis).
Proof.
  intros Hpaths Hall key defs d analysis Hin Hd Ha.
  destruct (Hall _ _ _ Hin Hd) as [file [Hfile [Hkey [Hplain Hok]]]].
  unfold reportDefinition. rewrite Hkey.
  rewrite split_key; auto. simpl List.nth.
  destruct (negb _); auto.
  apply reportFiltered_pushIssue; auto.
Qed.

Lemma performASTAnalysis_names (rt : runtime) (allFiles : list string) a w a' w' :
  (forall content tree, tsParse rt content = Some tree ->
                        namesPlain tree = true) ->
  (forall content tree, babelParse rt content = Some tree ->
                        namesPlain tree = true) ->
  (forall file, In file allFiles ->
                JS.includes (Path.relative (cwd rt) (cwd rt) file) ":" = false) ->
  performASTAnalysis rt allFiles a w = (Ok a', w') ->
  reportFiltered a -> reportFiltered a'.
Proof.
  intros Hts Hbabel Hpaths. unfold performASTAnalysis, bind, ret.
  destruct (analyzeAllFiles rt allFiles w) as [[all| |] wa] eqn:Ea;
    try discriminate.
  intros H Ha. inversion H; subst. clear H.
  pose proof (analyzeAllFiles_keyed rt Hts Hbabel _ _ _ _ Ea) as Hall.
  apply (fold_left_invariant reportFiltered); [|exact Ha].
  intros a0 [key defs] Hin Ha0. simpl.
  apply (fold_left_invariant reportFiltered); [|exact Ha0].
  intros a1 d Hd Ha1.
  eapply reportDefinition_names; eauto.
Qed.

(** what the detector of unused files and the report leave of the names *)
Lemma run_names (rt : runtime) (config : AnalyzerConfig)
  (allFiles : list string) (r : AnalysisResults) (w : list warning) :
  (forall a v a' v',
      match mode config with
      | ast_mode => performASTAnalysis rt allFiles a v
      | regex_mode => performRegexAnalysis rt config allFiles a v
      end = (Ok a', v') ->
      reportFiltered a -> reportFiltered a') ->
  run rt config allFiles = (Ok r, w) -> reportFiltered r.
Proof.
  intros Hanalysis. unfold run, findDeadCode, bind, ret.
  destruct (match mode config with
            | ast_mode => performASTAnalysis rt allFiles emptyAnalysis
            | regex_mode => performRegexAnalysis rt config allFiles emptyAnalysis
            end []) as [[a1| |] w1] eqn:E1; try discriminate.
  destruct (findUnusedFiles rt config allFiles a1 w1) as [[a2| |] w2] eqn:E2;
    try discriminate.
  intros H. inversion H; subst. clear H.
  assert (H1 : reportFiltered a1).
  { apply (Hanalysis emptyAnalysis [] a1 w1); [|apply reportFiltered_empty].
    destruct (mode config); exact E1. }
  assert (H2 : reportFiltered a2).
  { apply (findUnusedFiles_invariant reportFiltered (fun f a Ha => Ha)
             rt config allFiles _ _ _ _ E2). exact H1. }
  exact H2.
Qed.

Lemma run_scenarioColon :
  run runtimeColon (mkConfig "src" ast_mode) filesColon = (Ok reportColon, []).
Proof. vm_compute. reflexivity. Qed.

(** C2, on the code. A name that is in the built-in table or passes the
    common-pattern test is in no list of definitions or usages that either
    strategy records: not in the result of the structural analysis of a
    file, not in the definitions, the keys of the map of the usages, the
    exports and the imports of the structural analysis of a file set, not in
    the usage map of the lexical strategy and not in the sets of definitions
    it extracts from a file. The lexical strategy reports no issue under
    such a name, and neither does the structural one as long as no name of a
    tree and no relative path of a file holds a colon.

    With a colon in the path of a file the structural strategy does report
    such a name: [performASTAnalysis] splits the key of a definition at its
    colons and takes the second piece for the name, so the function [foo] of
    the file src/a:React:b.js is reported as the unused function [React] of
    the file src/a.

    The usages that are recorded need not carry a name at all: a token of
    the tree of @typescript-eslint/parser has the type [Identifier] and no
    name, and it passes both filters. *)
Theorem builtin_name_can_be_reported :
  (forall (rt : runtime) (config : AnalyzerConfig) (name : string),
      isBuiltinOrCommon name = true ->
      (forall filePath w r w',
          ASTAnalyzer.analyzeFile rt filePath w = (Ok r, w') ->
          ~ In (VStr name) (recordedNames r))
      /\ (forall files w all w',
            analyzeAllFiles rt files w = (Ok all, w') ->
            ~ In (VStr name) (indexedNames all))
      /\ (forall files w usageMap w',
            buildUsageMap rt config files w = (Ok usageMap, w') ->
            ~ In name (List.map fst usageMap))
      /\ (forall content filePath definitions,
            extractDefinitions rt content filePath = Some definitions ->
            ~ In name (definedNames definitions))
      /\ (forall allFiles r w,
            mode config = regex_mode ->
            run rt config allFiles = (Ok r, w) ->
            ~ In name (reportedNames r))
      /\ (forall allFiles r w,
            (forall content tree, tsParse rt content = Some tree ->
                                  namesPlain tree = true) ->
            (forall content tree, babelParse rt content = Some tree ->
                                  namesPlain tree = true) ->
            (forall file, In file allFiles ->
                          JS.includes (Path.relative (cwd rt) (cwd rt) file) ":"
                          = false) ->
            mode config = ast_mode ->
            run rt config allFiles = (Ok r, w) ->
            ~ In name (reportedNames r)))
  /\ isBuiltinOrCommon "React" = true
  /\ run runtimeColon (mkConfig "src" ast_mode) filesColon = (Ok reportColon, [])
  /\ In (mkIssue "React" "src/a" TFunction (Some 1)) (unusedFunctions reportColon)
  /\ In "React" (reportedNames reportColon)
  /\ (exists r,
        ASTAnalyzer.analyzeFile runtimeKinds "src/app/page.tsx" [] = (Ok r, [])
        /\ In (mkUsage VNull 1 "reference") (usages r)).
Proof.
  split; [|split; [|split; [|split; [|split]]]].
  - intros rt config name Hname. repeat split.
    + intros filePath w r w' H Hin.
      apply filtered_analyzeFile in H. apply H in Hin. congruence.
    + intros files w all w' H Hin.
      apply filteredAll_analyzeAllFiles in H. apply H in Hin. congruence.
    + intros files w um w' H Hin.
      apply filteredKeys_buildUsageMap in H. apply H in Hin. congruence.
    + intros content filePath d H Hin.
      apply filteredFD_extractDefinitions in H. apply H in Hin. congruence.
    + intros allFiles r w Hmode Hrun Hin.
      assert (H : reportFiltered r).
      { apply (run_names rt config allFiles r w); [|exact Hrun].
        rewrite Hmode. intros a v a' v'. apply performRegexAnalysis_names. }
      apply H in Hin. congruence.
    + intros allFiles r w Hts Hbabel Hpaths Hmode Hrun Hin.
      assert (H : reportFiltered r).
      { apply (run_names rt config allFiles r w); [|exact Hrun].
        rewrite Hmode. intros a v a' v'.
        apply performASTAnalysis_names; auto. }
      apply H in Hin. congruence.
  - vm_compute. reflexivity.
  - exact run_scenarioColon.
  - vm_compute. auto.
  - vm_compute. auto.
  - eexists. split; [vm_compute; reflexivity|]. vm_compute. auto.
Qed.

Lemma treesAB_plain (content : string) (tree : value) :
  tableGet [(contentA, treeA); (contentB, treeB)] content = Some tree ->
  namesPlain tree = true.
Proof.
  cbn [tableGet].
  destruct (String.eqb contentA content); [intros H; inversion H; reflexivity|].
  destruct (String.eqb contentB content); intros H; inversion H.
  reflexivity.
Qed.

Lemma builtin_name_can_be_reported_witness :
  ~ In "React" (reportedNames reportAB).
Proof.
  destruct builtin_name_can_be_reported as [H _].
  destruct (H runtimeAB (mkConfig "src" ast_mode) "React")
    as [_ [_ [_ [_ [_ H6]]]]]; [vm_compute; reflexivity|].
  apply (H6 filesAB reportAB [] treesAB_plain treesAB_plain).
  - intros file [<-|[<-|[]]]; vm_compute; reflexivity.
  - reflexivity.
  - exact run_scenarioAB.
Defined.
